(* ===== verification/_CoqProject ===== *)
-Q . S2P
Prelude.v
Strconv.v
ApiTypes.v
Effects.v
External.v
Samples.v
Metrics.v
Metadata.v
ConfigLifecycle.v
Robin.v
ScaleZero.v
Reconciler.v
Bounds.v
Validation.v
Server.v
Convergence.v
ZeroConvergence.v
Bookkeeping.v
System.v
Interleaving.v
Scenarios.v
MainCmd.v
Heap.v
DeepCopy.v
Startup.v
