(* ===== verification/Prelude.v ===== *)
(** * Redkey operator: a verification development

    The Redkey operator is a Kubernetes controller. For each Redkey resource (a
    Redis cluster) it keeps a process called Robin running next to the cluster and
    hands it a sequence of RedkeyConfig resources, one for each generation of the
    Redkey's spec; Robin does the work on the data plane and reports on the config
    it is applying, and the operator copies that report into the Redkey's status.

    ** The parts and where they are modelled

    - [Prelude] (this file): Go maps, machine integers, [sort.Slice] as an
      interface, tactics, hint databases and generic lemmas.
    - [Strconv]: [strconv.FormatInt] and [ParseInt] and the names
      "<cluster>-<sequence>".
    - [ApiTypes]: src/api/v1beta1/redkey_types.go and redkeyconfig_types.go. Every
      struct is a record with the fields of the source, constants and methods
      included. Kubernetes types that are only passed through are carriers of the
      class [K8sTypes].
    - [Effects]: the operator's interaction with the world. A program is a tree of
      calls ([Get], [ListConfigs], [Create], [Patch], [Delete], [UpdateStatus] and
      readings of the clock); the state of the process (metric trackers) is passed
      along; errors are values of a sum. [exec m s tr s' a] says that [m] can run
      with the calls and answers in [tr], for whatever answers; [run] runs against a
      given server.
    - [External]: code that is not in the repository, as the class [Deps] of
      functions (condition helpers, semantic equality, owner references,
      [RetryOnConflict] and its number of steps) and the class [DepsSpec] of what their
      documentation says; one implementation, [Simple], that satisfies the class.
    - [Samples]: concrete objects and servers for witnesses; models no code.
    - [Metrics]: src/internal/controller/metrics.go.
    - [Metadata]: the pure helpers of redkey_robin.go on labels, annotations and
      environment variables.
    - [ConfigLifecycle]: src/internal/controller/redkey_config.go.
    - [Robin]: the RBAC objects and the Deployment of redkey_robin.go.
    - [ScaleZero]: src/internal/controller/redkey_scale_zero.go.
    - [Reconciler]: [Reconcile], [SetupWithManager] and [controllerOptions] of
      src/internal/controller/redkey_controller.go.
    - [Validation]: the CEL rules in the validation markers of redkey_types.go, and
      the life of a Redkey as a step relation of admitted user updates and the
      operator's status updates.
    - [Server]: Hoare triples for programs run against a server, the class
      [KubeServer] of what the API promises, and an in-memory server that keeps it.
    - [Convergence]: the class [KubeStore] of servers that store what they are sent,
      perhaps completed with defaults, and what repeated reconciles leave there.
    - [ZeroConvergence]: the same for a Redkey without primaries, with Robin as the
      other actor.
    - [Bookkeeping]: histories of reconciles with any outcome, edits, reports and
      changes elsewhere on such a server: what one reconcile does to configs and status,
      and the invariants that follow.
    - [Bounds]: how many API calls each operation makes, as budgets that a listing of
      configs refills.
    - [System]: the store, reconciles under way, users, Robin and the garbage collector
      as a transition system whose steps are single API calls; the life of one Redkey
      as its abstract specification.
    - [Interleaving]: what holds in every reachable state of that system.
    - [Scenarios]: whole runs of the operator computed against that server.
    - [MainCmd]: the flags and the set-up computed by [main] of src/cmd/main.go.
    - [Startup]: the package initialisers (of src/api/v1beta1/groupversion_info.go,
      metrics.go and main.go) and [main] as a program of calls that may fail.
    - [Heap], [DeepCopy]: src/api/v1beta1/zz_generated.deepcopy.go on a heap with
      addresses, the only part of the program whose point is what is not shared.

    Each operation of the source is one definition of the same name; parts of long
    functions have names of their own, and the calls are in the order of the
    source. A pointer is an option, a nil map is [None] and an empty one [Some ∅], a
    nil and an empty slice are both the empty list. Log output is left out.

    ** What the theorems show

    - Whatever the API server answers, a reconcile stays within the objects of its
      own Redkey and counts each failure once under the stage that failed
      ([Reconciler]).
    - Configs: sequence order and unique names, that a config carries the cluster's
      spec field by field, the generation annotation as a round trip, exactly what
      cleanup deletes, what aggregation writes and from which config, and the table of
      phases and conditions ([ConfigLifecycle]).
    - Robin's objects: what success establishes, which objects can be touched at
      all, idempotence, exactness of drift detection and convergence of patches, and
      that overrides cannot detach Robin from its cluster ([Robin], [Metadata]).
    - Scaling to zero: nothing is removed before Robin has finished, the order of
      the teardown and its stop at the first failure, that a completed teardown leaves
      nothing behind ([ScaleZero], [Server]), and that Robin is asked to stop once
      ([Bookkeeping]).
    - Against a server without other actors reconciling converges: after one that
      succeeded, Robin's objects are in sync, the newest config is the one for the
      observed generation, and further ones write nothing but the status
      ([Convergence]).
    - From the creation of a Redkey on, through any history: a generation counts as
      observed only when the newest config was made for it from the spec as it stands,
      and with primaries one reconcile that succeeds settles everything. The hypotheses
      of [Convergence] on configs and generations are part of the invariant
      ([Bookkeeping]).
    - So does scaling to zero: whatever has failed on the way, a reconcile that
      succeeds, Robin applying the newest config and another one that succeeds leave
      nothing but the Redkey ([ZeroConvergence]).
    - Admission: storage identity never changes and a scale-up from zero restores
      the recorded topology ([Validation]).
    - Metrics: gauges as state sets, operations counted when they end, transitions
      into Ready reported once ([Metrics]).
    - The running system refines the lives of its Redkeys, whatever the interleaving,
      the failures and the staleness of reads; from that follow the topology lock
      under concurrency, that every config is a snapshot of one version of its Redkey
      and that the observed generation is never ahead ([Interleaving]).
    - A reconcile ends against every server, after a number of calls bounded by the
      retries and the configs listed ([Bounds]).
    - Every generated copy function is total on well-typed values and copies deeply;
      an object of the cache and the operator's copy are isolated ([DeepCopy]).
    - Start-up stops at the first failure and starts the manager last ([Startup],
      [MainCmd]).
    - [Scenarios] also contains runs in which the code does not do what its comments
      say: a stale cache that loses a generation for good, a topology that is not
      recorded before a scale to zero (for all runs in [Bookkeeping]), and a Robin that a
      scale to zero leaves running because the cluster never got a config;
      [Interleaving] ends with one in which a Redkey
      deleted and created again during a reconcile shows an observed generation that
      is ahead, until the next reconcile.

    ** Bounds

    All definitions are total. The only loop of the source that is not over a list is
    [RetryOnConflict], of which the documentation promises that it ends within the steps
    of [retry.DefaultRetry]. Fuel is used once: [trim_left] removes white space for at
    most as many rounds as the string has bytes, and each round that goes on removes at
    least one. Integers are [Z]; the wrap-around of int32 and int (64
    bits) is written out where the source computes with them.

    ** What is not modelled

    Log output, parsing of the command line (the flag package), the manager's own run
    (controller-runtime), the test frameworks, and Robin itself, which lives in another
    repository: it takes part in [System] as an actor that may change the status of any
    config in any way. Each critical section of the metric trackers is one step;
    reconciles of the same Redkey do not overlap, as controller-runtime guarantees.
    Outside [Heap] and [DeepCopy] structs, slices and maps are values: the operator
    changes only objects it decoded, built or copied itself.

    ** Plan

    Next: liveness of the running system of [System] under fairness of Robin and of
    the API server, and the histories of [Bookkeeping] with calls interleaved. *)

From stdpp Require Export base gmap strings list pretty sorting.

(** ** Scopes *)

Declare Scope go_scope.
Delimit Scope go_scope with go.

(** ** Go maps with string keys

    A Go [map[string]V] is either nil or a finite map: [None] is the nil map.
    Reading a nil map is allowed and finds nothing. *)

Abbreviation GoMap V := (option (gmap string V)).

(** The entries of a map; the nil map has none. *)
Definition entries {V} (m : GoMap V) : gmap string V :=
  match m with Some g => g | None => ∅ end.

(** [m[k]] with the comma-ok form. *)
Definition map_get {V} (m : GoMap V) (k : string) : option V := entries m !! k.

(** [m[k]] on a [map[string]string]: the zero value is the empty string. *)
Definition map_index (m : GoMap string) (k : string) : string :=
  match map_get m k with Some v => v | None => "" end.

(** [len(m)] *)
Definition map_len {V} (m : GoMap V) : nat := size (entries m).

(** [maps.Copy(dst, src)] on a non-nil destination: entries of [src] win. *)
Definition maps_Copy {V} (dst src : gmap string V) : gmap string V := src ∪ dst.

(** ** Machine integers

    Go's [int32], [int64] and (on the operator's 64-bit targets) [int] are
    signed two's-complement integers; arithmetic wraps around. *)

Definition wrap (w z : Z) : Z := ((z + 2 ^ (w - 1)) `mod` 2 ^ w - 2 ^ (w - 1))%Z.
Definition wrap32 : Z → Z := wrap 32.
Definition wrap64 : Z → Z := wrap 64.
Definition in_int32 (z : Z) : Prop := (- 2 ^ 31 ≤ z < 2 ^ 31)%Z.
Definition in_int64 (z : Z) : Prop := (- 2 ^ 63 ≤ z < 2 ^ 63)%Z.

(** ** Slices *)

(** [&s[len(s)-1]], when the slice is not empty. *)
Definition slice_last {A} (l : list A) : option A := last l.

(** [sort.Slice] is not stable and its algorithm is unspecified, so it is an
    interface: any function that permutes the slice and leaves it ordered by a
    [less] which compares an integer key. *)
Class SortSlice := sort_slice : ∀ {A : Type} (key : A → Z), list A → list A.

Definition key_le {A} (key : A → Z) : relation A := λ a b, (key a ≤ key b)%Z.

#[export] Instance key_le_dec {A} (key : A → Z) : RelDecision (key_le key) :=
  λ a b, Z.le_dec (key a) (key b).

Class SortSliceSpec `{SortSlice} : Prop := {
  sort_slice_perm : ∀ {A} (key : A → Z) (l : list A), sort_slice key l ≡ₚ l;
  sort_slice_sorted : ∀ {A} (key : A → Z) (l : list A),
    StronglySorted (key_le key) (sort_slice key l) }.

(** ** Tactics and hint databases *)

Create HintDb redkey discriminated.
Create Rewrite HintDb redkey_simp.

(** Case analysis on every match scrutinee in the goal, closing what is trivial. *)
Ltac crush_match :=
  repeat (case_match; simplify_eq/=; try done).

(** Membership in an explicit list. *)
Ltac in_list := solve [ repeat first [ left | right ] ].

(** Case analysis on the boolean comparisons of strings and integers. *)
Ltac bool_cases :=
  repeat match goal with
  | H : context [bool_decide ?P] |- _ => destruct (bool_decide_reflect P)
  | |- context [bool_decide ?P] => destruct (bool_decide_reflect P)
  end; simplify_eq/=.

(** ** Lemmas on maps *)

Lemma map_get_Some {V} (g : gmap string V) k : map_get (Some g) k = g !! k.
Proof. done. Qed.

Lemma map_get_None {V} k : map_get (None : GoMap V) k = None.
Proof. unfold map_get. simpl. apply lookup_empty. Qed.

Lemma lookup_maps_Copy {V} (dst src : gmap string V) k :
  maps_Copy dst src !! k = match src !! k with Some v => Some v | None => dst !! k end.
Proof.
  unfold maps_Copy. rewrite lookup_union.
  by destruct (src !! k), (dst !! k).
Qed.

#[export] Hint Rewrite @map_get_Some @map_get_None @lookup_maps_Copy : redkey_simp.

(** ** Lemmas on machine integers *)

Lemma wrap_id w z : (0 < w)%Z → (- 2 ^ (w - 1) ≤ z < 2 ^ (w - 1))%Z → wrap w z = z.
Proof.
  intros Hw Hz. unfold wrap.
  assert (2 ^ w = 2 * 2 ^ (w - 1))%Z as Hp.
  { rewrite <-Z.pow_succ_r by lia. f_equal; lia. }
  rewrite Z.mod_small; lia.
Qed.

Lemma wrap_range w z : (0 < w)%Z → (- 2 ^ (w - 1) ≤ wrap w z < 2 ^ (w - 1))%Z.
Proof.
  intros Hw. unfold wrap.
  assert (2 ^ w = 2 * 2 ^ (w - 1))%Z as Hp.
  { rewrite <-Z.pow_succ_r by lia. f_equal; lia. }
  assert (0 < 2 ^ w)%Z by (apply Z.pow_pos_nonneg; lia).
  pose proof (Z.mod_pos_bound (z + 2 ^ (w - 1)) (2 ^ w)). lia.
Qed.

Lemma wrap32_id z : in_int32 z → wrap32 z = z.
Proof. intros. apply wrap_id; [lia|]. exact H. Qed.

Lemma wrap64_id z : in_int64 z → wrap64 z = z.
Proof. intros. apply wrap_id; [lia|]. exact H. Qed.

Lemma wrap32_range z : in_int32 (wrap32 z).
Proof. exact (wrap_range 32 z ltac:(lia)). Qed.

(** Wrapping a summand early makes no difference. *)
Lemma wrap_add_wrap w a b : (0 < w)%Z → wrap w (a + wrap w b) = wrap w (a + b).
Proof.
  intros Hw. unfold wrap. f_equal.
  replace (a + ((b + 2 ^ (w - 1)) `mod` 2 ^ w - 2 ^ (w - 1)) + 2 ^ (w - 1))%Z
    with (a + (b + 2 ^ (w - 1)) `mod` 2 ^ w)%Z by lia.
  rewrite Zplus_mod_idemp_r. f_equal. lia.
Qed.

#[export] Hint Resolve wrap32_range : redkey.

(** ** Lemmas on lists *)

Lemma last_is_Some {A} (l : list A) : l ≠ [] → is_Some (last l).
Proof. intros Hl. destruct (last l) eqn:E; [eauto|]. by apply last_None in E. Qed.

Lemma last_max {A} (key : A → Z) (l : list A) x y :
  StronglySorted (key_le key) l → last l = Some x → y ∈ l → (key y ≤ key x)%Z.
Proof.
  intros Hs Hx Hy. apply last_Some in Hx as [l' ->].
  apply elem_of_app in Hy as [Hy|Hy].
  - apply (StronglySorted_app_1_elem_of (key_le key) l' [x]); set_solver.
  - apply list_elem_of_singleton in Hy as ->. reflexivity.
Qed.

Lemma StronglySorted_suffix {A} (R : relation A) (l l' : list A) :
  l' `suffix_of` l → StronglySorted R l → StronglySorted R l'.
Proof. intros [k ->]. apply StronglySorted_app_1_r. Qed.

Lemma drop_suffix {A} n (l : list A) : drop n l `suffix_of` l.
Proof. exists (take n l). by rewrite take_drop. Qed.

Lemma elem_of_concat {A} (x : A) (ls : list (list A)) : x ∈ concat ls ↔ ∃ l, x ∈ l ∧ l ∈ ls.
Proof. rewrite list_elem_of_In, in_concat. setoid_rewrite list_elem_of_In. naive_solver. Qed.
