(* ===== verification/Strconv.v ===== *)
(** * Go's [strconv] and [fmt] conversions between integers and strings

    [strconv.FormatInt(i, 10)], the [%d] verb of [fmt.Sprintf] and
    [strconv.ParseInt(s, 10, 64)], as the operator uses them: object names
    ([<cluster>-<sequence>]) and the generation annotation of a RedkeyConfig. *)

From Stdlib Require Import Ascii.
From S2P Require Import Prelude.

(** ** Definitions *)

(** [strconv.FormatInt(i, 10)]; [%d] prints the same text. *)
Definition FormatInt (i : Z) : string := pretty i.

(** The value of an ASCII decimal digit. *)
Definition digit_val (c : ascii) : option N :=
  let n := N_of_ascii c in
  if bool_decide (48 ≤ n ≤ 57)%N then Some (n - 48)%N else None.

(** The loop of [strconv.ParseUint] in base 10: every character must be a
    digit (underscores are accepted in base 0 only). *)
Fixpoint parse_digits (acc : N) (s : string) : option N :=
  match s with
  | EmptyString => Some acc
  | String c s' => d ← digit_val c; parse_digits (acc * 10 + d) s'
  end.

Definition parse_uint (s : string) : option N :=
  match s with EmptyString => None | String _ _ => parse_digits 0 s end.

(** [strconv.ParseInt(s, 10, 64)]: an optional sign, then digits; [None] is a
    non-nil error (bad syntax, or a value outside the range of [int64]). *)
Definition ParseInt (s : string) : option Z :=
  match s with
  | EmptyString => None
  | String c s' =>
      if bool_decide (c = "-"%char) then
        n ← parse_uint s';
        if bool_decide (n ≤ 2 ^ 63)%N then Some (- Z.of_N n)%Z else None
      else
        n ← parse_uint (if bool_decide (c = "+"%char) then s' else s);
        if bool_decide (n < 2 ^ 63)%N then Some (Z.of_N n) else None
  end.

(** The characters that may occur in a decimal numeral without sign. *)
Fixpoint all_digits (s : string) : bool :=
  match s with
  | EmptyString => true
  | String c s' => bool_decide (is_Some (digit_val c)) && all_digits s'
  end.

(** The text after the last ['-'] of a string, with what precedes it. *)
Fixpoint split_last_dash (s : string) : option (string * string) :=
  match s with
  | EmptyString => None
  | String c s' =>
      match split_last_dash s' with
      | Some (a, b) => Some (String c a, b)
      | None => if bool_decide (c = "-"%char) then Some (EmptyString, s') else None
      end
  end.

(** ** Digits *)

Lemma digit_val_pretty n : (n < 10)%N → digit_val (pretty_N_char n) = Some n.
Proof.
  intros Hn.
  assert (n = 0 ∨ n = 1 ∨ n = 2 ∨ n = 3 ∨ n = 4 ∨ n = 5 ∨ n = 6 ∨ n = 7 ∨ n = 8 ∨ n = 9)%N
    as Hc by lia.
  by destruct_or! Hc; subst.
Qed.

(** Printing a number in front of [s] and reading it back leaves [s] to read. *)
Lemma parse_pretty_go n s : parse_digits 0 (pretty_N_go n s) = parse_digits n s.
Proof.
  revert s. induction (N.lt_wf_0 n) as [n _ IH]; intros s.
  destruct (decide (n = 0%N)) as [->|Hn]; [done|].
  assert (0 < n)%N by lia.
  rewrite pretty_N_go_step, IH by (try apply N.div_lt; lia).
  simpl. rewrite digit_val_pretty by (apply N.mod_lt; lia). simpl.
  f_equal. rewrite N.mul_comm, <-N.Div0.div_mod. done.
Qed.

Lemma all_digits_go n s : all_digits s → all_digits (pretty_N_go n s).
Proof.
  revert s. induction (N.lt_wf_0 n) as [n _ IH]; intros s Hs.
  destruct (decide (n = 0%N)) as [->|Hn]; [done|].
  rewrite pretty_N_go_step by lia. apply IH; [apply N.div_lt; lia|].
  simpl. rewrite digit_val_pretty by (apply N.mod_lt; lia). done.
Qed.

Lemma pretty_N_digits (n : N) : all_digits (pretty n).
Proof. unfold pretty, pretty_N. case_decide; [done|]. by apply all_digits_go. Qed.

Lemma parse_pretty_N (n : N) : parse_digits 0 (pretty n) = Some n.
Proof. unfold pretty, pretty_N. case_decide; [by subst|]. apply parse_pretty_go. Qed.

(** A numeral starts with a digit, hence it is neither empty nor signed. *)
Lemma pretty_N_head (n : N) :
  ∃ c s, pretty n = String c s ∧ is_Some (digit_val c).
Proof.
  pose proof (pretty_N_digits n) as Hd. pose proof (parse_pretty_N n) as Hp.
  destruct (pretty n) as [|c s] eqn:E.
  - simpl in Hp. simplify_eq.
  - exists c, s. simpl in Hd. split; [done|].
    apply andb_prop_elim in Hd as [Hd _]. by apply bool_decide_unpack in Hd.
Qed.

Lemma parse_uint_pretty (n : N) : parse_uint (pretty n) = Some n.
Proof.
  destruct (pretty_N_head n) as (c & s & E & _).
  pose proof (parse_pretty_N n). rewrite E in *. done.
Qed.

Lemma digit_not_sign c : is_Some (digit_val c) → c ≠ "-"%char ∧ c ≠ "+"%char.
Proof. intros [d Hd]. split; intros ->; by vm_compute in Hd. Qed.

(** ** Round trip of [FormatInt] and [ParseInt] *)

Lemma ParseInt_pretty_N (n : N) :
  (n < 2 ^ 63)%N → ParseInt (pretty n) = Some (Z.of_N n).
Proof.
  intros Hn. pose proof (parse_uint_pretty n) as Hp.
  destruct (pretty_N_head n) as (c & s & E & Hc). rewrite E in *.
  apply digit_not_sign in Hc as [??]. unfold ParseInt.
  rewrite !bool_decide_eq_false_2 by done. rewrite Hp. simpl.
  by rewrite bool_decide_eq_true_2.
Qed.

Lemma ParseInt_FormatInt z : in_int64 z → ParseInt (FormatInt z) = Some z.
Proof.
  unfold in_int64, FormatInt. intros Hz. destruct z as [|p|p].
  - done.
  - apply (ParseInt_pretty_N (N.pos p)). lia.
  - change (pretty (Z.neg p)) with (String "-" (pretty (N.pos p))).
    unfold ParseInt. rewrite bool_decide_eq_true_2, parse_uint_pretty by done. simpl.
    by rewrite bool_decide_eq_true_2 by lia.
Qed.

Lemma FormatInt_nonempty z : FormatInt z ≠ "".
Proof.
  unfold FormatInt. destruct z as [|p|p]; [done| |done].
  change (pretty (Z.pos p)) with (pretty (N.pos p)).
  destruct (pretty_N_head (N.pos p)) as (c & s & -> & _). done.
Qed.

#[export] Hint Rewrite ParseInt_FormatInt using assumption : redkey_simp.
#[export] Hint Resolve FormatInt_nonempty : redkey.

(** ** Names of the form [<prefix>-<number>] *)

Lemma all_digits_no_dash s : all_digits s → split_last_dash s = None.
Proof.
  induction s as [|c s IH]; intros Hs; [done|].
  simpl in *. apply andb_prop_elim in Hs as [Hc Hs].
  apply bool_decide_unpack, digit_not_sign in Hc as [Hc _].
  rewrite IH by done. by rewrite bool_decide_eq_false_2.
Qed.

Lemma split_last_dash_app a b :
  split_last_dash b = None → split_last_dash (a +:+ "-" +:+ b) = Some (a, b).
Proof.
  intros Hb. induction a as [|c a IH]; simpl.
  - change ("" +:+ b) with b. by rewrite Hb.
  - by rewrite IH.
Qed.

(** [fmt.Sprintf("%s-%d", a, m)] determines both arguments when the numbers are
    not negative: the last dash of the text separates them. *)
Lemma dashed_name_inj a b m n :
  (0 ≤ m)%Z → (0 ≤ n)%Z →
  a +:+ "-" +:+ FormatInt m = b +:+ "-" +:+ FormatInt n → a = b ∧ m = n.
Proof.
  intros Hm Hn Heq.
  assert (∀ z, (0 ≤ z)%Z → split_last_dash (FormatInt z) = None) as Hnd.
  { intros [|p|p] ?; [done| |lia].
    apply all_digits_no_dash, (pretty_N_digits (N.pos p)). }
  apply (f_equal split_last_dash) in Heq.
  rewrite !split_last_dash_app in Heq by auto.
  injection Heq as -> Hf. split; [done|]. by apply (inj pretty) in Hf.
Qed.
