(* ===== verification/ApiTypes.v ===== *)
(** * The API types (src/api/v1beta1)

    The custom resources Redkey and RedkeyConfig with every field of the Go
    structs, the constants of the API package and its methods, together with
    the Kubernetes object types the operator creates.

    Kubernetes types that the operator only copies (an Affinity, a Volume, ...)
    are abstract: they are the carriers of the class [K8sTypes], of which every
    definition and theorem is generic. Kubernetes structs of which the operator
    sets or reads some fields are records with those fields and one abstract
    field for the remaining ones. *)

From S2P Require Import Prelude.

(** ** Abstract Kubernetes types *)

Class K8sTypes := {
  OwnerReference : Type;
  MetaRest : Type; meta_rest_zero : MetaRest;
  ResourceList : Type; ResourceClaim : Type;
  EnvVarSource : Type; EnvFromSource : Type; VolumeMount : Type;
  SecurityContext : Type; PodSecurityContext : Type;
  Affinity : Type; Toleration : Type; LocalObjectReference : Type;
  TopologySpreadConstraint : Type; Volume : Type; EphemeralContainer : Type;
  ContainerRest : Type; container_rest_zero : ContainerRest;
  PodSpecRest : Type; podspec_rest_zero : PodSpecRest;
  DeploymentSpecRest : Type; deployspec_rest_zero : DeploymentSpecRest;
  DeploymentStatus : Type; deploystatus_zero : DeploymentStatus;
  ServiceAccountRest : Type; serviceaccount_rest_zero : ServiceAccountRest;
  LabelSelectorRequirement : Type; StatefulSetUpdateStrategy : Type;
  PersistentVolumeClaim : Type; PVCRetentionPolicy : Type;
  StatefulSetOrdinals : Type; ServicePort : Type; IntOrString : Type }.

(** Instants and durations, in nanoseconds. *)
Abbreviation Time := Z.

(** [types.NamespacedName] *)
Record NamespacedName := mkNN { nn_Namespace : string; nn_Name : string }.

#[export] Instance NamespacedName_eq_dec : EqDecision NamespacedName.
Proof. solve_decision. Defined.

#[export] Instance NamespacedName_countable : Countable NamespacedName.
Proof.
  refine (inj_countable' (λ k, (nn_Namespace k, nn_Name k)) (λ p, mkNN p.1 p.2) _).
  by intros [].
Defined.

(** [metav1.TypeMeta] *)
Record TypeMeta := { tm_Kind : string; tm_APIVersion : string }.

(** [metav1.Condition]; an unset transition time is [None]. *)
Record Condition := mkCondition {
  cond_Type : string; cond_Status : string; cond_ObservedGeneration : Z;
  cond_LastTransitionTime : option Time; cond_Reason : string; cond_Message : string }.

#[export] Instance Condition_eq_dec : EqDecision Condition.
Proof. solve_decision. Defined.

Definition ConditionTrue := "True".
Definition ConditionFalse := "False".
Definition ConditionUnknown := "Unknown".

(** ** Constants of the API package *)

Definition ConfigPhasePending := "Pending".
Definition ConfigPhaseInProgress := "InProgress".
Definition ConfigPhaseSuperseded := "Superseded".
Definition ConfigPhaseApplied := "Applied".

Definition ClusterStatusInitializing := "Initializing".
Definition ClusterStatusConfiguring := "Configuring".
Definition ClusterStatusReady := "Ready".
Definition ClusterStatusScalingUp := "ScalingUp".
Definition ClusterStatusScalingDown := "ScalingDown".
Definition ClusterStatusScalingToZero := "ScalingToZero".
Definition ClusterStatusUpgrading := "Upgrading".
Definition ClusterStatusMaintenance := "Maintenance".
Definition ClusterPhaseRebalancing := "Rebalancing".
Definition ClusterPhaseError := "Error".

(** Robin's substatus values, which the operator only mirrors. *)
Definition SubstatusWaitingForPods := "WaitingForPods".
Definition SubstatusRebalancing := "Rebalancing".
Definition SubstatusAttachingReplicas := "AttachingReplicas".
Definition SubstatusVerifying := "Verifying".
Definition SubstatusInitializingNodes := "InitializingNodes".
Definition SubstatusDrainingPrimaries := "DrainingPrimaries".
Definition SubstatusRemovingNodes := "RemovingNodes".
Definition SubstatusShrinkingStatefulSet := "ShrinkingStatefulSet".
Definition SubstatusDeletingStatefulSet := "DeletingStatefulSet".
Definition SubstatusRecreatingCluster := "RecreatingCluster".
Definition SubstatusFormingCluster := "FormingCluster".
Definition SubstatusDeletingResources := "DeletingResources".
Definition SubstatusDeletingPVCs := "DeletingPVCs".
Definition SubstatusUpgradeScalingUp := "AddingExtraNode".
Definition SubstatusUpgradeResharding := "DrainingNode".
Definition SubstatusUpgradeRollingUpdate := "RollingUpdate".
Definition SubstatusUpgradeEnding := "MovingLastSlots".
Definition SubstatusUpgradeScalingDown := "RemovingExtraNode".
Definition SubstatusFastUpgrading := "FastUpgrading".
Definition SubstatusEndingFastUpgrade := "FormingCluster".
Definition SubstatusRemediating := "Remediating".

Definition ConditionHealthy := "Healthy".
Definition ConditionMembershipHealthy := "MembershipHealthy".
Definition ConditionSlotsCovered := "SlotsCovered".
Definition ConditionSlotsBalanced := "SlotsBalanced".
Definition ConditionReplicasBalanced := "ReplicasBalanced".
Definition ConditionClusterCheckPassing := "ClusterCheckPassing".

Definition ModeCluster := "cluster".
Definition ModeStandalone := "standalone".

Definition PhaseReady := "Ready".
Definition PhaseConfiguring := "Configuring".
Definition PhaseError := "Error".

(** ** Small structs shared by both resources *)

Record RedkeySubstatus := mkSubstatus {
  sub_Status : string; sub_UpgradingPartition : Z }.

Record RedisNode := mkRedisNode {
  node_Role : string; node_IP : string; node_ReplicationStatus : string }.

Record RedisAuth := mkRedisAuth { auth_SecretName : string }.

Definition RedkeySubstatus_zero : RedkeySubstatus := mkSubstatus "" 0.

Record RobinConfigProfiling := { prof_Enabled : option bool }.

Record RobinConfigReconciler := {
  rec_IntervalSeconds : option Z; rec_IntervalOnErrorSeconds : option Z;
  rec_IntervalOnWaitSeconds : option Z }.

Record RobinConfigCluster := {
  clu_ConnectionMaxRetries : option Z; clu_ConnectionBackOffSeconds : option Z;
  clu_ClusterCommandTimeoutSeconds : option Z; clu_ClusterMeetWaitSeconds : option Z;
  clu_RebalanceTimeoutSeconds : option Z }.

Record RobinConfigMetrics := {
  met_CollectionIntervalSeconds : option Z; met_RedisInfoKeys : list string;
  met_MetricsLabels : GoMap string }.

Record RobinConfig := {
  rc_Reconciler : option RobinConfigReconciler; rc_Cluster : option RobinConfigCluster;
  rc_Metrics : option RobinConfigMetrics; rc_Profiling : option RobinConfigProfiling }.

(** ** Kubernetes objects *)

Section types.
Context {K : K8sTypes}.

(** [metav1.ObjectMeta] *)
Record ObjectMeta := mkMeta {
  om_Name : string; om_Namespace : string;
  om_Labels : GoMap string; om_Annotations : GoMap string;
  om_Generation : Z; om_ResourceVersion : string; om_CreationTimestamp : Time;
  om_OwnerReferences : list OwnerReference; om_rest : MetaRest }.

(** [metav1.ObjectMeta{Name, Namespace, Labels, Annotations}]: a composite
    literal leaves the other fields at their zero value. *)
Definition meta_lit (name ns : string) (labels annotations : GoMap string) : ObjectMeta :=
  mkMeta name ns labels annotations 0 "" 0 [] meta_rest_zero.

Definition meta_key (m : ObjectMeta) : NamespacedName := mkNN (om_Namespace m) (om_Name m).

Record ResourceRequirements := mkResources {
  rr_Limits : option ResourceList; rr_Requests : option ResourceList;
  rr_Claims : list ResourceClaim }.

Definition resources_zero : ResourceRequirements := mkResources None None [].

Record EnvVar := mkEnv {
  env_Name : string; env_Value : string; env_ValueFrom : option EnvVarSource }.

Record ContainerPort := {
  cp_Name : string; cp_HostPort : Z; cp_ContainerPort : Z;
  cp_Protocol : string; cp_HostIP : string }.

Record Container := mkContainer {
  ctr_Name : string; ctr_Image : string; ctr_Args : list string; ctr_Env : list EnvVar;
  ctr_EnvFrom : list EnvFromSource; ctr_Ports : list ContainerPort;
  ctr_Resources : ResourceRequirements; ctr_VolumeMounts : list VolumeMount;
  ctr_SecurityContext : option SecurityContext; ctr_rest : ContainerRest }.

Record PodSpec := mkPodSpec {
  pod_ServiceAccountName : string; pod_Containers : list Container;
  pod_NodeSelector : GoMap string; pod_Tolerations : list Toleration;
  pod_Affinity : option Affinity; pod_SecurityContext : option PodSecurityContext;
  pod_ImagePullSecrets : list LocalObjectReference; pod_PriorityClassName : string;
  pod_TopologySpreadConstraints : list TopologySpreadConstraint;
  pod_Volumes : list Volume; pod_rest : PodSpecRest }.

(** [corev1.PodTemplateSpec] *)
Record PodTemplateSpec := mkTemplate { tpl_meta : ObjectMeta; tpl_Spec : PodSpec }.

Record LabelSelector := mkSelector {
  sel_MatchLabels : GoMap string; sel_MatchExpressions : list LabelSelectorRequirement }.

Record DeploymentSpec := mkDeploymentSpec {
  dspec_Replicas : option Z; dspec_Selector : option LabelSelector;
  dspec_Template : PodTemplateSpec; dspec_rest : DeploymentSpecRest }.

Record Deployment := mkDeployment {
  deploy_meta : ObjectMeta; deploy_Spec : DeploymentSpec; deploy_Status : DeploymentStatus }.

Record ServiceAccount := mkServiceAccount {
  sa_meta : ObjectMeta; sa_rest : ServiceAccountRest }.

Record PolicyRule := mkRule {
  rule_Verbs : list string; rule_APIGroups : list string; rule_Resources : list string;
  rule_ResourceNames : list string; rule_NonResourceURLs : list string }.

Record Role := mkRole { role_meta : ObjectMeta; role_Rules : list PolicyRule }.

Record Subject := mkSubject {
  subj_Kind : string; subj_APIGroup : string; subj_Name : string; subj_Namespace : string }.

Record RoleRef := mkRoleRef {
  rref_APIGroup : string; rref_Kind : string; rref_Name : string }.

Record RoleBinding := mkRoleBinding {
  rb_meta : ObjectMeta; rb_Subjects : list Subject; rb_RoleRef : RoleRef }.

(** ** Partial objects of the override blocks *)

Record PartialPodSpec := {
  pps_Containers : list Container; pps_InitContainers : list Container;
  pps_EphemeralContainers : list EphemeralContainer; pps_RestartPolicy : string;
  pps_TerminationGracePeriodSeconds : option Z; pps_DNSPolicy : string;
  pps_NodeSelector : GoMap string; pps_ServiceAccountName : string;
  pps_SecurityContext : option PodSecurityContext;
  pps_ImagePullSecrets : list LocalObjectReference; pps_Affinity : option Affinity;
  pps_Tolerations : list Toleration; pps_PriorityClassName : string;
  pps_TopologySpreadConstraints : list TopologySpreadConstraint;
  pps_Volumes : list Volume }.

Record PartialPodTemplateSpec := {
  ppt_Metadata : ObjectMeta; ppt_Spec : PartialPodSpec }.

Record PartialStatefulSetSpec := {
  pss_MinReadySeconds : option Z; pss_Replicas : option Z;
  pss_Selector : option LabelSelector; pss_ServiceName : string;
  pss_Template : option PartialPodTemplateSpec;
  pss_UpdateStrategy : option StatefulSetUpdateStrategy;
  pss_RevisionHistoryLimit : option Z; pss_PodManagementPolicy : string;
  pss_VolumeClaimTemplates : list PersistentVolumeClaim;
  pss_PersistentVolumeClaimRetentionPolicy : option PVCRetentionPolicy;
  pss_Ordinals : option StatefulSetOrdinals }.

Record PartialStatefulSet := {
  psts_APIVersion : string; psts_Kind : string; psts_Metadata : ObjectMeta;
  psts_Spec : option PartialStatefulSetSpec }.

Record PartialServiceSpec := {
  psvs_Ports : list ServicePort; psvs_Selector : GoMap string; psvs_ClusterIP : string;
  psvs_Type : string; psvs_PublishNotReadyAddresses : bool }.

Record PartialService := {
  psvc_APIVersion : string; psvc_Kind : string; psvc_Metadata : ObjectMeta;
  psvc_Spec : option PartialServiceSpec }.

Record RedkeyOverrideSpec := {
  ovr_StatefulSet : option PartialStatefulSet; ovr_Service : option PartialService }.

Record Pdb := {
  pdb_Enabled : bool; pdb_SizeUnavailable : IntOrString; pdb_SizeAvailable : IntOrString }.

Record RobinSpec := {
  robin_Image : string; robin_Resources : option ResourceRequirements;
  robin_Template : option PartialPodTemplateSpec; robin_Config : option RobinConfig }.

(** ** Redkey *)

(** An optional [*map[string]string] field: a nil pointer, or a pointer to a
    map that may itself be nil. *)
Record RedkeySpec := mkRedkeySpec {
  spec_Auth : RedisAuth; spec_Version : string; spec_Mode : string;
  spec_Primaries : Z; spec_ReplicasPerPrimary : Z; spec_Image : string;
  spec_DeletePVC : option bool; spec_Backup : bool; spec_Robin : RobinSpec;
  spec_SkipIfSuperseded : bool; spec_PurgeKeysOnRebalance : option bool;
  spec_Config : string; spec_Resources : option ResourceRequirements;
  spec_Labels : option (GoMap string); spec_Annotations : option (GoMap string);
  spec_Pdb : Pdb; spec_Override : option RedkeyOverrideSpec; spec_Ephemeral : bool;
  spec_Storage : string; spec_StorageClassName : string;
  spec_AccessModes : list string }.

Record RedkeyStatus := mkRedkeyStatus {
  st_Replicas : Z; st_Phase : string; st_Status : string; st_Substatus : RedkeySubstatus;
  st_Nodes : GoMap (option RedisNode); st_Conditions : list Condition;
  st_LastUpdatedAt : option Time; st_ObservedGeneration : Z;
  st_LastAppliedPrimaries : Z; st_LastAppliedReplicasPerPrimary : Z }.

Record Redkey := mkRedkey {
  rk_type : TypeMeta; rk_meta : ObjectMeta; rk_Spec : RedkeySpec; rk_Status : RedkeyStatus }.

(** [func (s RedkeySpec) NodesNeeded() int]: the arithmetic is done in [int32]
    and the result is widened. *)
Definition NodesNeeded (s : RedkeySpec) : Z :=
  wrap32 (spec_Primaries s + wrap32 (spec_Primaries s * spec_ReplicasPerPrimary s))%Z.

Definition RedkeySpec_IsStandalone (s : RedkeySpec) : bool :=
  bool_decide (spec_Mode s = ModeStandalone).

(** [func (r Redkey) NamespacedName()] *)
Definition Redkey_NamespacedName (r : Redkey) : NamespacedName :=
  mkNN (om_Namespace (rk_meta r)) (om_Name (rk_meta r)).

(** [func (r Redkey) GetLabels()] *)
Definition Redkey_GetLabels (r : Redkey) : GoMap string :=
  match spec_Labels (rk_Spec r) with Some m => m | None => Some ∅ end.

(** Assignment to [r.Status]. *)
Definition with_status (r : Redkey) (st : RedkeyStatus) : Redkey :=
  mkRedkey (rk_type r) (rk_meta r) (rk_Spec r) st.

(** ** RedkeyConfig *)

Record RedkeyConfigSpec := mkConfigSpec {
  cs_Sequence : Z; cs_SkipIfSuperseded : bool; cs_Mode : string; cs_Primaries : Z;
  cs_ReplicasPerPrimary : Z; cs_Ephemeral : bool; cs_Storage : string;
  cs_StorageClassName : string; cs_Image : string; cs_Version : string;
  cs_RedisConfig : string; cs_Resources : option ResourceRequirements; cs_Auth : RedisAuth;
  cs_Labels : option (GoMap string); cs_Annotations : option (GoMap string);
  cs_DeletePVC : option bool; cs_PurgeKeysOnRebalance : option bool;
  cs_Override : option RedkeyOverrideSpec; cs_Pdb : Pdb;
  cs_RobinConfig : option RobinConfig }.

Definition RedkeyConfigSpec_IsStandalone (s : RedkeyConfigSpec) : bool :=
  bool_decide (cs_Mode s = ModeStandalone).

Record RedkeyConfigStatus := mkConfigStatus {
  cst_ConfigPhase : string; cst_Status : string; cst_Substatus : RedkeySubstatus;
  cst_Nodes : GoMap (option RedisNode); cst_Conditions : list Condition;
  cst_LastUpdatedAt : option Time; cst_ObservedGeneration : Z }.

Record RedkeyConfig := mkConfig {
  cfg_type : TypeMeta; cfg_meta : ObjectMeta;
  cfg_Spec : RedkeyConfigSpec; cfg_Status : RedkeyConfigStatus }.

Definition cfg_seq (c : RedkeyConfig) : Z := cs_Sequence (cfg_Spec c).
Definition cfg_phase (c : RedkeyConfig) : string := cst_ConfigPhase (cfg_Status c).

(** The status of a freshly built RedkeyConfig (its zero value). *)
Definition config_status_zero : RedkeyConfigStatus :=
  mkConfigStatus "" "" RedkeySubstatus_zero None [] None 0.

End types.

#[export] Instance RoleRef_eq_dec : EqDecision RoleRef.
Proof. solve_decision. Defined.

(** ** Properties of the spec's methods *)

Section spec_facts.
Context {K : K8sTypes}.
Implicit Types s : RedkeySpec.

Lemma NodesNeeded_wrap s :
  NodesNeeded s = wrap32 (spec_Primaries s * (1 + spec_ReplicasPerPrimary s)).
Proof. unfold NodesNeeded, wrap32. rewrite wrap_add_wrap by lia. f_equal. lia. Qed.

(** C37: The node count is exact as long as it fits: the result is always an int32,
    and it is primaries times one plus replicas if and only if that product is an
    int32; beyond, it has wrapped around. *)
Theorem NodesNeeded_exact s :
  in_int32 (NodesNeeded s) ∧
  (NodesNeeded s = (spec_Primaries s * (1 + spec_ReplicasPerPrimary s))%Z ↔
   in_int32 (spec_Primaries s * (1 + spec_ReplicasPerPrimary s))).
Proof.
  rewrite NodesNeeded_wrap. split; [apply wrap32_range|]. split.
  - intros E. rewrite <-E. apply wrap32_range.
  - apply wrap32_id.
Qed.

End spec_facts.
