(* ===== verification/Effects.v ===== *)
(** * Effects: the operator's calls to the Kubernetes API and to the clock

    The operator acts on the world through its client (controller-runtime's
    [client.Client]) and reads the clock. Neither is code of this repository, so
    a program is a tree of calls: each call is a node that waits for an answer,
    and the answers are not fixed here. What a program does for every answer the
    API server may give (failures, stale caches, concurrent changes included) is
    stated over its traces ([exec]); what it does against a particular API server
    is stated by running the tree with a handler ([run]).

    The state of the operator process that the calls do not touch (metric
    trackers) is threaded explicitly: [M S A] is a computation over a state [S]. *)

From S2P Require Import Prelude ApiTypes.

(** ** Errors *)

(** The reasons the operator distinguishes with [errors.IsNotFound],
    [errors.IsAlreadyExists] and (in [retry.RetryOnConflict]) [errors.IsConflict]. *)
Inductive StatusReason :=
| ReasonNotFound | ReasonAlreadyExists | ReasonConflict | ReasonOther.

(** An API error, or [fmt.Errorf("... %w", err)], which wraps one. *)
Inductive error :=
| APIError (reason : StatusReason) (message : string)
| Errorf (prefix : string) (e : error).

#[export] Instance StatusReason_eq_dec : EqDecision StatusReason.
Proof. solve_decision. Defined.

(** The predicates look through wrapped errors. *)
Fixpoint error_reason (e : error) : StatusReason :=
  match e with APIError r _ => r | Errorf _ e' => error_reason e' end.

Definition IsNotFound (e : error) : bool := bool_decide (error_reason e = ReasonNotFound).
Definition IsAlreadyExists (e : error) : bool :=
  bool_decide (error_reason e = ReasonAlreadyExists).
Definition IsConflict (e : error) : bool := bool_decide (error_reason e = ReasonConflict).

(** ** Calls *)

(** The kinds of objects the client handles. *)
Inductive okind :=
| KRedkey | KRedkeyConfig | KServiceAccount | KRole | KRoleBinding | KDeployment.

#[export] Instance okind_eq_dec : EqDecision okind.
Proof. solve_decision. Defined.

Section calls.
Context {K : K8sTypes}.

Definition obj_of (k : okind) : Type :=
  match k with
  | KRedkey => Redkey | KRedkeyConfig => RedkeyConfig | KServiceAccount => ServiceAccount
  | KRole => Role | KRoleBinding => RoleBinding | KDeployment => Deployment
  end.

Definition obj_meta (k : okind) : obj_of k → ObjectMeta :=
  match k with
  | KRedkey => rk_meta | KRedkeyConfig => cfg_meta | KServiceAccount => sa_meta
  | KRole => role_meta | KRoleBinding => rb_meta | KDeployment => deploy_meta
  end.

(** [r.Get], [r.List] (RedkeyConfigs of a namespace that carry a label),
    [r.Create], [r.Patch] with [client.MergeFrom(base)], [r.Delete],
    [r.Status().Update], and readings of the clock ([Clock] gives the readings
    of a block of consecutive [time.Now()]). *)
Inductive call :=
| Get (k : okind) (key : NamespacedName)
| ListConfigs (ns label value : string)
| Create (k : okind) (o : obj_of k)
| Patch (k : okind) (o base : obj_of k)
| Delete (k : okind) (key : NamespacedName)
| UpdateStatus (r : Redkey)
| Now
| Clock.

(** A successful write returns nothing the operator reads, but a status update
    decodes the server's answer into the object passed. *)
Definition ans (c : call) : Type :=
  match c with
  | Get k _ => error + obj_of k
  | ListConfigs _ _ _ => error + list RedkeyConfig
  | Create _ _ | Patch _ _ _ | Delete _ _ => error + unit
  | UpdateStatus _ => error + Redkey
  | Now => Time
  | Clock => nat → Time
  end.

(** ** Programs *)

Inductive prog (A : Type) : Type :=
| Ret (a : A)
| Call (c : call) (k : ans c → prog A).
Arguments Ret {A} a.
Arguments Call {A} c k.

Fixpoint prog_bind {A B} (p : prog A) (f : A → prog B) : prog B :=
  match p with
  | Ret a => f a
  | Call c k => Call c (λ x, prog_bind (k x) f)
  end.

(** One call with the answer it got. *)
Record obs := Obs { obs_call : call; obs_ans : ans obs_call }.

(** [runs p tr a]: with the answers in [tr], [p] makes exactly the calls in
    [tr] and returns [a]. Any answers are possible. *)
Fixpoint runs {A} (p : prog A) (tr : list obs) (a : A) : Prop :=
  match p with
  | Ret a' => tr = [] ∧ a = a'
  | Call c k => ∃ x tr', tr = Obs c x :: tr' ∧ runs (k x) tr' a
  end.

(** Running against a handler with a state of its own. *)
Fixpoint run {A W} (h : ∀ c, W → W * ans c) (p : prog A) (w : W) : W * A :=
  match p with
  | Ret a => (w, a)
  | Call c k => let '(w', x) := h c w in run h (k x) w'
  end.

(** The calls made while running, with their answers. *)
Fixpoint run_trace {A W} (h : ∀ c, W → W * ans c) (p : prog A) (w : W) : list obs :=
  match p with
  | Ret _ => []
  | Call c k => let '(w', x) := h c w in Obs c x :: run_trace h (k x) w'
  end.

(** ** Computations with a process-local state *)

Section monad.
Context {S : Type}.

Definition M (A : Type) : Type := S → prog (S * A).

#[global] Instance M_ret : MRet M := λ A a s, Ret (s, a).
#[global] Instance M_bind : MBind M := λ A B f m s,
  prog_bind (m s) (λ sa, f sa.2 sa.1).

Definition invoke (c : call) : M (ans c) := λ s, Call c (λ x, Ret (s, x)).
Definition gets {A} (f : S → A) : M A := λ s, Ret (s, f s).
Definition modify (f : S → S) : M unit := λ s, Ret (f s, tt).

(** [x, err := m; if err != nil { return ..., err }] *)
Definition bindE {A B} (m : M (error + A)) (f : A → M (error + B)) : M (error + B) :=
  r ← m; match r with inl e => mret (inl e) | inr a => f a end.

(** [return x, nil] and [return ..., err] *)
Definition ok {A} (a : A) : M (error + A) := mret (inr a).
Definition raise {A} (e : error) : M (error + A) := mret (inl e).

(** [for _, x := range l { f(x) }] *)
Fixpoint forM {A} (l : list A) (f : A → M unit) : M unit :=
  match l with
  | [] => mret tt
  | x :: l' => f x ;; forM l' f
  end.

(** [m] started in [s] can make the calls of [tr] and end in [s'] with [a]. *)
Definition exec {A} (m : M A) (s : S) (tr : list obs) (s' : S) (a : A) : Prop :=
  runs (m s) tr (s', a).

(** Partial correctness over all answers: every call with its answer satisfies
    [P], and the result satisfies [Q]. *)
Definition triple {A} (P : obs → Prop) (m : M A) (Q : A → Prop) : Prop :=
  ∀ s tr s' a, exec m s tr s' a → Forall P tr ∧ Q a.

End monad.
End calls.

Arguments M {K} S A.
Arguments Ret {K A} a.
Arguments Call {K A} c k.

Notation "x '←?' y ; z" := (bindE y (λ x, z))
  (at level 20, y at level 100, z at level 200, only parsing) : stdpp_scope.
Notation "y ;?; z" := (bindE y (λ _, z))
  (at level 100, z at level 200, right associativity, only parsing) : stdpp_scope.

(** Writes: the calls that may change an object. *)
Definition is_write `{K8sTypes} (o : obs) : bool :=
  match obs_call o with
  | Create _ _ | Patch _ _ _ | Delete _ _ | UpdateStatus _ => true
  | _ => false
  end.

(** The object is gone after this call: the deletion was accepted, or there was
    nothing to delete. Calls other than deletions are not judged. *)
Definition gone `{K8sTypes} (o : obs) : Prop :=
  match o with
  | Obs (Delete _ _) (inl e) => IsNotFound e = true
  | _ => True
  end.

(** ** Traces of composed programs *)

Section trace_facts.
Context {K : K8sTypes}.

Lemma runs_bind {A B} (p : prog A) (f : A → prog B) tr b :
  runs (prog_bind p f) tr b ↔
  ∃ tr1 tr2 a, tr = tr1 ++ tr2 ∧ runs p tr1 a ∧ runs (f a) tr2 b.
Proof.
  revert tr. induction p as [a|c k IH]; intros tr; simpl.
  - split.
    + intros Hr. exists [], tr, a. done.
    + intros (?&?&?&->&[-> ->]&?). done.
  - setoid_rewrite IH. split.
    + intros (x&?&->&tr1&tr2&a&->&?&?). exists (Obs c x :: tr1), tr2, a.
      split_and!; [done| |done]. eauto.
    + intros (?&tr2&a&->&(x&tr1&->&?)&?). exists x, (tr1 ++ tr2).
      split; [done|]. eauto 10.
Qed.

(** Every program has an execution for every way the calls may be answered. *)
Lemma run_runs {A W} (h : ∀ c, W → W * ans c) (p : prog A) w :
  runs p (run_trace h p w) (run h p w).2.
Proof.
  revert w. induction p as [a|c k IH]; intros w; simpl; [done|].
  destruct (h c w) as [w' x]. eauto.
Qed.

Lemma run_bind {A B W} (h : ∀ c, W → W * ans c) (p : prog A) (f : A → prog B) w :
  run h (prog_bind p f) w = let '(w', a) := run h p w in run h (f a) w'.
Proof.
  revert w. induction p as [a|c k IH]; intros w; simpl; [done|].
  by destruct (h c w) as [w' x].
Qed.

Context {S : Type}.
Implicit Types s : S.

Lemma exec_ret {A} (a b : A) s s' tr :
  exec (mret a : M S A) s tr s' b ↔ tr = [] ∧ s' = s ∧ b = a.
Proof. unfold exec, mret, M_ret. simpl. naive_solver. Qed.

Lemma exec_bind {A B} (m : M S A) (f : A → M S B) s s' tr b :
  exec (m ≫= f) s tr s' b ↔
  ∃ tr1 tr2 s1 a, tr = tr1 ++ tr2 ∧ exec m s tr1 s1 a ∧ exec (f a) s1 tr2 s' b.
Proof.
  unfold exec, mbind, M_bind. rewrite runs_bind. split.
  - intros (tr1&tr2&[s1 a]&?&?&?). eauto 10.
  - intros (tr1&tr2&s1&a&?&?&?). exists tr1, tr2, (s1, a). done.
Qed.

Lemma exec_invoke c s s' tr x :
  exec (invoke c : M S _) s tr s' x ↔ tr = [Obs c x] ∧ s' = s.
Proof. unfold exec, invoke. simpl. naive_solver. Qed.

Lemma exec_gets {A} (f : S → A) s s' tr a :
  exec (gets f) s tr s' a ↔ tr = [] ∧ s' = s ∧ a = f s.
Proof. unfold exec, gets. simpl. naive_solver. Qed.

Lemma exec_modify f s s' tr u : exec (modify f : M S _) s tr s' u ↔ tr = [] ∧ s' = f s.
Proof. unfold exec, modify. destruct u. simpl. naive_solver. Qed.

Lemma exec_bindE {A B} (m : M S (error + A)) (f : A → M S (error + B)) s s' tr b :
  exec (bindE m f) s tr s' b ↔
  (∃ e, exec m s tr s' (inl e) ∧ b = inl e) ∨
  (∃ tr1 tr2 s1 a, tr = tr1 ++ tr2 ∧ exec m s tr1 s1 (inr a) ∧ exec (f a) s1 tr2 s' b).
Proof.
  unfold bindE. rewrite exec_bind. split.
  - intros (tr1&tr2&s1&[e|a]&->&Hm&Hf).
    + apply exec_ret in Hf as (->&->&->). rewrite app_nil_r. eauto.
    + right. eauto 10.
  - intros [(e&Hm&->)|(tr1&tr2&s1&a&->&Hm&Hf)].
    + exists tr, [], s', (inl e). rewrite app_nil_r. split_and!; [done..|].
      by apply exec_ret.
    + exists tr1, tr2, s1, (inr a). done.
Qed.

(** A loop runs its body on every element, in order. *)
Lemma exec_forM_cons {A} (x : A) l (f : A → M S unit) s s' tr u :
  exec (forM (x :: l) f) s tr s' u ↔
  ∃ tr1 tr2 s1, tr = tr1 ++ tr2 ∧ exec (f x) s tr1 s1 tt ∧ exec (forM l f) s1 tr2 s' u.
Proof.
  simpl. rewrite exec_bind. split.
  - intros (?&?&?&[]&?&?&?). eauto 10.
  - intros (?&?&?&?&?&?). eauto 10.
Qed.

(** A call followed by the rest of the program. *)
Lemma exec_call {B} c (f : ans c → M S B) s s' tr b :
  exec (invoke c ≫= f) s tr s' b ↔ ∃ x tr', tr = Obs c x :: tr' ∧ exec (f x) s tr' s' b.
Proof. done. Qed.

Lemma exec_ok {A} (a : A) s s' tr r :
  exec (ok a : M S _) s tr s' r ↔ tr = [] ∧ s' = s ∧ r = inr a.
Proof. apply exec_ret. Qed.

Lemma exec_raise {A} e s s' tr (r : error + A) :
  exec (raise e : M S _) s tr s' r ↔ tr = [] ∧ s' = s ∧ r = inl e.
Proof. apply exec_ret. Qed.

(** A property of the calls of a trace. *)
Lemma Forall_fmap_call (P : call → Prop) (tr : list obs) :
  Forall P (obs_call <$> tr) → Forall (λ o, P (obs_call o)) tr.
Proof. by rewrite Forall_fmap. Qed.

End trace_facts.

(** Decompose every execution in the context into the executions of its parts. *)
Ltac exec_step :=
  match goal with
  | H : exec (mret _) _ _ _ _ |- _ => apply exec_ret in H as (?&?&?)
  | H : exec (ok _) _ _ _ _ |- _ => apply exec_ok in H as (?&?&?)
  | H : exec (raise _) _ _ _ _ |- _ => apply exec_raise in H as (?&?&?)
  | H : exec (gets _) _ _ _ _ |- _ => apply exec_gets in H as (?&?&?)
  | H : exec (modify _) _ _ _ _ |- _ => apply exec_modify in H as (?&?)
  | H : exec (invoke ?c) _ _ _ _ |- _ => apply (exec_invoke c) in H as (?&?)
  | H : exec (bindE _ _) _ _ _ _ |- _ =>
      apply exec_bindE in H as [(?&?&?)|(?&?&?&?&?&?&?)]
  | H : exec (mbind _ _) _ _ _ _ |- _ => apply exec_bind in H as (?&?&?&?&?&?&?)
  end; simplify_eq/=.

Ltac exec_inv := repeat exec_step.

(** Split off the first call, naming its answer. *)
Tactic Notation "exec_call" hyp(H) "as" simple_intropattern(x) :=
  let c := match type of H with exec (mbind _ (invoke ?c)) _ _ _ _ => c end in
  let E := fresh in
  apply (exec_call c) in H as (x&?&E&H); simpl in E; subst.

(** Running a computation against a handler is one of its executions. *)
Lemma exec_run `{K8sTypes} {S A W} (h : ∀ c, W → W * ans c) (m : M S A) s w :
  exec m s (run_trace h (m s) w) (run h (m s) w).2.1 (run h (m s) w).2.2.
Proof. unfold exec. rewrite <-surjective_pairing. apply run_runs. Qed.

Lemma exec_run_eq `{K8sTypes} {S A W} (h : ∀ c, W → W * ans c) (m : M S A) s w a :
  (run h (m s) w).2.2 = a → exec m s (run_trace h (m s) w) (run h (m s) w).2.1 a.
Proof. intros <-. apply exec_run. Qed.

(** ** Rules for triples *)

Section triple_facts.
Context {K : K8sTypes} {S : Type}.
Implicit Types P : obs → Prop.

Lemma triple_ret {A} P (a : A) (Q : A → Prop) : Q a → triple P (mret a : M S A) Q.
Proof. intros HQ s tr s' b Hx. exec_inv. by split. Qed.

Lemma triple_bind {A B} P (m : M S A) (f : A → M S B) (Q : A → Prop) (R : B → Prop) :
  triple P m Q → (∀ a, Q a → triple P (f a) R) → triple P (m ≫= f) R.
Proof.
  intros Hm Hf s tr s' b Hx. apply exec_bind in Hx as (tr1&tr2&s1&a&->&H1&H2).
  apply Hm in H1 as [? Ha]. apply (Hf a Ha) in H2 as [? ?].
  split; [|done]. by apply Forall_app.
Qed.

Lemma triple_bindE {A B} P (m : M S (error + A)) (f : A → M S (error + B)) Q R :
  triple P m (λ r, match r with inl e => R (inl e) | inr a => Q a end) →
  (∀ a, Q a → triple P (f a) R) → triple P (bindE m f) R.
Proof.
  intros Hm Hf. eapply triple_bind; [exact Hm|].
  intros [e|a] Ha; simpl; [by apply triple_ret|auto].
Qed.

Lemma triple_invoke P c (Q : ans c → Prop) :
  (∀ x, P (Obs c x) ∧ Q x) → triple P (invoke c : M S _) Q.
Proof.
  intros HP s tr s' x Hx. exec_inv. destruct (HP x). by rewrite Forall_singleton.
Qed.

Lemma triple_gets {A} P (f : S → A) (Q : A → Prop) : (∀ s, Q (f s)) → triple P (gets f) Q.
Proof. intros HQ s tr s' x Hx. exec_inv. auto. Qed.

Lemma triple_modify P f (Q : unit → Prop) : Q tt → triple P (modify f : M S _) Q.
Proof. intros HQ s tr s' [] Hx. exec_inv. auto. Qed.

Lemma triple_weaken {A} P (m : M S A) (Q Q' : A → Prop) :
  triple P m Q → (∀ a, Q a → Q' a) → triple P m Q'.
Proof. intros Hm HQ s tr s' a Hx. apply Hm in Hx as [? ?]. auto. Qed.

Lemma triple_trace {A} (P P' : obs → Prop) (m : M S A) (Q : A → Prop) :
  triple P m Q → (∀ o, P o → P' o) → triple P' m Q.
Proof.
  intros Hm HP s tr s' a Hx. apply Hm in Hx as [Ht ?]. split; [|done].
  by eapply Forall_impl.
Qed.

(** A triple about calls only. *)
Lemma triple_true {A} P (m : M S A) (Q : A → Prop) :
  triple P m Q → triple P m (λ _, True).
Proof. intros Hm. by eapply triple_weaken. Qed.

End triple_facts.

(** Walk through a program, leaving the obligations on its calls and results. *)
Ltac triple_step :=
  lazymatch goal with
  | |- triple _ (mret _) _ => apply triple_ret
  | |- triple _ (ok _) _ => apply triple_ret
  | |- triple _ (raise _) _ => apply triple_ret
  | |- triple _ (gets _) _ => apply triple_gets; intros ?
  | |- triple _ (modify _) _ => apply triple_modify
  | |- triple _ (invoke _) _ => apply triple_invoke; intros ?
  | |- triple _ (bindE _ _) _ => eapply triple_bindE; [|intros ? ?]
  | |- triple _ (mbind _ _) _ => eapply triple_bind; [|intros ? ?]
  end.

(** ** The calls a program can make

    [makes P m]: whatever the answers, every call of [m] satisfies [P]. *)

Definition makes `{K8sTypes} {S A} (P : obs → Prop) (m : M S A) : Prop :=
  triple P m (λ _, True).

Section makes_facts.
Context {K : K8sTypes} {S : Type}.
Implicit Types P : obs → Prop.

Lemma makes_exec {A} P (m : M S A) s tr s' a : makes P m → exec m s tr s' a → Forall P tr.
Proof. intros Hm Hx. by apply Hm in Hx as [? _]. Qed.

Lemma makes_ret {A} P (a : A) : makes P (mret a : M S A).
Proof. by apply triple_ret. Qed.

Lemma makes_bind {A B} P (m : M S A) (f : A → M S B) :
  makes P m → (∀ a, makes P (f a)) → makes P (m ≫= f).
Proof. intros Hm Hf. eapply triple_bind; [exact Hm|]. intros a _. apply Hf. Qed.

Lemma makes_bindE {A B} P (m : M S (error + A)) (f : A → M S (error + B)) :
  makes P m → (∀ a, makes P (f a)) → makes P (bindE m f).
Proof. intros Hm Hf. apply makes_bind; [done|]. intros [e|a]; [apply makes_ret|apply Hf]. Qed.

Lemma makes_invoke P c : (∀ x, P (Obs c x)) → makes P (invoke c : M S _).
Proof. intros HP. apply triple_invoke. intros x. split; [apply HP|done]. Qed.

Lemma makes_gets {A} P (f : S → A) : makes P (gets f).
Proof. by apply triple_gets. Qed.

Lemma makes_modify P f : makes P (modify f : M S _).
Proof. by apply triple_modify. Qed.

Lemma makes_forM {A} P (l : list A) (f : A → M S unit) :
  (∀ a, makes P (f a)) → makes P (forM l f).
Proof.
  intros Hf. induction l as [|a l IH]; simpl; [apply makes_ret|].
  apply makes_bind; [apply Hf|]. intros _. exact IH.
Qed.

Lemma makes_weaken {A} P P' (m : M S A) : (∀ o, P o → P' o) → makes P m → makes P' m.
Proof. intros HP Hm. by eapply triple_trace. Qed.

End makes_facts.

#[export] Hint Resolve makes_ret makes_gets makes_modify : redkey.

(** Walk through a program; what is left are the calls and the parts whose calls
    are known from a lemma. *)
Ltac makes_step :=
  lazymatch goal with
  | |- makes _ (mret _) => apply makes_ret
  | |- makes _ (ok _) => apply makes_ret
  | |- makes _ (raise _) => apply makes_ret
  | |- makes _ (gets _) => apply makes_gets
  | |- makes _ (modify _) => apply makes_modify
  | |- makes _ (invoke ?c) => apply (makes_invoke _ c); intros ?
  | |- makes _ (bindE _ _) => apply makes_bindE; [|intros ?]
  | |- makes _ (mbind _ _) => apply makes_bind; [|intros ?]
  | |- makes _ (forM _ _) => apply makes_forM; intros ?
  | |- makes _ (match ?x with _ => _ end) => destruct x
  end.

Ltac makes_tac := repeat (makes_step; try (by auto with redkey)).

(** ** Process-local state a program leaves alone

    [keeps f m]: whatever the answers, [m] does not change the view [f] of the
    state. *)

Definition keeps `{K8sTypes} {S X A} (f : S → X) (m : M S A) : Prop :=
  ∀ s tr s' a, exec m s tr s' a → f s' = f s.

Section keeps_facts.
Context {K : K8sTypes} {S X : Type} (f : S → X).

Lemma keeps_ret {A} (a : A) : keeps f (mret a : M S A).
Proof. intros s tr s' b Hx. by exec_inv. Qed.

Lemma keeps_bind {A B} (m : M S A) (k : A → M S B) :
  keeps f m → (∀ a, keeps f (k a)) → keeps f (m ≫= k).
Proof.
  intros Hm Hk s tr s' b (tr1&tr2&s1&a&->&H1&H2)%exec_bind.
  apply Hm in H1. apply Hk in H2. congruence.
Qed.

Lemma keeps_bindE {A B} (m : M S (error + A)) (k : A → M S (error + B)) :
  keeps f m → (∀ a, keeps f (k a)) → keeps f (bindE m k).
Proof. intros Hm Hk. apply keeps_bind; [done|]. intros [e|a]; [apply keeps_ret|apply Hk]. Qed.

Lemma keeps_invoke c : keeps f (invoke c : M S _).
Proof. intros s tr s' b Hx. by exec_inv. Qed.

Lemma keeps_gets {A} (g : S → A) : keeps f (gets g).
Proof. intros s tr s' b Hx. by exec_inv. Qed.

Lemma keeps_modify g : (∀ s, f (g s) = f s) → keeps f (modify g : M S _).
Proof. intros Hg s tr s' b Hx. exec_inv. apply Hg. Qed.

Lemma keeps_forM {A} (l : list A) (k : A → M S unit) :
  (∀ a, keeps f (k a)) → keeps f (forM l k).
Proof.
  intros Hk. induction l as [|a l IH]; simpl; [apply keeps_ret|].
  apply keeps_bind; [apply Hk|]. intros _. exact IH.
Qed.

End keeps_facts.

Ltac keeps_step :=
  lazymatch goal with
  | |- keeps _ (mret _) => apply keeps_ret
  | |- keeps _ (ok _) => apply keeps_ret
  | |- keeps _ (raise _) => apply keeps_ret
  | |- keeps _ (gets _) => apply keeps_gets
  | |- keeps _ (modify _) => apply keeps_modify; intros ?
  | |- keeps _ (invoke ?c) => apply (keeps_invoke _ c)
  | |- keeps _ (bindE _ _) => apply keeps_bindE; [|intros ?]
  | |- keeps _ (mbind _ _) => apply keeps_bind; [|intros ?]
  | |- keeps _ (forM _ _) => apply keeps_forM; intros ?
  | |- keeps _ (match ?x with _ => _ end) => destruct x
  end.

Ltac keeps_tac := repeat (keeps_step; try (by auto with redkey)).

(** ** Relying on the answers

    [rg R G m Q]: as long as every call so far was answered as [R] says, every
    call satisfies [G] and the result satisfies [Q]. *)

Definition rg `{K8sTypes} {S A} (R G : obs → Prop) (m : M S A) (Q : A → Prop) : Prop :=
  ∀ s tr s' a, exec m s tr s' a → Forall R tr → Forall G tr ∧ Q a.

Section rg_facts.
Context {K : K8sTypes} {S : Type} (R G : obs → Prop).

Lemma rg_ret {A} (a : A) (Q : A → Prop) : Q a → rg R G (mret a : M S A) Q.
Proof. intros HQ s tr s' b Hx _. exec_inv. by split. Qed.

Lemma rg_bind {A B} (m : M S A) (f : A → M S B) (Q : A → Prop) (T : B → Prop) :
  rg R G m Q → (∀ a, Q a → rg R G (f a) T) → rg R G (m ≫= f) T.
Proof.
  intros Hm Hf s tr s' b (tr1&tr2&s1&a&->&H1&H2)%exec_bind [R1 R2]%Forall_app.
  destruct (Hm _ _ _ _ H1 R1) as [? Ha]. destruct (Hf a Ha _ _ _ _ H2 R2) as [? ?].
  split; [|done]. by apply Forall_app.
Qed.

(** The results on success; errors carry no information. *)
Definition on_ok {A} (Q : A → Prop) (r : error + A) : Prop :=
  match r with inl _ => True | inr a => Q a end.

Lemma rg_bindE {A B} (m : M S (error + A)) (f : A → M S (error + B)) Q (T : B → Prop) :
  rg R G m (on_ok Q) → (∀ a, Q a → rg R G (f a) (on_ok T)) → rg R G (bindE m f) (on_ok T).
Proof.
  intros Hm Hf. eapply rg_bind; [exact Hm|]. intros [e|a] Ha; [by apply rg_ret|by apply Hf].
Qed.

Lemma rg_invoke c (Q : ans c → Prop) :
  (∀ x, R (Obs c x) → G (Obs c x) ∧ Q x) → rg R G (invoke c : M S _) Q.
Proof.
  intros HP s tr s' x [-> ->]%exec_invoke HR. rewrite Forall_singleton in HR.
  destruct (HP x HR). split; [by apply Forall_singleton|done].
Qed.

Lemma rg_modify f (Q : unit → Prop) : Q tt → rg R G (modify f : M S _) Q.
Proof. intros HQ s tr s' [] Hx _. exec_inv. auto. Qed.

Lemma rg_makes {A} (m : M S A) (Q : A → Prop) : makes G m → (∀ a, Q a) → rg R G m Q.
Proof. intros Hm HQ s tr s' a Hx _. apply Hm in Hx as [? _]. auto. Qed.

Lemma rg_weaken {A} (m : M S A) (Q Q' : A → Prop) :
  rg R G m Q → (∀ a, Q a → Q' a) → rg R G m Q'.
Proof. intros Hm HQ s tr s' a Hx HR. destruct (Hm _ _ _ _ Hx HR). auto. Qed.

End rg_facts.
