(* ===== verification/External.v ===== *)
(** * The library functions the operator relies on

    [k8s.io/apimachinery]'s condition helpers and semantic equality,
    controller-runtime's [SetControllerReference] and client-go's
    [retry.RetryOnConflict] are not part of this repository. They are the
    operations of the class [Deps], and every definition that uses one is generic
    in the class. [DepsSpec] states what their documentation promises; theorems
    that rely on a promise take it as a hypothesis. The module [Simple] gives one
    implementation that keeps all of the promises, with which the witnesses
    compute. *)

From S2P Require Import Prelude ApiTypes Effects.

(** ** The interface *)

Class Deps {K : K8sTypes} := {
  (** [controllerutil.SetControllerReference(owner, obj, scheme)], on the
      metadata of [obj]. *)
  SetControllerReference : Redkey → ObjectMeta → error + ObjectMeta;
  (** [meta.SetStatusCondition(&conditions, c)] at the instant given. *)
  SetStatusCondition : Time → list Condition → Condition → list Condition;
  (** [meta.FindStatusCondition(conditions, t)] *)
  FindStatusCondition : list Condition → string → option Condition;
  (** [equality.Semantic.DeepEqual] at the types it is used at. *)
  DeepEqual_map : GoMap string → GoMap string → bool;
  DeepEqual_rules : list PolicyRule → list PolicyRule → bool;
  DeepEqual_subjects : list Subject → list Subject → bool;
  (** [equality.Semantic.DeepDerivative(desired, existing)] on pod specs. *)
  DeepDerivative_podspec : PodSpec → PodSpec → bool;
  (** The number of attempts of [retry.DefaultRetry]. *)
  retry_DefaultRetry_Steps : nat;
  (** [retry.RetryOnConflict(backoff, fn)] with a backoff of that many steps; the
      waiting between attempts has no effect on the state. *)
  RetryOnConflict : ∀ {S A : Type}, nat → M S (error + A) → M S (error + A) }.

(** Two conditions that agree on everything but the transition time. *)
Definition same_condition (a b : Condition) : Prop :=
  cond_Type a = cond_Type b ∧ cond_Status a = cond_Status b ∧
  cond_Reason a = cond_Reason b ∧ cond_Message a = cond_Message b ∧
  cond_ObservedGeneration a = cond_ObservedGeneration b.

Class DepsSpec {K : K8sTypes} {D : Deps} : Prop := {
  (** Only the owner references of the object change. *)
  SetControllerReference_meta : ∀ o m m',
    SetControllerReference o m = inr m' →
    m' = mkMeta (om_Name m) (om_Namespace m) (om_Labels m) (om_Annotations m)
           (om_Generation m) (om_ResourceVersion m) (om_CreationTimestamp m)
           (om_OwnerReferences m') (om_rest m);
  (** The condition of the given type has the fields given afterwards... *)
  FindSet_same : ∀ now cs c, ∃ c',
    FindStatusCondition (SetStatusCondition now cs c) (cond_Type c) = Some c' ∧
    same_condition c' c;
  (** ...its transition time changes only when its status does... *)
  FindSet_time : ∀ now cs c old c',
    FindStatusCondition cs (cond_Type c) = Some old →
    cond_Status old = cond_Status c →
    FindStatusCondition (SetStatusCondition now cs c) (cond_Type c) = Some c' →
    cond_LastTransitionTime c' = cond_LastTransitionTime old;
  (** ...and the conditions of other types are left alone. *)
  FindSet_other : ∀ now cs c t,
    t ≠ cond_Type c →
    FindStatusCondition (SetStatusCondition now cs c) t = FindStatusCondition cs t;
  (** Semantic equality identifies nil and empty maps, and nothing else. *)
  DeepEqual_map_spec : ∀ a b, DeepEqual_map a b = true ↔ entries a = entries b;
  DeepEqual_rules_spec : ∀ a b, DeepEqual_rules a b = true ↔ a = b;
  DeepEqual_subjects_spec : ∀ a b, DeepEqual_subjects a b = true ↔ a = b;
  (** Unset fields of the first argument are ignored, so a value derives from itself. *)
  DeepDerivative_refl : ∀ p, DeepDerivative_podspec p p = true;
  retry_DefaultRetry_Steps_pos : 0 < retry_DefaultRetry_Steps;
  (** The last step runs the function and returns what it returned... *)
  RetryOnConflict_last : ∀ S A (fn : M S (error + A)), RetryOnConflict 1 fn = fn;
  (** ...and a step before it runs the function and goes on only after a conflict. *)
  RetryOnConflict_more : ∀ S A n (fn : M S (error + A)),
    RetryOnConflict (Datatypes.S (Datatypes.S n)) fn =
      (r ← fn;
       match r with
       | inl e => if IsConflict e then RetryOnConflict (Datatypes.S n) fn else mret (inl e)
       | inr a => mret (inr a)
       end) }.

(** ** One implementation *)

Module Simple.

#[export] Instance types : K8sTypes := {|
  OwnerReference := string; MetaRest := unit; meta_rest_zero := tt;
  ResourceList := string; ResourceClaim := string;
  EnvVarSource := string; EnvFromSource := string; VolumeMount := string;
  SecurityContext := string; PodSecurityContext := string;
  Affinity := string; Toleration := string; LocalObjectReference := string;
  TopologySpreadConstraint := string; Volume := string; EphemeralContainer := string;
  ContainerRest := unit; container_rest_zero := tt;
  PodSpecRest := unit; podspec_rest_zero := tt;
  DeploymentSpecRest := unit; deployspec_rest_zero := tt;
  DeploymentStatus := unit; deploystatus_zero := tt;
  ServiceAccountRest := unit; serviceaccount_rest_zero := tt;
  LabelSelectorRequirement := string; StatefulSetUpdateStrategy := string;
  PersistentVolumeClaim := string; PVCRetentionPolicy := string;
  StatefulSetOrdinals := string; ServicePort := string; IntOrString := string |}.

Fixpoint find_condition (cs : list Condition) (t : string) : option Condition :=
  match cs with
  | [] => None
  | c :: cs' => if bool_decide (cond_Type c = t) then Some c else find_condition cs' t
  end.

(** The condition stored in place of [old]: the transition time moves only when
    the status changes. *)
Definition replace_condition (now : Time) (old new : Condition) : Condition :=
  mkCondition (cond_Type new) (cond_Status new) (cond_ObservedGeneration new)
    (if bool_decide (cond_Status old = cond_Status new) then cond_LastTransitionTime old
     else match cond_LastTransitionTime new with Some t => Some t | None => Some now end)
    (cond_Reason new) (cond_Message new).

Definition new_condition (now : Time) (c : Condition) : Condition :=
  mkCondition (cond_Type c) (cond_Status c) (cond_ObservedGeneration c)
    (match cond_LastTransitionTime c with Some t => Some t | None => Some now end)
    (cond_Reason c) (cond_Message c).

Fixpoint set_condition (now : Time) (cs : list Condition) (c : Condition) : list Condition :=
  match cs with
  | [] => [new_condition now c]
  | d :: cs' => if bool_decide (cond_Type d = cond_Type c)
                then replace_condition now d c :: cs' else d :: set_condition now cs' c
  end.

Definition set_owner (o : Redkey) (m : ObjectMeta) : error + ObjectMeta :=
  if bool_decide (om_Namespace (rk_meta o) = om_Namespace m) then
    inr (mkMeta (om_Name m) (om_Namespace m) (om_Labels m) (om_Annotations m)
           (om_Generation m) (om_ResourceVersion m) (om_CreationTimestamp m)
           [om_Name (rk_meta o) : OwnerReference] (om_rest m))
  else inl (APIError ReasonOther "cross-namespace owner references are disallowed").

#[export] Instance PolicyRule_eq_dec : EqDecision PolicyRule.
Proof. solve_decision. Defined.
#[export] Instance Subject_eq_dec : EqDecision Subject.
Proof. solve_decision. Defined.
#[export] Instance Resources_eq_dec : EqDecision ResourceRequirements.
Proof. intros [???] [???]. unfold ResourceList, ResourceClaim, types in *. solve_decision. Defined.
#[export] Instance EnvVar_eq_dec : EqDecision EnvVar.
Proof. intros [???] [???]. unfold EnvVarSource, types in *. solve_decision. Defined.
#[export] Instance ContainerPort_eq_dec : EqDecision ContainerPort.
Proof. solve_decision. Defined.
#[export] Instance Container_eq_dec : EqDecision Container.
Proof.
  intros x y. unfold Decision. decide equality; try apply (decide (_ = _));
    unfold EnvFromSource, VolumeMount, SecurityContext, ContainerRest, types in *;
    try apply (decide (_ = _)).
Defined.
#[export] Instance PodSpec_eq_dec : EqDecision PodSpec.
Proof.
  intros x y. unfold Decision. decide equality; try apply (decide (_ = _));
    unfold Volume, TopologySpreadConstraint, LocalObjectReference, PodSecurityContext,
      Affinity, Toleration, PodSpecRest, types in *; try apply (decide (_ = _)).
Defined.

Fixpoint retry {S A} (steps : nat) (fn : M S (error + A)) : M S (error + A) :=
  match steps with
  | Datatypes.S (Datatypes.S _ as n) =>
      r ← fn;
      match r with
      | inl e => if IsConflict e then retry n fn else mret (inl e)
      | inr a => mret (inr a)
      end
  | _ => fn
  end.

#[export] Instance deps : Deps := {|
  SetControllerReference := set_owner;
  SetStatusCondition := set_condition;
  FindStatusCondition := find_condition;
  DeepEqual_map := λ a b, bool_decide (entries a = entries b);
  DeepEqual_rules := λ a b, bool_decide (a = b);
  DeepEqual_subjects := λ a b, bool_decide (a = b);
  DeepDerivative_podspec := λ a b, bool_decide (a = b);
  retry_DefaultRetry_Steps := 5;
  RetryOnConflict := λ S A, retry |}.

#[export] Instance sort : SortSlice := λ A key l, merge_sort (key_le key) l.

Lemma find_set_same now cs c : ∃ c',
  find_condition (set_condition now cs c) (cond_Type c) = Some c' ∧ same_condition c' c.
Proof.
  induction cs as [|d cs IH]; simpl.
  - rewrite bool_decide_eq_true_2 by done. eexists. by split.
  - case_bool_decide; simpl.
    + rewrite bool_decide_eq_true_2 by done. eexists. by split.
    + by rewrite bool_decide_eq_false_2.
Qed.

Lemma find_set_time now cs c old c' :
  find_condition cs (cond_Type c) = Some old → cond_Status old = cond_Status c →
  find_condition (set_condition now cs c) (cond_Type c) = Some c' →
  cond_LastTransitionTime c' = cond_LastTransitionTime old.
Proof.
  induction cs as [|d cs IH]; simpl; [done|]. intros Hold Hst.
  case_bool_decide; simplify_eq; simpl.
  - rewrite bool_decide_eq_true_2 by done. intros [= <-]. simpl.
    by rewrite bool_decide_eq_true_2.
  - rewrite bool_decide_eq_false_2 by done. auto.
Qed.

Lemma find_set_other now cs c t :
  t ≠ cond_Type c → find_condition (set_condition now cs c) t = find_condition cs t.
Proof.
  intros Ht. induction cs as [|d cs IH]; simpl.
  - by rewrite bool_decide_eq_false_2.
  - case_bool_decide as Hd; simpl.
    + rewrite Hd. by rewrite !bool_decide_eq_false_2.
    + by rewrite IH.
Qed.

#[export] Instance deps_spec : DepsSpec.
Proof.
  split; simpl.
  - intros o m m'. unfold set_owner. case_bool_decide; [|done]. by intros [= <-].
  - apply find_set_same.
  - apply find_set_time.
  - apply find_set_other.
  - intros. apply bool_decide_eq_true.
  - intros. apply bool_decide_eq_true.
  - intros. apply bool_decide_eq_true.
  - intros. by apply bool_decide_eq_true.
  - lia.
  - done.
  - done.
Qed.

#[export] Instance sort_spec : SortSliceSpec.
Proof.
  split.
  - intros. apply merge_sort_Permutation.
  - intros A key l. unfold sort_slice, sort.
    apply StronglySorted_merge_sort.
    + intros ???. unfold key_le. lia.
    + intros ??. unfold key_le. lia.
Qed.

End Simple.

(** ** Facts derived from the documented behaviour *)

Section deps_facts.
Context {K : K8sTypes} {D : Deps} {DS : DepsSpec}.

(** The status of a condition after it was set. *)
Lemma FindSet_status now cs c :
  cond_Status <$> FindStatusCondition (SetStatusCondition now cs c) (cond_Type c) =
  Some (cond_Status c).
Proof. destruct (FindSet_same now cs c) as (c'&->&?&?&_). simpl. congruence. Qed.

Lemma DeepEqual_map_refl a : DeepEqual_map a a = true.
Proof. by apply DeepEqual_map_spec. Qed.

Lemma DeepEqual_rules_refl a : DeepEqual_rules a a = true.
Proof. by apply DeepEqual_rules_spec. Qed.

Lemma DeepEqual_subjects_refl a : DeepEqual_subjects a a = true.
Proof. by apply DeepEqual_subjects_spec. Qed.

(** What [SetControllerReference] keeps. *)
Lemma SetControllerReference_keeps o m m' :
  SetControllerReference o m = inr m' →
  om_Name m' = om_Name m ∧ om_Namespace m' = om_Namespace m ∧
  om_Labels m' = om_Labels m ∧ om_Annotations m' = om_Annotations m ∧
  om_Generation m' = om_Generation m.
Proof. intros H. rewrite (SetControllerReference_meta _ _ _ H). done. Qed.

End deps_facts.

#[export] Hint Rewrite @DeepEqual_map_refl @DeepEqual_rules_refl @DeepEqual_subjects_refl
  @DeepDerivative_refl : redkey_simp.

(** ** Retry: what an execution is made of *)

Section retry_facts.
Context {K : K8sTypes} {D : Deps} {DS : DepsSpec} {S A : Type} (fn : M S (error + A)).

(** What holds of the function retried and is kept by going on after a failure holds
    of the whole loop. *)
Lemma retry_ind (P : M S (error + A) → Prop) steps :
  0 < steps → P fn →
  (∀ m, P m → P (r ← fn;
                 match r with
                 | inl e => if IsConflict e then m else mret (inl e)
                 | inr a => mret (inr a)
                 end)) →
  P (RetryOnConflict steps fn).
Proof.
  intros Hs Hfn Hmore. destruct steps as [|n]; [lia|]. clear Hs.
  induction n as [|n IH]; [by rewrite RetryOnConflict_last|].
  rewrite RetryOnConflict_more. by apply Hmore.
Qed.

(** A call property of the function retried is one of the whole loop, and the
    result is one of the results of the function. *)
Lemma triple_RetryOnConflict P Q steps :
  0 < steps → triple P fn Q → triple P (RetryOnConflict steps fn) Q.
Proof.
  intros Hs Hfn. apply retry_ind; [done..|]. intros m Hm. triple_step; [exact Hfn|].
  destruct a as [e|x]; [|by triple_step]. destruct (IsConflict e); [done|by triple_step].
Qed.

Lemma makes_RetryOnConflict P steps :
  0 < steps → makes P fn → makes P (RetryOnConflict steps fn).
Proof. apply triple_RetryOnConflict. Qed.

Lemma keeps_RetryOnConflict {X} (f : S → X) steps :
  0 < steps → keeps f fn → keeps f (RetryOnConflict steps fn).
Proof.
  intros Hs Hfn. apply retry_ind; [done..|]. intros m Hm. keeps_step; [done|].
  destruct a as [e|x]; [|by keeps_step]. destruct (IsConflict e); [done|by keeps_step].
Qed.

Lemma rg_RetryOnConflict R G Q steps :
  0 < steps → rg R G fn Q → rg R G (RetryOnConflict steps fn) Q.
Proof.
  intros Hs Hfn. apply retry_ind; [done..|]. intros m Hm. eapply rg_bind; [exact Hfn|].
  intros [e|x] ?; [|by apply rg_ret]. destruct (IsConflict e); [done|by apply rg_ret].
Qed.

(** One attempt that ended in a conflict. *)
Definition conflicted (tr : list obs) : Prop :=
  ∃ s s' e, exec fn s tr s' (inl e) ∧ IsConflict e = true.

(** An execution of the loop is a sequence of conflicted attempts followed by one
    whose result is returned; there are at most [steps] attempts, and a conflict is
    returned only by the last one allowed. *)
Lemma retry_attempts steps s tr s' r :
  0 < steps → exec (RetryOnConflict steps fn) s tr s' r →
  ∃ failed s0 final, tr = concat failed ++ final ∧ length failed < steps ∧
    Forall conflicted failed ∧ exec fn s0 final s' r ∧
    ∀ e, r = inl e → IsConflict e = true → length failed + 1 = steps.
Proof.
  intros Hpos Hx. destruct steps as [|n]; [lia|]. clear Hpos. revert s tr Hx.
  induction n as [|n IH]; intros s tr Hx.
  { rewrite RetryOnConflict_last in Hx. exists [], s, tr. split_and!; try done. simpl. lia. }
  rewrite RetryOnConflict_more in Hx.
  apply exec_bind in Hx as (tr1&tr2&s1&a&->&H1&H2).
  assert (Hstop : exec (mret a) s1 tr2 s' r → (∀ e, a = inl e → IsConflict e = false) →
    ∃ failed s0 final, tr1 ++ tr2 = concat failed ++ final ∧
    length failed < Datatypes.S (Datatypes.S n) ∧
    Forall conflicted failed ∧ exec fn s0 final s' r ∧
    ∀ e, r = inl e → IsConflict e = true → length failed + 1 = Datatypes.S (Datatypes.S n)).
  { intros Hr He. exec_inv. exists [], s, tr1. rewrite app_nil_r. split_and!; [done|simpl; lia|done..|].
    intros e -> Hc. by rewrite (He e eq_refl) in Hc. }
  destruct a as [e|x]; [|by apply Hstop].
  destruct (IsConflict e) eqn:He; [|apply Hstop; [done|]; by intros ? [= <-]].
  apply IH in H2 as (failed&s0&final&->&Hlen&Hf&Hfin&Hlast).
  exists (tr1 :: failed), s0, final. simpl. rewrite <-app_assoc. split_and!; [done|simpl; lia| |done|].
  - constructor; [|done]. by exists s, s1, e.
  - intros e' Hr Hc. rewrite <-(Hlast e' Hr Hc). lia.
Qed.

End retry_facts.

#[export] Hint Resolve retry_DefaultRetry_Steps_pos : redkey.
