(* ===== verification/Samples.v ===== *)
(** * Concrete objects for the witnesses

    Small Redkey and RedkeyConfig values over the types of [External.Simple], and
    the API server that answers no request, with which the witnesses of the
    theorems are computed. None of these models code of the operator. *)

From S2P Require Import Prelude Strconv ApiTypes Effects External.

Module Sample.
Import Simple.

Definition typemeta : TypeMeta := {| tm_Kind := ""; tm_APIVersion := "" |}.

Definition pdb : Pdb :=
  {| pdb_Enabled := false; pdb_SizeUnavailable := "" : IntOrString;
     pdb_SizeAvailable := "" : IntOrString |}.

Definition robin : RobinSpec :=
  {| robin_Image := "robin:1"; robin_Resources := None; robin_Template := None;
     robin_Config := None |}.

Definition spec (primaries replicas : Z) (ephemeral : bool) : RedkeySpec :=
  {| spec_Auth := mkRedisAuth ""; spec_Version := ""; spec_Mode := ModeCluster;
     spec_Primaries := primaries; spec_ReplicasPerPrimary := replicas;
     spec_Image := "redis:8"; spec_DeletePVC := Some false; spec_Backup := false;
     spec_Robin := robin; spec_SkipIfSuperseded := true;
     spec_PurgeKeysOnRebalance := Some ephemeral; spec_Config := "";
     spec_Resources := None; spec_Labels := Some (Some {["team" := "data"]});
     spec_Annotations := None; spec_Pdb := pdb; spec_Override := None;
     spec_Ephemeral := ephemeral; spec_Storage := if ephemeral then "" else "1Gi";
     spec_StorageClassName := ""; spec_AccessModes := ["ReadWriteOnce"] |}.

Definition status (phase st : string) (observed : Z) : RedkeyStatus :=
  mkRedkeyStatus 0 phase st RedkeySubstatus_zero None [] None observed 0 0.

Definition redkey (gen : Z) (sp : RedkeySpec) (st : RedkeyStatus) : Redkey :=
  mkRedkey typemeta (mkMeta "rk" "ns" None None gen "1" 0 [] tt) sp st.

Definition key : NamespacedName := mkNN "ns" "rk".

Definition config_spec (seq primaries : Z) : RedkeyConfigSpec :=
  {| cs_Sequence := seq; cs_SkipIfSuperseded := true; cs_Mode := ModeCluster;
     cs_Primaries := primaries; cs_ReplicasPerPrimary := 1; cs_Ephemeral := false;
     cs_Storage := "1Gi"; cs_StorageClassName := ""; cs_Image := "redis:8"; cs_Version := "";
     cs_RedisConfig := ""; cs_Resources := None; cs_Auth := mkRedisAuth "";
     cs_Labels := None; cs_Annotations := None; cs_DeletePVC := Some false;
     cs_PurgeKeysOnRebalance := Some false; cs_Override := None; cs_Pdb := pdb;
     cs_RobinConfig := None |}.

Definition config (seq gen primaries : Z) (phase st : string) : RedkeyConfig :=
  mkConfig typemeta
    (mkMeta ("rk-" +:+ FormatInt seq) "ns" (Some {["redkey.inditex.dev/cluster" := "rk"]})
       (Some {["redkey.inditex.dev/cluster-generation" := FormatInt gen]}) 1 "1" 0 [] tt)
    (config_spec seq primaries)
    (mkConfigStatus phase st RedkeySubstatus_zero None [] None 1).

(** The API server is unreachable: every request fails. *)
Definition unreachable : error := APIError ReasonOther "connection refused".

Definition offline (c : call) (w : unit) : unit * ans c :=
  (w, match c return ans c with
      | Get _ _ => inl unreachable | ListConfigs _ _ _ => inl unreachable
      | Create _ _ => inl unreachable | Patch _ _ _ => inl unreachable
      | Delete _ _ => inl unreachable | UpdateStatus _ => inl unreachable
      | Now => 100%Z | Clock => λ i, (100 + Z.of_nat i)%Z
      end).

(** The API server holds one Redkey and its configs, and accepts every write. *)
Definition notfound : error := APIError ReasonNotFound "not found".

Definition online (rk : Redkey) (configs : list RedkeyConfig) (c : call) (w : unit)
    : unit * ans c :=
  (w, match c return ans c with
      | Get KRedkey _ => inr rk | Get _ _ => inl notfound
      | ListConfigs _ _ _ => inr configs
      | Create _ _ => inr tt | Patch _ _ _ => inr tt
      | Delete _ _ => inr tt | UpdateStatus r => inr r
      | Now => 100%Z | Clock => λ i, (100 + Z.of_nat i)%Z
      end).

End Sample.
