(* ===== verification/Metrics.v ===== *)
(** * Operator metrics (src/internal/controller/metrics.go)

    The in-memory trackers of the operator (which operation a Redkey is running,
    which phase it was last seen in) and the calls it makes on its Prometheus
    vectors. The Prometheus client is not part of this repository: a call on a
    vector is recorded as a [metric_op] in the order it is made. What the gauges
    hold afterwards is stated for every gauge store that keeps the documented
    behaviour of [GaugeVec] (class [GaugeStoreSpec]). *)

From S2P Require Import Prelude ApiTypes Effects External Samples.

(** ** Vectors and calls on them *)

Inductive gauge_vec := redkeyPhase | redkeyConfigPhase | redkeyOperationInProgress.

Inductive counter_vec :=
| redkeyOperationTotal | redkeyReconcileStageErrors | redkeyConfigCreations
| redkeyCleanupDeletedConfigs | redkeyRobinDeploymentChanges.

Inductive histogram_vec := redkeyOperationDuration | redkeyTimeToReady.

#[export] Instance gauge_vec_eq_dec : EqDecision gauge_vec.
Proof. solve_decision. Defined.

(** The variable labels of each gauge vector. *)
Definition gauge_labels (v : gauge_vec) : list string :=
  match v with
  | redkeyPhase => ["namespace"; "name"; "phase"]
  | redkeyConfigPhase => ["namespace"; "name"; "config_phase"]
  | redkeyOperationInProgress => ["namespace"; "name"; "operation"]
  end.

Definition counter_labels (v : counter_vec) : list string :=
  match v with
  | redkeyOperationTotal => ["operation"; "result"]
  | redkeyReconcileStageErrors => ["stage"]
  | redkeyConfigCreations => ["reason"]
  | redkeyCleanupDeletedConfigs => []
  | redkeyRobinDeploymentChanges => ["action"]
  end.

Definition histogram_labels (v : histogram_vec) : list string :=
  match v with redkeyOperationDuration => ["operation"] | redkeyTimeToReady => [] end.

(** The name each metric is exposed under. *)
Definition gauge_name (v : gauge_vec) : string :=
  match v with
  | redkeyPhase => "redkey_phase"
  | redkeyConfigPhase => "redkey_config_phase"
  | redkeyOperationInProgress => "redkey_operation_in_progress"
  end.

Definition counter_name (v : counter_vec) : string :=
  match v with
  | redkeyOperationTotal => "redkey_operation_total"
  | redkeyReconcileStageErrors => "redkey_reconcile_stage_errors_total"
  | redkeyConfigCreations => "redkey_config_creations_total"
  | redkeyCleanupDeletedConfigs => "redkey_cleanup_deleted_configs_total"
  | redkeyRobinDeploymentChanges => "redkey_robin_deployment_changes_total"
  end.

Definition histogram_name (v : histogram_vec) : string :=
  match v with
  | redkeyOperationDuration => "redkey_operation_duration_seconds"
  | redkeyTimeToReady => "redkey_time_to_ready_seconds"
  end.

(** [v.WithLabelValues(lvs...).Set(x)], [v.DeletePartialMatch(labels)],
    [v.WithLabelValues(lvs...).Inc()], [v.WithLabelValues(lvs...).Observe(d)].
    Gauge values are 0 and 1; a histogram observation is the duration itself. *)
Inductive metric_op :=
| GaugeSet (v : gauge_vec) (lvs : list string) (x : Z)
| GaugeDeletePartialMatch (v : gauge_vec) (labels : list (string * string))
| CounterInc (v : counter_vec) (lvs : list string)
| HistogramObserve (v : histogram_vec) (lvs : list string) (d : Z).

(** ** Process state *)

Record activeOperation := mkActive { ao_operation : string; ao_startedAt : Time }.

(** [operationTracker.active], [readinessTracker.lastPhase], and the calls made
    on the metric vectors so far. *)
Record OpState := mkOpState {
  os_active : gmap NamespacedName activeOperation;
  os_lastPhase : gmap NamespacedName string;
  os_metrics : list metric_op }.

Definition set_active (f : gmap NamespacedName activeOperation → gmap NamespacedName activeOperation)
  (s : OpState) : OpState := mkOpState (f (os_active s)) (os_lastPhase s) (os_metrics s).
Definition set_lastPhase (f : gmap NamespacedName string → gmap NamespacedName string)
  (s : OpState) : OpState := mkOpState (os_active s) (f (os_lastPhase s)) (os_metrics s).
Definition add_metric (op : metric_op) (s : OpState) : OpState :=
  mkOpState (os_active s) (os_lastPhase s) (os_metrics s ++ [op]).

Definition redkeyPhaseValues : list string := [PhaseReady; PhaseConfiguring; PhaseError].
Definition redkeyConfigPhaseValues : list string :=
  [ConfigPhasePending; ConfigPhaseInProgress; ConfigPhaseSuperseded; ConfigPhaseApplied].

(** A status that counts as a running operation. *)
Definition inOperation (status : string) : bool :=
  negb (bool_decide (status = "")) && negb (bool_decide (status = ClusterStatusReady)) &&
  negb (bool_decide (status = ClusterPhaseError)).

Section metrics.
Context {K : K8sTypes}.

Definition emit (op : metric_op) : M OpState unit := modify (add_metric op).

(** [redkeyReconcileStageErrors.WithLabelValues(stage).Inc()] *)
Definition stage_error (stage : string) : M OpState unit :=
  emit (CounterInc redkeyReconcileStageErrors [stage]).

(** [func (t *opTracker) observe(key, status, phase)], one critical section. *)
Definition observe (key : NamespacedName) (status phase : string) : M OpState unit :=
  current ← gets (λ s, os_active s !! key);
  match inOperation status, current with
  | true, None =>
      now ← invoke Now;
      modify (set_active <[key := mkActive status now]>)
  | true, Some cur =>
      if bool_decide (ao_operation cur = status) then mret tt else
      now ← invoke Now;
      emit (HistogramObserve redkeyOperationDuration [ao_operation cur] (now - ao_startedAt cur)) ;;
      emit (CounterInc redkeyOperationTotal [ao_operation cur; "superseded"]) ;;
      now' ← invoke Now;
      modify (set_active <[key := mkActive status now']>)
  | false, Some cur =>
      let result :=
        if bool_decide (phase = PhaseError) || bool_decide (status = ClusterPhaseError)
        then "error" else "success" in
      now ← invoke Now;
      emit (HistogramObserve redkeyOperationDuration [ao_operation cur] (now - ao_startedAt cur)) ;;
      emit (CounterInc redkeyOperationTotal [ao_operation cur; result]) ;;
      modify (set_active (delete key))
  | false, None => mret tt
  end.

(** [func (t *opTracker) forget(key)] *)
Definition op_forget (key : NamespacedName) : M OpState unit := modify (set_active (delete key)).

(** [func (t *readyTracker) enteredReady(key, phase) bool] *)
Definition enteredReady (key : NamespacedName) (phase : string) : M OpState bool :=
  previous ← gets (λ s, default "" (os_lastPhase s !! key));
  modify (set_lastPhase <[key := phase]>) ;;
  mret (bool_decide (phase = PhaseReady) && negb (bool_decide (previous = PhaseReady))).

(** [func (t *readyTracker) forget(key)] *)
Definition ready_forget (key : NamespacedName) : M OpState unit :=
  modify (set_lastPhase (delete key)).

Definition key_labels (key : NamespacedName) : list (string * string) :=
  [("namespace", nn_Namespace key); ("name", nn_Name key)].

(** The state-set loops: 1 on the active value, 0 on the others. *)
Definition set_state (v : gauge_vec) (key : NamespacedName) (values : list string)
    (active : string) : M OpState unit :=
  forM values (λ x,
    emit (GaugeSet v [nn_Namespace key; nn_Name key; x] (if bool_decide (x = active) then 1 else 0))).

(** [func recordRedkeyMetrics(cluster, activeConfig)] *)
Definition recordRedkeyMetrics (cluster : Redkey) (activeConfig : option RedkeyConfig)
    : M OpState unit :=
  let key := mkNN (om_Namespace (rk_meta cluster)) (om_Name (rk_meta cluster)) in
  let status := st_Status (rk_Status cluster) in
  let phase := st_Phase (rk_Status cluster) in
  observe key status phase ;;
  emit (GaugeDeletePartialMatch redkeyOperationInProgress (key_labels key)) ;;
  (if inOperation status
   then emit (GaugeSet redkeyOperationInProgress [nn_Namespace key; nn_Name key; status] 1)
   else mret tt) ;;
  set_state redkeyPhase key redkeyPhaseValues phase ;;
  match activeConfig with
  | None => emit (GaugeDeletePartialMatch redkeyConfigPhase (key_labels key))
  | Some cfg =>
      set_state redkeyConfigPhase key redkeyConfigPhaseValues (cfg_phase cfg) ;;
      entered ← enteredReady key phase;
      if (entered : bool) then
        now ← invoke Now;
        emit (HistogramObserve redkeyTimeToReady [] (now - om_CreationTimestamp (cfg_meta cfg)))
      else mret tt
  end.

(** [func deleteRedkeyMetrics(key)] *)
Definition deleteRedkeyMetrics (key : NamespacedName) : M OpState unit :=
  emit (GaugeDeletePartialMatch redkeyPhase (key_labels key)) ;;
  emit (GaugeDeletePartialMatch redkeyConfigPhase (key_labels key)) ;;
  emit (GaugeDeletePartialMatch redkeyOperationInProgress (key_labels key)) ;;
  op_forget key ;;
  ready_forget key.

End metrics.

(** ** Gauge stores *)

Class GaugeStore (G : Type) := {
  gauge_set : gauge_vec → list string → Z → G → G;
  gauge_delete : gauge_vec → list (string * string) → G → G;
  gauge_get : G → gauge_vec → list string → option Z }.

(** The label values [lvs] of a series of [v] carry every label of [labels]. *)
Definition label_match (v : gauge_vec) (lvs : list string) (labels : list (string * string))
    : Prop := Forall (λ p, p ∈ zip (gauge_labels v) lvs) labels.

Class GaugeStoreSpec (G : Type) `{GaugeStore G} : Prop := {
  gauge_get_set : ∀ g v lvs x v' lvs',
    gauge_get (gauge_set v lvs x g) v' lvs' =
    if decide (v = v' ∧ lvs = lvs') then Some x else gauge_get g v' lvs';
  gauge_get_delete_match : ∀ g v labels lvs,
    label_match v lvs labels → gauge_get (gauge_delete v labels g) v lvs = None;
  gauge_get_delete_other : ∀ g v labels v' lvs,
    ¬ (v = v' ∧ label_match v lvs labels) →
    gauge_get (gauge_delete v labels g) v' lvs = gauge_get g v' lvs }.

(** The effect of a sequence of calls on the gauges. *)
Definition gauge_apply `{GaugeStore G} (op : metric_op) (g : G) : G :=
  match op with
  | GaugeSet v lvs x => gauge_set v lvs x g
  | GaugeDeletePartialMatch v labels => gauge_delete v labels g
  | _ => g
  end.
Definition gauges_after `{GaugeStore G} (ops : list metric_op) (g : G) : G :=
  foldl (λ g op, gauge_apply op g) g ops.

(** A gauge store that keeps the laws: a finite map from vector and label values. *)
#[export] Instance gauge_vec_countable : Countable gauge_vec.
Proof.
  refine (inj_countable'
    (λ v, match v with redkeyPhase => 0 | redkeyConfigPhase => 1 | _ => 2 end)
    (λ n, match n with 0 => redkeyPhase | 1 => redkeyConfigPhase | _ => redkeyOperationInProgress end) _).
  by intros [].
Defined.

#[export] Instance label_match_dec v lvs labels : Decision (label_match v lvs labels).
Proof. unfold label_match. apply _. Defined.

#[export] Instance map_gauges : GaugeStore (gmap (gauge_vec * list string) Z) := {|
  gauge_set v lvs x g := <[(v, lvs) := x]> g;
  gauge_delete v labels g :=
    filter (λ p, ¬ (p.1.1 = v ∧ label_match v p.1.2 labels)) g;
  gauge_get g v lvs := g !! (v, lvs) |}.

(** ** Reference definitions for the trackers *)

(** A status other than none, "Ready" and "Error" is an operation under way. *)
Definition running (status : string) : bool := bool_decide (status ∉ [""; "Ready"; "Error"]).

(** The result recorded for an operation that ends when [status] and [phase] are
    observed. *)
Definition end_result (status phase : string) : string :=
  if running status then "superseded"
  else if bool_decide (phase = "Error" ∨ status = "Error") then "error" else "success".

(** One observation of a Redkey: the status and phase seen, and what the clock read
    while it was handled. *)
Record observation := mkObservation {
  ob_status : string; ob_phase : string; ob_readings : list Time }.

(** An operation that ended: its name, its result and how long it ran. *)
Record ended := mkEnded { en_operation : string; en_result : string; en_duration : Z }.

(** The operations that end in a sequence of observations: every observation of an
    operation that is followed by one of something else. The operation has run since
    the last reading of the observation that it began with, and until the first
    reading of the one it is not seen in any more. *)
Fixpoint ended_operations (first : string) (since : Time) (l : list observation)
    : list ended :=
  match l with
  | [] => []
  | o :: l' =>
      let changed := negb (bool_decide (first = ob_status o)) in
      (if running first && changed
       then [mkEnded first (end_result (ob_status o) (ob_phase o))
               (default 0 (head (ob_readings o)) - since)%Z]
       else [])
      ++ ended_operations (ob_status o)
           (if changed then default 0%Z (last (ob_readings o)) else since) l'
  end.

(** What the vectors of operations are told of an operation that ended. *)
Definition ended_ops (e : ended) : list metric_op :=
  [HistogramObserve redkeyOperationDuration [en_operation e] (en_duration e);
   CounterInc redkeyOperationTotal [en_operation e; en_result e]].

(** The readings of the clock in a trace that makes no other call. *)
Definition clock_trace `{K8sTypes} (readings : list Time) : list obs := Obs Now <$> readings.

(** The operation tracked for a key; [""] when none is. *)
Definition tracked (s : OpState) (key : NamespacedName) : string :=
  match os_active s !! key with Some a => ao_operation a | None => "" end.

(** When the tracked operation was first seen. *)
Definition tracked_since (s : OpState) (key : NamespacedName) : Time :=
  match os_active s !! key with Some a => ao_startedAt a | None => 0%Z end.

(** The tracker only holds running operations. *)
Definition tracker_wf (s : OpState) : Prop :=
  map_Forall (λ _ a, running (ao_operation a) = true) (os_active s).

(** Observing a Redkey repeatedly. *)
Definition observe_all `{K8sTypes} (key : NamespacedName) (l : list (string * string))
    : M OpState unit := forM l (λ p, observe key p.1 p.2).

(** Feeding a sequence of phases to the readiness tracker, with its answers. *)
Fixpoint ready_all `{K8sTypes} (key : NamespacedName) (l : list string) : M OpState (list bool) :=
  match l with
  | [] => mret []
  | p :: l' => b ← enteredReady key p; bs ← ready_all key l'; mret (b :: bs)
  end.

(** The transitions into Ready of a sequence of phases seen after [prev]. *)
Fixpoint transitions_into_ready (prev : string) (l : list string) : list bool :=
  match l with
  | [] => []
  | p :: l' => (bool_decide (p = PhaseReady) && negb (bool_decide (prev = PhaseReady)))
               :: transitions_into_ready p l'
  end.

(** The calls a state-set loop makes. *)
Definition state_ops (v : gauge_vec) (key : NamespacedName) (values : list string)
    (active : string) : list metric_op :=
  (λ x, GaugeSet v [nn_Namespace key; nn_Name key; x]
          (if bool_decide (x = active) then 1 else 0)) <$> values.

Arguments state_ops : simpl never.

(** A call that leaves the gauges alone. *)
Definition no_gauge (op : metric_op) : Prop :=
  match op with GaugeSet _ _ _ | GaugeDeletePartialMatch _ _ => False | _ => True end.

(** ** The tracker of operations *)

#[export] Instance map_gauges_spec : GaugeStoreSpec (gmap (gauge_vec * list string) Z).
Proof.
  split; simpl.
  - intros g v lvs x v' lvs'. rewrite lookup_insert. repeat case_decide; naive_solver.
  - intros g v labels lvs Hm. apply map_lookup_filter_None_2. right. naive_solver.
  - intros g v labels v' lvs Hn. apply option_eq. intros x.
    rewrite map_lookup_filter_Some. simpl. naive_solver.
Qed.

Section tracker_facts.
Context {K : K8sTypes}.
Implicit Types (key : NamespacedName) (s : OpState).

Lemma add_metric_metrics op s : os_metrics (add_metric op s) = os_metrics s ++ [op].
Proof. done. Qed.

Lemma exec_emit op s tr s' u :
  exec (emit op) s tr s' u ↔ tr = [] ∧ s' = add_metric op s.
Proof. apply exec_modify. Qed.

Lemma inOperation_running status : inOperation status = running status.
Proof.
  unfold inOperation, running, ClusterStatusReady, ClusterPhaseError.
  repeat case_bool_decide; simpl; try done; set_solver.
Qed.

Lemma tracked_wf s key :
  tracker_wf s → running (tracked s key) = bool_decide (is_Some (os_active s !! key)).
Proof.
  unfold tracked, tracker_wf. intros Hwf. destruct (os_active s !! key) as [a|] eqn:E.
  - rewrite bool_decide_eq_true_2 by eauto. by apply (Hwf key).
  - rewrite bool_decide_eq_false_2; [done|]. by intros [? ?].
Qed.

(** What an observation ends, if something was being tracked. *)
Definition ended_now (first : string) (since : Time) (o : observation) : list ended :=
  if running first && negb (bool_decide (first = ob_status o))
  then [mkEnded first (end_result (ob_status o) (ob_phase o))
          (default 0 (head (ob_readings o)) - since)%Z]
  else [].

(** One observation: which operation is tracked afterwards and since when, and which
    ended. *)
Lemma observe_spec key status phase s tr s' u :
  tracker_wf s → exec (observe key status phase) s tr s' u →
  tracker_wf s' ∧ os_lastPhase s' = os_lastPhase s ∧
  delete key (os_active s') = delete key (os_active s) ∧
  tracked s' key = (if running status then status else "") ∧
  ∃ rs, tr = clock_trace rs ∧
    (running status = true →
       tracked_since s' key = if bool_decide (tracked s key = status) then tracked_since s key
                              else default 0%Z (last rs)) ∧
    os_metrics s' = os_metrics s ++
      (ended_now (tracked s key) (tracked_since s key) (mkObservation status phase rs) ≫= ended_ops).
Proof.
  intros Hwf Hx. unfold observe in Hx. rewrite inOperation_running in Hx. exec_step. exec_step.
  unfold ended_now. cbn [ob_status ob_phase ob_readings].
  rewrite tracked_wf by done. unfold tracked, tracked_since, end_result, clock_trace.
  destruct (running status) eqn:Hop, (os_active s !! key) as [cur|] eqn:Hcur;
    simpl in *; [case_bool_decide|..]; unfold emit in *; exec_inv.
  - rewrite Hcur. split_and!; [done..|]. exists []. split_and!; [done|done|by rewrite app_nil_r].
  - split_and!; [by apply map_Forall_insert_2|done|by rewrite delete_insert_eq
      |by rewrite lookup_insert_eq|].
    eexists [_; _]. split_and!; [done|by rewrite lookup_insert_eq|].
    rewrite <-app_assoc. done.
  - split_and!; [by apply map_Forall_insert_2|done|by rewrite delete_insert_eq
      |by rewrite lookup_insert_eq|].
    eexists [_]. split_and!; [done| |by rewrite app_nil_r].
    intros _. rewrite lookup_insert_eq. case_bool_decide as E; [|done]. by subst.
  - assert (running (ao_operation cur) = true) as Hc by (by apply (Hwf key)).
    split_and!; [by apply map_Forall_delete|done|by rewrite delete_delete_eq
      |by rewrite lookup_delete_eq|].
    eexists [_]. split_and!; [done|done|].
    rewrite (bool_decide_eq_false_2 (ao_operation cur = status)) by (intros <-; congruence).
    rewrite <-app_assoc, bool_decide_or. done.
  - rewrite Hcur. split_and!; [done..|]. exists []. split_and!; [done|done|by rewrite app_nil_r].
Qed.

(** What ends next depends on what was seen only when it is an operation. *)
Lemma ended_operations_idle a b t t' l :
  running a = false → running b = false → ended_operations a t l = ended_operations b t' l.
Proof.
  revert a b t t'. induction l as [|o l IH]; intros a b t t' Ha Hb; cbn [ended_operations]; [done|].
  rewrite Ha, Hb. simpl. destruct (running (ob_status o)) eqn:Ho; [|by apply IH].
  rewrite !bool_decide_eq_false_2 by congruence. done.
Qed.

Lemma clock_trace_app rs rs' : clock_trace (rs ++ rs') = clock_trace rs ++ clock_trace rs'.
Proof. apply fmap_app. Qed.

Lemma observe_all_spec key l s tr s' u :
  tracker_wf s → exec (observe_all key l) s tr s' u →
  tracker_wf s' ∧
  ∃ rss, length rss = length l ∧ tr = clock_trace (concat rss) ∧
    os_metrics s' = os_metrics s ++
      (ended_operations (tracked s key) (tracked_since s key)
         (zip_with (λ p rs, mkObservation p.1 p.2 rs) l rss) ≫= ended_ops).
Proof.
  revert s tr. induction l as [|[status ph] l IH]; intros s tr Hwf Hx.
  - unfold observe_all in Hx. simpl in Hx. exec_inv. split; [done|].
    exists []. by rewrite app_nil_r.
  - apply exec_forM_cons in Hx as (tr1&tr2&s1&->&H1&H2). simpl in H1.
    apply observe_spec in H1 as (Hwf1&_&_&Ht&rs&->&Hs&Hm1); [|done].
    destruct (IH s1 tr2 Hwf1 H2) as (Hwf'&rss&Hlen&->&Hm2). split; [done|].
    exists (rs :: rss). cbn [length concat zip_with fst snd ended_operations].
    rewrite clock_trace_app. split_and!; [by f_equal|done|].
    rewrite Hm2, Hm1, bind_app, <-app_assoc. f_equal. f_equal. f_equal.
    cbn [ob_status ob_readings]. rewrite Ht. destruct (running status) eqn:Hst.
    + rewrite Hs by done. by case_bool_decide.
    + by apply ended_operations_idle.
Qed.

Lemma ready_all_spec key l s tr s' bs :
  exec (ready_all key l) s tr s' bs →
  bs = transitions_into_ready (default "" (os_lastPhase s !! key)) l.
Proof.
  revert s tr bs. induction l as [|p l IH]; intros s tr bs Hx; simpl in *; [by exec_inv|].
  unfold enteredReady in Hx. exec_inv.
  match goal with H : exec (ready_all _ _) _ _ _ _ |- _ => apply IH in H end.
  subst. simpl. by rewrite lookup_insert_eq.
Qed.

End tracker_facts.

(** ** The gauges *)

Section gauge_facts.
Context {K : K8sTypes} `{GaugeStoreSpec G}.
Implicit Types (key : NamespacedName) (g : G).

Definition series (key : NamespacedName) (x : string) : list string :=
  [nn_Namespace key; nn_Name key; x].

Lemma gauges_after_app ops ops' g :
  gauges_after (ops ++ ops') g = gauges_after ops' (gauges_after ops g).
Proof. apply foldl_app. Qed.

Lemma gauges_after_none ops g : Forall no_gauge ops → gauges_after ops g = g.
Proof.
  revert g. induction ops as [|op ops IH]; intros g Hf; [done|].
  apply Forall_cons in Hf as [Ho Hf]. simpl. rewrite IH by done. by destruct op.
Qed.

(** Every series of a key carries the labels of the key, and no other does. *)
Lemma label_match_series v key key' x :
  label_match v (series key x) (key_labels key') ↔ key = key'.
Proof.
  unfold label_match, key_labels, series. destruct key as [a b], key' as [a' b'].
  rewrite !Forall_cons, Forall_nil. destruct v; simpl; set_solver.
Qed.

Lemma gauge_get_delete_series v key g v' key' x :
  gauge_get (gauge_delete v (key_labels key) g) v' (series key' x) =
  if decide (v = v' ∧ key' = key) then None else gauge_get g v' (series key' x).
Proof.
  case_decide as Hd.
  - destruct Hd as [-> ->]. by apply gauge_get_delete_match, label_match_series.
  - apply gauge_get_delete_other. by rewrite label_match_series.
Qed.

(** The state-set loop writes each value of the set and nothing else. *)
Lemma gauge_get_state_ops v key values active g v' key' x :
  gauge_get (gauges_after (state_ops v key values active) g) v' (series key' x) =
  if decide (v = v' ∧ key = key' ∧ x ∈ values)
  then Some (if bool_decide (x = active) then 1%Z else 0%Z)
  else gauge_get g v' (series key' x).
Proof.
  revert g. induction values as [|y values IH]; intros g.
  - simpl. rewrite decide_False by set_solver. done.
  - unfold state_ops in *. simpl. rewrite IH.
    change [nn_Namespace key; nn_Name key; y] with (series key y).
    rewrite gauge_get_set. destruct key as [a b], key' as [a' b']. unfold series. simpl.
    repeat case_decide; set_solver.
Qed.

Lemma exec_set_state v key values active s tr s' u :
  exec (set_state v key values active) s tr s' u →
  os_active s' = os_active s ∧ os_lastPhase s' = os_lastPhase s ∧
  os_metrics s' = os_metrics s ++ state_ops v key values active.
Proof.
  revert s tr. unfold set_state, state_ops.
  induction values as [|y values IH]; intros s tr Hx; simpl in Hx; unfold emit in *; exec_inv.
  - by rewrite app_nil_r.
  - match goal with H : exec _ _ _ _ _ |- _ => apply IH in H as (->&->&->) end.
    simpl. by rewrite <-app_assoc.
Qed.

(** The tracker of operations never touches the gauges. *)
Lemma observe_gauges key status phase s tr s' u :
  exec (observe key status phase) s tr s' u →
  ∃ ops, os_metrics s' = os_metrics s ++ ops ∧ Forall no_gauge ops.
Proof.
  intros Hx. unfold observe in Hx. exec_step. exec_step.
  destruct (inOperation status), (os_active s !! key) as [cur|];
    simpl in *; [case_bool_decide|..]; unfold emit in *; exec_inv;
    first [ by exists []; rewrite app_nil_r
          | eexists; rewrite <-?app_assoc; split; [done|by repeat constructor] ].
Qed.

(** The gauge calls of [recordRedkeyMetrics]. *)
Definition record_gauge_ops (cluster : Redkey) (cfg : option RedkeyConfig) : list metric_op :=
  let key := meta_key (rk_meta cluster) in
  let status := st_Status (rk_Status cluster) in
  GaugeDeletePartialMatch redkeyOperationInProgress (key_labels key) ::
  (if inOperation status then [GaugeSet redkeyOperationInProgress (series key status) 1] else []) ++
  state_ops redkeyPhase key redkeyPhaseValues (st_Phase (rk_Status cluster)) ++
  match cfg with
  | None => [GaugeDeletePartialMatch redkeyConfigPhase (key_labels key)]
  | Some c => state_ops redkeyConfigPhase key redkeyConfigPhaseValues (cfg_phase c)
  end.

Lemma recordRedkeyMetrics_ops cluster cfg s tr s' u :
  exec (recordRedkeyMetrics cluster cfg) s tr s' u →
  ∃ ops1 ops2, Forall no_gauge ops1 ∧ Forall no_gauge ops2 ∧
    os_metrics s' = os_metrics s ++ ops1 ++ record_gauge_ops cluster cfg ++ ops2.
Proof.
  unfold recordRedkeyMetrics, record_gauge_ops, meta_key. intros Hx.
  exec_step. match goal with H : exec (observe _ _ _) _ _ _ _ |- _ =>
    apply observe_gauges in H as (ops1&Hm1&Hn1) end.
  unfold emit in *. do 3 exec_step.
  match goal with H : exec (if _ then _ else _) _ _ ?s2 _ |- _ =>
    assert (os_metrics s2 = os_metrics s ++ ops1 ++
      GaugeDeletePartialMatch redkeyOperationInProgress
        (key_labels (mkNN (om_Namespace (rk_meta cluster)) (om_Name (rk_meta cluster)))) ::
      (if inOperation (st_Status (rk_Status cluster)) then
        [GaugeSet redkeyOperationInProgress
          (series (mkNN (om_Namespace (rk_meta cluster)) (om_Name (rk_meta cluster)))
             (st_Status (rk_Status cluster))) 1] else [])) as Hm2
      by (destruct (inOperation _); exec_inv; rewrite Hm1, <-!app_assoc; simpl;
          rewrite <-?app_assoc; done); clear H
  end.
  exec_step. match goal with H : exec (set_state _ _ _ _) _ _ _ _ |- _ =>
    apply exec_set_state in H as (_&_&Hm3) end.
  exists ops1. destruct cfg as [c|]; exec_inv.
  - match goal with H : exec (set_state _ _ _ _) _ _ _ _ |- _ =>
      apply exec_set_state in H as (_&_&Hm4) end.
    unfold enteredReady in *. exec_inv.
    match goal with H : exec (if ?b then _ else _) _ _ _ _ |- _ => destruct b end; exec_inv.
    + eexists. split; [done|]. apply and_comm. split.
      * rewrite Hm4, Hm3, Hm2. simpl. unfold state_ops. by repeat (rewrite <-?app_assoc; simpl).
      * by repeat constructor.
    + exists []. split_and!; [done..|].
      rewrite Hm4, Hm3, Hm2, app_nil_r. simpl. unfold state_ops. by repeat (rewrite <-?app_assoc; simpl).
  - exists []. split_and!; [done..|].
    rewrite Hm3, Hm2, app_nil_r. simpl. unfold state_ops. by repeat (rewrite <-?app_assoc; simpl).
Qed.

Lemma series_inj k k' x x' : series k x = series k' x' ↔ k = k' ∧ x = x'.
Proof.
  unfold series. destruct k, k'. simpl. split; [|by intros [[= -> ->] ->]].
  by intros [= -> -> ->].
Qed.

Lemma gauge_get_in_progress k status g v key x :
  gauge_get (gauges_after (GaugeDeletePartialMatch redkeyOperationInProgress (key_labels k)
      :: (if inOperation status then [GaugeSet redkeyOperationInProgress (series k status) 1]
          else [])) g) v (series key x) =
  if decide (v = redkeyOperationInProgress ∧ key = k) then
    if inOperation status && bool_decide (x = status) then Some 1%Z else None
  else gauge_get g v (series key x).
Proof.
  assert (gauge_get (gauge_delete redkeyOperationInProgress (key_labels k) g) v (series key x) =
    if decide (v = redkeyOperationInProgress ∧ key = k) then None
    else gauge_get g v (series key x)) as Hd.
  { rewrite gauge_get_delete_series. repeat case_decide; naive_solver. }
  destruct (inOperation status); simpl; rewrite ?gauge_get_set, Hd; [|done].
  rewrite (decide_ext _ (v = redkeyOperationInProgress ∧ key = k ∧ x = status))
    by (rewrite series_inj; naive_solver).
  repeat (case_decide || case_bool_decide); naive_solver.
Qed.

Lemma gauge_get_config_ops k cfg g v key x :
  gauge_get (gauges_after match cfg with
     | None => [GaugeDeletePartialMatch redkeyConfigPhase (key_labels k)]
     | Some c => state_ops redkeyConfigPhase k redkeyConfigPhaseValues (cfg_phase c) end g)
     v (series key x) =
  if decide (v = redkeyConfigPhase ∧ key = k) then
    match cfg with
    | None => None
    | Some c => if decide (x ∈ redkeyConfigPhaseValues)
                then Some (if bool_decide (x = cfg_phase c) then 1%Z else 0%Z)
                else gauge_get g v (series key x)
    end
  else gauge_get g v (series key x).
Proof.
  destruct cfg as [c|].
  - rewrite gauge_get_state_ops. repeat case_decide; naive_solver.
  - simpl. rewrite gauge_get_delete_series. repeat case_decide; naive_solver.
Qed.

Lemma gauge_get_record_ops cluster cfg g v key x :
  gauge_get (gauges_after (record_gauge_ops cluster cfg) g) v (series key x) =
  let st := rk_Status cluster in
  if decide (key = meta_key (rk_meta cluster)) then
    match v with
    | redkeyOperationInProgress =>
        if inOperation (st_Status st) && bool_decide (x = st_Status st) then Some 1%Z else None
    | redkeyPhase =>
        if decide (x ∈ redkeyPhaseValues)
        then Some (if bool_decide (x = st_Phase st) then 1%Z else 0%Z)
        else gauge_get g v (series key x)
    | redkeyConfigPhase =>
        match cfg with
        | None => None
        | Some c => if decide (x ∈ redkeyConfigPhaseValues)
                    then Some (if bool_decide (x = cfg_phase c) then 1%Z else 0%Z)
                    else gauge_get g v (series key x)
        end
    end
  else gauge_get g v (series key x).
Proof.
  unfold record_gauge_ops. cbv zeta. set (k := meta_key (rk_meta cluster)).
  rewrite app_comm_cons, gauges_after_app, gauges_after_app.
  rewrite gauge_get_config_ops, gauge_get_state_ops, gauge_get_in_progress.
  destruct (decide (key = k)) as [->|Hk].
  - destruct v; repeat (rewrite decide_True by done || rewrite decide_False by (intros [? _]; done));
      try done; repeat case_decide; naive_solver.
  - rewrite !decide_False by naive_solver. done.
Qed.

End gauge_facts.

(** ** Theorems *)

Section metrics_theorems.
Context {K : K8sTypes}.

(** C30: After [recordRedkeyMetrics], every gauge series of the Redkey holds what
    the state-set convention demands: 1 on the active phase and 0 on every other
    phase, the same for the phase of the active config (no series at all without
    one), a single in-progress series exactly while a non-terminal operation runs;
    and no series of another Redkey changed. This holds for every gauge store with
    the documented behaviour and whatever it held before. *)
Theorem recordRedkeyMetrics_gauges `{GaugeStoreSpec G} cluster cfg s tr s' u (g : G) v key x :
  exec (recordRedkeyMetrics cluster cfg) s tr s' u →
  gauge_get (gauges_after (os_metrics s') g) v (series key x) =
  let st := rk_Status cluster in
  let before := gauge_get (gauges_after (os_metrics s) g) v (series key x) in
  if decide (key = meta_key (rk_meta cluster)) then
    match v with
    | redkeyOperationInProgress =>
        if inOperation (st_Status st) && bool_decide (x = st_Status st) then Some 1%Z else None
    | redkeyPhase =>
        if decide (x ∈ redkeyPhaseValues)
        then Some (if bool_decide (x = st_Phase st) then 1%Z else 0%Z) else before
    | redkeyConfigPhase =>
        match cfg with
        | None => None
        | Some c => if decide (x ∈ redkeyConfigPhaseValues)
                    then Some (if bool_decide (x = cfg_phase c) then 1%Z else 0%Z) else before
        end
    end
  else before.
Proof.
  intros Hx. apply recordRedkeyMetrics_ops in Hx as (ops1&ops2&H1&H2&->).
  rewrite !gauges_after_app, (gauges_after_none ops2), gauge_get_record_ops by done.
  by rewrite (gauges_after_none ops1).
Qed.

(** C31: Tracking operations is exact: over any sequence of observations of a
    Redkey the operator reads the clock, and tells the vectors of operations of
    precisely the operations that ended, in order: every observation of an operation
    followed by an observation of something else, with one duration, from the reading
    at which the operation was first seen to the reading at which it was no longer,
    and one completion with its result (superseded by another operation, error or
    success). No other metric moves. *)
Theorem observe_all_counts_ended_operations key l s tr s' u :
  tracker_wf s → exec (observe_all key l) s tr s' u →
  ∃ rss, length rss = length l ∧ tr = clock_trace (concat rss) ∧
    os_metrics s' = os_metrics s ++
      (ended_operations (tracked s key) (tracked_since s key)
         (zip_with (λ p rs, mkObservation p.1 p.2 rs) l rss) ≫= ended_ops).
Proof. intros Hwf Hx. by apply observe_all_spec in Hx as [_ ?]. Qed.

(** C32: Readiness is reported exactly on the transitions into Ready: fed any
    sequence of phases, the tracker answers true at the positions where the phase
    is Ready and the one before it was not. *)
Theorem ready_all_reports_transitions key l s tr s' bs :
  exec (ready_all key l) s tr s' bs →
  bs = transitions_into_ready (default "" (os_lastPhase s !! key)) l.
Proof. apply ready_all_spec. Qed.

(** Forgetting a deleted Redkey leaves nothing of it behind: no gauge series
    of any vector, no tracked operation and no remembered phase; everything that
    belongs to other Redkeys is untouched. *)
Theorem deleteRedkeyMetrics_forgets `{GaugeStoreSpec G} key s tr s' u (g : G) :
  exec (deleteRedkeyMetrics key) s tr s' u →
  (∀ v x, gauge_get (gauges_after (os_metrics s') g) v (series key x) = None) ∧
  os_active s' = delete key (os_active s) ∧
  os_lastPhase s' = delete key (os_lastPhase s) ∧
  (∀ v key' x, key' ≠ key →
     gauge_get (gauges_after (os_metrics s') g) v (series key' x) =
     gauge_get (gauges_after (os_metrics s) g) v (series key' x)).
Proof.
  intros Hx. unfold deleteRedkeyMetrics, op_forget, ready_forget, emit in Hx. exec_inv.
  rewrite <-!app_assoc, gauges_after_app. simpl. split_and!; [|done|done|].
  - intros v x. rewrite !gauge_get_delete_series. destruct v; repeat case_decide; naive_solver.
  - intros v key' x Hk. rewrite !gauge_get_delete_series.
    by rewrite !decide_False by naive_solver.
Qed.

End metrics_theorems.

(** ** Witnesses *)

Section metrics_witnesses.
Import Simple.

Definition w_redkey : Redkey :=
  Sample.redkey 1 (Sample.spec 3 1 false) (Sample.status PhaseReady ClusterStatusReady 1).
Definition w_config : RedkeyConfig := Sample.config 1 1 3 ConfigPhaseApplied ClusterStatusReady.
Definition w_state : OpState := mkOpState ∅ ∅ [].
Definition w_record : M OpState unit := recordRedkeyMetrics w_redkey (Some w_config).

Lemma recordRedkeyMetrics_gauges_witness :
  gauge_get (gauges_after (os_metrics (run Sample.offline (w_record w_state) tt).2.1)
    (∅ : gmap (gauge_vec * list string) Z)) redkeyPhase (series Sample.key PhaseReady) = Some 1%Z.
Proof.
  rewrite (recordRedkeyMetrics_gauges w_redkey (Some w_config) w_state _ _ _ _ redkeyPhase
    Sample.key PhaseReady (exec_run Sample.offline w_record w_state tt)).
  reflexivity.
Defined.

Definition w_observations : list (string * string) :=
  [("ScalingUp", "Configuring"); ("ScalingUp", "Configuring"); ("Upgrading", "Configuring");
   ("Ready", "Ready"); ("Rebalancing", "Ready"); ("Error", "Error")].

(** A clock that advances by one at every reading. *)
Definition w_ticking (c : call) (now : Z) : Z * ans c :=
  match c return Z * ans c with
  | Now => (now + 1, now)%Z
  | c => (now, (Sample.offline c tt).2)
  end.

Lemma observe_all_counts_ended_operations_witness :
  let out := run w_ticking (observe_all Sample.key w_observations w_state) 100%Z in
  os_metrics out.2.1 = os_metrics w_state ++
    ([mkEnded "ScalingUp" "superseded" 1; mkEnded "Upgrading" "success" 1;
      mkEnded "Rebalancing" "error" 1] ≫= ended_ops) ∧
  ∃ rss, length rss = 6 ∧ os_metrics out.2.1 = os_metrics w_state ++
    (ended_operations "" 0 (zip_with (λ p rs, mkObservation p.1 p.2 rs) w_observations rss)
       ≫= ended_ops).
Proof.
  split; [vm_compute; reflexivity|].
  destruct (observe_all_counts_ended_operations Sample.key w_observations w_state _ _ _
    (map_Forall_empty _) (exec_run w_ticking _ w_state 100%Z)) as (rss&Hl&_&Hm).
  exists rss. split; [exact Hl|exact Hm].
Defined.

Lemma ready_all_reports_transitions_witness :
  (run Sample.offline (ready_all Sample.key ["Ready"; "Ready"; "Configuring"; "Ready"] w_state)
     tt).2.2 = [true; false; false; true].
Proof.
  exact (ready_all_reports_transitions Sample.key ["Ready"; "Ready"; "Configuring"; "Ready"]
    w_state _ _ _ (exec_run Sample.offline _ w_state tt)).
Defined.

Lemma deleteRedkeyMetrics_forgets_witness :
  gauge_get (gauges_after
    (os_metrics (run Sample.offline (deleteRedkeyMetrics Sample.key w_state) tt).2.1)
    ({[(redkeyPhase, series Sample.key PhaseReady) := 1%Z]} : gmap (gauge_vec * list string) Z))
    redkeyPhase (series Sample.key PhaseReady) = None.
Proof.
  exact (proj1 (deleteRedkeyMetrics_forgets Sample.key w_state _ _ _ _
    (exec_run Sample.offline _ w_state tt)) redkeyPhase PhaseReady).
Defined.

End metrics_witnesses.
