(* ===== verification/Metadata.v ===== *)
(** * Labels, annotations and environment variables
      (helpers of src/internal/controller/redkey_robin.go)

    The pure functions with which the operator combines what the user asks for
    with what it needs itself: block replacement and precedence of labels and
    annotations, annotations that Kubernetes manages, and environment variables
    merged by name through an index. *)

From S2P Require Import Prelude ApiTypes Effects External Samples.

(** ** Definitions *)

Definition SequenceAnnotation := "redkey.inditex.dev/config-sequence".
Definition ClusterLabel := "redkey.inditex.dev/cluster".
Definition ComponentLabel := "redkey.inditex.dev/component".
Definition GenerationAnnotation := "redkey.inditex.dev/cluster-generation".
Definition deploymentRevisionAnnotation := "deployment.kubernetes.io/revision".

(** [func derefMap(m *map[string]string) map[string]string] *)
Definition derefMap (m : option (GoMap string)) : GoMap string :=
  match m with None => None | Some m => m end.

(** A map that was built entry by entry, returned as nil when it is empty. *)
Definition nil_if_empty (out : gmap string string) : GoMap string :=
  if bool_decide (size out = 0) then None else Some out.

(** [func mergeMeta(spec, override, base)] *)
Definition mergeMeta (spec override base : GoMap string) : GoMap string :=
  let out := if bool_decide (0 < map_len override)
             then maps_Copy ∅ (entries override) else maps_Copy ∅ (entries spec) in
  nil_if_empty (maps_Copy out (entries base)).

(** [func stripManagedAnnotations(annotations)] *)
Definition stripManagedAnnotations (annotations : GoMap string) : GoMap string :=
  match map_get annotations deploymentRevisionAnnotation with
  | None => annotations
  | Some _ =>
      nil_if_empty (filter (λ kv, kv.1 ≠ deploymentRevisionAnnotation) (entries annotations))
  end.

(** [func preserveManagedAnnotations(existing, desired)] *)
Definition preserveManagedAnnotations (existing desired : GoMap string) : GoMap string :=
  match map_get existing deploymentRevisionAnnotation with
  | None => desired
  | Some rev =>
      Some (<[deploymentRevisionAnnotation := rev]> (maps_Copy ∅ (entries desired)))
  end.

Section env.
Context {K : K8sTypes}.
Implicit Types (e : EnvVar) (l base overrides merged : list EnvVar).

(** The map from names to positions; a later duplicate overwrites an earlier one. *)
Fixpoint indexByName_from (i : nat) (l : list EnvVar) (m : gmap string nat) : gmap string nat :=
  match l with
  | [] => m
  | e :: l' => indexByName_from (S i) l' (<[env_Name e := i]> m)
  end.

(** The second loop: [merged] and the index are updated together. *)
Fixpoint mergeEnvVars_loop (overrides merged : list EnvVar) (index : gmap string nat)
    : list EnvVar :=
  match overrides with
  | [] => merged
  | e :: overrides' =>
      match index !! env_Name e with
      | Some i => mergeEnvVars_loop overrides' (<[i := e]> merged) index
      | None => mergeEnvVars_loop overrides' (merged ++ [e])
                  (<[env_Name e := length merged]> index)
      end
  end.

(** [func mergeEnvVars(base, overrides)] *)
Definition mergeEnvVars (base overrides : list EnvVar) : list EnvVar :=
  mergeEnvVars_loop overrides base (indexByName_from 0 base ∅).

(** ** The reference merge, without an index *)

Definition names (l : list EnvVar) : list string := env_Name <$> l.

(** Replace the variable of the same name, or append. *)
Definition upsert (l : list EnvVar) (e : EnvVar) : list EnvVar :=
  if decide (env_Name e ∈ names l)
  then (λ x, if decide (env_Name x = env_Name e) then e else x) <$> l
  else l ++ [e].

Definition merge_ref (base overrides : list EnvVar) : list EnvVar := foldl upsert base overrides.

(** The first variable with a given name. *)
Fixpoint env_lookup (l : list EnvVar) (n : string) : option EnvVar :=
  match l with
  | [] => None
  | e :: l' => if decide (env_Name e = n) then Some e else env_lookup l' n
  end.

(** The last variable with a given name. *)
Fixpoint last_named (l : list EnvVar) (n : string) : option EnvVar :=
  match l with
  | [] => None
  | e :: l' => match last_named l' n with
               | Some e' => Some e'
               | None => if decide (env_Name e = n) then Some e else None
               end
  end.

(** The index agrees with the list: it maps each name to its position. *)
Definition index_ok (index : gmap string nat) (l : list EnvVar) : Prop :=
  NoDup (names l) ∧ ∀ n i, index !! n = Some i ↔ names l !! i = Some n.

End env.

(** ** Merging metadata *)

Lemma nil_if_empty_entries out : entries (nil_if_empty out) = out.
Proof.
  unfold nil_if_empty. case_bool_decide as Hs; [|done].
  by apply map_size_empty_inv in Hs as ->.
Qed.

Lemma map_get_nil_if_empty out k : map_get (nil_if_empty out) k = out !! k.
Proof. unfold map_get. by rewrite nil_if_empty_entries. Qed.

Lemma map_get_mergeMeta spec override base k :
  map_get (mergeMeta spec override base) k =
  match map_get base k with
  | Some v => Some v
  | None => if bool_decide (0 < map_len override) then map_get override k else map_get spec k
  end.
Proof.
  unfold mergeMeta. rewrite map_get_nil_if_empty, lookup_maps_Copy. unfold map_get.
  destruct (entries base !! k); [done|].
  case_bool_decide; rewrite lookup_maps_Copy, lookup_empty; by case_match.
Qed.

Lemma map_get_mergeMeta_spec spec k : map_get (mergeMeta spec None None) k = map_get spec k.
Proof. by rewrite map_get_mergeMeta, map_get_None. Qed.

(** One entry set over those of the user. *)
Lemma map_get_mergeMeta_base spec k0 v0 k :
  map_get (mergeMeta spec None (Some {[k0 := v0]})) k =
  if decide (k = k0) then Some v0 else map_get spec k.
Proof.
  rewrite map_get_mergeMeta. unfold map_get at 1. simpl. case_decide as Hk.
  - subst. by rewrite lookup_singleton_eq.
  - by rewrite lookup_singleton_ne.
Qed.

Lemma mergeMeta_base_wins spec override base k v :
  map_get base k = Some v → map_get (mergeMeta spec override base) k = Some v.
Proof. intros Hk. by rewrite map_get_mergeMeta, Hk. Qed.

Lemma nil_if_empty_None out : nil_if_empty out = None ↔ out = ∅.
Proof.
  unfold nil_if_empty. rewrite <-map_size_empty_iff. case_bool_decide; naive_solver.
Qed.

Lemma map_union_empty_iff (m1 m2 : gmap string string) : m1 ∪ m2 = ∅ ↔ m1 = ∅ ∧ m2 = ∅.
Proof.
  split; [|intros [-> ->]; apply (left_id_L ∅ (∪))]. intros Hu.
  split; apply map_empty; intros k; apply (f_equal (.!! k)) in Hu;
    rewrite lookup_empty in Hu; by apply lookup_union_None in Hu as [??].
Qed.

#[export] Hint Rewrite map_get_nil_if_empty nil_if_empty_entries : redkey_simp.

(** ** Annotations managed by Kubernetes *)

Lemma entries_strip a :
  entries (stripManagedAnnotations a) = delete deploymentRevisionAnnotation (entries a).
Proof.
  unfold stripManagedAnnotations, map_get.
  destruct (entries a !! deploymentRevisionAnnotation) eqn:E.
  - rewrite nil_if_empty_entries. apply map_eq. intros k. apply option_eq. intros v.
    rewrite map_lookup_filter_Some, lookup_delete_Some. simpl. naive_solver.
  - symmetry. by apply delete_id.
Qed.

Lemma entries_preserve existing desired :
  entries (preserveManagedAnnotations existing desired) =
  match map_get existing deploymentRevisionAnnotation with
  | None => entries desired
  | Some rev => <[deploymentRevisionAnnotation := rev]> (entries desired)
  end.
Proof.
  unfold preserveManagedAnnotations. destruct (map_get existing _); simpl; [|done].
  unfold maps_Copy. by rewrite (right_id_L ∅ (∪)).
Qed.

(** The annotations written by a patch, stripped again, are the desired ones. *)
Lemma strip_preserve existing desired :
  map_get desired deploymentRevisionAnnotation = None →
  entries (stripManagedAnnotations (preserveManagedAnnotations existing desired)) =
  entries desired.
Proof.
  intros Hd. rewrite entries_strip, entries_preserve.
  destruct (map_get existing _).
  - by rewrite delete_insert_id.
  - by apply delete_id.
Qed.

(** ** Merging environment variables *)

Section env_facts.
Context {K : K8sTypes}.
Implicit Types (e : EnvVar) (l base overrides merged : list EnvVar).

Lemma indexByName_from_spec l m i n k :
  NoDup (names l) →
  indexByName_from i l m !! n = Some k ↔
  (∃ j, k = i + j ∧ names l !! j = Some n) ∨ ((n ∉ names l) ∧ m !! n = Some k).
Proof.
  revert i m. induction l as [|e l IH]; intros i m Hnd; simpl in *.
  { set_solver. }
  apply NoDup_cons in Hnd as [He Hnd]. rewrite IH by done. clear IH. split.
  - intros [(j&->&Hj)|[Hn Hm]].
    + left. exists (S j). split; [lia|done].
    + rewrite lookup_insert in Hm. case_decide; simplify_eq.
      * left. exists 0. split; [lia|done].
      * right. set_solver.
  - intros [(j&->&Hj)|[Hn Hm]].
    + destruct j as [|j]; simplify_eq/=.
      * right. rewrite lookup_insert_eq. split; [done|f_equal; lia].
      * left. exists j. split; [lia|done].
    + right. rewrite lookup_insert_ne by set_solver. set_solver.
Qed.

Lemma index_ok_initial base : NoDup (names base) → index_ok (indexByName_from 0 base ∅) base.
Proof.
  intros Hnd. split; [done|]. intros n i. rewrite indexByName_from_spec by done.
  split; [|by eauto].
  intros [(j&->&?)|[_ Hm]]; [done|]. by rewrite lookup_empty in Hm.
Qed.

Lemma names_insert l i e :
  names l !! i = Some (env_Name e) → names (<[i := e]> l) = names l.
Proof.
  intros Hi. unfold names in *. rewrite list_fmap_insert. by apply list_insert_id.
Qed.

(** Replacing at the position of the name is replacing every variable of that name. *)
Lemma upsert_replace l i e :
  NoDup (names l) → names l !! i = Some (env_Name e) → upsert l e = <[i := e]> l.
Proof.
  intros Hnd Hi. unfold upsert.
  rewrite decide_True by (by apply list_elem_of_lookup_2 in Hi).
  apply list_eq. intros j. rewrite list_lookup_fmap.
  destruct (decide (i = j)) as [<-|Hij].
  - apply lookup_lt_Some in Hi as Hlt. unfold names in Hlt. rewrite length_fmap in Hlt.
    rewrite list_lookup_insert_eq by done. unfold names in Hi.
    rewrite list_lookup_fmap in Hi. destruct (l !! i); simplify_eq/=. by rewrite decide_True.
  - rewrite list_lookup_insert_ne by done.
    destruct (l !! j) as [x|] eqn:Hj; simpl; [|done]. f_equal.
    rewrite decide_False; [done|]. intros Hx. apply Hij.
    eapply NoDup_lookup; [exact Hnd|exact Hi|].
    unfold names. by rewrite list_lookup_fmap, Hj, <-Hx.
Qed.

Lemma upsert_append l e : env_Name e ∉ names l → upsert l e = l ++ [e].
Proof. intros Hn. unfold upsert. by rewrite decide_False. Qed.

Lemma mergeEnvVars_loop_ref overrides merged index :
  index_ok index merged →
  mergeEnvVars_loop overrides merged index = merge_ref merged overrides.
Proof.
  revert merged index. induction overrides as [|e overrides IH]; intros merged index [Hnd Hix];
    simpl; [done|].
  destruct (index !! env_Name e) as [i|] eqn:Hi.
  - apply Hix in Hi. rewrite (upsert_replace merged i e) by done.
    apply IH. split; rewrite names_insert by done; done.
  - assert (env_Name e ∉ names merged) as Hn.
    { intros [i Hlk]%list_elem_of_lookup. apply Hix in Hlk. congruence. }
    rewrite (upsert_append merged e) by done. apply IH. unfold index_ok, names. rewrite fmap_app. simpl. split.
    + apply NoDup_app. split_and!; [done|set_solver|apply NoDup_singleton].
    + intros n i. change (env_Name <$> merged) with (names merged).
      assert (length (names merged) = length merged) as Hlen by apply length_fmap.
      rewrite lookup_insert, lookup_snoc_Some, Hlen. case_decide as Hc.
      * subst. split.
        -- intros [= <-]. right. done.
        -- intros [[_ Hlk]|[-> _]]; [|done]. by apply list_elem_of_lookup_2 in Hlk.
      * rewrite Hix. split.
        -- intros Hlk. left. split; [|done]. rewrite <-Hlen. by apply lookup_lt_Some in Hlk.
        -- intros [[_ ?]|[_ ?]]; [done|congruence].
Qed.

Lemma mergeEnvVars_ref base overrides :
  NoDup (names base) → mergeEnvVars base overrides = merge_ref base overrides.
Proof. intros Hnd. by apply mergeEnvVars_loop_ref, index_ok_initial. Qed.

Lemma names_upsert l e :
  names (upsert l e) = if decide (env_Name e ∈ names l) then names l else names l ++ [env_Name e].
Proof.
  unfold upsert. case_decide; unfold names.
  - rewrite <-list_fmap_compose. apply list_fmap_ext. intros i x _. simpl. by case_decide.
  - by rewrite fmap_app.
Qed.

Lemma upsert_NoDup l e : NoDup (names l) → NoDup (names (upsert l e)).
Proof.
  intros Hnd. rewrite names_upsert. case_decide; [done|].
  apply NoDup_app. split_and!; [done|set_solver|apply NoDup_singleton].
Qed.

Lemma merge_ref_NoDup base overrides :
  NoDup (names base) → NoDup (names (merge_ref base overrides)).
Proof.
  unfold merge_ref. revert base. induction overrides as [|e overrides IH]; intros base Hnd; simpl.
  - done.
  - by apply IH, upsert_NoDup.
Qed.

Lemma env_lookup_replace l e n :
  env_lookup ((λ x, if decide (env_Name x = env_Name e) then e else x) <$> l) n =
  if decide (env_Name e = n) then (if decide (n ∈ names l) then Some e else None)
  else env_lookup l n.
Proof.
  induction l as [|x l IH]; csimpl.
  - repeat case_decide; set_solver.
  - destruct (decide (env_Name x = env_Name e)) as [Hx|Hx]; csimpl; rewrite IH;
      repeat case_decide; set_solver.
Qed.

Lemma env_lookup_app l l' n :
  env_lookup (l ++ l') n =
  match env_lookup l n with Some e => Some e | None => env_lookup l' n end.
Proof. induction l as [|x l IH]; simpl; [done|]. by case_decide. Qed.

Lemma env_lookup_None l n : env_lookup l n = None ↔ n ∉ names l.
Proof. induction l as [|x l IH]; simpl; [set_solver|]. case_decide; set_solver. Qed.

(** With distinct names the first and the last variable of a name are the same. *)
Lemma last_named_NoDup l n : NoDup (names l) → last_named l n = env_lookup l n.
Proof.
  induction l as [|e l IH]; csimpl; [done|]. intros [Hn Hnd]%NoDup_cons. rewrite IH by done.
  case_decide; subst; [|by destruct (env_lookup l n)].
  apply env_lookup_None in Hn. by rewrite Hn.
Qed.

Lemma env_lookup_upsert l e n :
  env_lookup (upsert l e) n = if decide (env_Name e = n) then Some e else env_lookup l n.
Proof.
  unfold upsert. destruct (decide (env_Name e ∈ names l)) as [Hin|Hin].
  - rewrite env_lookup_replace. case_decide; [|done]. subst. by rewrite decide_True.
  - rewrite env_lookup_app. simpl. case_decide as He; [|by destruct (env_lookup l n)].
    subst. apply env_lookup_None in Hin. by rewrite Hin.
Qed.

(** The last override of a name wins; without one the base variable stays. *)
Lemma env_lookup_merge_ref base overrides n :
  env_lookup (merge_ref base overrides) n =
  match last_named overrides n with Some e => Some e | None => env_lookup base n end.
Proof.
  unfold merge_ref. revert base. induction overrides as [|e overrides IH]; intros base; simpl.
  - done.
  - rewrite IH, env_lookup_upsert. destruct (last_named overrides n); [done|]. by case_decide.
Qed.

End env_facts.

(** ** Theorems *)

(** Precedence of labels and annotations: in the merged map the operator's
    own entries always win; for the other keys a non-empty override block replaces
    the user's spec entries as a whole, and without one the spec entries show. The
    result is nil exactly when no source contributes an entry. *)
Theorem mergeMeta_precedence spec override base :
  (∀ k, map_get (mergeMeta spec override base) k =
     match map_get base k with
     | Some v => Some v
     | None => if bool_decide (0 < map_len override) then map_get override k else map_get spec k
     end) ∧
  (mergeMeta spec override base = None ↔
   entries base = ∅ ∧ entries override = ∅ ∧ entries spec = ∅).
Proof.
  split; [apply map_get_mergeMeta|].
  unfold mergeMeta. rewrite nil_if_empty_None. unfold maps_Copy.
  case_bool_decide as Ho; rewrite (right_id_L ∅ (∪)), map_union_empty_iff; unfold map_len in Ho.
  - split; [|naive_solver]. intros [_ E]. rewrite E, map_size_empty in Ho. lia.
  - assert (entries override = ∅) as -> by (apply map_size_empty_inv; lia). naive_solver.
Qed.

(** C33: Merging environment variables through the index is the plain merge by
    name: when the base names are distinct, the result is the reference merge,
    its names are distinct again, and looking a name up finds the last override of
    that name or else the base variable. *)
Theorem mergeEnvVars_correct `{K8sTypes} (base overrides : list EnvVar) :
  NoDup (names base) →
  mergeEnvVars base overrides = merge_ref base overrides ∧
  NoDup (names (mergeEnvVars base overrides)) ∧
  ∀ n, env_lookup (mergeEnvVars base overrides) n =
    match last_named overrides n with Some e => Some e | None => env_lookup base n end.
Proof.
  intros Hnd. rewrite (mergeEnvVars_ref base overrides Hnd).
  auto using merge_ref_NoDup, env_lookup_merge_ref.
Qed.

Section metadata_witnesses.
Import Simple.

Definition w_env (n v : string) : EnvVar := mkEnv n v None.

Lemma mergeEnvVars_correct_witness :
  mergeEnvVars [w_env "A" "1"; w_env "B" "2"] [w_env "C" "3"; w_env "A" "4"; w_env "C" "5"] =
  [w_env "A" "4"; w_env "B" "2"; w_env "C" "5"].
Proof.
  refine (eq_trans (proj1 (mergeEnvVars_correct [w_env "A" "1"; w_env "B" "2"]
    [w_env "C" "3"; w_env "A" "4"; w_env "C" "5"] _)) _); [|reflexivity].
  apply (bool_decide_unpack _). vm_compute. exact I.
Defined.

End metadata_witnesses.
