(* ===== verification/ConfigLifecycle.v ===== *)
(** * Sequenced configurations (src/internal/controller/redkey_config.go)

    Listing the RedkeyConfigs of a cluster in sequence order, deciding whether the
    current generation of the Redkey needs a new one, creating it, aggregating the
    status of the active config onto the Redkey, and deleting the configs older
    than the last applied one. *)

From S2P Require Import Prelude Strconv ApiTypes Effects External Samples Metrics Metadata.

(** ** Definitions *)

Definition healthConditionTypes : list string :=
  [ConditionHealthy; ConditionMembershipHealthy; ConditionSlotsCovered;
   ConditionSlotsBalanced; ConditionReplicasBalanced; ConditionClusterCheckPassing].

Definition isTerminalConfigPhase (phase : string) : bool :=
  bool_decide (phase = ConfigPhaseApplied) || bool_decide (phase = ConfigPhaseSuperseded).

(** [func conditionStatus(b bool) metav1.ConditionStatus] *)
Definition conditionStatus (b : bool) : string := if b then ConditionTrue else ConditionFalse.

(** [metav1.Condition{Type, Status, Reason}] and with a message. *)
Definition cond (type status reason : string) : Condition :=
  mkCondition type status 0 None reason "".

Section config.
Context {K : K8sTypes} {D : Deps} {SS : SortSlice}.

(** [func (r) listConfigs(ctx, cluster)] *)
Definition listConfigs (cluster : Redkey) : M OpState (error + list RedkeyConfig) :=
  items ←? invoke (ListConfigs (om_Namespace (rk_meta cluster)) ClusterLabel
                     (om_Name (rk_meta cluster)));
  ok (sort_slice cfg_seq items).

(** [func needsNewConfig(cluster, latestConfig) bool] *)
Definition needsNewConfig (cluster : Redkey) (latestConfig : option RedkeyConfig) : bool :=
  let fallback :=
    bool_decide (st_ObservedGeneration (rk_Status cluster) < om_Generation (rk_meta cluster))%Z in
  match latestConfig with
  | None => fallback
  | Some latest =>
      let genStr := map_index (om_Annotations (cfg_meta latest)) GenerationAnnotation in
      if bool_decide (genStr = "") then fallback else
      match ParseInt genStr with
      | None => fallback
      | Some parsedGen =>
          if bool_decide (om_Generation (rk_meta cluster) ≤ parsedGen)%Z then false else fallback
      end
  end.

(** The sequence number of the next config ([int] is 64 bits wide). *)
Definition next_seq (highestSeq : option RedkeyConfig) : Z :=
  match highestSeq with None => 1 | Some h => wrap64 (cfg_seq h + 1) end.

(** [fmt.Sprintf("%s-%d", cluster.Name, seq)] *)
Definition config_name (cluster : Redkey) (seq : Z) : string :=
  om_Name (rk_meta cluster) +:+ "-" +:+ FormatInt seq.

(** The metadata of the config [createNewConfig] builds. *)
Definition config_meta (cluster : Redkey) (seq : Z) : ObjectMeta :=
  meta_lit (config_name cluster seq) (om_Namespace (rk_meta cluster))
    (mergeMeta (derefMap (spec_Labels (rk_Spec cluster))) None
       (Some {[ClusterLabel := om_Name (rk_meta cluster)]}))
    (mergeMeta (derefMap (spec_Annotations (rk_Spec cluster))) None
       (Some {[GenerationAnnotation := FormatInt (om_Generation (rk_meta cluster))]})).

(** The spec of the config [createNewConfig] builds. *)
Definition config_spec (s : RedkeySpec) (seq : Z) : RedkeyConfigSpec :=
  {| cs_Sequence := seq; cs_SkipIfSuperseded := spec_SkipIfSuperseded s;
     cs_Mode := spec_Mode s; cs_Primaries := spec_Primaries s;
     cs_ReplicasPerPrimary := spec_ReplicasPerPrimary s; cs_Ephemeral := spec_Ephemeral s;
     cs_Storage := spec_Storage s; cs_StorageClassName := spec_StorageClassName s;
     cs_Image := spec_Image s; cs_Version := spec_Version s; cs_RedisConfig := spec_Config s;
     cs_Resources := spec_Resources s; cs_Auth := spec_Auth s; cs_Labels := spec_Labels s;
     cs_Annotations := spec_Annotations s; cs_DeletePVC := spec_DeletePVC s;
     cs_PurgeKeysOnRebalance := spec_PurgeKeysOnRebalance s; cs_Override := spec_Override s;
     cs_Pdb := spec_Pdb s; cs_RobinConfig := robin_Config (spec_Robin s) |}.

Definition typemeta_zero : TypeMeta := {| tm_Kind := ""; tm_APIVersion := "" |}.

(** [&redisv1.RedkeyConfig{ObjectMeta: meta, Spec: ...}] *)
Definition new_config (cluster : Redkey) (seq : Z) (meta : ObjectMeta) : RedkeyConfig :=
  mkConfig typemeta_zero meta (config_spec (rk_Spec cluster) seq) config_status_zero.

(** [func (r) createNewConfig(ctx, cluster, highestSeq) error] *)
Definition createNewConfig (cluster : Redkey) (highestSeq : option RedkeyConfig)
    : M OpState (error + unit) :=
  let seq := next_seq highestSeq in
  match SetControllerReference cluster (config_meta cluster seq) with
  | inl e => raise e
  | inr meta =>
      r ← invoke (Create KRedkeyConfig (new_config cluster seq meta));
      match r with
      | inl e => if IsAlreadyExists e then ok tt else raise e
      | inr _ =>
          let reason := match highestSeq with None => "initial" | Some _ => "generation_change" end in
          emit (CounterInc redkeyConfigCreations [reason]) ;;
          ok tt
      end
  end.

(** [func selectActiveConfig(configs) *RedkeyConfig]; [None] is the index panic on
    an empty slice, which both callers exclude. *)
Definition selectActiveConfig (configs : list RedkeyConfig) : option RedkeyConfig :=
  match configs with
  | [] => None
  | [c] => Some c
  | c :: _ =>
      match list_find (λ c, cfg_phase c = ConfigPhaseInProgress) configs with
      | Some (_, a) => Some a
      | None => Some c
      end
  end.

(** [func isConfigReady(config) bool] and [func hasConfigError(config) bool]; a
    nil config is [None]. *)
Definition isConfigReady (config : option RedkeyConfig) : bool :=
  match config with
  | None => false
  | Some c => isTerminalConfigPhase (cfg_phase c) &&
              negb (bool_decide (cst_Status (cfg_Status c) = ClusterPhaseError))
  end.

Definition hasConfigError (config : option RedkeyConfig) : bool :=
  match config with
  | None => false
  | Some c => isTerminalConfigPhase (cfg_phase c) &&
              bool_decide (cst_Status (cfg_Status c) = ClusterPhaseError)
  end.

Definition emptyNodesIfNil (nodes : GoMap (option RedisNode)) : GoMap (option RedisNode) :=
  match nodes with None => Some ∅ | Some m => Some m end.

(** Robin's health conditions are current: the config is terminal and Ready. *)
Definition settled (activeConfig : RedkeyConfig) : bool :=
  isTerminalConfigPhase (cfg_phase activeConfig) &&
  bool_decide (cst_Status (cfg_Status activeConfig) = ClusterStatusReady).

(** The condition a health condition type is set to. *)
Definition health_condition (activeConfig : RedkeyConfig) (condType : string) : Condition :=
  let unknown := cond condType ConditionUnknown "Reconciling" in
  if settled activeConfig then
    match FindStatusCondition (cst_Conditions (cfg_Status activeConfig)) condType with
    | Some src => mkCondition condType (cond_Status src) 0 None (cond_Reason src) (cond_Message src)
    | None => unknown
    end
  else unknown.

(** The loop of [aggregateHealthConditions]; [clk] gives the successive instants
    at which conditions are set. *)
Fixpoint health_loop (clk : nat → Time) (i : nat) (types : list string)
    (conditions : list Condition) (activeConfig : RedkeyConfig) : list Condition :=
  match types with
  | [] => conditions
  | t :: types' =>
      health_loop clk (S i) types'
        (SetStatusCondition (clk i) conditions (health_condition activeConfig t)) activeConfig
  end.

(** [func aggregateHealthConditions(conditions, activeConfig)] *)
Definition aggregateHealthConditions (clk : nat → Time) (i : nat) (conditions : list Condition)
    (activeConfig : RedkeyConfig) : list Condition :=
  health_loop clk i healthConditionTypes conditions activeConfig.

(** [func aggregateConditions(existingConditions, highestConfig)] *)
Definition aggregateConditions (clk : nat → Time) (existingConditions : list Condition)
    (highestConfig : RedkeyConfig) : list Condition :=
  let conditions := existingConditions in
  let conditions := SetStatusCondition (clk 0) conditions
    (cond "Ready" (conditionStatus (isConfigReady (Some highestConfig))) "StatusAggregated") in
  let conditions := SetStatusCondition (clk 1) conditions
    (cond "ConfigPending"
       (conditionStatus (negb (isTerminalConfigPhase (cfg_phase highestConfig))))
       "StatusAggregated") in
  let conditions := SetStatusCondition (clk 2) conditions
    (cond "Error" (conditionStatus (hasConfigError (Some highestConfig))) "StatusAggregated") in
  aggregateHealthConditions clk 3 conditions highestConfig.

(** The condition of type [t] is present and True. *)
Definition condition_true (conditions : list Condition) (t : string) : bool :=
  match FindStatusCondition conditions t with
  | Some c => bool_decide (cond_Status c = ConditionTrue)
  | None => false
  end.

(** [func computePhaseFromConditions(conditions) string] *)
Definition computePhaseFromConditions (conditions : list Condition) : string :=
  if condition_true conditions "Error" then PhaseError
  else if condition_true conditions "Ready" then PhaseReady
  else PhaseConfiguring.

(** The status written by one attempt of [aggregateStatus] on the object it
    fetched. *)
Definition aggregated_status (now : Time) (clk : nat → Time) (latest : Redkey)
    (activeConfig : RedkeyConfig) (observedGeneration : Z) : RedkeyStatus :=
  let st := rk_Status latest in
  let cst := cfg_Status activeConfig in
  let conditions := aggregateConditions clk (st_Conditions st) activeConfig in
  let track := negb (spec_Ephemeral (rk_Spec latest)) &&
               bool_decide (cst_ConfigPhase cst = ConfigPhaseApplied) &&
               bool_decide (0 < cs_Primaries (cfg_Spec activeConfig))%Z in
  {| st_Replicas := spec_Primaries (rk_Spec latest);
     st_Phase := computePhaseFromConditions conditions;
     st_Status := cst_Status cst;
     st_Substatus := cst_Substatus cst;
     st_Nodes := emptyNodesIfNil (cst_Nodes cst);
     st_Conditions := conditions;
     st_LastUpdatedAt := Some now;
     st_ObservedGeneration := observedGeneration;
     st_LastAppliedPrimaries :=
       if track then cs_Primaries (cfg_Spec activeConfig) else st_LastAppliedPrimaries st;
     st_LastAppliedReplicasPerPrimary :=
       if track then cs_ReplicasPerPrimary (cfg_Spec activeConfig)
       else st_LastAppliedReplicasPerPrimary st |}.

(** The function retried by [aggregateStatus]: the caller's copy of the cluster
    gets the status that was persisted. *)
Definition aggregate_attempt (cluster : Redkey) (activeConfig : RedkeyConfig)
    : M OpState (error + Redkey) :=
  latest ←? invoke (Get KRedkey (meta_key (rk_meta cluster)));
  now ← invoke Now;
  clk ← invoke Clock;
  updated ←? invoke (UpdateStatus (with_status latest
               (aggregated_status now clk latest activeConfig (om_Generation (rk_meta cluster)))));
  ok (with_status cluster (rk_Status updated)).

(** [func (r) aggregateStatus(ctx, cluster, configs) error] *)
Definition aggregateStatus (cluster : Redkey) (configs : list RedkeyConfig)
    : M OpState (error + Redkey) :=
  match selectActiveConfig configs with
  | None => ok cluster
  | Some activeConfig =>
      RetryOnConflict retry_DefaultRetry_Steps (aggregate_attempt cluster activeConfig)
  end.

(** The backward search for the last Applied config among the first [i] ones. *)
Fixpoint last_applied (configs : list RedkeyConfig) (i : nat) : option nat :=
  match i with
  | 0 => None
  | S j => match configs !! j with
           | Some c => if bool_decide (cfg_phase c = ConfigPhaseApplied) then Some j
                       else last_applied configs j
           | None => last_applied configs j
           end
  end.

(** The deletion loop: [n] configs of [rest] are to be deleted; an error returns
    what is left together with the error. *)
Fixpoint cleanup_loop (rest : list RedkeyConfig) (n : nat)
    : M OpState (list RedkeyConfig * option error) :=
  match n, rest with
  | S n', c :: rest' =>
      r ← invoke (Delete KRedkeyConfig (meta_key (cfg_meta c)));
      match r with
      | inl e => if IsNotFound e then cleanup_loop rest' n' else mret (rest, Some e)
      | inr _ => emit (CounterInc redkeyCleanupDeletedConfigs []) ;; cleanup_loop rest' n'
      end
  | _, _ => mret (rest, None)
  end.

(** [func (r) cleanupSupersededConfigs(ctx, configs)] *)
Definition cleanupSupersededConfigs (configs : list RedkeyConfig)
    : M OpState (list RedkeyConfig * option error) :=
  if bool_decide (length configs ≤ 1) then mret (configs, None) else
  match last_applied configs (length configs) with
  | None | Some 0 => mret (configs, None)
  | Some n => cleanup_loop configs n
  end.

End config.

(** ** Reference definitions *)

Section config_ref.
Context {K : K8sTypes}.

(** The phase a Redkey should show for the active config's phase and status. *)
Definition expected_phase (c : RedkeyConfig) : string :=
  if isTerminalConfigPhase (cfg_phase c) then
    if bool_decide (cst_Status (cfg_Status c) = ClusterPhaseError) then PhaseError else PhaseReady
  else PhaseConfiguring.

(** Robin is done with the config. *)
Definition terminal (c : RedkeyConfig) : Prop :=
  cfg_phase c = "Applied" ∨ cfg_phase c = "Superseded".

#[export] Instance terminal_dec c : Decision (terminal c).
Proof. unfold terminal. apply _. Defined.

(** A RedkeyConfig spec carries every setting of a Redkey spec and a sequence number. *)
Definition carries (s : RedkeySpec) (seq : Z) (cs : RedkeyConfigSpec) : Prop :=
  cs_Sequence cs = seq ∧
  cs_Mode cs = spec_Mode s ∧ cs_Primaries cs = spec_Primaries s ∧
  cs_ReplicasPerPrimary cs = spec_ReplicasPerPrimary s ∧
  cs_Image cs = spec_Image s ∧ cs_Version cs = spec_Version s ∧
  cs_RedisConfig cs = spec_Config s ∧ cs_Resources cs = spec_Resources s ∧
  cs_Auth cs = spec_Auth s ∧ cs_Ephemeral cs = spec_Ephemeral s ∧
  cs_Storage cs = spec_Storage s ∧ cs_StorageClassName cs = spec_StorageClassName s ∧
  cs_DeletePVC cs = spec_DeletePVC s ∧
  cs_PurgeKeysOnRebalance cs = spec_PurgeKeysOnRebalance s ∧
  cs_SkipIfSuperseded cs = spec_SkipIfSuperseded s ∧
  cs_Labels cs = spec_Labels s ∧ cs_Annotations cs = spec_Annotations s ∧
  cs_Override cs = spec_Override s ∧ cs_Pdb cs = spec_Pdb s ∧
  cs_RobinConfig cs = robin_Config (spec_Robin s).

(** A config that is strictly older than a later Applied one. *)
Definition before_applied (configs : list RedkeyConfig) (c : RedkeyConfig) : Prop :=
  ∃ i j c', i < j ∧ configs !! i = Some c ∧ configs !! j = Some c' ∧
            cfg_phase c' = ConfigPhaseApplied.

(** The configs kept: from the last Applied one on. *)
Fixpoint keep_from_last_applied (configs : list RedkeyConfig) : list RedkeyConfig :=
  match configs with
  | [] => []
  | c :: configs' =>
      if decide (Exists (λ c, cfg_phase c = ConfigPhaseApplied) configs')
      then keep_from_last_applied configs' else configs
  end.

End config_ref.

(** ** Aggregating conditions *)

Section condition_facts.
Context {K : K8sTypes} {D : Deps} {DS : DepsSpec}.
Implicit Types (c : RedkeyConfig) (cs : list Condition).

Lemma health_condition_type c t : cond_Type (health_condition c t) = t.
Proof. unfold health_condition. by repeat case_match. Qed.

Lemma health_loop_other clk i types cs c t :
  t ∉ types → FindStatusCondition (health_loop clk i types cs c) t = FindStatusCondition cs t.
Proof.
  revert i cs. induction types as [|u types IH]; intros i cs Ht; simpl; [done|].
  rewrite IH by set_solver. apply FindSet_other. rewrite health_condition_type. set_solver.
Qed.

Lemma health_loop_same clk i types cs c t :
  t ∈ types → ∃ d, FindStatusCondition (health_loop clk i types cs c) t = Some d ∧
    same_condition d (health_condition c t).
Proof.
  revert i cs. induction types as [|u types IH]; intros i cs Ht; [set_solver|]; simpl.
  destruct (decide (t ∈ types)) as [?|Hn]; [by apply IH|].
  assert (t = u) as -> by set_solver. rewrite health_loop_other by done.
  pose proof (FindSet_same (clk i) cs (health_condition c u)) as Hs.
  by rewrite health_condition_type in Hs.
Qed.

(** Setting a condition moves the transition time of no condition whose status stays. *)
Lemma FindSet_keeps_time now cs cnd t old new :
  FindStatusCondition cs t = Some old →
  FindStatusCondition (SetStatusCondition now cs cnd) t = Some new →
  cond_Status old = cond_Status new →
  cond_LastTransitionTime new = cond_LastTransitionTime old.
Proof.
  intros Ho Hn Hst. destruct (decide (t = cond_Type cnd)) as [->|Hne].
  - destruct (FindSet_same now cs cnd) as (d&Hc&_&Hs&_).
    eapply FindSet_time; [exact Ho| |exact Hn]. rewrite Hc in Hn. congruence.
  - rewrite FindSet_other in Hn by done. congruence.
Qed.

Lemma terminal_spec c : isTerminalConfigPhase (cfg_phase c) = true ↔ terminal c.
Proof. unfold isTerminalConfigPhase, terminal. by rewrite orb_true_iff, !bool_decide_eq_true. Qed.

Lemma settled_spec c :
  settled c = true ↔ terminal c ∧ cst_Status (cfg_Status c) = "Ready".
Proof. unfold settled. by rewrite andb_true_iff, bool_decide_eq_true, terminal_spec. Qed.

(** The three lifecycle conditions and the frame, before the health conditions. *)
Definition lifecycle_conditions (clk : nat → Time) cs c : list Condition :=
  SetStatusCondition (clk 2)
    (SetStatusCondition (clk 1)
       (SetStatusCondition (clk 0) cs
          (cond "Ready" (conditionStatus (isConfigReady (Some c))) "StatusAggregated"))
       (cond "ConfigPending" (conditionStatus (negb (isTerminalConfigPhase (cfg_phase c))))
          "StatusAggregated"))
    (cond "Error" (conditionStatus (hasConfigError (Some c))) "StatusAggregated").

Lemma aggregateConditions_lifecycle clk cs c t :
  t ∉ healthConditionTypes →
  FindStatusCondition (aggregateConditions clk cs c) t =
  FindStatusCondition (lifecycle_conditions clk cs c) t.
Proof. apply health_loop_other. Qed.

(** The lifecycle condition set for a type, if it is one. *)
Definition lifecycle_condition c (t : string) : option Condition :=
  if decide (t = "Ready") then
    Some (cond "Ready" (conditionStatus (isConfigReady (Some c))) "StatusAggregated")
  else if decide (t = "ConfigPending") then
    Some (cond "ConfigPending" (conditionStatus (negb (isTerminalConfigPhase (cfg_phase c))))
            "StatusAggregated")
  else if decide (t = "Error") then
    Some (cond "Error" (conditionStatus (hasConfigError (Some c))) "StatusAggregated")
  else None.

Lemma lifecycle_conditions_spec clk cs c t :
  match lifecycle_condition c t with
  | Some x => ∃ d, FindStatusCondition (lifecycle_conditions clk cs c) t = Some d ∧
                    same_condition d x
  | None => FindStatusCondition (lifecycle_conditions clk cs c) t = FindStatusCondition cs t
  end.
Proof.
  unfold lifecycle_condition, lifecycle_conditions.
  repeat case_decide; subst; rewrite ?FindSet_other by done;
    first [ apply FindSet_same | done ].
Qed.

(** Every condition after aggregation: health conditions mirror Robin's report,
    lifecycle conditions follow the config, all other conditions stay. *)
Lemma aggregateConditions_find clk cs c t :
  match (if decide (t ∈ healthConditionTypes) then Some (health_condition c t)
         else lifecycle_condition c t) with
  | Some x => ∃ d, FindStatusCondition (aggregateConditions clk cs c) t = Some d ∧
                    same_condition d x
  | None => FindStatusCondition (aggregateConditions clk cs c) t = FindStatusCondition cs t
  end.
Proof.
  case_decide as Ht; [by apply health_loop_same|].
  rewrite aggregateConditions_lifecycle by done. apply lifecycle_conditions_spec.
Qed.

Lemma aggregate_condition_true clk cs c t x :
  t ∉ healthConditionTypes → lifecycle_condition c t = Some x →
  condition_true (aggregateConditions clk cs c) t = bool_decide (cond_Status x = ConditionTrue).
Proof.
  intros Ht Hx. pose proof (aggregateConditions_find clk cs c t) as Hf.
  rewrite decide_False, Hx in Hf by done. destruct Hf as (d&Hf&_&Hs&_).
  unfold condition_true. by rewrite Hf, Hs.
Qed.

Lemma conditionStatus_true b : bool_decide (conditionStatus b = ConditionTrue) = b.
Proof. by destruct b. Qed.

Lemma aggregate_phase_expected clk cs c :
  computePhaseFromConditions (aggregateConditions clk cs c) = expected_phase c.
Proof.
  unfold computePhaseFromConditions.
  rewrite (aggregate_condition_true clk cs c "Error" _) by (try done; set_solver).
  rewrite (aggregate_condition_true clk cs c "Ready" _) by (try done; set_solver).
  simpl. rewrite !conditionStatus_true. unfold expected_phase.
  by destruct (isTerminalConfigPhase _), (bool_decide _).
Qed.

(** Aggregation keeps the transition time of every condition whose status stays. *)
Lemma health_loop_keeps_time clk i types cs c t old new :
  NoDup types →
  FindStatusCondition cs t = Some old →
  FindStatusCondition (health_loop clk i types cs c) t = Some new →
  cond_Status old = cond_Status new →
  cond_LastTransitionTime new = cond_LastTransitionTime old.
Proof.
  revert i cs. induction types as [|u types IH]; intros i cs Hnd Ho Hn Hst; simpl in *.
  { congruence. }
  apply NoDup_cons in Hnd as [Hu Hnd]. destruct (decide (t = u)) as [->|Hne].
  - rewrite health_loop_other in Hn by done. eapply FindSet_keeps_time; eauto.
  - eapply (IH (S i)); [done| |exact Hn|done].
    rewrite FindSet_other; [done|]. by rewrite health_condition_type.
Qed.

Lemma aggregateConditions_time clk cs c t old new :
  FindStatusCondition cs t = Some old →
  FindStatusCondition (aggregateConditions clk cs c) t = Some new →
  cond_Status old = cond_Status new →
  cond_LastTransitionTime new = cond_LastTransitionTime old.
Proof.
  intros Ho Hn Hst. destruct (decide (t ∈ healthConditionTypes)) as [Ht|Ht].
  - eapply (health_loop_keeps_time clk 3 healthConditionTypes); [|..|exact Hn|exact Hst].
    { apply (bool_decide_unpack _). vm_compute. done. }
    pose proof (lifecycle_conditions_spec clk cs c t) as Hl.
    assert (lifecycle_condition c t = None) as E; [|by rewrite E in Hl; rewrite <-Ho].
    unfold lifecycle_condition. repeat case_decide; subst; [..|done]; exfalso; set_solver.
  - rewrite aggregateConditions_lifecycle in Hn by done.
    unfold lifecycle_conditions in Hn.
    destruct (decide (t = "Error")) as [->|]; [|rewrite FindSet_other in Hn by done;
      destruct (decide (t = "ConfigPending")) as [->|]; [|rewrite FindSet_other in Hn by done]];
      (eapply FindSet_keeps_time; [|exact Hn|exact Hst]); by rewrite ?FindSet_other.
Qed.

End condition_facts.

(** ** Cleaning up *)

Section cleanup_facts.
Context {K : K8sTypes}.
Implicit Types (c : RedkeyConfig) (configs rest : list RedkeyConfig).

Definition applied c : Prop := cfg_phase c = ConfigPhaseApplied.

#[export] Instance applied_dec c : Decision (applied c).
Proof. unfold applied. apply _. Defined.

Lemma last_applied_spec configs i :
  match last_applied configs i with
  | Some j => j < i ∧ (∃ c, configs !! j = Some c ∧ applied c) ∧
              ∀ k c, j < k < i → configs !! k = Some c → ¬ applied c
  | None => ∀ k c, k < i → configs !! k = Some c → ¬ applied c
  end.
Proof.
  induction i as [|i IH]; simpl; [intros; lia|].
  assert (Hskip : (∀ c, configs !! i = Some c → ¬ applied c) →
    match last_applied configs i with
    | Some j => j < S i ∧ (∃ c, configs !! j = Some c ∧ applied c) ∧
                ∀ k c, j < k < S i → configs !! k = Some c → ¬ applied c
    | None => ∀ k c, k < S i → configs !! k = Some c → ¬ applied c
    end).
  { intros Hi. destruct (last_applied configs i) as [j|];
      [destruct IH as (?&?&IH); split_and!; [lia|done|]|];
      intros k d ? Hk; destruct (decide (k = i)) as [->|];
      first [by apply Hi | apply (IH k); [lia|done]]. }
  destruct (configs !! i) as [c|] eqn:Hc; [|by apply Hskip].
  case_bool_decide as Ha; [|apply Hskip; by intros ? [= <-]].
  split_and!; [lia|eauto|intros; lia].
Qed.

Lemma keep_drop configs j :
  (∃ c, configs !! j = Some c ∧ applied c) →
  (∀ k c, j < k → configs !! k = Some c → ¬ applied c) →
  keep_from_last_applied configs = drop j configs.
Proof.
  revert j. induction configs as [|c configs IH]; intros j Hj Hlast.
  { by rewrite drop_nil. }
  simpl. case_decide as He.
  - destruct j as [|j]; [exfalso|apply IH].
    + apply Exists_exists in He as (d&[k Hk]%list_elem_of_lookup&Hd).
      apply (Hlast (S k) d); [lia|done|done].
    + destruct Hj as (d&?&?). eauto.
    + intros k d Hk. apply (Hlast (S k)). lia.
  - destruct j as [|j]; [done|]. destruct Hj as (d&Hd&?). exfalso. apply He.
    apply Exists_exists. exists d. split; [|done]. by eapply list_elem_of_lookup_2.
Qed.

Lemma keep_all configs :
  (∀ k c, configs !! k = Some c → ¬ applied c) → keep_from_last_applied configs = configs.
Proof.
  intros Hn. destruct configs as [|c configs]; [done|]. simpl. rewrite decide_False; [done|].
  intros (d&[k Hk]%list_elem_of_lookup&Hd)%Exists_exists. by apply (Hn (S k) d).
Qed.

(** What is kept is a suffix that starts with the last Applied config, if there is one. *)
Lemma keep_suffix configs : keep_from_last_applied configs `suffix_of` configs.
Proof.
  induction configs as [|c configs IH]; simpl; [done|]. case_decide; [|done].
  by apply suffix_cons_r.
Qed.

Definition delete_call c : call := Delete KRedkeyConfig (meta_key (cfg_meta c)).

(** A config deletion the API server confirmed. *)
Definition confirmed_deletion (o : obs) : bool :=
  match o with Obs (Delete KRedkeyConfig _) (inr _) => true | _ => false end.

Definition deletions (tr : list obs) : nat := length (List.filter confirmed_deletion tr).

Lemma cleanup_loop_spec rest n s tr s' rest' oe :
  n ≤ length rest → exec (cleanup_loop rest n) s tr s' (rest', oe) →
  obs_call <$> tr = delete_call <$> take (length tr) rest ∧
  match oe with
  | None => length tr = n ∧ rest' = drop n rest ∧ Forall gone tr
  | Some e => 0 < length tr ≤ n ∧ rest' = drop (length tr - 1) rest ∧ IsNotFound e = false
  end ∧
  os_metrics s' = os_metrics s ++
    replicate (deletions tr) (CounterInc redkeyCleanupDeletedConfigs []).
Proof.
  revert n s tr. induction rest as [|c rest IH]; intros [|n] s tr Hn Hx; csimpl in *;
    [exec_inv; by rewrite app_nil_r|lia|exec_inv; by rewrite app_nil_r|].
  apply exec_bind in Hx as (tr1&tr2&s1&r&->&Hd&Hx). apply exec_invoke in Hd as [-> ->].
  destruct r as [e|u]; [destruct (IsNotFound e) eqn:He|].
  - apply IH in Hx as (Hc&Ho&Hm); [|lia]. unfold deletions in *. csimpl.
    rewrite Hc. split_and!; [done| |done].
    destruct oe; [destruct Ho as (?&->&?)|destruct Ho as (->&->&?)]; [|by rewrite Forall_cons].
    split_and!; [lia|lia| |done]. replace (length tr2 - 0) with (S (length tr2 - 1)) by lia. done.
  - exec_inv. split_and!; [done|lia|lia|done|done|]. by rewrite app_nil_r.
  - unfold emit in Hx. exec_inv.
    match goal with H : exec (cleanup_loop _ _) _ ?t _ _ |- _ =>
      rename t into tr2; apply IH in H as (Hc&Ho&Hm); [|lia] end.
    unfold deletions in *. csimpl. rewrite Hc. split_and!; [done| |].
    + destruct oe; [destruct Ho as (?&->&?)|destruct Ho as (->&->&?)]; [|by rewrite Forall_cons].
      split_and!; [lia|lia| |done].
      replace (length tr2 - 0) with (S (length tr2 - 1)) by lia. done.
    + rewrite Hm. simpl. by rewrite <-app_assoc.
Qed.

(** [tr] deletes the configs of [pre] in order, up to the first failure, and
    [rest] with [oe] is what cleanup returns. *)
Definition cleaned configs pre (tr : list obs) rest (oe : option error) : Prop :=
  configs = pre ++ keep_from_last_applied configs ∧
  obs_call <$> tr = delete_call <$> take (length tr) pre ∧
  match oe with
  | None => length tr = length pre ∧ rest = keep_from_last_applied configs ∧ Forall gone tr
  | Some e => 0 < length tr ≤ length pre ∧ rest = drop (length tr - 1) configs ∧
              IsNotFound e = false
  end.

(** Nothing to delete. *)
Lemma cleanup_none configs (s : OpState) tr s' rest oe :
  keep_from_last_applied configs = configs →
  exec (mret (configs, None)) s tr s' (rest, oe) →
  cleaned configs [] tr rest oe ∧ s' = s ∧ tr = [].
Proof. intros Hk Hr. exec_inv. unfold cleaned. by rewrite Hk. Qed.

(** The whole cleanup: which configs are deleted, in which order, and what is left. *)
Lemma cleanup_spec configs s tr s' rest oe :
  exec (cleanupSupersededConfigs configs) s tr s' (rest, oe) →
  (∃ pre, cleaned configs pre tr rest oe) ∧
  os_metrics s' = os_metrics s ++
    replicate (deletions tr) (CounterInc redkeyCleanupDeletedConfigs []).
Proof.
  intros Hx. unfold cleanupSupersededConfigs in Hx.
  assert (keep_from_last_applied configs = configs →
    exec (mret (configs, None)) s tr s' (rest, oe) → (∃ pre, cleaned configs pre tr rest oe) ∧
    os_metrics s' = os_metrics s ++
      replicate (deletions tr) (CounterInc redkeyCleanupDeletedConfigs [])) as Hnone.
  { intros Hk Hr. destruct (cleanup_none _ _ _ _ _ _ Hk Hr) as (?&->&->).
    split; [eauto|]. by rewrite app_nil_r. }
  case_bool_decide as Hlen.
  { apply Hnone; [|done]. destruct configs as [|? [|]]; simpl in *; [done|done|lia]. }
  pose proof (last_applied_spec configs (length configs)) as Hl.
  assert (Hin : ∀ k c, configs !! k = Some c → k < length configs).
  { intros k c. apply lookup_lt_Some. }
  destruct (last_applied configs (length configs)) as [[|j]|].
  - apply Hnone; [|done]. destruct Hl as (_&Hj&Hl). apply (keep_drop configs 0); [done|].
    intros k c Hk Hc. apply (Hl k); eauto.
  - destruct Hl as (Hlt&Hj&Hl). apply cleanup_loop_spec in Hx as (Hc&Ho&Hm); [|lia].
    split; [|done]. exists (take (S j) configs).
    assert (keep_from_last_applied configs = drop (S j) configs) as Hk.
    { apply keep_drop; [done|]. intros k c Hk Hc'. apply (Hl k); eauto. }
    unfold cleaned. rewrite Hk, take_drop, length_take, take_take.
    rewrite Nat.min_l by (destruct oe; lia). rewrite (Nat.min_l (S j)) by lia. done.
  - apply Hnone; [|done]. apply keep_all. intros k c Hk. apply (Hl k); eauto.
Qed.

(** A config that is not kept is older than a later Applied one. *)
Lemma not_kept_before_applied configs pre c :
  configs = pre ++ keep_from_last_applied configs → c ∈ pre → before_applied configs c.
Proof.
  revert pre. induction configs as [|d configs IH]; intros pre Heq Hc; simpl in *.
  { destruct pre; set_solver. }
  destruct pre as [|d' pre]; [set_solver|]. simpl in Heq.
  case_decide as He.
  - injection Heq as <- Heq. apply elem_of_cons in Hc as [->|Hc].
    + apply Exists_exists in He as (x&[k Hk]%list_elem_of_lookup&Hx).
      exists 0, (S k), x. split_and!; [lia|done|done|done].
    + destruct (IH pre Heq Hc) as (i&j&x&?&?&?&?).
      exists (S i), (S j), x. split_and!; [lia|done|done|done].
  - exfalso. injection Heq as <- Heq. apply (f_equal length) in Heq.
    rewrite length_app in Heq. simpl in Heq. lia.
Qed.

End cleanup_facts.

(** ** Listing and creating *)

Section create_facts.
Context {K : K8sTypes} {D : Deps} {DS : DepsSpec} {SS : SortSlice} {SP : SortSliceSpec}.
Implicit Types (cluster : Redkey) (c : RedkeyConfig).

Lemma exec_listConfigs cluster s tr s' r :
  exec (listConfigs cluster) s tr s' r →
  s' = s ∧ ∃ x, tr = [Obs (ListConfigs (om_Namespace (rk_meta cluster)) ClusterLabel
                             (om_Name (rk_meta cluster))) x] ∧
  r = match x with inl e => inl e | inr items => inr (sort_slice cfg_seq items) end.
Proof.
  intros Hx. unfold listConfigs in Hx.
  exec_inv; (split; [done|]); eexists; (split; [reflexivity|done]).
Qed.

Lemma exec_createNewConfig cluster h s tr s' r :
  exec (createNewConfig cluster h) s tr s' r →
  match SetControllerReference cluster (config_meta cluster (next_seq h)) with
  | inl e => tr = [] ∧ s' = s ∧ r = inl e
  | inr m =>
      ∃ x, tr = [Obs (Create KRedkeyConfig (new_config cluster (next_seq h) m)) x] ∧
        match x with
        | inl e => s' = s ∧ r = if IsAlreadyExists e then inr tt else inl e
        | inr _ => r = inr tt ∧ s' = add_metric (CounterInc redkeyConfigCreations
            [match h with None => "initial" | Some _ => "generation_change" end]) s
        end
  end.
Proof.
  unfold createNewConfig. destruct (SetControllerReference _ _) as [e|m]; intros Hx; [by exec_inv|].
  apply exec_bind in Hx as (tr1&tr2&s1&x&->&H1&H2). apply exec_invoke in H1 as [-> ->].
  exists x. destruct x as [e|u].
  - destruct (IsAlreadyExists e); by exec_inv.
  - unfold emit in H2. by exec_inv.
Qed.

(** The annotation that ties a config to the generation it was created for. *)
Definition config_generation c : option Z :=
  ParseInt (map_index (om_Annotations (cfg_meta c)) GenerationAnnotation).

(** [needsNewConfig] in terms of the recorded generations. *)
Lemma needsNewConfig_spec cluster latest :
  needsNewConfig cluster latest = true ↔
  (st_ObservedGeneration (rk_Status cluster) < om_Generation (rk_meta cluster))%Z ∧
  ∀ c g, latest = Some c → config_generation c = Some g → (g < om_Generation (rk_meta cluster))%Z.
Proof.
  unfold needsNewConfig, config_generation. destruct latest as [c|].
  - destruct (bool_decide_reflect (map_index (om_Annotations (cfg_meta c))
      GenerationAnnotation = "")) as [Hempty|Hne].
    + rewrite bool_decide_eq_true. split; [|by intros [??]].
      intros Hlt. split; [done|]. intros c0 g [= <-]. by rewrite Hempty.
    + destruct (ParseInt _) as [g|] eqn:Hg.
      2: { rewrite bool_decide_eq_true. split; [|by intros [??]].
           intros Hlt. split; [done|]. intros c0 g [= <-]. by rewrite Hg. }
      case_bool_decide; [split; [done|]; intros [_ Hlt]; specialize (Hlt c g eq_refl Hg); lia|].
      rewrite bool_decide_eq_true. split; [|by intros [??]].
      intros Hlt. split; [done|]. intros c0 g0 [= <-] Hg0. rewrite Hg in Hg0.
      injection Hg0 as <-. lia.
  - rewrite bool_decide_eq_true. naive_solver.
Qed.

(** What the metadata of a created config carries. *)
Lemma config_meta_keeps cluster seq m :
  SetControllerReference cluster (config_meta cluster seq) = inr m →
  meta_key m = mkNN (om_Namespace (rk_meta cluster)) (config_name cluster seq) ∧
  map_get (om_Labels m) ClusterLabel = Some (om_Name (rk_meta cluster)) ∧
  map_get (om_Annotations m) GenerationAnnotation =
    Some (FormatInt (om_Generation (rk_meta cluster))).
Proof.
  intros Hm. apply SetControllerReference_keeps in Hm as (Hn&Hns&Hl&Ha&_).
  unfold meta_key. rewrite Hn, Hns, Hl, Ha. simpl.
  split_and!; [done| |]; apply mergeMeta_base_wins; unfold map_get; apply lookup_insert_eq.
Qed.

Lemma carries_config_spec s seq : carries s seq (config_spec s seq).
Proof. by split_and!. Qed.

Lemma config_generation_created cluster seq m :
  in_int64 (om_Generation (rk_meta cluster)) →
  SetControllerReference cluster (config_meta cluster seq) = inr m →
  config_generation (new_config cluster seq m) = Some (om_Generation (rk_meta cluster)).
Proof.
  intros Hg Hm. apply config_meta_keeps in Hm as (_&_&Ha).
  unfold config_generation, map_index. simpl. rewrite Ha. by apply ParseInt_FormatInt.
Qed.

End create_facts.

(** ** Selecting the active config *)

Section select_facts.
Context {K : K8sTypes}.
Implicit Types (c : RedkeyConfig) (configs : list RedkeyConfig).

Definition in_progress c : Prop := cfg_phase c = ConfigPhaseInProgress.

Lemma selectActiveConfig_find configs :
  selectActiveConfig configs =
  match list_find in_progress configs with Some (_, c) => Some c | None => head configs end.
Proof.
  destruct configs as [|c [|d configs]]; [done| |done]. simpl. by case_decide.
Qed.

(** Spelled out: the first config in progress, or else the first. *)
Lemma selectActiveConfig_first configs :
  selectActiveConfig configs =
  match filter (λ c, cfg_phase c = "InProgress") configs with
  | [] => head configs
  | d :: _ => Some d
  end.
Proof.
  rewrite selectActiveConfig_find.
  assert (Hf : ∀ l, filter (λ c, cfg_phase c = "InProgress") l =
    match list_find (λ c, cfg_phase c = ConfigPhaseInProgress) l with
    | None => []
    | Some (i, d) => d :: filter (λ c, cfg_phase c = "InProgress") (drop (S i) l)
    end).
  { intros l. induction l as [|c l IH]; [done|]. rewrite filter_cons. simpl.
    change ConfigPhaseInProgress with "InProgress" in *.
    destruct (decide (cfg_phase c = "InProgress")); [done|]. rewrite IH.
    by destruct (list_find _ l) as [[i d]|]. }
  rewrite Hf. by destruct (list_find _ configs) as [[i d]|].
Qed.

Lemma expected_phase_literal c :
  expected_phase c =
  (if decide (terminal c)
   then if decide (cst_Status (cfg_Status c) = "Error") then "Error" else "Ready"
   else "Configuring").
Proof.
  unfold expected_phase, isTerminalConfigPhase, terminal.
  repeat case_bool_decide; repeat case_decide; simpl; try done; naive_solver.
Qed.

Lemma selectActiveConfig_Some configs :
  configs ≠ [] → is_Some (selectActiveConfig configs).
Proof.
  intros Hne. rewrite selectActiveConfig_find.
  destruct (list_find _ _) as [[]|]; [eauto|]. destruct configs; [done|eauto].
Qed.

End select_facts.

(** ** Aggregating the status *)

Section aggregate_facts.
Context {K : K8sTypes} {D : Deps} {DS : DepsSpec}.
Implicit Types (cluster latest : Redkey) (c : RedkeyConfig).

(** One attempt: it reads the Redkey of the request and, when that succeeds,
    writes the status computed from the object it read. *)
Definition attempt_trace cluster c (tr : list obs) (r : error + Redkey) : Prop :=
  (∃ e, tr = [Obs (Get KRedkey (meta_key (rk_meta cluster))) (inl e)] ∧ r = inl e) ∨
  (∃ latest now clk x,
     tr = [Obs (Get KRedkey (meta_key (rk_meta cluster))) (inr latest); Obs Now now; Obs Clock clk;
           Obs (UpdateStatus (with_status latest
             (aggregated_status now clk latest c (om_Generation (rk_meta cluster))))) x] ∧
     r = match x with inl e => inl e | inr u => inr (with_status cluster (rk_Status u)) end).

Lemma exec_aggregate_attempt cluster c s tr s' r :
  exec (aggregate_attempt cluster c) s tr s' r → s' = s ∧ attempt_trace cluster c tr r.
Proof.
  intros Hx. unfold aggregate_attempt in Hx. unfold attempt_trace.
  exec_inv; split; try done; [by left; eauto|right..]; do 4 eexists; (split; [reflexivity|done]).
Qed.

(** Whatever the active config is, aggregation records an applied topology or
    keeps the one recorded, and it never records zero primaries. *)
Lemma aggregated_last_applied now clk latest c g :
  let st := aggregated_status now clk latest c g in
  let old := rk_Status latest in
  if decide (spec_Ephemeral (rk_Spec latest) = false ∧ applied c ∧ 0 < cs_Primaries (cfg_Spec c))%Z
  then st_LastAppliedPrimaries st = cs_Primaries (cfg_Spec c) ∧
       st_LastAppliedReplicasPerPrimary st = cs_ReplicasPerPrimary (cfg_Spec c)
  else st_LastAppliedPrimaries st = st_LastAppliedPrimaries old ∧
       st_LastAppliedReplicasPerPrimary st = st_LastAppliedReplicasPerPrimary old.
Proof.
  simpl. case_decide as Hd.
  - destruct Hd as (->&Ha&Hp). unfold applied, cfg_phase in Ha.
    by rewrite Ha, (bool_decide_eq_true_2 (_ < _)%Z) by done.
  - unfold applied, cfg_phase in Hd.
    destruct (spec_Ephemeral (rk_Spec latest)); [done|].
    do 2 case_bool_decide; try done. by destruct Hd.
Qed.

(** All attempts of an aggregation. *)
Lemma exec_aggregateStatus cluster configs s tr s' r :
  exec (aggregateStatus cluster configs) s tr s' r →
  (configs = [] ∧ tr = [] ∧ s' = s ∧ r = inr cluster) ∨
  ∃ c failed final, selectActiveConfig configs = Some c ∧
    tr = concat failed ++ final ∧ length failed < retry_DefaultRetry_Steps ∧
    Forall (λ t, ∃ e, attempt_trace cluster c t (inl e) ∧ IsConflict e = true) failed ∧
    attempt_trace cluster c final r ∧
    ∀ e, r = inl e → IsConflict e = true → length failed + 1 = retry_DefaultRetry_Steps.
Proof.
  unfold aggregateStatus. destruct (selectActiveConfig configs) as [c|] eqn:Hc; intros Hx.
  - right. apply retry_attempts in Hx as (failed&s0&final&->&Hlen&Hf&Hx&He);
      [|apply retry_DefaultRetry_Steps_pos].
    exists c, failed, final. apply exec_aggregate_attempt in Hx as [_ Hx].
    split_and!; try done. eapply Forall_impl; [exact Hf|].
    intros t (s1&s2&e&Ha&?). apply exec_aggregate_attempt in Ha as [_ ?]. eauto.
  - left. exec_inv. split_and!; try done. apply eq_None_not_Some in Hc.
    destruct configs; [done|]. by destruct Hc; apply selectActiveConfig_Some.
Qed.

(** Where a status update comes from. *)
Lemma attempt_trace_write cluster c t r o x :
  attempt_trace cluster c t r → Obs (UpdateStatus o) x ∈ t →
  ∃ latest now clk, Obs (Get KRedkey (meta_key (rk_meta cluster))) (inr latest) ∈ t ∧
    o = with_status latest (aggregated_status now clk latest c (om_Generation (rk_meta cluster))).
Proof.
  intros [(e&->&_)|(latest&now&clk&y&->&_)] Ho.
  - by apply list_elem_of_singleton in Ho.
  - exists latest, now, clk. split; [by left|].
    rewrite !elem_of_cons in Ho. destruct Ho as [|[|[|[Ho|Ho]]]]; try done;
      [by simplify_eq|by apply not_elem_of_nil in Ho].
Qed.

Lemma aggregateStatus_write_from cluster configs s tr s' r o x :
  exec (aggregateStatus cluster configs) s tr s' r → Obs (UpdateStatus o) x ∈ tr →
  ∃ c latest now clk, selectActiveConfig configs = Some c ∧
    Obs (Get KRedkey (meta_key (rk_meta cluster))) (inr latest) ∈ tr ∧
    o = with_status latest (aggregated_status now clk latest c (om_Generation (rk_meta cluster))).
Proof.
  intros [(_&->&_)|(c&failed&final&Hc&->&_&Hf&Hfin&_)]%exec_aggregateStatus Ho.
  { by apply not_elem_of_nil in Ho. }
  assert (∃ t r', t ∈ failed ++ [final] ∧ attempt_trace cluster c t r' ∧ Obs (UpdateStatus o) x ∈ t)
    as (t&r'&Ht&Ha&Hin).
  { apply elem_of_app in Ho as [Ho|Ho].
    - apply elem_of_concat in Ho as (t&?&Ht). rewrite Forall_forall in Hf.
      destruct (Hf t Ht) as (e&?&_). exists t, (inl e). set_solver.
    - exists final, r. set_solver. }
  destruct (attempt_trace_write _ _ _ _ _ _ Ha Hin) as (latest&now&clk&Hg&->).
  exists c, latest, now, clk. split_and!; [done| |done].
  replace (concat failed ++ final) with (concat (failed ++ [final]))
    by (rewrite concat_app; simpl; by rewrite app_nil_r).
  apply elem_of_concat. eauto.
Qed.

End aggregate_facts.

(** ** Theorems *)

Section config_theorems.
Context {K : K8sTypes} {D : Deps} {DS : DepsSpec} {SS : SortSlice} {SP : SortSliceSpec}.
Implicit Types (cluster latest : Redkey) (c : RedkeyConfig) (configs : list RedkeyConfig).

(** C15: Cleanup deletes exactly the configs older than the last Applied one, from
    the lowest sequence up, and nothing else: the remaining list is the suffix that
    starts at the last Applied config (the whole list when there is none), and every
    deleted config was accepted for deletion or already gone. When a
    deletion fails with anything but NotFound it stops there and returns the
    configs it did not get past. Every deleted config is older than an Applied one,
    and each confirmed deletion (an already missing config is none) is counted once. *)
Theorem cleanupSupersededConfigs_correct configs s tr s' rest oe :
  exec (cleanupSupersededConfigs configs) s tr s' (rest, oe) →
  (∃ pre, configs = pre ++ keep_from_last_applied configs ∧
     Forall (before_applied configs) pre ∧
     obs_call <$> tr = (λ c, Delete KRedkeyConfig (meta_key (cfg_meta c))) <$>
                         take (length tr) pre ∧
     match oe with
     | None => length tr = length pre ∧ rest = keep_from_last_applied configs ∧ Forall gone tr
     | Some e => 0 < length tr ≤ length pre ∧ rest = drop (length tr - 1) configs ∧
                 IsNotFound e = false
     end) ∧
  os_metrics s' = os_metrics s ++
    replicate (deletions tr) (CounterInc redkeyCleanupDeletedConfigs []).
Proof.
  intros Hx. apply cleanup_spec in Hx as ((pre&Hpre&Hc&Ho)&Hm). split; [|done].
  exists pre. split_and!; [done| |done|done].
  apply Forall_forall. intros c. by apply not_kept_before_applied.
Qed.

(** The active config is the lowest one in progress; only when none is in
    progress it is the first of the list. Every config it could be preferred to is
    therefore not being applied. *)
Theorem selectActiveConfig_correct configs c :
  selectActiveConfig configs = Some c →
  ∃ i, configs !! i = Some c ∧
    (∀ j d, j < i → configs !! j = Some d → cfg_phase d ≠ ConfigPhaseInProgress) ∧
    (cfg_phase c = ConfigPhaseInProgress ∨
     i = 0 ∧ ∀ d, d ∈ configs → cfg_phase d ≠ ConfigPhaseInProgress).
Proof.
  rewrite selectActiveConfig_find. destruct (list_find _ _) as [[i d]|] eqn:Hf.
  - intros [= <-]. apply list_find_Some in Hf as (?&?&?). exists i. eauto.
  - apply list_find_None in Hf. rewrite Forall_forall in Hf. intros Hh. exists 0.
    split_and!; [by rewrite <-head_lookup|lia|]. right. split; [done|]. exact Hf.
Qed.

(** C34: Listing asks for the configs of the cluster's namespace that carry its
    label and returns exactly those, in sequence order. The last one has the
    highest sequence number, and unless the 64-bit counter wraps around the next
    sequence number is above all of them. An API error is returned as it is. *)
Theorem listConfigs_sorted cluster s tr s' r :
  exec (listConfigs cluster) s tr s' r →
  ∃ x, tr = [Obs (ListConfigs (om_Namespace (rk_meta cluster)) ClusterLabel
                   (om_Name (rk_meta cluster))) x] ∧
  match x with
  | inl e => r = inl e
  | inr items => ∃ l, r = inr l ∧ l ≡ₚ items ∧ StronglySorted (key_le cfg_seq) l ∧
      (in_int64 (default 0 (cfg_seq <$> slice_last l) + 1)%Z →
       ∀ c, c ∈ items → (cfg_seq c < next_seq (slice_last l))%Z)
  end.
Proof.
  intros Hx. apply exec_listConfigs in Hx as (->&[e|items]&->&->); eexists;
    (split; [reflexivity|]); [done|].
  eexists. split_and!; [reflexivity|apply sort_slice_perm|apply sort_slice_sorted|].
  intros Hov c Hc. rewrite <-(sort_slice_perm cfg_seq items) in Hc.
  destruct (last_is_Some (sort_slice cfg_seq items)) as [h Hh].
  { intros E. rewrite E in Hc. by apply not_elem_of_nil in Hc. }
  unfold slice_last in *. rewrite Hh in *. simpl in *. rewrite wrap64_id by done.
  pose proof (last_max cfg_seq _ h c (sort_slice_sorted cfg_seq items) Hh Hc). lia.
Qed.

(** C19: Creating a config makes one request, for a config in the cluster's namespace
    that is named after the cluster and the number following the newest config's (1
    for the first one), that carries every setting of the cluster's spec field by
    field, the user's labels and annotations with the cluster's label and generation
    set over them, and the generation parses back from its annotation. An existing
    config of that name is not an error; the creation counter moves only when the
    server created it. *)
Theorem createNewConfig_correct cluster h s tr s' r :
  in_int64 (om_Generation (rk_meta cluster)) →
  exec (createNewConfig cluster h) s tr s' r →
  let name := om_Name (rk_meta cluster) in
  let generation := FormatInt (om_Generation (rk_meta cluster)) in
  let seq := match h with None => 1%Z | Some latest => wrap64 (cs_Sequence (cfg_Spec latest) + 1) end in
  (tr = [] ∧ s' = s ∧ ∃ e, r = inl e ∧
     SetControllerReference cluster (config_meta cluster seq) = inl e) ∨
  ∃ config x, tr = [Obs (Create KRedkeyConfig config) x] ∧
    om_Name (cfg_meta config) = name +:+ "-" +:+ FormatInt seq ∧
    om_Namespace (cfg_meta config) = om_Namespace (rk_meta cluster) ∧
    carries (rk_Spec cluster) seq (cfg_Spec config) ∧ cfg_Status config = config_status_zero ∧
    (∀ k, map_get (om_Labels (cfg_meta config)) k =
       if decide (k = "redkey.inditex.dev/cluster") then Some name
       else map_get (derefMap (spec_Labels (rk_Spec cluster))) k) ∧
    (∀ k, map_get (om_Annotations (cfg_meta config)) k =
       if decide (k = "redkey.inditex.dev/cluster-generation") then Some generation
       else map_get (derefMap (spec_Annotations (rk_Spec cluster))) k) ∧
    ParseInt generation = Some (om_Generation (rk_meta cluster)) ∧
    r = match x with inl e => if IsAlreadyExists e then inr tt else inl e | inr _ => inr tt end ∧
    os_metrics s' = os_metrics s ++
      match x with
      | inl _ => []
      | inr _ => [CounterInc redkeyConfigCreations
                    [match h with None => "initial" | Some _ => "generation_change" end]]
      end.
Proof.
  intros Hg Hx name generation seq. apply exec_createNewConfig in Hx.
  change (next_seq h) with seq in Hx.
  destruct (SetControllerReference _ _) as [e|m] eqn:Hm; [left; naive_solver|right].
  apply SetControllerReference_keeps in Hm as (Hn&Hns&Hl&Ha&_).
  destruct Hx as (x&->&Hx). exists (new_config cluster seq m), x.
  cbn [new_config cfg_meta cfg_Spec cfg_Status]. rewrite Hn, Hns, Hl, Ha.
  cbn [config_meta meta_lit om_Name om_Namespace om_Labels om_Annotations].
  split_and!; try done; try apply map_get_mergeMeta_base.
  - by apply ParseInt_FormatInt.
  - by destruct x as [e|[]]; destruct Hx.
  - by destruct x as [e|[]]; destruct Hx as [Hs Hr]; subst; rewrite ?app_nil_r.
Qed.

(** C20: A config settles its generation: as long as the newest config is one
    created for generation [g], another one is asked for exactly when the cluster
    has moved past both [g] and the generation its status was aggregated for. *)
Theorem needsNewConfig_created cluster cluster' seq m :
  in_int64 (om_Generation (rk_meta cluster)) →
  SetControllerReference cluster (config_meta cluster seq) = inr m →
  needsNewConfig cluster' (Some (new_config cluster seq m)) = true ↔
  (om_Generation (rk_meta cluster) < om_Generation (rk_meta cluster') ∧
   st_ObservedGeneration (rk_Status cluster') < om_Generation (rk_meta cluster'))%Z.
Proof.
  intros Hg Hm. rewrite needsNewConfig_spec.
  pose proof (config_generation_created _ _ _ Hg Hm) as Hc. split.
  - intros [? Hlt]. split; [|done]. by eapply Hlt.
  - intros [??]. split; [done|]. intros c g [= <-] Hc'. rewrite Hc in Hc'. by injection Hc' as <-.
Qed.

(** Config names do not clash: two configs of the same name, of whatever
    clusters, belong to the same cluster name and sequence number. A cluster whose
    own name ends in a number cannot take the configs of another one. *)
Theorem config_name_unique cluster1 cluster2 seq1 seq2 :
  (0 ≤ seq1)%Z → (0 ≤ seq2)%Z → config_name cluster1 seq1 = config_name cluster2 seq2 →
  om_Name (rk_meta cluster1) = om_Name (rk_meta cluster2) ∧ seq1 = seq2.
Proof. apply dashed_name_inj. Qed.

End config_theorems.

Section status_theorems.
Context {K : K8sTypes} {D : Deps} {DS : DepsSpec}.
Implicit Types (cluster latest : Redkey) (c : RedkeyConfig) (configs : list RedkeyConfig).

(** C18: After aggregation every condition is accounted for. Each of the six health
    conditions repeats status, reason and message of Robin's report on the active
    config when that config is Applied or Superseded with status Ready and has such a
    report, and is Unknown/Reconciling in every other case. Ready, ConfigPending and
    Error follow the active config's phase and status; conditions of any other type
    stay as they were. The phase computed from them is Error, Ready or Configuring by
    the active config's phase and status alone, whatever conditions the Redkey had
    before. (The documentation has the highest-sequence config in place of the active
    one, and Configuring for an Applied config with any status but Ready and Error;
    this is what the code does.) *)
Theorem aggregateConditions_correct clk cs c :
  let after := FindStatusCondition (aggregateConditions clk cs c) in
  let status := cst_Status (cfg_Status c) in
  let reported t src := terminal c ∧ status = "Ready" ∧
    FindStatusCondition (cst_Conditions (cfg_Status c)) t = Some src in
  let health := ["Healthy"; "MembershipHealthy"; "SlotsCovered"; "SlotsBalanced";
                 "ReplicasBalanced"; "ClusterCheckPassing"] in
  let set_to t st reason message := ∃ d, after t = Some d ∧ cond_Status d = st ∧
    cond_Reason d = reason ∧ cond_Message d = message in
  let follows t (P : Prop) {_ : Decision P} :=
    set_to t (if decide P then "True" else "False") "StatusAggregated" "" in
  (∀ t src, t ∈ health → reported t src →
     set_to t (cond_Status src) (cond_Reason src) (cond_Message src)) ∧
  (∀ t, t ∈ health → (∀ src, ¬ reported t src) → set_to t "Unknown" "Reconciling" "") ∧
  follows "Ready" (terminal c ∧ status ≠ "Error") ∧
  follows "ConfigPending" (¬ terminal c) ∧
  follows "Error" (terminal c ∧ status = "Error") ∧
  (∀ t, t ∉ health → t ∉ ["Ready"; "ConfigPending"; "Error"] → after t = FindStatusCondition cs t) ∧
  computePhaseFromConditions (aggregateConditions clk cs c) =
    (if decide (terminal c) then if decide (status = "Error") then "Error" else "Ready"
     else "Configuring").
Proof.
  intros after status reported health set_to follows.
  assert (Hset : ∀ t x, (if decide (t ∈ healthConditionTypes) then Some (health_condition c t)
                         else lifecycle_condition c t) = Some x →
                 set_to t (cond_Status x) (cond_Reason x) (cond_Message x)).
  { intros t x Hx. pose proof (aggregateConditions_find clk cs c t) as Hf. rewrite Hx in Hf.
    destruct Hf as (d&Hd&_&Hs&Hr&Hm&_). by exists d. }
  assert (Hhealth : ∀ t, t ∈ health →
    set_to t (cond_Status (health_condition c t)) (cond_Reason (health_condition c t))
      (cond_Message (health_condition c t))).
  { intros t Ht. pose proof (Hset t (health_condition c t)) as Hs.
    rewrite decide_True in Hs by done. exact (Hs eq_refl). }
  assert (Hlife : ∀ t (P : Prop) `{Decision P} b, t ∉ health → (b = true ↔ P) →
    lifecycle_condition c t = Some (cond t (conditionStatus b) "StatusAggregated") → follows t P _).
  { intros t P HP b Ht Hb Hl. unfold follows. replace (if decide P then "True" else "False")
      with (conditionStatus b) by (case_decide; destruct b; naive_solver).
    pose proof (Hset t (cond t (conditionStatus b) "StatusAggregated")) as Hs.
    rewrite decide_False in Hs by done. exact (Hs Hl). }
  split_and!.
  - intros t src Ht (Hterm&Hst&Hsrc). specialize (Hhealth t Ht). unfold health_condition in Hhealth.
    rewrite (proj2 (settled_spec c)), Hsrc in Hhealth by done. exact Hhealth.
  - intros t Ht Hnone. specialize (Hhealth t Ht). unfold health_condition in Hhealth.
    destruct (settled c) eqn:Hs; [|exact Hhealth]. apply settled_spec in Hs as [??].
    destruct (FindStatusCondition _ t) as [src|] eqn:Hsrc; [|exact Hhealth]. by destruct (Hnone src).
  - apply (Hlife "Ready" _ _ (isConfigReady (Some c))); [set_solver| |done].
    simpl. rewrite andb_true_iff, negb_true_iff, bool_decide_eq_false, terminal_spec. done.
  - apply (Hlife "ConfigPending" _ _ (negb (isTerminalConfigPhase (cfg_phase c)))); [set_solver| |done].
    rewrite negb_true_iff, <-terminal_spec. by destruct (isTerminalConfigPhase _).
  - apply (Hlife "Error" _ _ (hasConfigError (Some c))); [set_solver| |done].
    simpl. by rewrite andb_true_iff, bool_decide_eq_true, terminal_spec.
  - intros t Ht Hl. pose proof (aggregateConditions_find clk cs c t) as Hf.
    rewrite decide_False in Hf by done. unfold lifecycle_condition in Hf.
    rewrite !decide_False in Hf by set_solver. exact Hf.
  - rewrite aggregate_phase_expected. apply expected_phase_literal.
Qed.

(** Re-aggregating does not restart the clock of a condition: the transition
    time of every condition whose status does not change is kept. *)
Theorem aggregateConditions_keeps_times clk cs c t old new :
  FindStatusCondition cs t = Some old →
  FindStatusCondition (aggregateConditions clk cs c) t = Some new →
  cond_Status old = cond_Status new →
  cond_LastTransitionTime new = cond_LastTransitionTime old.
Proof. apply aggregateConditions_time. Qed.

(** C16: What a status update may change: the object written is one read in the
    same aggregation, with its metadata (resource version included) and spec; the
    generation recorded as observed is the one of the reconcile's snapshot, not of
    the object just read; phase and status are those of the first config in progress
    or else of the first one (where the documentation has the newest one); and the
    last applied topology is either kept or set to that of an Applied config with
    primaries, so a recorded topology is never cleared. *)
Theorem aggregateStatus_writes cluster configs s tr s' r o x :
  exec (aggregateStatus cluster configs) s tr s' r →
  Obs (UpdateStatus o) x ∈ tr →
  ∃ c latest,
    match filter (λ c, cfg_phase c = "InProgress") configs with
    | [] => head configs
    | d :: _ => Some d
    end = Some c ∧
    Obs (Get KRedkey (meta_key (rk_meta cluster))) (inr latest) ∈ tr ∧
    rk_meta o = rk_meta latest ∧ rk_Spec o = rk_Spec latest ∧
    st_ObservedGeneration (rk_Status o) = om_Generation (rk_meta cluster) ∧
    st_Status (rk_Status o) = cst_Status (cfg_Status c) ∧
    st_Phase (rk_Status o) =
      (if decide (terminal c)
       then if decide (cst_Status (cfg_Status c) = "Error") then "Error" else "Ready"
       else "Configuring") ∧
    (st_LastAppliedPrimaries (rk_Status o) = st_LastAppliedPrimaries (rk_Status latest) ∧
     st_LastAppliedReplicasPerPrimary (rk_Status o) =
       st_LastAppliedReplicasPerPrimary (rk_Status latest) ∨
     cfg_phase c = ConfigPhaseApplied ∧ spec_Ephemeral (rk_Spec latest) = false ∧
     (0 < cs_Primaries (cfg_Spec c))%Z ∧
     st_LastAppliedPrimaries (rk_Status o) = cs_Primaries (cfg_Spec c) ∧
     st_LastAppliedReplicasPerPrimary (rk_Status o) = cs_ReplicasPerPrimary (cfg_Spec c)).
Proof.
  intros Hx Ho. destruct (aggregateStatus_write_from cluster configs s tr s' r o x Hx Ho)
    as (c&latest&now&clk&Hc&Hg&->). exists c, latest. simpl.
  split; [by rewrite <-selectActiveConfig_first|].
  split_and!; try done; [by rewrite aggregate_phase_expected, expected_phase_literal|].
  pose proof (aggregated_last_applied now clk latest c (om_Generation (rk_meta cluster))) as Hl.
  simpl in Hl. case_decide as Hd; [right|by left]. by destruct Hd as (?&?&?), Hl.
Qed.

End status_theorems.

Section config_witnesses.
Import Simple.

Definition w_configs : list RedkeyConfig :=
  [Sample.config 1 1 3 ConfigPhaseSuperseded ""; Sample.config 2 2 3 ConfigPhaseApplied "Ready";
   Sample.config 3 3 5 ConfigPhaseInProgress "ScalingUp"; Sample.config 4 4 6 ConfigPhasePending ""].

Definition w_cluster : Redkey :=
  Sample.redkey 3 (Sample.spec 5 1 false) (Sample.status PhaseReady "Ready" 2).

Definition w_online := Sample.online w_cluster w_configs.

Definition w_tr {A} (m : M OpState A) : list obs := run_trace w_online (m w_state) tt.
Definition w_st {A} (m : M OpState A) : OpState := (run w_online (m w_state) tt).2.1.
Definition w_res {A} (m : M OpState A) : A := (run w_online (m w_state) tt).2.2.

Lemma cleanupSupersededConfigs_correct_witness :
  os_metrics (w_st (cleanupSupersededConfigs w_configs)) =
    os_metrics w_state ++ [CounterInc redkeyCleanupDeletedConfigs []] ∧
  keep_from_last_applied w_configs = drop 1 w_configs.
Proof.
  split; [|reflexivity].
  exact (proj2 (cleanupSupersededConfigs_correct w_configs w_state _ _ (drop 1 w_configs) None
    (exec_run w_online (cleanupSupersededConfigs w_configs) w_state tt))).
Defined.

Lemma selectActiveConfig_correct_witness :
  ∃ i, w_configs !! i = Some (Sample.config 3 3 5 ConfigPhaseInProgress "ScalingUp").
Proof.
  destruct (selectActiveConfig_correct w_configs
    (Sample.config 3 3 5 ConfigPhaseInProgress "ScalingUp") eq_refl) as (i&Hi&_).
  exists i. exact Hi.
Defined.

Lemma listConfigs_sorted_witness :
  ∃ x, w_tr (listConfigs w_cluster) = [Obs (ListConfigs "ns" ClusterLabel "rk") x].
Proof.
  destruct (listConfigs_sorted w_cluster w_state _ _ _
    (exec_run w_online (listConfigs w_cluster) w_state tt)) as (x&Hx&_).
  exists x. exact Hx.
Defined.

Lemma createNewConfig_correct_witness :
  w_tr (createNewConfig w_cluster (slice_last w_configs)) = [] ∨
  ∃ config x, w_tr (createNewConfig w_cluster (slice_last w_configs)) =
                [Obs (Create KRedkeyConfig config) x] ∧
    om_Name (cfg_meta config) = "rk-5".
Proof.
  destruct (createNewConfig_correct w_cluster (slice_last w_configs) w_state _ _ _
    ltac:(unfold in_int64; simpl; lia)
    (exec_run w_online (createNewConfig w_cluster (slice_last w_configs)) w_state tt))
    as [(Htr&_)|(config&x&Htr&Hk&_)]; [left; exact Htr|].
  right. exists config, x. split; [exact Htr|exact Hk].
Defined.

Lemma needsNewConfig_created_witness :
  ∃ m, SetControllerReference w_cluster (config_meta w_cluster 4) = inr m ∧
    needsNewConfig (Sample.redkey 4 (Sample.spec 5 1 false) (Sample.status "" "" 3))
      (Some (new_config w_cluster 4 m)) = true.
Proof.
  eexists. split; [reflexivity|].
  apply needsNewConfig_created; [unfold in_int64; simpl; lia|reflexivity|simpl; lia].
Defined.

Lemma config_name_unique_witness :
  om_Name (rk_meta w_cluster) = "rk" ∧ (7 = 7)%Z.
Proof.
  apply (config_name_unique w_cluster (Sample.redkey 9 (Sample.spec 0 0 true)
    (Sample.status "" "" 0)) 7 7); [lia|lia|reflexivity].
Defined.

Lemma aggregateConditions_correct_witness :
  let c := Sample.config 2 2 3 ConfigPhaseApplied "Error" in
  computePhaseFromConditions (aggregateConditions (λ _, 5%Z) [] c) = "Error" ∧
  ∃ d, FindStatusCondition (aggregateConditions (λ _, 5%Z) [] c) "Healthy" = Some d ∧
    cond_Status d = "Unknown".
Proof.
  destruct (aggregateConditions_correct (λ _, 5%Z) []
    (Sample.config 2 2 3 ConfigPhaseApplied "Error")) as (_&Hu&_&_&_&_&Hp).
  split; [exact Hp|]. destruct (Hu "Healthy") as (d&Hd&Hs&_).
  - left.
  - intros src (_&Hst&_). discriminate Hst.
  - exists d. split; [exact Hd|exact Hs].
Defined.

Definition w_ready (t : Time) : Condition :=
  mkCondition "Ready" ConditionTrue 0 (Some t) "StatusAggregated" "".

Lemma aggregateConditions_keeps_times_witness :
  cond_LastTransitionTime <$> FindStatusCondition (aggregateConditions (λ _, 5%Z) [w_ready 1]
    (Sample.config 2 2 3 ConfigPhaseApplied "Ready")) "Ready" = Some (Some 1%Z).
Proof.
  exact (f_equal Some (aggregateConditions_keeps_times (λ _, 5%Z) [w_ready 1]
    (Sample.config 2 2 3 ConfigPhaseApplied "Ready") "Ready" (w_ready 1) (w_ready 1)
    eq_refl eq_refl eq_refl)).
Defined.

Definition w_aggregate : M OpState (error + Redkey) := aggregateStatus w_cluster w_configs.

Lemma aggregateStatus_writes_witness :
  ∃ o x, Obs (UpdateStatus o) x ∈ w_tr w_aggregate ∧
    st_ObservedGeneration (rk_Status o) = 3%Z.
Proof.
  assert (∃ o x, Obs (UpdateStatus o) x ∈ w_tr w_aggregate) as (o&x&Ho).
  { do 2 eexists. right. right. right. left. }
  exists o, x. split; [exact Ho|].
  destruct (aggregateStatus_writes w_cluster w_configs w_state _ _ _ o x
    (exec_run w_online w_aggregate w_state tt) Ho) as (c&latest&_&_&_&_&Hg&_).
  exact Hg.
Defined.

End config_witnesses.
