(* ===== verification/Robin.v ===== *)
(** * Robin's workload (src/internal/controller/redkey_robin.go)

    For each Redkey the operator keeps a ServiceAccount, a Role, a RoleBinding and
    a Deployment for Robin, the process that manages the cluster: it builds what
    they should be from the Redkey's spec, compares that with what it reads, and
    creates or patches what differs. *)

From S2P Require Import Prelude Strconv ApiTypes Effects External Samples Metrics Metadata.

(** ** Definitions *)

(** [func DesiredRobinRules() []rbacv1.PolicyRule] *)
Definition all_verbs : list string :=
  ["get"; "list"; "watch"; "create"; "update"; "patch"; "delete"].

Definition rule (group : string) (resources verbs : list string) : PolicyRule :=
  mkRule verbs [group] resources [] [].

Definition DesiredRobinRules : list PolicyRule :=
  [rule "apps" ["statefulsets"] all_verbs;
   rule "" ["services"; "configmaps"] all_verbs;
   rule "" ["pods"] ["get"; "list"; "watch"; "delete"];
   rule "" ["persistentvolumeclaims"] ["list"; "delete"];
   rule "policy" ["poddisruptionbudgets"] all_verbs;
   rule "" ["secrets"] ["get"];
   rule "redkey.inditex.dev" ["redkeys"] ["get"];
   rule "redkey.inditex.dev" ["redkeyconfigs"] ["get"; "list"; "watch"];
   rule "redkey.inditex.dev" ["redkeyconfigs/status"] ["update"; "patch"]].

Section robin.
Context {K : K8sTypes} {D : Deps}.

(** [fmt.Sprintf("%s-robin", cluster.Name)] *)
Definition robin_name (cluster : Redkey) : string := om_Name (rk_meta cluster) +:+ "-robin".

Definition robin_key (cluster : Redkey) : NamespacedName :=
  mkNN (om_Namespace (rk_meta cluster)) (robin_name cluster).

(** The internal labels of every object of Robin, also its selector. *)
Definition robin_base_labels (cluster : Redkey) : GoMap string :=
  Some (<[ClusterLabel := om_Name (rk_meta cluster)]> {[ComponentLabel := "robin"]}).

Definition rbac_labels (cluster : Redkey) : GoMap string :=
  mergeMeta (derefMap (spec_Labels (rk_Spec cluster))) None (robin_base_labels cluster).

Definition rbac_annotations (cluster : Redkey) : GoMap string :=
  mergeMeta (derefMap (spec_Annotations (rk_Spec cluster))) None None.

(** The metadata literal of the three RBAC objects and of the Deployment. *)
Definition robin_meta (cluster : Redkey) : ObjectMeta :=
  meta_lit (robin_name cluster) (om_Namespace (rk_meta cluster))
    (rbac_labels cluster) (rbac_annotations cluster).

(** Assignments to an existing object's Labels and Annotations. *)
Definition set_labels_annotations (m : ObjectMeta) (labels annotations : GoMap string)
    : ObjectMeta :=
  mkMeta (om_Name m) (om_Namespace m) labels annotations (om_Generation m)
    (om_ResourceVersion m) (om_CreationTimestamp m) (om_OwnerReferences m) (om_rest m).

(** The comparison of labels and annotations of the three RBAC objects. *)
Definition meta_drift (existing desired : ObjectMeta) : bool :=
  negb (DeepEqual_map (om_Labels existing) (om_Labels desired)) ||
  negb (DeepEqual_map (om_Annotations existing) (om_Annotations desired)).

(** The ServiceAccount part of [ensureRBAC]. *)
Definition ensureServiceAccount (cluster : Redkey) : M OpState (error + unit) :=
  match SetControllerReference cluster (robin_meta cluster) with
  | inl e => raise e
  | inr m =>
      let desired := mkServiceAccount m serviceaccount_rest_zero in
      r ← invoke (Get KServiceAccount (robin_key cluster));
      match r with
      | inl e => if IsNotFound e then invoke (Create KServiceAccount desired) else raise e
      | inr existing =>
          if meta_drift (sa_meta existing) (sa_meta desired) then
            invoke (Patch KServiceAccount
              (mkServiceAccount (set_labels_annotations (sa_meta existing) (om_Labels m)
                 (om_Annotations m)) (sa_rest existing)) existing)
          else ok tt
      end
  end.

(** The Role part. *)
Definition ensureRole (cluster : Redkey) : M OpState (error + unit) :=
  match SetControllerReference cluster (robin_meta cluster) with
  | inl e => raise e
  | inr m =>
      let desired := mkRole m DesiredRobinRules in
      r ← invoke (Get KRole (robin_key cluster));
      match r with
      | inl e => if IsNotFound e then invoke (Create KRole desired) else raise e
      | inr existing =>
          if negb (DeepEqual_rules (role_Rules existing) (role_Rules desired)) ||
             meta_drift (role_meta existing) (role_meta desired) then
            invoke (Patch KRole
              (mkRole (set_labels_annotations (role_meta existing) (om_Labels m)
                 (om_Annotations m)) (role_Rules desired)) existing)
          else ok tt
      end
  end.

Definition robin_subjects (cluster : Redkey) : list Subject :=
  [mkSubject "ServiceAccount" "" (robin_name cluster) (om_Namespace (rk_meta cluster))].

Definition robin_roleref (cluster : Redkey) : RoleRef :=
  mkRoleRef "rbac.authorization.k8s.io" "Role" (robin_name cluster).

(** The RoleBinding part: a RoleRef is immutable, so drift there recreates. *)
Definition ensureRoleBinding (cluster : Redkey) : M OpState (error + unit) :=
  match SetControllerReference cluster (robin_meta cluster) with
  | inl e => raise e
  | inr m =>
      let desired := mkRoleBinding m (robin_subjects cluster) (robin_roleref cluster) in
      r ← invoke (Get KRoleBinding (robin_key cluster));
      match r with
      | inl e => if IsNotFound e then invoke (Create KRoleBinding desired) else raise e
      | inr existing =>
          let needsRecreate := negb (bool_decide (rb_RoleRef existing = rb_RoleRef desired)) in
          let needsPatch :=
            negb (DeepEqual_subjects (rb_Subjects existing) (rb_Subjects desired)) ||
            meta_drift (rb_meta existing) (rb_meta desired) in
          if needsRecreate then
            invoke (Delete KRoleBinding (meta_key (rb_meta existing))) ;?;
            invoke (Create KRoleBinding desired)
          else if needsPatch then
            invoke (Patch KRoleBinding
              (mkRoleBinding (set_labels_annotations (rb_meta existing) (om_Labels m)
                 (om_Annotations m)) (rb_Subjects desired) (rb_RoleRef existing)) existing)
          else ok tt
      end
  end.

(** [func (r) ensureRBAC(ctx, cluster) error] *)
Definition ensureRBAC (cluster : Redkey) : M OpState (error + unit) :=
  ensureServiceAccount cluster ;?; (ensureRole cluster ;?; ensureRoleBinding cluster).

(** [func robinDefaultEnvVars(cluster) []corev1.EnvVar] *)
Definition robinDefaultEnvVars (cluster : Redkey) : list EnvVar :=
  [mkEnv "CLUSTER_NAME" (om_Name (rk_meta cluster)) None;
   mkEnv "NAMESPACE" (om_Namespace (rk_meta cluster)) None].

(** [if len(src) > 0 { dst = src }] on slices, and the like on maps and strings. *)
Definition or_slice {A} (src dst : list A) : list A :=
  match src with [] => dst | _ :: _ => src end.
Definition or_map (src dst : GoMap string) : GoMap string :=
  if bool_decide (0 < map_len src) then src else dst.
Definition or_string (src dst : string) : string :=
  if bool_decide (src = "") then dst else src.
Definition or_ptr {A} (src dst : option A) : option A :=
  match src with Some _ => src | None => dst end.

(** The base container. *)
Definition robin_container (cluster : Redkey) : Container :=
  {| ctr_Name := "robin"; ctr_Image := robin_Image (spec_Robin (rk_Spec cluster));
     ctr_Args := ["--cluster-name=$(CLUSTER_NAME)"; "--namespace=$(NAMESPACE)"];
     ctr_Env := robinDefaultEnvVars cluster; ctr_EnvFrom := [];
     ctr_Ports := [{| cp_Name := "metrics"; cp_HostPort := 0; cp_ContainerPort := 8080;
                      cp_Protocol := "TCP"; cp_HostIP := "" |}];
     ctr_Resources := match robin_Resources (spec_Robin (rk_Spec cluster)) with
                      | Some r => r | None => resources_zero end;
     ctr_VolumeMounts := []; ctr_SecurityContext := None; ctr_rest := container_rest_zero |}.

(** The overrides taken from the first container of the template. *)
Definition override_container (container src : Container) : Container :=
  {| ctr_Name := ctr_Name container;
     ctr_Image := or_string (ctr_Image src) (ctr_Image container);
     ctr_Args := ctr_Args container;
     ctr_Env := match ctr_Env src with
                | [] => ctr_Env container
                | _ :: _ => mergeEnvVars (ctr_Env container) (ctr_Env src) end;
     ctr_EnvFrom := or_slice (ctr_EnvFrom src) (ctr_EnvFrom container);
     ctr_Ports := ctr_Ports container;
     ctr_Resources :=
       match rr_Limits (ctr_Resources src), rr_Requests (ctr_Resources src) with
       | None, None => ctr_Resources container
       | _, _ => ctr_Resources src end;
     ctr_VolumeMounts := or_slice (ctr_VolumeMounts src) (ctr_VolumeMounts container);
     ctr_SecurityContext := or_ptr (ctr_SecurityContext src) (ctr_SecurityContext container);
     ctr_rest := ctr_rest container |}.

(** Assignment to [container.Env]. *)
Definition with_env (container : Container) (env : list EnvVar) : Container :=
  mkContainer (ctr_Name container) (ctr_Image container) (ctr_Args container) env
    (ctr_EnvFrom container) (ctr_Ports container) (ctr_Resources container)
    (ctr_VolumeMounts container) (ctr_SecurityContext container) (ctr_rest container).

(** The container after the template's overrides. *)
Definition desired_container (cluster : Redkey) : Container :=
  let container := robin_container cluster in
  match robin_Template (spec_Robin (rk_Spec cluster)) with
  | None => container
  | Some tpl =>
      let container := match pps_Containers (ppt_Spec tpl) with
                       | [] => container
                       | src :: _ => override_container container src end in
      with_env container (mergeEnvVars (ctr_Env container) (robinDefaultEnvVars cluster))
  end.

(** The pod spec: defaults, the template's overrides, then the container. *)
Definition desired_podspec (cluster : Redkey) : PodSpec :=
  let base := mkPodSpec (robin_name cluster) [desired_container cluster] None [] None None [] ""
                [] [] podspec_rest_zero in
  match robin_Template (spec_Robin (rk_Spec cluster)) with
  | None => base
  | Some tpl =>
      let s := ppt_Spec tpl in
      {| pod_ServiceAccountName := pod_ServiceAccountName base;
         pod_Containers := pod_Containers base;
         pod_NodeSelector := or_map (pps_NodeSelector s) (pod_NodeSelector base);
         pod_Tolerations := or_slice (pps_Tolerations s) (pod_Tolerations base);
         pod_Affinity := or_ptr (pps_Affinity s) (pod_Affinity base);
         pod_SecurityContext := or_ptr (pps_SecurityContext s) (pod_SecurityContext base);
         pod_ImagePullSecrets := or_slice (pps_ImagePullSecrets s) (pod_ImagePullSecrets base);
         pod_PriorityClassName := or_string (pps_PriorityClassName s) (pod_PriorityClassName base);
         pod_TopologySpreadConstraints :=
           or_slice (pps_TopologySpreadConstraints s) (pod_TopologySpreadConstraints base);
         pod_Volumes := or_slice (pps_Volumes s) (pod_Volumes base);
         pod_rest := pod_rest base |}
  end.

(** [func (r) buildDesiredRobinDeployment(cluster) *appsv1.Deployment] *)
Definition buildDesiredRobinDeployment (cluster : Redkey) : Deployment :=
  let specLabels := derefMap (spec_Labels (rk_Spec cluster)) in
  let specAnnotations := derefMap (spec_Annotations (rk_Spec cluster)) in
  let '(tplLabels, tplAnnotations) :=
    match robin_Template (spec_Robin (rk_Spec cluster)) with
    | Some tpl => (om_Labels (ppt_Metadata tpl), om_Annotations (ppt_Metadata tpl))
    | None => (None, None)
    end in
  let baseLabels := robin_base_labels cluster in
  let deployLabels := mergeMeta specLabels None baseLabels in
  let deployAnnotations := mergeMeta specAnnotations None None in
  let podLabels := mergeMeta specLabels tplLabels baseLabels in
  let podAnnotations := mergeMeta specAnnotations tplAnnotations None in
  mkDeployment
    (meta_lit (robin_name cluster) (om_Namespace (rk_meta cluster)) deployLabels deployAnnotations)
    {| dspec_Replicas := Some 1%Z;
       dspec_Selector := Some (mkSelector (robin_base_labels cluster) []);
       dspec_Template := mkTemplate (meta_lit "" "" podLabels podAnnotations)
                           (desired_podspec cluster);
       dspec_rest := deployspec_rest_zero |}
    deploystatus_zero.

(** [func (r) robinDeploymentNeedsUpdate(existing, desired) bool]; the desired
    replica count is never nil. *)
Definition robinDeploymentNeedsUpdate (existing desired : Deployment) : bool :=
  let es := deploy_Spec existing in
  let ds := deploy_Spec desired in
  let em := tpl_meta (dspec_Template es) in
  let dm := tpl_meta (dspec_Template ds) in
  if negb (match dspec_Replicas es with
           | None => false
           | Some n => bool_decide (Some n = dspec_Replicas ds) end) then true
  else if negb (DeepEqual_map (om_Labels (deploy_meta existing)) (om_Labels (deploy_meta desired)))
  then true
  else if negb (DeepEqual_map (stripManagedAnnotations (om_Annotations (deploy_meta existing)))
                  (om_Annotations (deploy_meta desired))) then true
  else if negb (DeepEqual_map (om_Labels em) (om_Labels dm)) then true
  else if negb (DeepEqual_map (om_Annotations em) (om_Annotations dm)) then true
  else if negb (DeepDerivative_podspec (tpl_Spec (dspec_Template ds))
                  (tpl_Spec (dspec_Template es))) then true
  else false.

(** The assignments to [existing] before it is patched. *)
Definition patched_deployment (existing desired : Deployment) : Deployment :=
  mkDeployment
    (set_labels_annotations (deploy_meta existing) (om_Labels (deploy_meta desired))
       (preserveManagedAnnotations (om_Annotations (deploy_meta existing))
          (om_Annotations (deploy_meta desired))))
    (mkDeploymentSpec (dspec_Replicas (deploy_Spec desired)) (dspec_Selector (deploy_Spec existing))
       (dspec_Template (deploy_Spec desired)) (dspec_rest (deploy_Spec existing)))
    (deploy_Status existing).

(** Assignment to the ObjectMeta of a Deployment. *)
Definition with_deploy_meta (d : Deployment) (m : ObjectMeta) : Deployment :=
  mkDeployment m (deploy_Spec d) (deploy_Status d).

(** [func (r) ensureRobinDeployment(ctx, cluster) error] *)
Definition ensureRobinDeployment (cluster : Redkey) : M OpState (error + unit) :=
  let desired := buildDesiredRobinDeployment cluster in
  match SetControllerReference cluster (deploy_meta desired) with
  | inl e => raise e
  | inr m =>
      let desired := with_deploy_meta desired m in
      r ← invoke (Get KDeployment (meta_key (deploy_meta desired)));
      match r with
      | inl e =>
          if IsNotFound e then
            invoke (Create KDeployment desired) ;?;
            (emit (CounterInc redkeyRobinDeploymentChanges ["create"]) ;; ok tt)
          else raise e
      | inr existing =>
          if robinDeploymentNeedsUpdate existing desired then
            invoke (Patch KDeployment (patched_deployment existing desired) existing) ;?;
            (emit (CounterInc redkeyRobinDeploymentChanges ["patch"]) ;; ok tt)
          else ok tt
      end
  end.

(** [func (r) createIfNotExists(ctx, obj) error] *)
Definition createIfNotExists (k : okind) (obj : obj_of k) : M OpState (error + unit) :=
  r ← invoke (Get k (meta_key (obj_meta k obj)));
  match r with
  | inl e => if IsNotFound e then invoke (Create k obj) else raise e
  | inr _ => ok tt
  end.

End robin.

(** ** RBAC *)

Section rbac_facts.
Context {K : K8sTypes} {D : Deps} {DS : DepsSpec}.
Implicit Types (cluster : Redkey) (o : obs).

(** Labels and annotations as they should be. *)
Definition meta_in_sync cluster (m : ObjectMeta) : Prop :=
  entries (om_Labels m) = entries (rbac_labels cluster) ∧
  entries (om_Annotations m) = entries (rbac_annotations cluster).

Definition sa_in_sync cluster (sa : ServiceAccount) : Prop := meta_in_sync cluster (sa_meta sa).

Definition role_in_sync cluster (ro : Role) : Prop :=
  meta_in_sync cluster (role_meta ro) ∧ role_Rules ro = DesiredRobinRules.

Definition rb_in_sync cluster (rb : RoleBinding) : Prop :=
  meta_in_sync cluster (rb_meta rb) ∧ rb_Subjects rb = robin_subjects cluster ∧
  rb_RoleRef rb = robin_roleref cluster.

(** The object of kind [k] is as it should be; kinds that are not RBAC are not judged. *)
Definition rbac_in_sync cluster (k : okind) : obj_of k → Prop :=
  match k with
  | KServiceAccount => sa_in_sync cluster
  | KRole => role_in_sync cluster
  | KRoleBinding => rb_in_sync cluster
  | _ => λ _, False
  end.

Lemma meta_drift_false cluster m0 m :
  SetControllerReference cluster (robin_meta cluster) = inr m →
  meta_drift m0 m = false ↔ meta_in_sync cluster m0.
Proof.
  intros Hm. apply SetControllerReference_keeps in Hm as (_&_&Hl&Ha&_).
  unfold meta_drift, meta_in_sync. rewrite Hl, Ha. simpl.
  rewrite orb_false_iff, !negb_false_iff, !DeepEqual_map_spec. done.
Qed.

Lemma robin_meta_in_sync cluster m :
  SetControllerReference cluster (robin_meta cluster) = inr m →
  meta_in_sync cluster m ∧ meta_key m = robin_key cluster.
Proof.
  intros Hm. apply SetControllerReference_keeps in Hm as (Hn&Hns&Hl&Ha&_).
  unfold meta_in_sync, meta_key. by rewrite Hn, Hns, Hl, Ha.
Qed.

Lemma set_labels_in_sync cluster m0 m :
  meta_in_sync cluster m →
  meta_in_sync cluster (set_labels_annotations m0 (om_Labels m) (om_Annotations m)).
Proof. done. Qed.

(** What one of the three parts may do: the object of kind [k] under Robin's key
    is read; nothing is written when it is in sync; what is created or patched is
    in sync. *)
Inductive ensured cluster (k : okind) : list obs → error + unit → Prop :=
| ensured_owner e : ensured cluster k [] (inl e)
| ensured_get_error e : IsNotFound e = false →
    ensured cluster k [Obs (Get k (robin_key cluster)) (inl e)] (inl e)
| ensured_created e obj x : IsNotFound e = true → rbac_in_sync cluster k obj →
    meta_key (obj_meta k obj) = robin_key cluster →
    ensured cluster k [Obs (Get k (robin_key cluster)) (inl e); Obs (Create k obj) x] x
| ensured_quiet obj : rbac_in_sync cluster k obj →
    ensured cluster k [Obs (Get k (robin_key cluster)) (inr obj)] (inr tt)
| ensured_patched obj new x : ¬ rbac_in_sync cluster k obj → rbac_in_sync cluster k new →
    meta_key (obj_meta k new) = meta_key (obj_meta k obj) →
    ensured cluster k [Obs (Get k (robin_key cluster)) (inr obj); Obs (Patch k new obj) x] x
| ensured_undeleted obj e : k = KRoleBinding → ¬ rbac_in_sync cluster k obj →
    ensured cluster k [Obs (Get k (robin_key cluster)) (inr obj);
                       Obs (Delete k (meta_key (obj_meta k obj))) (inl e)] (inl e)
| ensured_recreated obj new x : k = KRoleBinding → ¬ rbac_in_sync cluster k obj →
    rbac_in_sync cluster k new → meta_key (obj_meta k new) = robin_key cluster →
    ensured cluster k [Obs (Get k (robin_key cluster)) (inr obj);
                       Obs (Delete k (meta_key (obj_meta k obj))) (inr tt);
                       Obs (Create k new) x] x.

Lemma exec_ensureServiceAccount cluster s tr s' r :
  exec (ensureServiceAccount cluster) s tr s' r →
  s' = s ∧ ensured cluster KServiceAccount tr r.
Proof.
  unfold ensureServiceAccount.
  destruct (SetControllerReference _ _) as [e|m] eqn:Hm; intros Hx.
  { exec_inv. split; [done|]. constructor. }
  destruct (robin_meta_in_sync _ _ Hm) as [Hs Hk].
  exec_call Hx as [e|existing].
  - destruct (IsNotFound e) eqn:He; exec_inv; (split; [done|]); by constructor.
  - pose proof (meta_drift_false cluster (sa_meta existing) m Hm) as Hd. simpl in Hx.
    destruct (meta_drift _ _); exec_inv; (split; [done|]); constructor; try done.
    + intros Hs'. by apply Hd in Hs'.
    + by apply Hd.
Qed.

Lemma exec_ensureRole cluster s tr s' r :
  exec (ensureRole cluster) s tr s' r → s' = s ∧ ensured cluster KRole tr r.
Proof.
  unfold ensureRole.
  destruct (SetControllerReference _ _) as [e|m] eqn:Hm; intros Hx.
  { exec_inv. split; [done|]. constructor. }
  destruct (robin_meta_in_sync _ _ Hm) as [Hs Hk].
  exec_call Hx as [e|existing].
  - destruct (IsNotFound e) eqn:He; exec_inv; (split; [done|]); by constructor.
  - assert (negb (DeepEqual_rules (role_Rules existing) DesiredRobinRules) ||
      meta_drift (role_meta existing) m = false ↔ role_in_sync cluster existing) as Hd.
    { rewrite orb_false_iff, negb_false_iff, DeepEqual_rules_spec, (meta_drift_false cluster)
        by done. unfold role_in_sync. naive_solver. }
    simpl in Hx.
    destruct (_ || _); exec_inv; (split; [done|]); constructor; try done.
    + intros Hs'. by apply Hd in Hs'.
    + by apply Hd.
Qed.

Lemma exec_ensureRoleBinding cluster s tr s' r :
  exec (ensureRoleBinding cluster) s tr s' r → s' = s ∧ ensured cluster KRoleBinding tr r.
Proof.
  unfold ensureRoleBinding.
  destruct (SetControllerReference _ _) as [e|m] eqn:Hm; intros Hx.
  { exec_inv. split; [done|]. constructor. }
  destruct (robin_meta_in_sync _ _ Hm) as [Hs Hk].
  exec_call Hx as [e|existing].
  - destruct (IsNotFound e) eqn:He; exec_inv; (split; [done|]); by constructor.
  - simpl in Hx. case_bool_decide as Href; simpl in Hx.
    + assert (negb (DeepEqual_subjects (rb_Subjects existing) (robin_subjects cluster)) ||
        meta_drift (rb_meta existing) m = false ↔ rb_in_sync cluster existing) as Hd.
      { rewrite orb_false_iff, negb_false_iff, DeepEqual_subjects_spec, (meta_drift_false cluster)
          by done. unfold rb_in_sync. naive_solver. }
      destruct (_ || _); exec_inv; (split; [done|]); constructor; try done.
      * intros Hs'. by apply Hd in Hs'.
      * by apply Hd.
    + assert (¬ rb_in_sync cluster existing) by (by intros (_&_&?)).
      exec_inv; (split; [done|]); [by constructor|].
      match goal with |- context [Obs (Delete _ _) (inr ?u)] => destruct u end. by constructor.
Qed.

(** The three parts in order; a later part runs only when the earlier succeeded. *)
Lemma exec_ensureRBAC cluster s tr s' r :
  exec (ensureRBAC cluster) s tr s' r →
  s' = s ∧
  ((∃ e, r = inl e ∧ ensured cluster KServiceAccount tr (inl e)) ∨
   ∃ t1, ensured cluster KServiceAccount t1 (inr tt) ∧
     ((∃ t2 e, tr = t1 ++ t2 ∧ r = inl e ∧ ensured cluster KRole t2 (inl e)) ∨
      ∃ t2 t3, tr = t1 ++ t2 ++ t3 ∧ ensured cluster KRole t2 (inr tt) ∧
        ensured cluster KRoleBinding t3 r)).
Proof.
  intros Hx. unfold ensureRBAC in Hx.
  apply exec_bindE in Hx as [(e&H1&->)|(t1&tr'&s1&[]&->&H1&Hx)];
    apply exec_ensureServiceAccount in H1 as [-> H1]; [eauto|].
  apply exec_bindE in Hx as [(e&H2&->)|(t2&t3&s2&[]&->&H2&H3)];
    apply exec_ensureRole in H2 as [-> H2].
  - split; [done|]. right. exists t1. split; [done|]. left. eauto.
  - apply exec_ensureRoleBinding in H3 as [-> H3]. split; [done|]. right. exists t1.
    split; [done|]. right. eauto.
Qed.

(** The kinds of RBAC objects. *)
Definition rbac_kinds : list okind := [KServiceAccount; KRole; KRoleBinding].

Lemma elem_of_rbac_kinds k :
  k ∈ rbac_kinds ↔ k = KServiceAccount ∨ k = KRole ∨ k = KRoleBinding.
Proof. unfold rbac_kinds. set_solver. Qed.

(** An object of kind [k] was found or left in sync. *)
Definition left_in_sync cluster (k : okind) (tr : list obs) : Prop :=
  ∃ obj, rbac_in_sync cluster k obj ∧
    (Obs (Get k (robin_key cluster)) (inr obj) ∈ tr ∨ Obs (Create k obj) (inr tt) ∈ tr ∨
     ∃ base, Obs (Patch k obj base) (inr tt) ∈ tr).

Lemma ensured_left_in_sync cluster k tr : ensured cluster k tr (inr tt) → left_in_sync cluster k tr.
Proof.
  inversion 1; subst; eexists; (split; [eassumption|]);
    first [ left; in_list | right; left; in_list | right; right; eexists; in_list ].
Qed.

Lemma left_in_sync_mono cluster k tr tr' :
  (∀ o, o ∈ tr → o ∈ tr') → left_in_sync cluster k tr → left_in_sync cluster k tr'.
Proof.
  intros Ht (obj&Hs&[Ho|[Ho|(base&Ho)]]); exists obj; (split; [done|]); apply Ht in Ho; eauto.
Qed.

(** Reads answer with the object asked for. *)
Definition reads_by_key (tr : list obs) : Prop :=
  ∀ k key obj, Obs (Get k key) (inr obj) ∈ tr → meta_key (obj_meta k obj) = key.

Definition read_by_key o : bool :=
  match o with Obs (Get k key) (inr obj) => bool_decide (meta_key (obj_meta k obj) = key)
  | _ => true end.

Lemma reads_by_key_forallb tr : forallb read_by_key tr = true → reads_by_key tr.
Proof.
  intros Ht k key obj Ho. apply list_elem_of_In in Ho. rewrite forallb_forall in Ht.
  apply Ht in Ho. by apply bool_decide_eq_true in Ho.
Qed.

(** A call that stays within Robin's RBAC objects and writes them as they should be. *)
Definition rbac_call cluster o : Prop :=
  match obs_call o with
  | Get k key => k ∈ rbac_kinds ∧ key = robin_key cluster
  | Create k obj | Patch k obj _ =>
      k ∈ rbac_kinds ∧ meta_key (obj_meta k obj) = robin_key cluster ∧ rbac_in_sync cluster k obj
  | Delete k key => k = KRoleBinding ∧ key = robin_key cluster
  | _ => False
  end.

Lemma ensured_calls cluster k tr r :
  k ∈ rbac_kinds → reads_by_key tr → ensured cluster k tr r → Forall (rbac_call cluster) tr.
Proof.
  intros Hk Hr. inversion 1; subst; repeat (apply Forall_cons; split); try apply Forall_nil;
    try done; unfold rbac_call; simpl.
  - split_and!; [done| |done]. rewrite H2. apply Hr. left.
  - split; [done|]. apply (Hr KRoleBinding). left.
  - split; [done|]. apply (Hr KRoleBinding). left.
Qed.

Lemma reads_by_key_app tr1 tr2 :
  reads_by_key (tr1 ++ tr2) ↔ reads_by_key tr1 ∧ reads_by_key tr2.
Proof.
  unfold reads_by_key. setoid_rewrite elem_of_app. naive_solver.
Qed.

Lemma ensureRBAC_calls cluster s tr s' r :
  exec (ensureRBAC cluster) s tr s' r → reads_by_key tr → Forall (rbac_call cluster) tr.
Proof.
  intros [_ Hx]%exec_ensureRBAC Hr.
  destruct Hx as [(e&_&H1)|(t1&H1&[(t2&e&->&_&H2)|(t2&t3&->&H2&H3)])];
    rewrite ?reads_by_key_app in Hr; rewrite ?Forall_app; split_and?;
    (eapply ensured_calls; [|naive_solver|eassumption]); apply elem_of_rbac_kinds; auto.
Qed.

(** A read that found an object in sync or failed (no other call is judged). *)
Definition read_in_sync cluster o : Prop :=
  match o with
  | Obs (Get k _) (inr obj) => rbac_in_sync cluster k obj
  | Obs (Get _ _) (inl e) => IsNotFound e = false
  | _ => True
  end.

(** An ensured part whose reads find objects in sync writes nothing. *)
Lemma ensured_no_write cluster k tr r :
  Forall (read_in_sync cluster) tr → ensured cluster k tr r →
  Forall (λ o, is_write o = false) tr.
Proof.
  intros Hg. inversion 1; subst; try (by repeat apply Forall_cons_2; try apply Forall_nil);
    apply Forall_cons in Hg as [Hg _]; simpl in Hg; first [ done | congruence ].
Qed.

End rbac_facts.

(** ** The Deployment *)

Section deployment_facts.
Context {K : K8sTypes} {D : Deps} {DS : DepsSpec}.
Implicit Types (cluster : Redkey) (existing desired : Deployment).

(** No drift: what the operator compares agrees. *)
Definition deployment_in_sync existing desired : Prop :=
  let es := deploy_Spec existing in
  let ds := deploy_Spec desired in
  is_Some (dspec_Replicas es) ∧ dspec_Replicas es = dspec_Replicas ds ∧
  entries (om_Labels (deploy_meta existing)) = entries (om_Labels (deploy_meta desired)) ∧
  delete deploymentRevisionAnnotation (entries (om_Annotations (deploy_meta existing))) =
    entries (om_Annotations (deploy_meta desired)) ∧
  entries (om_Labels (tpl_meta (dspec_Template es))) =
    entries (om_Labels (tpl_meta (dspec_Template ds))) ∧
  entries (om_Annotations (tpl_meta (dspec_Template es))) =
    entries (om_Annotations (tpl_meta (dspec_Template ds))) ∧
  DeepDerivative_podspec (tpl_Spec (dspec_Template ds)) (tpl_Spec (dspec_Template es)) = true.

Lemma needsUpdate_false existing desired :
  robinDeploymentNeedsUpdate existing desired = false ↔ deployment_in_sync existing desired.
Proof.
  unfold robinDeploymentNeedsUpdate, deployment_in_sync. rewrite <-entries_strip.
  rewrite <-!DeepEqual_map_spec.
  destruct (dspec_Replicas (deploy_Spec existing)) as [n|]; simpl;
    [|split; [done|by intros [[]]]].
  case_bool_decide as Hr; simpl; [|naive_solver].
  repeat match goal with |- context [DeepEqual_map ?a ?b] =>
    destruct (DeepEqual_map a b); simpl; [|split; [done|naive_solver]] end.
  destruct (DeepDerivative_podspec _ _); simpl; [|naive_solver].
  split; [|done]. intros _. split_and!; done.
Qed.

(** What the operator patches is in sync, unless the desired annotations contain
    the one Kubernetes manages. *)
Lemma patched_in_sync existing desired :
  is_Some (dspec_Replicas (deploy_Spec desired)) →
  map_get (om_Annotations (deploy_meta desired)) deploymentRevisionAnnotation = None →
  deployment_in_sync (patched_deployment existing desired) desired.
Proof.
  intros Hr Ha. unfold deployment_in_sync. simpl.
  split_and!; try done; [|apply DeepDerivative_refl].
  rewrite <-entries_strip. by apply strip_preserve.
Qed.

Lemma exec_ensureRobinDeployment cluster s tr s' r :
  exec (ensureRobinDeployment cluster) s tr s' r →
  (tr = [] ∧ s' = s ∧ ∃ e, r = inl e) ∨
  ∃ m x tr', tr = Obs (Get KDeployment (robin_key cluster)) x :: tr' ∧
    let desired := with_deploy_meta (buildDesiredRobinDeployment cluster) m in
    SetControllerReference cluster (deploy_meta (buildDesiredRobinDeployment cluster)) = inr m ∧
    match x with
    | inl e =>
        if IsNotFound e then ∃ y, tr' = [Obs (Create KDeployment desired) y] ∧ r = y ∧
          s' = match y with inl _ => s
               | inr _ => add_metric (CounterInc redkeyRobinDeploymentChanges ["create"]) s end
        else tr' = [] ∧ r = inl e ∧ s' = s
    | inr existing =>
        if robinDeploymentNeedsUpdate existing desired then
          ∃ y, tr' = [Obs (Patch KDeployment (patched_deployment existing desired) existing) y] ∧
            r = y ∧ s' = match y with inl _ => s
              | inr _ => add_metric (CounterInc redkeyRobinDeploymentChanges ["patch"]) s end
        else tr' = [] ∧ r = inr tt ∧ s' = s
    end.
Proof.
  unfold ensureRobinDeployment.
  destruct (SetControllerReference _ _) as [e|m] eqn:Hm; intros Hx.
  { left. exec_inv. eauto. }
  right. pose proof (SetControllerReference_keeps _ _ _ Hm) as (Hn&Hns&_).
  exec_call Hx as x. exists m, x. eexists. split.
  { unfold with_deploy_meta, meta_key. simpl. rewrite Hn, Hns.
    unfold buildDesiredRobinDeployment. by destruct (robin_Template _). }
  split; [done|]. destruct x as [e|existing].
  - destruct (IsNotFound e); unfold emit in Hx; exec_inv; try done; eexists; (split; [done|]);
      [done|]. by match goal with |- inr tt = inr ?u ∧ _ => destruct u end.
  - destruct (robinDeploymentNeedsUpdate _ _); unfold emit in Hx; exec_inv; try done; eexists;
      (split; [done|]); [done|]. by match goal with |- inr tt = inr ?u ∧ _ => destruct u end.
Qed.

End deployment_facts.

(** ** The desired Deployment *)

Section build_facts.
Context {K : K8sTypes} {D : Deps}.
Implicit Types cluster : Redkey.

Lemma default_env_NoDup cluster : NoDup (names (robinDefaultEnvVars cluster)).
Proof. apply (bool_decide_unpack _). by vm_compute. Qed.

(** Whatever the template says, variable names are distinct and the operator's own
    two variables have the operator's values. *)
Lemma desired_env cluster :
  NoDup (names (ctr_Env (desired_container cluster))) ∧
  ∀ n e, env_lookup (robinDefaultEnvVars cluster) n = Some e →
    env_lookup (ctr_Env (desired_container cluster)) n = Some e.
Proof.
  unfold desired_container. pose proof (default_env_NoDup cluster) as Hnd.
  destruct (robin_Template _) as [tpl|]; [|done].
  set (base := match pps_Containers _ with [] => _ | _ => _ end).
  assert (NoDup (names (ctr_Env base))) as Hb.
  { subst base. destruct (pps_Containers _) as [|src ?]; [done|]. simpl.
    destruct (ctr_Env src) eqn:E; [done|]. rewrite <-E, mergeEnvVars_ref by done.
    by apply merge_ref_NoDup. }
  cbn [with_env ctr_Env]. rewrite mergeEnvVars_ref by done. split; [by apply merge_ref_NoDup|].
  intros n e Hn. by rewrite env_lookup_merge_ref, last_named_NoDup, Hn.
Qed.

(** The Deployment, with the template's metadata looked up. *)
Lemma desired_deployment_eq cluster :
  buildDesiredRobinDeployment cluster =
  mkDeployment (robin_meta cluster)
    (mkDeploymentSpec (Some 1%Z) (Some (mkSelector (robin_base_labels cluster) []))
       (mkTemplate (meta_lit "" ""
          (mergeMeta (derefMap (spec_Labels (rk_Spec cluster)))
             (match robin_Template (spec_Robin (rk_Spec cluster)) with
              | Some tpl => om_Labels (ppt_Metadata tpl) | None => None end)
             (robin_base_labels cluster))
          (mergeMeta (derefMap (spec_Annotations (rk_Spec cluster)))
             (match robin_Template (spec_Robin (rk_Spec cluster)) with
              | Some tpl => om_Annotations (ppt_Metadata tpl) | None => None end) None))
          (desired_podspec cluster)) deployspec_rest_zero) deploystatus_zero.
Proof. unfold buildDesiredRobinDeployment. by destruct (robin_Template _). Qed.

Lemma desired_annotations cluster :
  om_Annotations (deploy_meta (buildDesiredRobinDeployment cluster)) = rbac_annotations cluster.
Proof. by rewrite desired_deployment_eq. Qed.

Lemma desired_replicas cluster :
  dspec_Replicas (deploy_Spec (buildDesiredRobinDeployment cluster)) = Some 1%Z.
Proof. by rewrite desired_deployment_eq. Qed.

(** The Deployment controller records the revision in an annotation. *)
Definition stamp_revision (rev : string) (d : Deployment) : Deployment :=
  with_deploy_meta d (set_labels_annotations (deploy_meta d) (om_Labels (deploy_meta d))
    (Some (<[deploymentRevisionAnnotation := rev]> (entries (om_Annotations (deploy_meta d)))))).

Lemma stamp_in_sync rev (d desired : Deployment) :
  deployment_in_sync d desired → deployment_in_sync (stamp_revision rev d) desired.
Proof.
  intros (?&?&?&?&?&?&?). unfold deployment_in_sync. simpl.
  split_and!; try done. by rewrite delete_insert_eq.
Qed.

Lemma self_in_sync {DS : DepsSpec} (d : Deployment) :
  is_Some (dspec_Replicas (deploy_Spec d)) →
  map_get (om_Annotations (deploy_meta d)) deploymentRevisionAnnotation = None →
  deployment_in_sync d d.
Proof.
  intros Hr Ha. unfold deployment_in_sync.
  split_and!; try done; [by apply delete_id|apply DeepDerivative_refl].
Qed.

End build_facts.

(** ** Theorems *)

Section robin_theorems.
Context {K : K8sTypes} {D : Deps} {DS : DepsSpec}.
Implicit Types (cluster : Redkey) (existing desired : Deployment).

(** C23: When [ensureRBAC] reports success, the ServiceAccount, the Role and the
    RoleBinding of Robin were each found in sync, or created or patched into that
    state by an accepted request: labels and annotations as merged from the spec,
    exactly the desired rules, and a binding of Robin's own ServiceAccount to
    Robin's own Role. *)
Theorem ensureRBAC_establishes cluster s tr s' :
  exec (ensureRBAC cluster) s tr s' (inr tt) →
  ∀ k, k ∈ rbac_kinds → left_in_sync cluster k tr.
Proof.
  intros [_ [(e&?&_)|(t1&H1&[(?&?&_&?&_)|(t2&t3&->&H2&H3)])]]%exec_ensureRBAC; [done|done|].
  intros k [->|[->| ->]]%elem_of_rbac_kinds.
  - apply (left_in_sync_mono _ _ t1); [set_solver|]. by apply ensured_left_in_sync.
  - apply (left_in_sync_mono _ _ t2); [set_solver|]. by apply ensured_left_in_sync.
  - apply (left_in_sync_mono _ _ t3); [set_solver|]. by apply ensured_left_in_sync.
Qed.

(** [ensureRBAC] stays in its place: it touches only the ServiceAccount, Role
    and RoleBinding named after the cluster in the cluster's namespace, every
    object it writes is exactly the desired one (in particular no other rule is
    ever granted and nobody else is ever bound), and the only object it deletes is
    the RoleBinding. *)
Theorem ensureRBAC_confined cluster s tr s' r :
  exec (ensureRBAC cluster) s tr s' r → reads_by_key tr → Forall (rbac_call cluster) tr.
Proof. apply ensureRBAC_calls. Qed.

(** [ensureRBAC] is idempotent: when every object it reads is in sync, or the
    read fails with anything but NotFound, it makes no write at all. *)
Theorem ensureRBAC_idempotent cluster s tr s' r :
  exec (ensureRBAC cluster) s tr s' r →
  Forall (read_in_sync cluster) tr → Forall (λ o, is_write o = false) tr.
Proof.
  intros [_ Hx]%exec_ensureRBAC Hg.
  destruct Hx as [(e&_&H1)|(t1&H1&[(t2&e&->&_&H2)|(t2&t3&->&H2&H3)])];
    rewrite ?Forall_app in Hg; rewrite ?Forall_app; split_and?; destruct_and?;
    by eapply ensured_no_write.
Qed.

(** C26: The drift check of the Deployment is exact: no update is needed if and
    only if replicas, labels, annotations (but for the one the Deployment
    controller manages) and pod template metadata agree and the live pod spec
    derives from the desired one. *)
Theorem robinDeploymentNeedsUpdate_exact existing desired :
  robinDeploymentNeedsUpdate existing desired = false ↔ deployment_in_sync existing desired.
Proof. apply needsUpdate_false. Qed.

(** C22: Reconciling the Deployment converges: an object that was created or patched
    as the operator asks needs no further update, whatever revision annotation the
    Deployment controller stamps on it, provided the user's annotations do not
    contain that annotation. So there is at most one write for each change. *)
Theorem robinDeployment_converges cluster m existing rev :
  SetControllerReference cluster (deploy_meta (buildDesiredRobinDeployment cluster)) = inr m →
  map_get (rbac_annotations cluster) deploymentRevisionAnnotation = None →
  let desired := with_deploy_meta (buildDesiredRobinDeployment cluster) m in
  robinDeploymentNeedsUpdate (stamp_revision rev desired) desired = false ∧
  robinDeploymentNeedsUpdate
    (stamp_revision rev (patched_deployment existing desired)) desired = false.
Proof.
  intros Hm Ha desired. rewrite !needsUpdate_false.
  assert (Hd : map_get (om_Annotations (deploy_meta desired)) deploymentRevisionAnnotation = None).
  { apply SetControllerReference_keeps in Hm as (_&_&_&Han&_). subst desired.
    cbn [with_deploy_meta deploy_meta]. by rewrite Han, desired_annotations. }
  assert (Hr : is_Some (dspec_Replicas (deploy_Spec desired))).
  { subst desired. cbn [with_deploy_meta deploy_Spec]. by rewrite desired_replicas. }
  split; apply stamp_in_sync; [by apply self_in_sync|by apply patched_in_sync].
Qed.

(** C24: Nothing but drift moves the Deployment: it is read once under Robin's key
    and written at most once, created exactly when it is missing and patched
    exactly when the drift check says so; a patch keeps the live object's selector
    and the annotation Kubernetes manages. The change counter moves only on an
    accepted write. *)
Theorem ensureRobinDeployment_correct cluster s tr s' r :
  exec (ensureRobinDeployment cluster) s tr s' r →
  (tr = [] ∧ s' = s ∧ ∃ e, r = inl e) ∨
  ∃ m x tr', tr = Obs (Get KDeployment (robin_key cluster)) x :: tr' ∧
    let desired := with_deploy_meta (buildDesiredRobinDeployment cluster) m in
    SetControllerReference cluster (deploy_meta (buildDesiredRobinDeployment cluster)) = inr m ∧
    match x with
    | inl e =>
        if IsNotFound e then ∃ y, tr' = [Obs (Create KDeployment desired) y] ∧ r = y ∧
          s' = match y with inl _ => s
               | inr _ => add_metric (CounterInc redkeyRobinDeploymentChanges ["create"]) s end
        else tr' = [] ∧ r = inl e ∧ s' = s
    | inr existing =>
        if robinDeploymentNeedsUpdate existing desired then
          ∃ y, tr' = [Obs (Patch KDeployment (patched_deployment existing desired) existing) y] ∧
            r = y ∧ s' = match y with inl _ => s
              | inr _ => add_metric (CounterInc redkeyRobinDeploymentChanges ["patch"]) s end
        else tr' = [] ∧ r = inr tt ∧ s' = s
    end.
Proof. apply exec_ensureRobinDeployment. Qed.

(** C27: The revision annotation must not come from the user: if spec.annotations
    contains it, every live Deployment is judged to need an update, in particular
    the one just patched, so each reconcile patches again. *)
Theorem robinDeployment_user_revision_never_settles cluster m existing :
  SetControllerReference cluster (deploy_meta (buildDesiredRobinDeployment cluster)) = inr m →
  is_Some (map_get (derefMap (spec_Annotations (rk_Spec cluster))) deploymentRevisionAnnotation) →
  robinDeploymentNeedsUpdate existing
    (with_deploy_meta (buildDesiredRobinDeployment cluster) m) = true.
Proof.
  intros Hm [v Hv]. apply not_false_is_true. rewrite needsUpdate_false.
  intros (_&_&_&Ha&_). apply SetControllerReference_keeps in Hm as (_&_&_&Han&_).
  simpl in Ha. rewrite Han, desired_annotations in Ha.
  apply (f_equal (.!! deploymentRevisionAnnotation)) in Ha. rewrite lookup_delete_eq in Ha.
  symmetry in Ha. change (map_get (rbac_annotations cluster) deploymentRevisionAnnotation = None)
    in Ha. unfold rbac_annotations in Ha. rewrite map_get_mergeMeta_spec in Ha. congruence.
Qed.

(** C25: The Deployment always runs Robin for its own cluster: whatever labels,
    annotations, environment or pod settings the user overrides, there is one
    replica of one container, it runs under Robin's ServiceAccount, its environment
    names are distinct and CLUSTER_NAME and NAMESPACE carry the cluster's name and
    namespace, and the selector matches the labels of the pods. *)
Theorem buildDesiredRobinDeployment_own_cluster cluster :
  let d := buildDesiredRobinDeployment cluster in
  let pod := tpl_Spec (dspec_Template (deploy_Spec d)) in
  meta_key (deploy_meta d) = robin_key cluster ∧ dspec_Replicas (deploy_Spec d) = Some 1%Z ∧
  pod_ServiceAccountName pod = robin_name cluster ∧
  (∃ c, pod_Containers pod = [c] ∧ NoDup (names (ctr_Env c)) ∧
     env_lookup (ctr_Env c) "CLUSTER_NAME" =
       Some (mkEnv "CLUSTER_NAME" (om_Name (rk_meta cluster)) None) ∧
     env_lookup (ctr_Env c) "NAMESPACE" =
       Some (mkEnv "NAMESPACE" (om_Namespace (rk_meta cluster)) None)) ∧
  (∃ sel, dspec_Selector (deploy_Spec d) = Some sel ∧ sel_MatchExpressions sel = [] ∧
     ∀ k v, map_get (sel_MatchLabels sel) k = Some v →
       map_get (om_Labels (tpl_meta (dspec_Template (deploy_Spec d)))) k = Some v).
Proof.
  destruct (desired_env cluster) as [Hnd Henv]. rewrite desired_deployment_eq. simpl.
  split_and!; [done|done|by unfold desired_podspec; destruct (robin_Template _)| |].
  - exists (desired_container cluster). split_and!; [|done|by apply Henv..].
    unfold desired_podspec. by destruct (robin_Template _).
  - eexists. split_and!; [done|done|]. intros k v. apply mergeMeta_base_wins.
Qed.

End robin_theorems.

Section robin_witnesses.
Import Simple.

Definition w_owner : Redkey :=
  Sample.redkey 3 (Sample.spec 5 1 false) (Sample.status PhaseReady "Ready" 2).

Definition w_server := Sample.online w_owner [].

Definition w_meta (m : ObjectMeta) : ObjectMeta :=
  match set_owner w_owner m with inr m' => m' | inl _ => m end.

(** A server on which the three RBAC objects are in sync. *)
Definition w_synced (c : call) (w : unit) : unit * ans c :=
  (w, match c return ans c with
      | Get KServiceAccount _ => inr (mkServiceAccount (w_meta (robin_meta w_owner)) tt)
      | Get KRole _ => inr (mkRole (w_meta (robin_meta w_owner)) DesiredRobinRules)
      | Get KRoleBinding _ => inr (mkRoleBinding (w_meta (robin_meta w_owner))
                                     (robin_subjects w_owner) (robin_roleref w_owner))
      | c => (Sample.offline c tt).2
      end).

Lemma ensureRBAC_establishes_witness :
  left_in_sync w_owner KRole (run_trace w_server (ensureRBAC w_owner w_state) tt).
Proof.
  refine (ensureRBAC_establishes w_owner w_state _ _
    (exec_run_eq w_server (ensureRBAC w_owner) w_state tt _ _) KRole _); [vm_compute; reflexivity|].
  apply elem_of_rbac_kinds. right. left. reflexivity.
Defined.

Lemma ensureRBAC_confined_witness :
  Forall (rbac_call w_owner) (run_trace w_server (ensureRBAC w_owner w_state) tt).
Proof.
  apply (ensureRBAC_confined w_owner w_state _ _ _
    (exec_run w_server (ensureRBAC w_owner) w_state tt)).
  apply reads_by_key_forallb. vm_compute. reflexivity.
Defined.

Lemma ensureRBAC_idempotent_witness :
  Forall (λ o, is_write o = false) (run_trace w_synced (ensureRBAC w_owner w_state) tt).
Proof.
  apply (ensureRBAC_idempotent w_owner w_state _ _ _
    (exec_run w_synced (ensureRBAC w_owner) w_state tt)).
  repeat constructor.
Defined.

Definition w_desired : Deployment :=
  with_deploy_meta (buildDesiredRobinDeployment w_owner)
    (w_meta (deploy_meta (buildDesiredRobinDeployment w_owner))).

Lemma robinDeploymentNeedsUpdate_exact_witness :
  deployment_in_sync w_desired w_desired.
Proof. apply robinDeploymentNeedsUpdate_exact. vm_compute. reflexivity. Defined.

Lemma robinDeployment_converges_witness :
  robinDeploymentNeedsUpdate (stamp_revision "7" w_desired) w_desired = false.
Proof.
  apply (robinDeployment_converges w_owner _ w_desired "7"); vm_compute; reflexivity.
Defined.

Lemma ensureRobinDeployment_correct_witness :
  run_trace w_server (ensureRobinDeployment w_owner w_state) tt = [] ∨
  ∃ x tr', run_trace w_server (ensureRobinDeployment w_owner w_state) tt =
    Obs (Get KDeployment (mkNN "ns" "rk-robin")) x :: tr'.
Proof.
  destruct (ensureRobinDeployment_correct w_owner w_state _ _ _
    (exec_run w_server (ensureRobinDeployment w_owner) w_state tt))
    as [(Htr&_)|(m&x&tr'&Htr&_)]; [left; exact Htr|].
  right. exists x, tr'. exact Htr.
Defined.

(** A Redkey whose annotations contain the managed one. *)
Definition w_annotated : Redkey :=
  let s := Sample.spec 3 1 false in
  mkRedkey (rk_type w_owner) (rk_meta w_owner)
    {| spec_Auth := spec_Auth s; spec_Version := spec_Version s; spec_Mode := spec_Mode s;
       spec_Primaries := spec_Primaries s; spec_ReplicasPerPrimary := spec_ReplicasPerPrimary s;
       spec_Image := spec_Image s; spec_DeletePVC := spec_DeletePVC s;
       spec_Backup := spec_Backup s; spec_Robin := spec_Robin s;
       spec_SkipIfSuperseded := spec_SkipIfSuperseded s;
       spec_PurgeKeysOnRebalance := spec_PurgeKeysOnRebalance s; spec_Config := spec_Config s;
       spec_Resources := spec_Resources s; spec_Labels := spec_Labels s;
       spec_Annotations := Some (Some {[deploymentRevisionAnnotation := "1"]});
       spec_Pdb := spec_Pdb s; spec_Override := spec_Override s;
       spec_Ephemeral := spec_Ephemeral s; spec_Storage := spec_Storage s;
       spec_StorageClassName := spec_StorageClassName s;
       spec_AccessModes := spec_AccessModes s |} (rk_Status w_owner).

Lemma robinDeployment_user_revision_never_settles_witness :
  let d := with_deploy_meta (buildDesiredRobinDeployment w_annotated)
             (w_meta (deploy_meta (buildDesiredRobinDeployment w_annotated))) in
  robinDeploymentNeedsUpdate (patched_deployment w_desired d) d = true.
Proof.
  intros d. apply (robinDeployment_user_revision_never_settles w_annotated).
  - vm_compute. reflexivity.
  - exists "1". vm_compute. reflexivity.
Defined.

End robin_witnesses.
