(* ===== verification/ScaleZero.v ===== *)
(** * Scaling to zero (src/internal/controller/redkey_scale_zero.go)

    A Redkey with no primaries is handed over to Robin by a config with no
    primaries; once Robin reports it Applied, the operator removes its own objects
    and the configs, and reports the cluster Ready with no replicas. *)

From S2P Require Import Prelude Strconv ApiTypes Effects External Samples Metrics Metadata.
From S2P Require Import ConfigLifecycle Robin.

(** ** Definitions *)

(** The fields of [ctrl.Result] that are used. *)
Record Result := mkResult { RequeueAfter : Z }.

(** [ctrl.Result{}] *)
Definition Result_zero : Result := mkResult 0.

(** [RedkeyReconciler], without the embedded client and the scheme, which are the
    environment of the programs. *)
Record RedkeyReconciler := mkReconciler {
  ResyncInterval : Z; MaxConcurrentReconciles : Z }.

Section scale_zero.
Context {K : K8sTypes} {D : Deps} {SS : SortSlice}.

(** An object to delete, with the prefix of the error reported for it. *)
Record target := mkTarget { tg_kind : okind; tg_key : NamespacedName; tg_prefix : string }.

(** The loop of the three delete functions: [r.Delete] on each object in order; an
    object that is already gone is skipped, any other error is wrapped and returned. *)
Fixpoint delete_each (targets : list target) : M OpState (error + unit) :=
  match targets with
  | [] => ok tt
  | t :: targets' =>
      r ← invoke (Delete (tg_kind t) (tg_key t));
      match r with
      | inl e => if IsNotFound e then delete_each targets' else raise (Errorf (tg_prefix t) e)
      | inr _ => delete_each targets'
      end
  end.

(** [func (r) deleteRobinDeployment(ctx, cluster) error] *)
Definition deployment_target (cluster : Redkey) : target :=
  mkTarget KDeployment (robin_key cluster) ("deleting Robin Deployment " +:+ robin_name cluster).

Definition deleteRobinDeployment (cluster : Redkey) : M OpState (error + unit) :=
  delete_each [deployment_target cluster].

(** [func (r) deleteRBAC(ctx, cluster) error]; the objects are literals without
    type metadata, so the kind printed in an error is empty. *)
Definition rbac_target (cluster : Redkey) (k : okind) : target :=
  mkTarget k (robin_key cluster) ("deleting RBAC resource /" +:+ robin_name cluster).

Definition deleteRBAC (cluster : Redkey) : M OpState (error + unit) :=
  delete_each (rbac_target cluster <$> [KRoleBinding; KRole; KServiceAccount]).

(** [func (r) deleteAllConfigs(ctx, cluster) error] *)
Definition config_target (c : RedkeyConfig) : target :=
  mkTarget KRedkeyConfig (meta_key (cfg_meta c)) ("deleting config " +:+ om_Name (cfg_meta c)).

Definition deleteAllConfigs (cluster : Redkey) : M OpState (error + unit) :=
  r ← invoke (ListConfigs (om_Namespace (rk_meta cluster)) ClusterLabel
                (om_Name (rk_meta cluster)));
  match r with
  | inl e => raise (Errorf "listing configs for deletion" e)
  | inr items => delete_each (config_target <$> items)
  end.

(** The conditions and the status set by [updateStatusScaledToZero]. *)
Definition scaled_to_zero_conditions (clk : nat → Time) (conditions : list Condition)
    : list Condition :=
  let conditions := SetStatusCondition (clk 0) conditions
                      (cond "Ready" ConditionTrue "ScaledToZero") in
  let conditions := SetStatusCondition (clk 1) conditions
                      (cond "ConfigPending" ConditionFalse "ScaledToZero") in
  SetStatusCondition (clk 2) conditions (cond "Error" ConditionFalse "ScaledToZero").

Definition scaled_to_zero_status (now : Time) (clk : nat → Time) (cluster : Redkey)
    : RedkeyStatus :=
  let st := rk_Status cluster in
  {| st_Replicas := 0; st_Phase := PhaseReady; st_Status := "";
     st_Substatus := RedkeySubstatus_zero; st_Nodes := Some ∅;
     st_Conditions := scaled_to_zero_conditions clk (st_Conditions st);
     st_LastUpdatedAt := Some now; st_ObservedGeneration := om_Generation (rk_meta cluster);
     st_LastAppliedPrimaries := st_LastAppliedPrimaries st;
     st_LastAppliedReplicasPerPrimary := st_LastAppliedReplicasPerPrimary st |}.

(** [func (r) updateStatusScaledToZero(ctx, cluster) error]; the answer of the
    server is decoded into the caller's copy. *)
Definition updateStatusScaledToZero (cluster : Redkey) : M OpState (error + Redkey) :=
  now ← invoke Now;
  clk ← invoke Clock;
  updated ←? invoke (UpdateStatus (with_status cluster (scaled_to_zero_status now clk cluster)));
  ok updated.

Variable r : RedkeyReconciler.

(** [return ctrl.Result{RequeueAfter: r.ResyncInterval}, nil], with the caller's
    copy of the cluster. *)
Definition requeue (cluster : Redkey) : M OpState (error + (Result * Redkey)) :=
  ok (mkResult (ResyncInterval r), cluster).

(** Case B: a config with no primaries has to be created. *)
Definition hand_over_to_robin (cluster : Redkey) (latestConfig : RedkeyConfig)
    : M OpState (error + (Result * Redkey)) :=
  ensureRBAC cluster ;?;
  (ensureRobinDeployment cluster ;?;
   (createNewConfig cluster (Some latestConfig) ;?; requeue cluster)).

(** Case C: Robin is done, the operator removes its own objects. *)
Definition tear_down (cluster : Redkey) : M OpState (error + (Result * Redkey)) :=
  deleteRobinDeployment cluster ;?;
  (deleteRBAC cluster ;?;
   (deleteAllConfigs cluster ;?;
    (cluster ←? updateStatusScaledToZero cluster; requeue cluster))).

(** Case D: Robin is working. *)
Definition wait_for_robin (cluster : Redkey) (configs : list RedkeyConfig)
    : M OpState (error + (Result * Redkey)) :=
  ensureRBAC cluster ;?;
  (ensureRobinDeployment cluster ;?;
   (cluster ←? aggregateStatus cluster configs; requeue cluster)).

(** [func (r) reconcileScaleToZero(ctx, cluster) (ctrl.Result, error)]; every error
    return comes with the zero Result. *)
Definition reconcileScaleToZero (cluster : Redkey) : M OpState (error + (Result * Redkey)) :=
  configs ←? listConfigs cluster;
  match slice_last configs with
  | None => cluster ←? updateStatusScaledToZero cluster; requeue cluster
  | Some latestConfig =>
      if negb (bool_decide (cs_Primaries (cfg_Spec latestConfig) = 0%Z))
      then hand_over_to_robin cluster latestConfig
      else if bool_decide (cfg_phase latestConfig = ConfigPhaseApplied)
      then tear_down cluster
      else wait_for_robin cluster configs
  end.

End scale_zero.

(** ** Deletions *)

Section delete_facts.
Context {K : K8sTypes}.
Implicit Types (ts : list target) (o : obs).

Definition target_call (t : target) : call := Delete (tg_kind t) (tg_key t).

(** The call did what it was made for: it returned no error, or it was a deletion of
    something that is not there. *)
Definition went_well o : Prop :=
  match o with
  | Obs (Delete _ _) (inl e) => IsNotFound e = true
  | Obs (Get _ _) (inl _) | Obs (ListConfigs _ _ _) (inl _) | Obs (Create _ _) (inl _)
  | Obs (Patch _ _ _) (inl _) | Obs (UpdateStatus _) (inl _) => False
  | _ => True
  end.

(** All calls went well but the last one, which failed. *)
Definition cut_short (tr : list obs) : Prop :=
  ∃ tr0 o, tr = tr0 ++ [o] ∧ Forall went_well tr0 ∧ ¬ went_well o.

Lemma cut_short_one o : ¬ went_well o → cut_short [o].
Proof. intros Ho. by exists [], o. Qed.

Lemma cut_short_app tr1 tr2 : Forall went_well tr1 → cut_short tr2 → cut_short (tr1 ++ tr2).
Proof.
  intros H1 (tr0&o&->&H0&Ho). exists (tr1 ++ tr0), o.
  rewrite <-(assoc_L (++)), Forall_app. done.
Qed.

Lemma cut_short_cons o tr : went_well o → cut_short tr → cut_short (o :: tr).
Proof. intros Ho. apply (cut_short_app [o]). by apply Forall_singleton. Qed.

(** The deletions are made in order up to the first failure. *)
Lemma exec_delete_each ts s tr s' r :
  exec (delete_each ts) s tr s' r →
  s' = s ∧ obs_call <$> tr = target_call <$> take (length tr) ts ∧
  match r with
  | inr _ => length tr = length ts ∧ Forall went_well tr
  | inl _ => cut_short tr
  end.
Proof.
  revert s tr. induction ts as [|t ts IH]; intros s tr Hx; cbn [delete_each] in Hx; [by exec_inv|].
  assert (Hrest : ∀ o s0 tr0, obs_call o = target_call t → went_well o →
    exec (delete_each ts) s0 tr0 s' r → s' = s0 ∧
    obs_call <$> o :: tr0 = target_call <$> take (length (o :: tr0)) (t :: ts) ∧
    match r with
    | inr _ => length (o :: tr0) = length (t :: ts) ∧ Forall went_well (o :: tr0)
    | inl _ => cut_short (o :: tr0)
    end).
  { intros o s0 tr0 Hc Ho (->&E&Hr)%IH. csimpl. rewrite Hc, E. split_and!; [done|done|].
    destruct r; [by apply cut_short_cons|]. destruct Hr as [-> ?]. split; [done|]. by apply Forall_cons. }
  exec_call Hx as [e|u].
  - destruct (IsNotFound e) eqn:He; [by eapply Hrest|]. exec_inv. split_and!; [done|done|].
    apply cut_short_one. simpl. congruence.
  - by eapply Hrest.
Qed.

Lemma delete_each_prefix ts s tr s' r :
  exec (delete_each ts) s tr s' r → obs_call <$> tr `prefix_of` target_call <$> ts.
Proof.
  intros (_&->&_)%exec_delete_each. exists (target_call <$> drop (length tr) ts).
  by rewrite <-fmap_app, take_drop.
Qed.

End delete_facts.

(** ** The teardown *)

Section teardown_facts.
Context {K : K8sTypes} {D : Deps} {SS : SortSlice}.
Implicit Types cluster : Redkey.

Definition list_call cluster : call :=
  ListConfigs (om_Namespace (rk_meta cluster)) ClusterLabel (om_Name (rk_meta cluster)).

(** The whole teardown: the Deployment first, so that Robin stops, then what Robin
    ran with, then the configs, and the status last. *)
Definition teardown_calls cluster (items : list RedkeyConfig) (now : Time) (clk : nat → Time)
    : list call :=
  (target_call <$> [deployment_target cluster]) ++
  (target_call <$> (rbac_target cluster <$> [KRoleBinding; KRole; KServiceAccount])) ++
  [list_call cluster] ++ (target_call <$> (config_target <$> items)) ++
  [Now; Clock; UpdateStatus (with_status cluster (scaled_to_zero_status now clk cluster))].

Lemma exec_updateStatusScaledToZero cluster s tr s' res :
  exec (updateStatusScaledToZero cluster) s tr s' res →
  s' = s ∧ ∃ now clk x, tr = [Obs Now now; Obs Clock clk;
      Obs (UpdateStatus (with_status cluster (scaled_to_zero_status now clk cluster))) x] ∧
    res = x.
Proof.
  intros Hx. unfold updateStatusScaledToZero in Hx.
  exec_inv; (split; [done|]); do 3 eexists; (split; [reflexivity|done]).
Qed.

(** [deleteAllConfigs]: one listing, then the deletion of everything listed. *)
Lemma exec_deleteAllConfigs cluster s tr s' res :
  exec (deleteAllConfigs cluster) s tr s' res →
  s' = s ∧ ∃ items, obs_call <$> tr `prefix_of`
      [list_call cluster] ++ (target_call <$> (config_target <$> items)) ∧
    match res with
    | inl _ => cut_short tr
    | inr _ =>
        obs_call <$> tr = [list_call cluster] ++ (target_call <$> (config_target <$> items)) ∧
        Forall went_well tr ∧ Obs (list_call cluster) (inr items) ∈ tr
    end.
Proof.
  intros Hx. unfold deleteAllConfigs in Hx. exec_call Hx as [e|items].
  - exec_inv. split; [done|]. exists []. split; [reflexivity|]. apply cut_short_one. tauto.
  - pose proof (delete_each_prefix _ _ _ _ _ Hx). apply exec_delete_each in Hx as (->&E&Hr).
    split; [done|]. exists items. csimpl. split; [by apply prefix_cons|].
    destruct res as [e|u]; [by apply cut_short_cons|].
    destruct Hr as [L G]. rewrite E, L, firstn_all. split_and!; [done| |left].
    by apply Forall_cons.
Qed.

Lemma exec_tear_down (r : RedkeyReconciler) cluster s tr s' res :
  exec (tear_down r cluster) s tr s' res →
  s' = s ∧ ∃ items now clk,
    match res with
    | inl _ => obs_call <$> tr `prefix_of` teardown_calls cluster items now clk ∧ cut_short tr
    | inr (rs, _) => obs_call <$> tr = teardown_calls cluster items now clk ∧
        Forall went_well tr ∧
        Obs (list_call cluster) (inr items) ∈ tr ∧ rs = mkResult (ResyncInterval r)
    end.
Proof.
  intros Hx. unfold tear_down, teardown_calls in *.
  apply exec_bindE in Hx as [(e&H1&->)|(t1&tr1&s1&[]&->&H1&Hx)].
  { pose proof (delete_each_prefix _ _ _ _ _ H1). apply exec_delete_each in H1 as (->&_&?).
    split; [done|]. exists [], 0%Z, (λ _, 0%Z). split; [by apply prefix_app_r|done]. }
  apply exec_delete_each in H1 as (->&E1&L1&G1). rewrite L1, firstn_all in E1.
  apply exec_bindE in Hx as [(e&H2&->)|(t2&tr2&s2&[]&->&H2&Hx)].
  { pose proof (delete_each_prefix _ _ _ _ _ H2). apply exec_delete_each in H2 as (->&_&?).
    split; [done|]. exists [], 0%Z, (λ _, 0%Z). rewrite fmap_app, E1.
    split; [by apply prefix_app, prefix_app_r|by apply cut_short_app]. }
  apply exec_delete_each in H2 as (->&E2&L2&G2). rewrite L2, firstn_all in E2.
  apply exec_bindE in Hx as [(e&H3&->)|(t3&tr3&s3&[]&->&H3&Hx)];
    apply exec_deleteAllConfigs in H3 as (->&items&P3&E3).
  { split; [done|]. exists items, 0%Z, (λ _, 0%Z). rewrite !fmap_app, E1, E2.
    split; [|by do 2 (apply cut_short_app; [done|])].
    rewrite (assoc_L (++) [list_call cluster]). by apply prefix_app, prefix_app, prefix_app_r. }
  destruct E3 as (E3&G3&In3).
  apply exec_bindE in Hx as [(e&H4&->)|(t4&tr4&s4&cl&->&H4&Hx)];
    apply exec_updateStatusScaledToZero in H4 as (->&now&clk&x&->&<-).
  - split; [done|]. exists items, now, clk. rewrite !fmap_app, E1, E2, E3, <-(assoc_L (++)).
    split; [done|]. do 3 (apply cut_short_app; [done|]).
    do 2 (apply cut_short_cons; [done|]). apply cut_short_one. tauto.
  - unfold requeue in Hx. exec_inv. split; [done|]. exists items, now, clk.
    rewrite !fmap_app, E1, E2, E3, !Forall_app.
    split_and!; try done; [by repeat apply Forall_cons_2; try apply Forall_nil|].
    apply elem_of_app; right; apply elem_of_app; right; apply elem_of_app; by left.
Qed.

End teardown_facts.

(** ** Calls outside the teardown *)

Section no_teardown.
Context {K : K8sTypes} {D : Deps} {DS : DepsSpec} {SS : SortSlice}.
Implicit Types cluster : Redkey.

(** Not a deletion, but for the RoleBinding, which is recreated to change it. *)
Definition no_teardown (o : obs) : Prop :=
  match obs_call o with Delete k _ => k = KRoleBinding | _ => True end.

Lemma makes_ensureRBAC cluster : makes no_teardown (ensureRBAC cluster).
Proof.
  unfold ensureRBAC, ensureServiceAccount, ensureRole, ensureRoleBinding. makes_tac.
Qed.

Lemma makes_ensureRobinDeployment cluster : makes no_teardown (ensureRobinDeployment cluster).
Proof. unfold ensureRobinDeployment, emit. makes_tac. Qed.

Lemma makes_createNewConfig cluster h : makes no_teardown (createNewConfig cluster h).
Proof. unfold createNewConfig, emit. makes_tac. Qed.

Lemma makes_aggregateStatus cluster configs : makes no_teardown (aggregateStatus cluster configs).
Proof.
  unfold aggregateStatus. makes_step; [|makes_tac].
  apply makes_RetryOnConflict; [auto with redkey|]. unfold aggregate_attempt. makes_tac.
Qed.

End no_teardown.

#[export] Hint Resolve makes_ensureRBAC makes_ensureRobinDeployment makes_createNewConfig
  makes_aggregateStatus : redkey.

Section handover_facts.
Context {K : K8sTypes} {D : Deps} {DS : DepsSpec} {SS : SortSlice}.
Implicit Types cluster : Redkey.

Lemma makes_hand_over (r : RedkeyReconciler) cluster h :
  makes no_teardown (hand_over_to_robin r cluster h).
Proof. unfold hand_over_to_robin, requeue. makes_tac. Qed.

Lemma makes_wait (r : RedkeyReconciler) cluster configs :
  makes no_teardown (wait_for_robin r cluster configs).
Proof. unfold wait_for_robin, requeue. makes_tac. Qed.

Lemma makes_update cluster : makes no_teardown (updateStatusScaledToZero cluster).
Proof. unfold updateStatusScaledToZero. makes_tac. Qed.

End handover_facts.

#[export] Hint Resolve makes_hand_over makes_wait makes_update : redkey.

(** ** Theorems *)

Section scale_zero_theorems.
Context {K : K8sTypes} {D : Deps} {DS : DepsSpec} {SS : SortSlice} {SP : SortSliceSpec}.
Implicit Types (cluster : Redkey) (r : RedkeyReconciler).

(** The answer to a listing. *)
Definition listed (o : obs) : option (error + list RedkeyConfig) :=
  match o with Obs (ListConfigs _ _ _) x => Some x | _ => None end.

(** Robin has applied the config without primaries: it is the highest one listed. *)
Definition robin_finished (items : list RedkeyConfig) : Prop :=
  ∃ h, slice_last (sort_slice cfg_seq items) = Some h ∧ cs_Primaries (cfg_Spec h) = 0%Z ∧
    cfg_phase h = ConfigPhaseApplied.

Lemma exec_reconcileScaleToZero r cluster s tr s' res :
  exec (reconcileScaleToZero r cluster) s tr s' res →
  ∃ x tr', tr = Obs (list_call cluster) x :: tr' ∧
    ((∃ items, x = inr items ∧ robin_finished items ∧
        exec (tear_down r cluster) s tr' s' res) ∨
     ((∀ items, x = inr items → ¬ robin_finished items) ∧ Forall no_teardown tr')).
Proof.
  intros Hx. unfold reconcileScaleToZero in Hx.
  apply exec_bindE in Hx as [(e&H1&->)|(t1&tr'&s1&configs&->&H1&Hx)];
    apply exec_listConfigs in H1 as (->&x&->&Hr).
  { exists x, []. split; [done|]. right. split; [|done]. by intros items ->. }
  destruct x as [e|items]; [done|]. injection Hr as ->.
  exists (inr items), tr'. split; [done|].
  destruct (slice_last _) as [h|] eqn:Hh.
  - case_bool_decide as Hz; [case_bool_decide as Ha|]; cbn [negb] in Hx.
    + left. exists items. split_and!; [done| |done]. by exists h.
    + right. split; [intros items' [= <-] (h'&?&_&?); congruence|].
      eapply makes_exec; [|exact Hx]. apply makes_wait.
    + right. split; [intros items' [= <-] (h'&?&?&_); congruence|].
      eapply makes_exec; [|exact Hx]. apply makes_hand_over.
  - right. split; [intros items' [= <-] (h'&?&_); congruence|].
    eapply makes_exec; [|exact Hx]. unfold requeue. makes_tac.
Qed.

(** C8: Nothing is torn down while Robin still works: a reconcile of a cluster with
    no primaries deletes the Deployment, the ServiceAccount, the Role or a config
    only if the configs it listed first end in one without primaries that Robin
    reports Applied. *)
Theorem teardown_only_when_applied r cluster s tr s' res o :
  exec (reconcileScaleToZero r cluster) s tr s' res → o ∈ tr → ¬ no_teardown o →
  ∃ items tr', tr = Obs (list_call cluster) (inr items) :: tr' ∧ robin_finished items.
Proof.
  intros (x&tr'&->&[(items&->&Hf&_)|(_&Ht)])%exec_reconcileScaleToZero Ho Hn; [eauto|].
  rewrite Forall_forall in Ht. apply elem_of_cons in Ho as [->|Ho]; [by destruct Hn|].
  by destruct (Hn (Ht o Ho)).
Qed.

(** C9: The teardown runs in a fixed order and stops at the first failure: Robin's
    Deployment, then RoleBinding, Role and ServiceAccount, then every config the
    label selects, and the status last, so the status claims nothing that is not
    done. When it fails, the calls are a beginning of that sequence whose last call
    failed, with an error that is not the absence of the object to delete, and every
    call before it went well. It succeeds only when every one of these objects was
    deleted or already gone, and asks for a resync. *)
Theorem teardown_order r cluster s tr s' res items :
  exec (reconcileScaleToZero r cluster) s tr s' res →
  head tr ≫= listed = Some (inr items) → robin_finished items →
  s' = s ∧ ∃ items' now clk,
    match res with
    | inl _ =>
        obs_call <$> tr `prefix_of` list_call cluster :: teardown_calls cluster items' now clk ∧
        ∃ tr0 o, tr = tr0 ++ [o] ∧ Forall went_well tr0 ∧ ¬ went_well o
    | inr (rs, _) =>
        obs_call <$> tr = list_call cluster :: teardown_calls cluster items' now clk ∧
        Forall went_well tr ∧ Obs (list_call cluster) (inr items') ∈ tail tr ∧
        rs = mkResult (ResyncInterval r)
    end.
Proof.
  intros (x&tr'&->&[(items0&->&Hf&Hx)|(Hf&_)])%exec_reconcileScaleToZero Hh Hfin.
  - apply exec_tear_down in Hx as (->&items'&now&clk&Hr). split; [done|].
    exists items', now, clk. csimpl. destruct res as [e|[rs cl]].
    + destruct Hr as [Hp Hc]. split; [by apply prefix_cons|]. by apply cut_short_cons.
    + destruct Hr as (->&?&?&->). split_and!; [done| |done|done]. by apply Forall_cons.
  - injection Hh as Hh. by destruct (Hf items Hh).
Qed.

(** The status of a cluster scaled to zero: Ready with no replicas and no
    nodes, the three lifecycle conditions agree with it (the phase computed from
    them is Ready) and all other conditions stay; the generation is recorded as
    observed, and the last applied topology is kept for the next scale-up. *)
Theorem scaled_to_zero_status_correct now clk cluster :
  let st := scaled_to_zero_status now clk cluster in
  let old := rk_Status cluster in
  st_Replicas st = 0%Z ∧ st_Phase st = PhaseReady ∧ map_len (st_Nodes st) = 0 ∧
  computePhaseFromConditions (st_Conditions st) = st_Phase st ∧
  (∀ t, t ∉ ["Ready"; "ConfigPending"; "Error"] →
     FindStatusCondition (st_Conditions st) t = FindStatusCondition (st_Conditions old) t) ∧
  st_ObservedGeneration st = om_Generation (rk_meta cluster) ∧
  st_LastAppliedPrimaries st = st_LastAppliedPrimaries old ∧
  st_LastAppliedReplicasPerPrimary st = st_LastAppliedReplicasPerPrimary old.
Proof.
  cbn [scaled_to_zero_status st_Replicas st_Phase st_Nodes st_Conditions st_ObservedGeneration
       st_LastAppliedPrimaries st_LastAppliedReplicasPerPrimary].
  unfold scaled_to_zero_conditions.
  split_and!; try done.
  - unfold computePhaseFromConditions, condition_true.
    destruct (FindSet_same (clk 2) (SetStatusCondition (clk 1) (SetStatusCondition (clk 0)
      (st_Conditions (rk_Status cluster)) (cond "Ready" ConditionTrue "ScaledToZero"))
      (cond "ConfigPending" ConditionFalse "ScaledToZero"))
      (cond "Error" ConditionFalse "ScaledToZero")) as (e&He&_&Hs&_).
    simpl in He. rewrite He, Hs. simpl. rewrite !FindSet_other by done.
    destruct (FindSet_same (clk 0) (st_Conditions (rk_Status cluster))
      (cond "Ready" ConditionTrue "ScaledToZero")) as (d&Hd&_&Hs'&_).
    simpl in Hd. by rewrite Hd, Hs'.
  - intros t Ht. rewrite !FindSet_other; [done|simpl; set_solver..].
Qed.

End scale_zero_theorems.

Section scale_zero_witnesses.
Import Simple.

Definition w_zero : Redkey :=
  Sample.redkey 2 (Sample.spec 0 1 false) (Sample.status PhaseReady "Ready" 1).

Definition w_done : list RedkeyConfig :=
  [Sample.config 1 1 3 ConfigPhaseApplied "Ready"; Sample.config 2 2 0 ConfigPhaseApplied ""].

Definition w_running : list RedkeyConfig := [Sample.config 1 1 3 ConfigPhaseApplied "Ready"].

Definition w_reconciler : RedkeyReconciler := mkReconciler 600 1.

Definition w_scale : M OpState (error + (Result * Redkey)) :=
  reconcileScaleToZero w_reconciler w_zero.

Definition w_done_trace : list obs := run_trace (Sample.online w_zero w_done) (w_scale w_state) tt.

Lemma teardown_only_when_applied_witness :
  ∃ items tr', w_done_trace = Obs (list_call w_zero) (inr items) :: tr' ∧ robin_finished items.
Proof.
  apply (teardown_only_when_applied w_reconciler w_zero w_state w_done_trace _ _
    (Obs (Delete KDeployment (robin_key w_zero)) (inr tt))
    (exec_run (Sample.online w_zero w_done) w_scale w_state tt)).
  - right. left.
  - discriminate.
Defined.

Lemma w_done_finished : robin_finished w_done.
Proof. exists (Sample.config 2 2 0 ConfigPhaseApplied ""). repeat split. Qed.

Lemma teardown_order_witness :
  ∃ items now clk,
    obs_call <$> w_done_trace = list_call w_zero :: teardown_calls w_zero items now clk.
Proof.
  destruct (teardown_order w_reconciler w_zero w_state w_done_trace _
    (inr (mkResult 600, with_status w_zero (scaled_to_zero_status 100
            (λ i, (100 + Z.of_nat i)%Z) w_zero))) w_done
    (exec_run_eq (Sample.online w_zero w_done) w_scale w_state tt _ eq_refl)
    eq_refl w_done_finished) as (_&items&now&clk&Htr&_).
  exists items, now, clk. exact Htr.
Defined.

Lemma scaled_to_zero_status_correct_witness :
  st_ObservedGeneration (scaled_to_zero_status 5 (λ _, 5%Z) w_zero) = 2%Z.
Proof.
  destruct (scaled_to_zero_status_correct 5 (λ _, 5%Z) w_zero) as (_&_&_&_&_&H&_). exact H.
Defined.

End scale_zero_witnesses.
