(* ===== verification/Reconciler.v ===== *)
(** * The reconciler (src/internal/controller/redkey_controller.go)

    One reconcile of a Redkey: fetch it, go the scale-to-zero way when it has no
    primaries, and otherwise make sure that Robin runs, that the current generation
    has a config, that old configs are gone and that the status and the metrics
    show the active config. *)

From S2P Require Import Prelude Strconv ApiTypes Effects External Samples Metrics Metadata.
From S2P Require Import ConfigLifecycle Robin ScaleZero.

(** ** Definitions *)

Section reconciler.
Context {K : K8sTypes} {D : Deps} {SS : SortSlice}.
Variable r : RedkeyReconciler.

(** [return ctrl.Result{}, err] after counting the error of a stage. *)
Definition fail_stage (name : string) (e : error) : M OpState (Result * option error) :=
  stage_error name ;; mret (Result_zero, Some e).

(** [if err := stage; err != nil { count; return ctrl.Result{}, err }] *)
Definition stage {A} (name : string) (m : M OpState (error + A))
    (k : A → M OpState (Result * option error)) : M OpState (Result * option error) :=
  x ← m; match x with inl e => fail_stage name e | inr a => k a end.

(** [configs, err = r.cleanupSupersededConfigs(ctx, configs)] *)
Definition cleanup_stage (configs : list RedkeyConfig) : M OpState (error + list RedkeyConfig) :=
  x ← cleanupSupersededConfigs configs;
  mret (match x with (_, Some e) => inl e | (configs', None) => inr configs' end).

(** The end of a successful reconcile: metrics and the periodic requeue. *)
Definition report (cluster : Redkey) (configs : list RedkeyConfig)
    : M OpState (Result * option error) :=
  recordRedkeyMetrics cluster (selectActiveConfig configs) ;;
  mret (mkResult (ResyncInterval r), None).

(** From the configs on: clean up and aggregate when there are any. *)
Definition finish (cluster : Redkey) (configs : list RedkeyConfig)
    : M OpState (Result * option error) :=
  match configs with
  | [] => report cluster []
  | _ :: _ =>
      stage "cleanup_superseded_configs" (cleanup_stage configs) (λ configs,
      stage "aggregate_status" (aggregateStatus cluster configs) (λ cluster,
      report cluster configs))
  end.

(** The configs stage: create one when it is needed, then list again. *)
Definition reconcile_configs (cluster : Redkey) : M OpState (Result * option error) :=
  stage "list_configs" (listConfigs cluster) (λ configs,
  let highestSeq := slice_last configs in
  if match configs with [] => true | _ :: _ => needsNewConfig cluster highestSeq end then
    stage "create_new_config" (createNewConfig cluster highestSeq) (λ _,
    stage "list_configs" (listConfigs cluster) (finish cluster))
  else finish cluster configs).

(** [func (r) Reconcile(ctx, req) (ctrl.Result, error)] *)
Definition Reconcile (req : NamespacedName) : M OpState (Result * option error) :=
  x ← invoke (Get KRedkey req);
  match x with
  | inl e =>
      if IsNotFound e then deleteRedkeyMetrics req ;; mret (Result_zero, None)
      else fail_stage "get_cluster" e
  | inr cluster =>
      if bool_decide (spec_Primaries (rk_Spec cluster) = 0%Z) then
        stage "scale_to_zero" (reconcileScaleToZero r cluster) (λ '(res, cluster),
        recordRedkeyMetrics cluster None ;; mret (res, None))
      else
        stage "ensure_rbac" (ensureRBAC cluster) (λ _,
        stage "ensure_robin_deployment" (ensureRobinDeployment cluster) (λ _,
        reconcile_configs cluster))
  end.

(** [func (r) controllerOptions() controller.Options]: the only option set is the
    number of workers; zero is controller-runtime's default. *)
Record Options := mkOptions { opt_MaxConcurrentReconciles : Z }.

Definition controllerOptions : Options :=
  if bool_decide (0 < MaxConcurrentReconciles r)%Z
  then mkOptions (MaxConcurrentReconciles r) else mkOptions 0.

(** [func (r) SetupWithManager(mgr) error]: what is built and completed. *)
Record ControllerSetup := mkSetup {
  setup_For : okind; setup_Owns : list okind; setup_Named : string; setup_Options : Options }.

Definition SetupWithManager : ControllerSetup :=
  mkSetup KRedkey [KRedkeyConfig; KDeployment; KServiceAccount; KRole; KRoleBinding] "redkey"
    controllerOptions.

End reconciler.

(** ** Counting stage errors *)

Definition is_stage_error (op : metric_op) : bool :=
  match op with CounterInc redkeyReconcileStageErrors _ => true | _ => false end.

(** How often the stage error counter was incremented so far. *)
Definition stage_count (s : OpState) : nat := length (List.filter is_stage_error (os_metrics s)).

Lemma stage_count_add op s :
  stage_count (add_metric op s) = stage_count s + (if is_stage_error op then 1 else 0).
Proof.
  unfold stage_count. simpl. rewrite List.filter_app, length_app. simpl.
  by destruct (is_stage_error op).
Qed.

Lemma stage_count_quiet op s :
  is_stage_error op = false → stage_count (add_metric op s) = stage_count s.
Proof. intros Hq. rewrite stage_count_add, Hq. lia. Qed.

#[export] Hint Resolve stage_count_quiet : redkey.

Section count_facts.
Context {K : K8sTypes} {D : Deps} {DS : DepsSpec} {SS : SortSlice}.
Implicit Types (cluster : Redkey) (r : RedkeyReconciler).

Lemma keeps_emit op : is_stage_error op = false → keeps stage_count (emit op).
Proof. intros Hq. apply keeps_modify. auto with redkey. Qed.

Lemma keeps_ensureRBAC cluster : keeps stage_count (ensureRBAC cluster).
Proof. unfold ensureRBAC, ensureServiceAccount, ensureRole, ensureRoleBinding. keeps_tac. Qed.

Lemma keeps_ensureRobinDeployment cluster : keeps stage_count (ensureRobinDeployment cluster).
Proof. unfold ensureRobinDeployment, emit. keeps_tac. Qed.

Lemma keeps_listConfigs cluster : keeps stage_count (listConfigs cluster).
Proof. unfold listConfigs. keeps_tac. Qed.

Lemma keeps_createNewConfig cluster h : keeps stage_count (createNewConfig cluster h).
Proof. unfold createNewConfig, emit. keeps_tac. Qed.

Lemma keeps_cleanup_stage configs : keeps stage_count (cleanup_stage configs).
Proof.
  unfold cleanup_stage. keeps_step; [|by keeps_step].
  assert (∀ rest n, keeps stage_count (cleanup_loop rest n)) as Hloop.
  { intros rest. induction rest as [|c rest IH]; intros [|n]; simpl; try (by keeps_step).
    unfold emit. keeps_tac; apply IH. }
  unfold cleanupSupersededConfigs. repeat (case_match; try (by keeps_step)). apply Hloop.
Qed.

Lemma keeps_aggregateStatus cluster configs : keeps stage_count (aggregateStatus cluster configs).
Proof.
  unfold aggregateStatus. keeps_step; [|keeps_tac].
  apply keeps_RetryOnConflict; [auto with redkey|]. unfold aggregate_attempt. keeps_tac.
Qed.

Lemma keeps_delete_each ts : keeps stage_count (delete_each ts).
Proof. induction ts as [|t ts IH]; simpl; [by keeps_step|]. keeps_tac; apply IH. Qed.

Lemma keeps_deleteRedkeyMetrics key : keeps stage_count (deleteRedkeyMetrics key).
Proof. unfold deleteRedkeyMetrics, op_forget, ready_forget, emit. keeps_tac. Qed.

Lemma keeps_recordRedkeyMetrics cluster c : keeps stage_count (recordRedkeyMetrics cluster c).
Proof.
  unfold recordRedkeyMetrics, observe, set_state, enteredReady, emit. keeps_tac.
Qed.

End count_facts.

#[export] Hint Resolve keeps_emit keeps_ensureRBAC keeps_ensureRobinDeployment keeps_listConfigs
  keeps_createNewConfig keeps_cleanup_stage keeps_aggregateStatus keeps_delete_each
  keeps_deleteRedkeyMetrics keeps_recordRedkeyMetrics : redkey.

Section outcome_facts.
Context {K : K8sTypes} {D : Deps} {DS : DepsSpec} {SS : SortSlice}.
Variable r : RedkeyReconciler.
Implicit Types cluster : Redkey.

Lemma keeps_reconcileScaleToZero cluster : keeps stage_count (reconcileScaleToZero r cluster).
Proof.
  unfold reconcileScaleToZero, hand_over_to_robin, tear_down, wait_for_robin, requeue,
    updateStatusScaledToZero, deleteRobinDeployment, deleteRBAC, deleteAllConfigs.
  keeps_tac; auto with redkey.
Qed.

(** Success comes with the periodic requeue. *)
Definition requeues {A} (m : M OpState (error + (Result * A))) : Prop :=
  ∀ s tr s' res a, exec m s tr s' (inr (res, a)) → res = mkResult (ResyncInterval r).

Lemma requeues_bindE {A B} (m : M OpState (error + A)) (f : A → M OpState (error + (Result * B))) :
  (∀ a, requeues (f a)) → requeues (bindE m f).
Proof.
  intros Hf s tr s' res b [(?&_&?)|(?&?&?&a&->&_&Hx)]%exec_bindE; [done|]. by eapply Hf.
Qed.

Lemma requeues_requeue cluster : requeues (requeue r cluster).
Proof. intros s tr s' res a Hx. unfold requeue in Hx. by exec_inv. Qed.

Lemma requeues_reconcileScaleToZero cluster : requeues (reconcileScaleToZero r cluster).
Proof.
  unfold reconcileScaleToZero. apply requeues_bindE. intros configs.
  repeat case_match; unfold hand_over_to_robin, tear_down, wait_for_robin;
    repeat (apply requeues_bindE; intros ?); apply requeues_requeue.
Qed.

(** A reconcile that went past fetching the object: an error is counted exactly
    once and returned with the empty result, success asks for the resync. *)
Definition counted (m : M OpState (Result * option error)) : Prop :=
  ∀ s tr s' res oe, exec m s tr s' (res, oe) →
  match oe with
  | Some _ => res = Result_zero ∧ stage_count s' = stage_count s + 1
  | None => res = mkResult (ResyncInterval r) ∧ stage_count s' = stage_count s
  end.

Lemma counted_fail name e : counted (fail_stage name e).
Proof.
  intros s tr s' res oe Hx. unfold fail_stage, stage_error, emit in Hx. exec_inv.
  split; [done|]. by rewrite stage_count_add.
Qed.

Lemma counted_stage {A} name (m : M OpState (error + A)) k :
  keeps stage_count m → (∀ a, counted (k a)) → counted (stage name m k).
Proof.
  intros Hm Hk s tr s' res oe Hx. unfold stage in Hx.
  apply exec_bind in Hx as (tr1&tr2&s1&[e|a]&->&H1&Hx); apply Hm in H1 as <-.
  - by eapply counted_fail.
  - by eapply Hk.
Qed.

Lemma counted_report cluster configs : counted (report r cluster configs).
Proof.
  intros s tr s' res oe Hx. unfold report in Hx.
  apply exec_bind in Hx as (tr1&tr2&s1&a&->&H1&Hx). apply keeps_recordRedkeyMetrics in H1.
  by exec_inv.
Qed.

Lemma counted_finish cluster configs : counted (finish r cluster configs).
Proof.
  unfold finish. destruct configs; [apply counted_report|].
  apply counted_stage; [auto with redkey|]. intros configs'.
  apply counted_stage; [auto with redkey|]. intros cluster'. apply counted_report.
Qed.

Lemma counted_reconcile_configs cluster : counted (reconcile_configs r cluster).
Proof.
  unfold reconcile_configs. apply counted_stage; [auto with redkey|]. intros configs. simpl.
  destruct (match configs with [] => true | _ => _ end); [|apply counted_finish].
  apply counted_stage; [auto with redkey|]. intros _.
  apply counted_stage; [auto with redkey|]. intros configs'. apply counted_finish.
Qed.

End outcome_facts.

(** ** What a reconcile touches *)

Section touch_facts.
Context {K : K8sTypes} {D : Deps} {DS : DepsSpec} {SS : SortSlice} {SP : SortSliceSpec}.
Variable req : NamespacedName.
(** The configs that were listed and the Redkeys that were read. *)
Variable Lc : RedkeyConfig → Prop.
Variable Lr : Redkey → Prop.
Implicit Types (cluster : Redkey) (o : obs).

Definition robin_of (key : NamespacedName) : NamespacedName :=
  mkNN (nn_Namespace key) (nn_Name key +:+ "-robin").

(** The server answers reads with the object asked for. *)
Definition rely o : Prop :=
  match o with
  | Obs (Get k key) (inr obj) => meta_key (obj_meta k obj) = key ∧
      match k return obj_of k → Prop with KRedkey => Lr | _ => λ _, True end obj
  | Obs (ListConfigs _ _ _) (inr items) => Forall Lc items
  | _ => True
  end.

(** A Redkey that was read under the requested key. *)
Definition snapshot (cluster : Redkey) : Prop := Lr cluster ∧ meta_key (rk_meta cluster) = req.

(** A config created for the request: the next config of a Redkey that was read. *)
Definition own_config (c : RedkeyConfig) : Prop :=
  om_Namespace (cfg_meta c) = nn_Namespace req ∧
  map_get (om_Labels (cfg_meta c)) ClusterLabel = Some (nn_Name req) ∧
  om_Name (cfg_meta c) = nn_Name req +:+ "-" +:+ FormatInt (cfg_seq c) ∧
  ∃ cluster seq m, snapshot cluster ∧
    SetControllerReference cluster (config_meta cluster seq) = inr m ∧
    c = new_config cluster seq m.

(** One of the two statuses the operator computes from the object that was read,
    the generation observed being that of a Redkey read in the same reconcile. *)
Definition status_of latest new : Prop :=
  (∃ now clk c cluster, snapshot cluster ∧
     new = with_status latest
             (aggregated_status now clk latest c (om_Generation (rk_meta cluster)))) ∨
  ∃ now clk, new = with_status latest (scaled_to_zero_status now clk latest).

(** A status update of an object that was read: metadata and spec as read, and a
    recorded topology is not lost. *)
Definition own_status (new : Redkey) : Prop :=
  ∃ latest, snapshot latest ∧ status_of latest new ∧
    rk_meta new = rk_meta latest ∧ rk_Spec new = rk_Spec latest ∧
    (0 < st_LastAppliedPrimaries (rk_Status latest) →
     0 < st_LastAppliedPrimaries (rk_Status new))%Z.

Definition allowed (c : call) : Prop :=
  match c with
  | Get k key => k = KRedkey ∧ key = req ∨ k ∈ KDeployment :: rbac_kinds ∧ key = robin_of req
  | ListConfigs ns label value =>
      ns = nn_Namespace req ∧ label = ClusterLabel ∧ value = nn_Name req
  | Create k obj =>
      match k return obj_of k → Prop with
      | KRedkey => λ _, False
      | KRedkeyConfig => own_config
      | k => λ obj, meta_key (obj_meta k obj) = robin_of req
      end obj
  | Patch k obj _ => k ∈ KDeployment :: rbac_kinds ∧ meta_key (obj_meta k obj) = robin_of req
  | Delete k key =>
      k ∈ KDeployment :: rbac_kinds ∧ key = robin_of req ∨
      k = KRedkeyConfig ∧ ∃ c, Lc c ∧ key = meta_key (cfg_meta c)
  | UpdateStatus new => own_status new
  | Now | Clock => True
  end.

Definition own_call o : Prop := allowed (obs_call o).

(** The Redkey at hand is the one that was asked for. *)
Definition at_hand cluster : Prop := meta_key (rk_meta cluster) = req ∧ Lr cluster.

Lemma at_hand_key cluster : at_hand cluster → robin_key cluster = robin_of req.
Proof. intros [<- _]. done. Qed.

Lemma rely_reads tr : Forall rely tr → reads_by_key tr.
Proof. intros Ht k key obj Ho. rewrite Forall_forall in Ht. by apply Ht in Ho as [? _]. Qed.

Lemma rbac_call_own cluster o : at_hand cluster → rbac_call cluster o → own_call o.
Proof.
  intros Hc. pose proof (at_hand_key _ Hc) as Hk. destruct o as [[] x]; simpl;
    unfold rbac_call, own_call, allowed; simpl; rewrite ?Hk; try done.
  - intros [? ->]. right. split; [by right|done].
  - intros (Hin&?&_). by apply elem_of_rbac_kinds in Hin as [->|[->| ->]].
  - intros (?&?&_). split; [by right|done].
  - intros [-> ->]. left. split; [|done]. unfold rbac_kinds. set_solver.
Qed.

Lemma rg_ensureRBAC cluster : at_hand cluster → rg rely own_call (ensureRBAC cluster) (λ _, True).
Proof.
  intros Hc s tr s' a Hx Hr. split; [|done]. apply (Forall_impl (rbac_call cluster)).
  - eapply ensureRBAC_calls; [exact Hx|]. by apply rely_reads.
  - intros o. by apply rbac_call_own.
Qed.

Lemma rg_ensureRobinDeployment cluster :
  at_hand cluster → rg rely own_call (ensureRobinDeployment cluster) (λ _, True).
Proof.
  intros Hc s tr s' a Hx Hr. split; [|done]. pose proof (at_hand_key _ Hc) as Hk.
  apply exec_ensureRobinDeployment in Hx as [(->&_)|(m&x&tr'&->&Hm&Hx)]; [done|].
  apply Forall_cons in Hr as [Hg _]. apply SetControllerReference_keeps in Hm as (Hn&Hns&_).
  rewrite desired_deployment_eq in Hn, Hns. simpl in Hn, Hns.
  assert (own_call (Obs (Get KDeployment (robin_key cluster)) x)).
  { right. rewrite Hk. split; [left|done]. }
  destruct x as [e|existing].
  - destruct (IsNotFound e); [|by destruct Hx as (->&_); apply Forall_singleton].
    destruct Hx as (y&->&_). repeat apply Forall_cons_2; [done| |by apply Forall_nil].
    unfold own_call, allowed, meta_key. simpl. by rewrite <-Hk, Hn, Hns.
  - destruct (robinDeploymentNeedsUpdate _ _); [|by destruct Hx as (->&_); apply Forall_singleton].
    destruct Hx as (y&->&_). repeat apply Forall_cons_2; [done| |by apply Forall_nil].
    destruct Hg as [Hg _]. split; [left|]. rewrite <-Hk, <-Hg. done.
Qed.

Lemma rg_listConfigs cluster :
  at_hand cluster → rg rely own_call (listConfigs cluster) (on_ok (Forall Lc)).
Proof.
  intros [Hc _] s tr s' a Hx Hr. apply exec_listConfigs in Hx as (->&x&->&->).
  rewrite Forall_singleton in Hr. rewrite Forall_singleton. split.
  - unfold own_call, allowed. simpl. by rewrite <-Hc.
  - destruct x as [e|items]; [done|]. simpl. by rewrite (sort_slice_perm cfg_seq items).
Qed.

Lemma rg_createNewConfig cluster h :
  at_hand cluster → rg rely own_call (createNewConfig cluster h) (λ _, True).
Proof.
  intros [Hc Hr] s tr s' a Hx _. split; [|done]. apply exec_createNewConfig in Hx.
  destruct (SetControllerReference _ _) as [e|m] eqn:Hm; [by destruct Hx as (->&_)|].
  destruct Hx as (x&->&_). rewrite Forall_singleton. pose proof Hm as Hm'.
  apply config_meta_keeps in Hm as (Hk&Hl&_). unfold own_call, allowed, own_config. simpl.
  apply (f_equal nn_Namespace) in Hk as Hns. apply (f_equal nn_Name) in Hk as Hn.
  simpl in *. rewrite Hns, Hn, Hl, <-Hc. split_and!; try done.
  by exists cluster, (next_seq h), m.
Qed.

Lemma rg_cleanup_stage configs :
  Forall Lc configs → rg rely own_call (cleanup_stage configs) (on_ok (Forall Lc)).
Proof.
  intros Hc s tr s' a Hx _. unfold cleanup_stage in Hx.
  apply exec_bind in Hx as (tr1&tr2&s1&[rest oe]&->&H1&Hx). exec_inv. rewrite app_nil_r.
  apply cleanup_spec in H1 as ((pre&Hpre&Hcalls&Hrest)&_).
  assert (Forall Lc pre ∧ Forall Lc (keep_from_last_applied configs)) as [H1 H2].
  { rewrite Hpre in Hc. by apply Forall_app in Hc. }
  split.
  - apply (Forall_fmap_call allowed). rewrite Hcalls. apply Forall_fmap.
    apply (Forall_impl Lc); [by apply Forall_take|].
    intros c Hc'. unfold delete_call. simpl. right. split; [done|]. by exists c.
  - destruct oe; [done|]. simpl. by destruct Hrest as (_&->&_).
Qed.

Lemma rg_aggregateStatus cluster configs :
  at_hand cluster →
  rg rely own_call (aggregateStatus cluster configs)
    (on_ok (λ cluster', rk_meta cluster' = rk_meta cluster)).
Proof.
  intros [Hc Hl]. unfold aggregateStatus. destruct (selectActiveConfig configs) as [c|];
    [|by apply rg_ret]. apply rg_RetryOnConflict; [auto with redkey|]. intros s tr s' res Hx Hr.
  apply exec_aggregate_attempt in Hx as [_ [(e&->&->)|(latest&now&clk&x&->&->)]].
  - split; [|done]. rewrite Forall_singleton. left. by rewrite Hc.
  - apply Forall_cons in Hr as [[Hm Hlr] _].
    split; [|by destruct x]. repeat apply Forall_cons_2; try done; [left; by rewrite Hc|].
    exists latest. rewrite Hc in Hm. split_and!; try done.
    { left. by exists now, clk, c, cluster. }
    pose proof (aggregated_last_applied now clk latest c (om_Generation (rk_meta cluster))) as Ha.
    cbn zeta in Ha. cbn [with_status rk_Status]. case_decide as Hd; destruct Ha as [-> _]; [|done].
    by destruct Hd as (_&_&?).
Qed.

Lemma rg_updateStatus cluster :
  at_hand cluster → rg rely own_call (updateStatusScaledToZero cluster) (λ _, True).
Proof.
  intros [Hc Hl] s tr s' a Hx _. split; [|done].
  apply exec_updateStatusScaledToZero in Hx as (_&now&clk&x&->&_).
  repeat apply Forall_cons_2; try done. exists cluster. split_and!; try done.
  right. by exists now, clk.
Qed.

(** Deleting a list of targets that are all allowed. *)
Lemma rg_delete_each ts :
  Forall (λ t, tg_kind t ∈ KDeployment :: rbac_kinds ∧ tg_key t = robin_of req ∨
               tg_kind t = KRedkeyConfig ∧ ∃ c, Lc c ∧ tg_key t = meta_key (cfg_meta c)) ts →
  rg rely own_call (delete_each ts) (λ _, True).
Proof.
  intros Ht s tr s' a Hx _. split; [|done]. apply exec_delete_each in Hx as (_&Hc&_).
  apply (Forall_fmap_call allowed). rewrite Hc. apply Forall_fmap. by apply Forall_take.
Qed.

Lemma rg_deleteAllConfigs cluster :
  at_hand cluster → rg rely own_call (deleteAllConfigs cluster) (λ _, True).
Proof.
  intros [Hc _]. unfold deleteAllConfigs.
  apply (rg_bind _ _ _ _ (on_ok (Forall Lc))).
  - apply (rg_invoke _ _ (ListConfigs _ _ _)). intros [e|items] Hr; (split; [|done]);
      unfold own_call, allowed; simpl; by rewrite <-Hc.
  - intros [e|items] Hi; [by apply rg_ret|]. apply rg_delete_each. apply Forall_fmap.
    eapply Forall_impl; [exact Hi|]. intros c Hlc. right. split; [done|]. by exists c.
Qed.

Lemma rg_robin_targets cluster ks :
  at_hand cluster → Forall (λ t, tg_kind t ∈ KDeployment :: rbac_kinds ∧
    tg_key t = robin_key cluster) ks →
  rg rely own_call (delete_each ks) (λ _, True).
Proof.
  intros Hc Hk. apply rg_delete_each. eapply Forall_impl; [exact Hk|].
  intros t [? ->]. left. split; [done|]. by apply at_hand_key.
Qed.

Lemma rg_recordRedkeyMetrics cluster c :
  rg rely own_call (recordRedkeyMetrics cluster c) (λ _, True).
Proof.
  apply rg_makes; [|done]. unfold recordRedkeyMetrics, observe, set_state, enteredReady, emit.
  makes_tac.
Qed.

Lemma rg_then {A B} (m : M OpState (error + A)) (f : A → M OpState (error + B)) :
  rg rely own_call m (λ _, True) → (∀ a, rg rely own_call (f a) (λ _, True)) →
  rg rely own_call (bindE m f) (λ _, True).
Proof.
  intros Hm Hf. eapply rg_bind; [exact Hm|]. intros [e|a] _; [by apply rg_ret|apply Hf].
Qed.

Lemma rg_true {A} (m : M OpState A) Q : rg rely own_call m Q → rg rely own_call m (λ _, True).
Proof. intros Hm. by eapply rg_weaken. Qed.

Lemma rg_tear_down r cluster :
  at_hand cluster → rg rely own_call (tear_down r cluster) (λ _, True).
Proof.
  intros Hc. unfold tear_down. apply rg_then.
  { apply (rg_robin_targets cluster); [done|]. apply Forall_singleton. split; [left|done]. }
  intros _. apply rg_then.
  { apply (rg_robin_targets cluster); [done|]. apply Forall_fmap.
    apply Forall_forall. intros k Hk. split; [|done]. simpl. unfold rbac_kinds. set_solver. }
  intros _. apply rg_then; [by apply rg_deleteAllConfigs|]. intros _.
  apply rg_then; [by apply rg_updateStatus|]. intros cl. by apply rg_ret.
Qed.

Lemma rg_reconcileScaleToZero r cluster :
  at_hand cluster → rg rely own_call (reconcileScaleToZero r cluster) (λ _, True).
Proof.
  intros Hc. unfold reconcileScaleToZero.
  apply rg_then; [by eapply rg_true, rg_listConfigs|]. intros configs.
  destruct (slice_last configs) as [h|].
  - destruct (negb _); [|destruct (bool_decide _)].
    + unfold hand_over_to_robin. apply rg_then; [by apply rg_ensureRBAC|]. intros _.
      apply rg_then; [by apply rg_ensureRobinDeployment|]. intros _.
      apply rg_then; [by apply rg_createNewConfig|]. intros _. by apply rg_ret.
    + by apply rg_tear_down.
    + unfold wait_for_robin. apply rg_then; [by apply rg_ensureRBAC|]. intros _.
      apply rg_then; [by apply rg_ensureRobinDeployment|]. intros _.
      apply rg_then; [by eapply rg_true, rg_aggregateStatus|]. intros cl. by apply rg_ret.
  - apply rg_then; [by apply rg_updateStatus|]. intros cl. by apply rg_ret.
Qed.

Lemma rg_stage {A} name (m : M OpState (error + A)) k Q :
  rg rely own_call m (on_ok Q) → (∀ a, Q a → rg rely own_call (k a) (λ _, True)) →
  rg rely own_call (stage name m k) (λ _, True).
Proof.
  intros Hm Hk. unfold stage. eapply rg_bind; [exact Hm|]. intros [e|a] Ha; [|by apply Hk].
  apply rg_makes; [|done]. unfold fail_stage, stage_error, emit. makes_tac.
Qed.

Lemma rg_stage_any {A} name (m : M OpState (error + A)) k :
  rg rely own_call m (λ _, True) → (∀ a, rg rely own_call (k a) (λ _, True)) →
  rg rely own_call (stage name m k) (λ _, True).
Proof.
  intros Hm Hk. apply (rg_stage _ _ _ (λ _, True)); [|done].
  eapply rg_weaken; [exact Hm|]. by intros [].
Qed.

Lemma rg_report r cluster configs : rg rely own_call (report r cluster configs) (λ _, True).
Proof.
  unfold report. eapply rg_bind; [apply rg_recordRedkeyMetrics|]. intros _ _. by apply rg_ret.
Qed.

Lemma rg_finish r cluster configs :
  at_hand cluster → Forall Lc configs → rg rely own_call (finish r cluster configs) (λ _, True).
Proof.
  intros Hc Hl. unfold finish. destruct configs as [|c configs]; [apply rg_report|].
  eapply rg_stage; [by apply rg_cleanup_stage|]. intros rest _.
  eapply rg_stage; [by apply rg_aggregateStatus|]. intros cl _. apply rg_report.
Qed.

Lemma rg_Reconcile r : rg rely own_call (Reconcile r req) (λ _, True).
Proof.
  unfold Reconcile. apply (rg_bind _ _ _ _ (on_ok at_hand)).
  { apply (rg_invoke _ _ (Get KRedkey req)). intros x Hx. split; [by left|].
    by destruct x as [e|cl]. }
  intros [e|cluster] Hc.
  { destruct (IsNotFound e); (apply rg_makes; [|done]).
    - unfold deleteRedkeyMetrics, op_forget, ready_forget, emit. makes_tac.
    - unfold fail_stage, stage_error, emit. makes_tac. }
  simpl in Hc. destruct (bool_decide _).
  { apply rg_stage_any; [by apply rg_reconcileScaleToZero|]. intros [res cl].
    eapply rg_bind; [apply rg_recordRedkeyMetrics|]. intros _ _. by apply rg_ret. }
  apply rg_stage_any; [by apply rg_ensureRBAC|]. intros _.
  apply rg_stage_any; [by apply rg_ensureRobinDeployment|]. intros _. unfold reconcile_configs.
  eapply rg_stage; [by apply rg_listConfigs|]. intros configs Hl. simpl.
  destruct (match configs with [] => true | _ => _ end); [|by apply rg_finish].
  apply rg_stage_any; [by apply rg_createNewConfig|]. intros _.
  eapply rg_stage; [by apply rg_listConfigs|]. intros configs' Hl'. by apply rg_finish.
Qed.

End touch_facts.

(** ** Theorems *)

Section reconciler_theorems.
Context {K : K8sTypes} {D : Deps} {DS : DepsSpec} {SS : SortSlice} {SP : SortSliceSpec}.
Implicit Types (r : RedkeyReconciler) (req : NamespacedName).

(** C29: Every failed reconcile returns its error with an empty result (so
    controller-runtime backs off) and is counted under exactly one stage; a
    successful one is not counted and asks for the periodic resync, and only a
    Redkey that is gone is not asked about again. *)
Theorem Reconcile_counts_errors r req s tr s' res oe :
  exec (Reconcile r req) s tr s' (res, oe) →
  match oe with
  | Some _ => res = Result_zero ∧ stage_count s' = stage_count s + 1
  | None => stage_count s' = stage_count s ∧
      (res = mkResult (ResyncInterval r) ∨
       res = Result_zero ∧ ∃ e, tr = [Obs (Get KRedkey req) (inl e)] ∧ IsNotFound e = true)
  end.
Proof.
  intros Hx. unfold Reconcile in Hx. exec_call Hx as [e|cluster].
  - destruct (IsNotFound e) eqn:He.
    + apply exec_bind in Hx as (tr1&tr2&s1&[]&->&H1&Hx).
      pose proof (keeps_deleteRedkeyMetrics _ _ _ _ _ H1) as Hk.
      unfold deleteRedkeyMetrics, op_forget, ready_forget, emit in H1. exec_inv.
      split; [done|]. right. split; [done|]. by exists e.
    + apply (counted_fail r) in Hx. destruct oe; naive_solver.
  - case_bool_decide.
    + unfold stage in Hx.
      apply exec_bind in Hx as (tr1&tr2&s1&[e|[rs cl]]&->&H1&Hx);
        pose proof (keeps_reconcileScaleToZero _ _ _ _ _ _ H1) as <-.
      * apply (counted_fail r) in Hx. destruct oe; naive_solver.
      * apply requeues_reconcileScaleToZero in H1 as ->.
        apply exec_bind in Hx as (?&?&?&?&->&H2&Hx). apply keeps_recordRedkeyMetrics in H2.
        exec_inv. eauto.
    + apply (counted_stage r) in Hx; [destruct oe; naive_solver|auto with redkey|].
      intros _. apply counted_stage; [auto with redkey|]. intros _.
      apply counted_reconcile_configs.
Qed.

(** The configs listed and the Redkeys read in a trace. *)
Definition listed_in (tr : list obs) (c : RedkeyConfig) : Prop :=
  ∃ ns l v items, Obs (ListConfigs ns l v) (inr items) ∈ tr ∧ c ∈ items.
Definition read_in (tr : list obs) (cluster : Redkey) : Prop :=
  ∃ key, Obs (Get KRedkey key) (inr cluster) ∈ tr.

(** C4: A reconcile touches nothing but the objects of its own Redkey: it reads the
    Redkey of the request and Robin's four objects, lists only the configs labelled
    with the cluster in its namespace, writes only Robin's objects under the
    cluster's own name and configs with the cluster's name and label and the spec of
    a Redkey it read, deletes only those or configs that it listed, and never
    creates, patches or deletes a Redkey; a status update carries metadata and spec
    of a Redkey it read under the requested key, a status computed from it, and does
    not lose a recorded topology. *)
Theorem Reconcile_touches_its_own r req s tr s' a :
  exec (Reconcile r req) s tr s' a → reads_by_key tr →
  Forall (own_call req (listed_in tr) (read_in tr)) tr.
Proof.
  intros Hx Hr. destruct (rg_Reconcile req (listed_in tr) (read_in tr) r s tr s' a Hx); [|done].
  apply Forall_forall. intros [c x] Ho. destruct c; try done; destruct x as [e|obj]; try done.
  - split; [by apply Hr|]. destruct k; try done. by exists key.
  - simpl. apply Forall_forall. intros c Hc. by exists ns, label, value, obj.
Qed.

End reconciler_theorems.

Section reconciler_witnesses.
Import Simple.

Definition w_reconcile : M OpState (Result * option error) := Reconcile w_reconciler Sample.key.

Definition w_reconcile_trace : list obs := run_trace w_online (w_reconcile w_state) tt.

Lemma Reconcile_counts_errors_witness :
  let out := (run Sample.offline (w_reconcile w_state) tt).2 in
  out.2 = (Result_zero, Some Sample.unreachable) ∧ stage_count out.1 = 1.
Proof.
  split; [reflexivity|].
  exact (proj2 (Reconcile_counts_errors w_reconciler Sample.key w_state _ _ Result_zero
    (Some Sample.unreachable) (exec_run Sample.offline w_reconcile w_state tt))).
Defined.

Lemma Reconcile_touches_its_own_witness :
  Forall (own_call Sample.key (listed_in w_reconcile_trace) (read_in w_reconcile_trace))
    w_reconcile_trace ∧ length (List.filter is_write w_reconcile_trace) = 6.
Proof.
  split; [|vm_compute; reflexivity].
  apply (Reconcile_touches_its_own w_reconciler Sample.key w_state w_reconcile_trace _ _
    (exec_run w_online w_reconcile w_state tt)).
  apply reads_by_key_forallb. vm_compute. reflexivity.
Defined.

End reconciler_witnesses.
