(* ===== verification/Bounds.v ===== *)
(** * How many API calls a reconcile makes

    [costs n m f]: [m], given a budget of [n] calls, stays within it and leaves [f a]
    of it when it returns [a]. A listing pays in one unit for each config it returns,
    from which the deletions of those configs are paid; so the loops over configs are
    bounded by what the server listed, and everything else by constants and by the
    number of attempts of [retry.DefaultRetry]. *)

From S2P Require Import Prelude Strconv ApiTypes Effects External Samples Metrics Metadata.
From S2P Require Import ConfigLifecycle Robin ScaleZero Reconciler.

(** ** Budgets *)

Section budgets.
Context {K : K8sTypes}.

(** Readings of the clock are not calls to the API server. *)
Definition is_api (o : obs) : bool :=
  match obs_call o with Now | Clock => false | _ => true end.

Definition api_calls (tr : list obs) : nat := length (List.filter is_api tr).

(** The configs in the answers to the listings of a trace. *)
Definition listed1 (o : obs) : nat :=
  match o with
  | Obs (ListConfigs _ _ _) (inr configs) => length configs
  | _ => 0
  end.

Definition listed (tr : list obs) : nat := sum_list (listed1 <$> tr).

Context {S : Type}.

Definition costs {A} (n : nat) (m : M S A) (f : A → nat) : Prop :=
  ∀ s tr s' a, exec m s tr s' a → api_calls tr + f a ≤ n + listed tr.

Lemma api_calls_app tr1 tr2 : api_calls (tr1 ++ tr2) = api_calls tr1 + api_calls tr2.
Proof. unfold api_calls. by rewrite List.filter_app, length_app. Qed.

Lemma listed_app tr1 tr2 : listed (tr1 ++ tr2) = listed tr1 + listed tr2.
Proof. unfold listed. by rewrite fmap_app, sum_list_with_app. Qed.

Lemma costs_weaken {A} n n' (m : M S A) f f' :
  costs n m f → n ≤ n' → (∀ a, f' a ≤ f a) → costs n' m f'.
Proof. intros Hm Hn Hf s tr s' a Hx. apply Hm in Hx. specialize (Hf a). lia. Qed.

Lemma costs_more {A} n n' (m : M S A) f : costs n m f → n ≤ n' → costs n' m f.
Proof. intros Hm Hn. by eapply costs_weaken. Qed.

(** What is not needed is left over. *)
Lemma costs_frame {A} n k (m : M S A) f : costs n m f → costs (n + k) m (λ a, f a + k).
Proof. intros Hm s tr s' a Hx. apply Hm in Hx. lia. Qed.

Lemma costs_ret {A} n (a : A) f : f a ≤ n → costs n (mret a : M S A) f.
Proof. intros Hf s tr s' b Hx. exec_inv. cbn. lia. Qed.

Lemma costs_bind {A B} n (m : M S A) g (k : A → M S B) f :
  costs n m g → (∀ a, costs (g a) (k a) f) → costs n (m ≫= k) f.
Proof.
  intros Hm Hk s tr s' b (tr1&tr2&s1&a&->&H1&H2)%exec_bind.
  apply Hm in H1. apply Hk in H2. rewrite api_calls_app, listed_app. lia.
Qed.

(** A part that costs [p] whatever happens, before a rest of [n]. *)
Lemma costs_seq {A B} p n (m : M S A) (k : A → M S B) f :
  costs p m (λ _, 0) → (∀ a, costs n (k a) f) → costs (p + n) (m ≫= k) f.
Proof.
  intros Hm Hk. eapply costs_bind; [by apply (costs_frame p n m)|]. intros a. apply Hk.
Qed.

Lemma costs_seqE {A B} p n (m : M S (error + A)) (k : A → M S (error + B)) :
  costs p m (λ _, 0) → (∀ a, costs n (k a) (λ _, 0)) → costs (p + n) (bindE m k) (λ _, 0).
Proof.
  intros Hm Hk. apply costs_seq; [done|]. intros [e|a]; [apply costs_ret; lia|apply Hk].
Qed.

Lemma costs_invoke n c f :
  (∀ x, (if is_api (Obs c x) then 1 else 0) + f x ≤ n + listed1 (Obs c x)) →
  costs n (invoke c : M S _) f.
Proof.
  intros Hc s tr s' x [-> ->]%exec_invoke. specialize (Hc x). unfold api_calls, listed. cbn.
  destruct (is_api _); cbn in *; lia.
Qed.

Lemma costs_gets {A} n (g : S → A) f : (∀ a, f a ≤ n) → costs n (gets g : M S A) f.
Proof. intros Hf s tr s' a Hx. exec_inv. cbn. specialize (Hf (g s)). lia. Qed.

Lemma costs_modify n g f : f tt ≤ n → costs n (modify g : M S _) f.
Proof. intros Hf s tr s' [] Hx. exec_inv. cbn. lia. Qed.

Lemma costs_forM {A} (l : list A) (k : A → M S unit) :
  (∀ a, costs 0 (k a) (λ _, 0)) → costs 0 (forM l k) (λ _, 0).
Proof.
  intros Hk. induction l as [|a l IH]; simpl; [apply costs_ret; cbn; lia|].
  apply (costs_seq 0 0); [apply Hk|]. intros _. exact IH.
Qed.


End budgets.

(** Walk through a program with a budget that is known to be enough. *)
Ltac costs_leaf := cbn; lia.
Ltac costs_step :=
  lazymatch goal with
  | |- costs _ (mret _) _ => apply costs_ret; costs_leaf
  | |- costs _ (ok _) _ => apply costs_ret; costs_leaf
  | |- costs _ (raise _) _ => apply costs_ret; costs_leaf
  | |- costs _ (gets _) _ => apply costs_gets; intros; costs_leaf
  | |- costs _ (modify _) _ => apply costs_modify; costs_leaf
  | |- costs _ (emit _) _ => apply costs_modify; costs_leaf
  | |- costs _ (invoke ?c) _ => apply (costs_invoke _ c); intros; costs_leaf
  | |- costs ?n (mbind _ (invoke ?c)) _ =>
      lazymatch c with
      | Now => apply (costs_seq 0 n); [|intros ?]
      | Clock => apply (costs_seq 0 n); [|intros ?]
      | _ => lazymatch n with S ?n' => apply (costs_seq 1 n'); [|intros ?] end
      end
  | |- costs ?n (bindE (invoke _) _) _ =>
      lazymatch n with S ?n' => apply (costs_seqE 1 n'); [|intros ?] end
  | |- costs ?n (mbind _ (emit _)) _ => apply (costs_seq 0 n); [|intros ?]
  | |- costs ?n (mbind _ (modify _)) _ => apply (costs_seq 0 n); [|intros ?]
  | |- costs ?n (mbind _ (gets _)) _ => apply (costs_seq 0 n); [|intros ?]
  | |- costs _ (match ?x with _ => _ end) _ => destruct x
  end.
Ltac costs_tac := repeat costs_step.

(** ** The operations *)

Section operations.
Context {K : K8sTypes} {D : Deps} {DS : DepsSpec} {SS : SortSlice} {SP : SortSliceSpec}.
Implicit Types (cluster : Redkey).

Lemma costs_ensureServiceAccount cluster : costs 2 (ensureServiceAccount cluster) (λ _, 0).
Proof. unfold ensureServiceAccount. costs_tac. Qed.

Lemma costs_ensureRole cluster : costs 2 (ensureRole cluster) (λ _, 0).
Proof. unfold ensureRole. costs_tac. Qed.

Lemma costs_ensureRoleBinding cluster : costs 3 (ensureRoleBinding cluster) (λ _, 0).
Proof. unfold ensureRoleBinding. cbv zeta. costs_tac. Qed.

Lemma costs_ensureRBAC cluster : costs 7 (ensureRBAC cluster) (λ _, 0).
Proof.
  apply (costs_seqE 2 5); [apply costs_ensureServiceAccount|intros _].
  apply (costs_seqE 2 3); [apply costs_ensureRole|intros _]. apply costs_ensureRoleBinding.
Qed.

Lemma costs_ensureRobinDeployment cluster : costs 2 (ensureRobinDeployment cluster) (λ _, 0).
Proof. unfold ensureRobinDeployment. cbv zeta. costs_tac. Qed.

Lemma costs_createNewConfig cluster h : costs 1 (createNewConfig cluster h) (λ _, 0).
Proof. unfold createNewConfig. cbv zeta. costs_tac. Qed.

(** What a listing is good for: the deletion of what it returned. *)
Definition configs_of {A} (r : error + list A) : nat :=
  match r with inl _ => 0 | inr l => length l end.

Lemma costs_listConfigs cluster : costs 1 (listConfigs cluster) configs_of.
Proof.
  intros s tr s' r Hx. unfold listConfigs in Hx. exec_inv; unfold api_calls, listed; cbn; [lia|].
  rewrite (Permutation_length (sort_slice_perm cfg_seq _)). lia.
Qed.

Lemma costs_cleanup_loop rest n : costs n (cleanup_loop rest n) (λ _, 0).
Proof.
  revert n; induction rest as [|c rest IH]; intros [|n]; cbn [cleanup_loop]; costs_tac; auto.
Qed.

Lemma last_applied_bound configs i n : last_applied configs i = Some n → n < i.
Proof.
  induction i as [|i IH]; cbn; [done|]. intros Hl.
  repeat case_match; simplify_eq; try apply IH in Hl; lia.
Qed.

Lemma costs_cleanup configs :
  costs (length configs) (cleanupSupersededConfigs configs) (λ _, 0).
Proof.
  unfold cleanupSupersededConfigs. case_bool_decide; [costs_tac|].
  destruct (last_applied configs (length configs)) as [[|n]|] eqn:E; [costs_tac| |costs_tac].
  apply last_applied_bound in E. eapply costs_more; [apply costs_cleanup_loop|lia].
Qed.

Lemma costs_delete_each ts : costs (length ts) (delete_each ts) (λ _, 0).
Proof. induction ts as [|t ts IH]; cbn [delete_each length]; costs_tac; auto. Qed.

Lemma costs_deleteAllConfigs cluster : costs 1 (deleteAllConfigs cluster) (λ _, 0).
Proof.
  intros s tr s' r Hx. unfold deleteAllConfigs in Hx. exec_call Hx as [e|l].
  - exec_inv. cbn. lia.
  - apply costs_delete_each in Hx. rewrite length_fmap in Hx.
    unfold api_calls, listed in *. cbn in *. lia.
Qed.

(** Attempts of [retry.RetryOnConflict(retry.DefaultRetry, ...)]. *)
Definition attempts : nat := retry_DefaultRetry_Steps.

Lemma costs_retry {A} n steps (fn : M OpState (error + A)) :
  0 < steps → costs n fn (λ _, 0) → costs (steps * n) (RetryOnConflict steps fn) (λ _, 0).
Proof.
  intros Hs Hfn. destruct steps as [|m]; [lia|]. clear Hs. induction m as [|m IH].
  { rewrite RetryOnConflict_last. eapply costs_more; [exact Hfn|lia]. }
  rewrite RetryOnConflict_more. apply (costs_seq n (S m * n) fn); [done|].
  intros [e|a]; [|apply costs_ret; cbn; lia].
  destruct (IsConflict e); [exact IH|apply costs_ret; cbn; lia].
Qed.

Lemma costs_aggregateStatus cluster configs :
  costs (2 * attempts) (aggregateStatus cluster configs) (λ _, 0).
Proof.
  unfold aggregateStatus. destruct (selectActiveConfig configs); [|costs_tac].
  eapply costs_more; [apply (costs_retry 2)|unfold attempts; lia]; [auto with redkey|].
  unfold aggregate_attempt. costs_tac.
Qed.

Lemma costs_set_state v key values active : costs 0 (set_state v key values active) (λ _, 0).
Proof. apply costs_forM. intros x. costs_tac. Qed.

Lemma costs_observe key status phase : costs 0 (observe key status phase) (λ _, 0).
Proof. unfold observe. cbv zeta. costs_tac. Qed.

Lemma costs_recordRedkeyMetrics cluster c : costs 0 (recordRedkeyMetrics cluster c) (λ _, 0).
Proof.
  unfold recordRedkeyMetrics. cbv zeta.
  apply (costs_seq 0 0); [apply costs_observe|intros _].
  apply (costs_seq 0 0); [costs_tac|intros _].
  apply (costs_seq 0 0); [costs_tac|intros _].
  apply (costs_seq 0 0); [apply costs_set_state|intros _].
  destruct c; [|costs_tac].
  apply (costs_seq 0 0); [apply costs_set_state|intros _].
  apply (costs_seq 0 0); [unfold enteredReady; costs_tac|intros e]. costs_tac.
Qed.

Lemma costs_deleteRedkeyMetrics key : costs 0 (deleteRedkeyMetrics key) (λ _, 0).
Proof. unfold deleteRedkeyMetrics, op_forget, ready_forget. costs_tac. Qed.
Lemma costs_updateStatusScaledToZero cluster :
  costs 1 (updateStatusScaledToZero cluster) (λ _, 0).
Proof. unfold updateStatusScaledToZero. costs_tac. Qed.

Lemma costs_then {A B} p n (m : M OpState (error + A)) (k : A → M OpState (error + B)) N :
  costs p m (λ _, 0) → (∀ a, costs n (k a) (λ _, 0)) → p + n ≤ N → costs N (bindE m k) (λ _, 0).
Proof. intros Hm Hk HN. eapply costs_more; [by apply (costs_seqE p n)|done]. Qed.

(** A listing of the configs and what is done with them. *)
Lemma costs_with_configs {A} cluster n (k : list RedkeyConfig → M OpState (error + A)) :
  (∀ configs, costs (n + length configs) (k configs) (λ _, 0)) →
  costs (1 + n) (bindE (listConfigs cluster) k) (λ _, 0).
Proof.
  intros Hk. eapply costs_bind; [apply (costs_frame 1 n), costs_listConfigs|].
  intros [e|configs]; cbn [configs_of]; [costs_tac|].
  eapply costs_more; [apply Hk|lia].
Qed.

Variable r : RedkeyReconciler.

Lemma costs_hand_over cluster c : costs 10 (hand_over_to_robin r cluster c) (λ _, 0).
Proof.
  eapply (costs_then 7 3); [apply costs_ensureRBAC|intros _|lia].
  eapply (costs_then 2 1); [apply costs_ensureRobinDeployment|intros _|lia].
  eapply (costs_then 1 0); [apply costs_createNewConfig|intros _; unfold requeue; costs_tac|lia].
Qed.

Lemma costs_tear_down cluster : costs 6 (tear_down r cluster) (λ _, 0).
Proof.
  eapply (costs_then 1 5); [apply costs_delete_each|intros _|lia].
  eapply (costs_then 3 2); [apply costs_delete_each|intros _|lia].
  eapply (costs_then 1 1); [apply costs_deleteAllConfigs|intros _|lia].
  eapply (costs_then 1 0); [apply costs_updateStatusScaledToZero| |lia].
  intros c. unfold requeue. costs_tac.
Qed.

Lemma costs_wait cluster configs :
  costs (9 + 2 * attempts) (wait_for_robin r cluster configs) (λ _, 0).
Proof.
  eapply (costs_then 7 (2 + 2 * attempts)); [apply costs_ensureRBAC|intros _|lia].
  eapply (costs_then 2 (2 * attempts)); [apply costs_ensureRobinDeployment|intros _|lia].
  eapply (costs_then (2 * attempts) 0); [apply costs_aggregateStatus| |lia].
  intros c. unfold requeue. costs_tac.
Qed.

Lemma attempts_pos : 1 ≤ attempts.
Proof. apply retry_DefaultRetry_Steps_pos. Qed.

Lemma costs_reconcileScaleToZero cluster :
  costs (10 + 2 * attempts) (reconcileScaleToZero r cluster) (λ _, 0).
Proof.
  pose proof attempts_pos. apply (costs_with_configs cluster (9 + 2 * attempts)). intros configs.
  destruct (slice_last configs) as [latest|]; [|].
  - case_bool_decide; cbn [negb].
    + case_bool_decide; eapply costs_more; [apply costs_tear_down|lia|apply costs_wait|lia].
    + eapply costs_more; [apply costs_hand_over|lia].
  - eapply (costs_then 1 0); [apply costs_updateStatusScaledToZero| |lia].
    intros c. unfold requeue. costs_tac.
Qed.

Lemma costs_stage {A} p n name (m : M OpState (error + A)) k N :
  costs p m (λ _, 0) → (∀ a, costs n (k a) (λ _, 0)) → p + n ≤ N →
  costs N (stage name m k) (λ _, 0).
Proof.
  intros Hm Hk HN. eapply costs_more; [|exact HN]. apply costs_seq; [done|].
  intros [e|a]; [|apply Hk]. unfold fail_stage, stage_error. costs_tac.
Qed.

Lemma costs_list_stage name cluster n (k : list RedkeyConfig → M OpState (Result * option error)) :
  (∀ configs, costs (n + length configs) (k configs) (λ _, 0)) →
  costs (1 + n) (stage name (listConfigs cluster) k) (λ _, 0).
Proof.
  intros Hk. eapply costs_bind; [apply (costs_frame 1 n), costs_listConfigs|].
  intros [e|configs]; cbn [configs_of].
  - unfold fail_stage, stage_error. costs_tac.
  - eapply costs_more; [apply Hk|lia].
Qed.

Lemma costs_report cluster configs : costs 0 (report r cluster configs) (λ _, 0).
Proof. apply (costs_seq 0 0); [apply costs_recordRedkeyMetrics|intros _]. costs_tac. Qed.

Lemma costs_finish cluster configs :
  costs (2 * attempts + length configs) (finish r cluster configs) (λ _, 0).
Proof.
  unfold finish. destruct configs as [|c configs'] eqn:E.
  { eapply costs_more; [apply costs_report|lia]. }
  rewrite <- E. eapply (costs_stage (length configs) (2 * attempts)); [| |lia].
  - eapply costs_more; [apply (costs_seq (length configs) 0); [apply costs_cleanup|]|lia].
    intros [l [e|]]; costs_tac.
  - intros l. eapply (costs_stage (2 * attempts) 0); [apply costs_aggregateStatus| |lia].
    intros cl. apply costs_report.
Qed.

Lemma costs_reconcile_configs cluster :
  costs (3 + 2 * attempts) (reconcile_configs r cluster) (λ _, 0).
Proof.
  apply (costs_list_stage _ _ (2 + 2 * attempts)). intros configs. cbv zeta.
  case_match.
  - eapply (costs_stage 1 (1 + 2 * attempts)); [apply costs_createNewConfig|intros _|lia].
    apply (costs_list_stage _ _ (2 * attempts)). intros l. apply costs_finish.
  - eapply costs_more; [apply costs_finish|lia].
Qed.

(** C12: a reconcile terminates after a bounded number of API calls. Against every
    server, in every state, it runs to its end; and whatever the answers, it makes at
    most 13 calls, two more for each attempt to write the status, and one for each
    config that the server listed (clock readings not counted). *)
Theorem Reconcile_terminates req :
  (∀ s tr s' res, exec (Reconcile r req) s tr s' res →
     api_calls tr ≤ 13 + 2 * attempts + listed tr) ∧
  (∀ W (h : ∀ c, W → W * ans c) w s, ∃ tr s' res, exec (Reconcile r req) s tr s' res ∧
     tr = run_trace h (Reconcile r req s) w).
Proof.
  split; [|intros W h w s; do 3 eexists; split; [apply (exec_run h)|done]].
  enough (Hc : costs (13 + 2 * attempts) (Reconcile r req) (λ _, 0)).
  { intros s tr s' res Hx. apply Hc in Hx. lia. }
  unfold Reconcile. apply (costs_seq 1 (12 + 2 * attempts)).
  { apply (costs_invoke 1 (Get KRedkey req)). intros x. cbn. lia. }
  intros [e|cluster].
  - destruct (IsNotFound e); [|unfold fail_stage, stage_error; costs_tac].
    eapply costs_more; [apply (costs_seq 0 0); [apply costs_deleteRedkeyMetrics|]|lia].
    intros _. costs_tac.
  - case_bool_decide.
    + eapply (costs_stage (10 + 2 * attempts) 0); [apply costs_reconcileScaleToZero| |lia].
      intros [res cl]. apply (costs_seq 0 0); [apply costs_recordRedkeyMetrics|intros _]. costs_tac.
    + eapply (costs_stage 7 (5 + 2 * attempts)); [apply costs_ensureRBAC|intros _|lia].
      eapply (costs_stage 2 (3 + 2 * attempts)); [apply costs_ensureRobinDeployment|intros _|lia].
      apply costs_reconcile_configs.
Qed.
End operations.

Section bounds_witnesses.
Import Simple.

(** Nothing of Robin's is there yet, and one of the four configs is superseded. *)
Lemma Reconcile_terminates_witness :
  let tr := w_reconcile_trace in
  api_calls tr ≤ 13 + 2 * 5 + listed tr ∧ api_calls tr = 13 ∧ listed tr = 4.
Proof.
  split; [|by vm_compute].
  exact (proj1 (Reconcile_terminates w_reconciler Sample.key) w_state w_reconcile_trace _ _
    (exec_run w_online w_reconcile w_state tt)).
Defined.

End bounds_witnesses.
