(* ===== verification/Validation.v ===== *)
(** * Admission rules (the validation markers of src/api/v1beta1/redkey_types.go)

    The CEL rules and bounds that the API server enforces on a Redkey, as boolean
    functions, and the life of a Redkey as a step relation: users change the spec
    within the rules, the operator changes the status.

    [has(self.f)] holds when the field is present in the object's JSON; objects are
    taken as the Go types encode them, so a field tagged [omitempty] is present
    when it is not the zero value. A transition rule ([oldSelf]) on an optional
    field is evaluated only when the field is present before and after. *)

From S2P Require Import Prelude ApiTypes Effects External Samples Metrics Metadata.
From S2P Require Import ConfigLifecycle ScaleZero.

(** ** Definitions *)

Section rules.
Context {K : K8sTypes}.
Implicit Types (self oldSelf : RedkeySpec) (rk : Redkey).

(** [has(self.storage)] *)
Definition has_storage self : bool := negb (bool_decide (spec_Storage self = "")).

(** [self.purgeKeysOnRebalance == true]; the default is true. *)
Definition purges self : bool :=
  match spec_PurgeKeysOnRebalance self with Some b => b | None => true end.

(** [+kubebuilder:validation:items:Enum] of the access modes. *)
Definition known_access_mode (m : string) : bool :=
  bool_decide (m ∈ ["ReadWriteOnce"; "ReadOnlyMany"; "ReadWriteMany"]).

(** The rules on the spec that look at the new object only, with the enumerations
    of modes and access modes and the minimum of primaries. *)
Definition valid_spec self : bool :=
  (bool_decide (spec_Mode self = ModeCluster) || bool_decide (spec_Mode self = ModeStandalone)) &&
  bool_decide (0 ≤ spec_Primaries self)%Z &&
  (spec_Ephemeral self || has_storage self) &&
  negb (spec_Ephemeral self && has_storage self) &&
  negb (negb (spec_Ephemeral self) && purges self) &&
  (negb (bool_decide (spec_Mode self = ModeStandalone)) ||
   bool_decide (spec_Primaries self ≤ 1)%Z) &&
  (negb (bool_decide (spec_Mode self = ModeStandalone)) ||
   bool_decide (spec_ReplicasPerPrimary self = 0)%Z) &&
  forallb known_access_mode (spec_AccessModes self).

(** The rules on the spec that compare with the old object. *)
Definition valid_transition oldSelf self : bool :=
  bool_decide (spec_Mode self = spec_Mode oldSelf) &&
  bool_decide (spec_Ephemeral self = spec_Ephemeral oldSelf) &&
  (negb (has_storage self) || negb (has_storage oldSelf) ||
   bool_decide (spec_Storage self = spec_Storage oldSelf)) &&
  bool_decide (spec_StorageClassName self = spec_StorageClassName oldSelf) &&
  (bool_decide (spec_AccessModes self = []) || bool_decide (spec_AccessModes oldSelf = []) ||
   bool_decide (spec_AccessModes self = spec_AccessModes oldSelf)).

(** [has(self.status.lastAppliedPrimaries)] *)
Definition has_last_applied (st : RedkeyStatus) : bool :=
  negb (bool_decide (st_LastAppliedPrimaries st = 0)%Z).

(** The two root-level rules: the scale-from-zero topology lock. An absent
    lastAppliedReplicasPerPrimary counts as zero, which is what an absent field
    decodes to. *)
Definition scale_lock (old new : Redkey) : bool :=
  let free := spec_Ephemeral (rk_Spec new) ||
              negb (bool_decide (spec_Primaries (rk_Spec old) = 0)%Z) ||
              bool_decide (spec_Primaries (rk_Spec new) = 0)%Z ||
              negb (has_last_applied (rk_Status new)) in
  (free || bool_decide (spec_Primaries (rk_Spec new) =
                        st_LastAppliedPrimaries (rk_Status new))%Z) &&
  (free || bool_decide (spec_ReplicasPerPrimary (rk_Spec new) =
                        st_LastAppliedReplicasPerPrimary (rk_Status new))%Z).

(** Admission of an update. *)
Definition admits (old new : Redkey) : bool :=
  valid_spec (rk_Spec new) && valid_transition (rk_Spec old) (rk_Spec new) && scale_lock old new.

(** Assignment to the spec, as an update of the main resource does: the status
    stays. *)
Definition with_spec rk (s : RedkeySpec) : Redkey :=
  mkRedkey (rk_type rk) (rk_meta rk) s (rk_Status rk).

End rules.

(** ** The life of a Redkey *)

Section life.
Context {K : K8sTypes} {D : Deps}.

(** New metadata of the same object. *)
Definition with_meta (rk : Redkey) (m : ObjectMeta) : Redkey :=
  mkRedkey (rk_type rk) m (rk_Spec rk) (rk_Status rk).

(** A user's accepted update of the spec, a change of the metadata by anyone (the
    server's version and generation among it), or one of the operator's two status
    updates. *)
Inductive step : Redkey → Redkey → Prop :=
| user_update rk s : admits rk (with_spec rk s) = true → step rk (with_spec rk s)
| metadata_changes rk m : meta_key m = meta_key (rk_meta rk) → step rk (with_meta rk m)
| operator_aggregates rk now clk c g :
    step rk (with_status rk (aggregated_status now clk rk c g))
| operator_scales_to_zero rk now clk :
    step rk (with_status rk (scaled_to_zero_status now clk rk)).

End life.

(** ** Facts *)

Section rule_facts.
Context {K : K8sTypes} {D : Deps} {DS : DepsSpec}.
Implicit Types (rk : Redkey) (s : RedkeySpec).

(** What never changes in the spec of an admitted object. *)
Definition frozen (s s' : RedkeySpec) : Prop :=
  spec_Mode s = spec_Mode s' ∧ spec_Ephemeral s = spec_Ephemeral s' ∧
  spec_Storage s = spec_Storage s' ∧ spec_StorageClassName s = spec_StorageClassName s'.

Lemma valid_storage s :
  valid_spec s = true → has_storage s = negb (spec_Ephemeral s).
Proof.
  unfold valid_spec. rewrite !andb_true_iff. intros [[[[[[_ H1] H2] _] _] _] _].
  by destruct (spec_Ephemeral s), (has_storage s).
Qed.

Lemma transition_frozen s s' :
  valid_spec s = true → valid_spec s' = true → valid_transition s s' = true → frozen s s'.
Proof.
  intros H1%valid_storage H2%valid_storage. unfold valid_transition. rewrite H1, H2.
  rewrite !andb_true_iff, !bool_decide_eq_true. intros [[[[Hm He] Hs] Hc] _].
  split_and!; try done. rewrite He in *. destruct (spec_Ephemeral s); simpl in *.
  - unfold has_storage in *. rewrite negb_false_iff, bool_decide_eq_true in *. congruence.
  - by apply bool_decide_eq_true in Hs.
Qed.

Lemma scale_lock_spec old new :
  scale_lock old new = true →
  spec_Ephemeral (rk_Spec new) = false → spec_Primaries (rk_Spec old) = 0%Z →
  spec_Primaries (rk_Spec new) ≠ 0%Z → st_LastAppliedPrimaries (rk_Status new) ≠ 0%Z →
  spec_Primaries (rk_Spec new) = st_LastAppliedPrimaries (rk_Status new) ∧
  spec_ReplicasPerPrimary (rk_Spec new) = st_LastAppliedReplicasPerPrimary (rk_Status new).
Proof.
  intros Hl He Ho Hn Ha. unfold scale_lock, has_last_applied in Hl.
  rewrite He, Ho in Hl. rewrite (bool_decide_eq_true_2 (0 = 0)%Z) in Hl by done.
  rewrite (bool_decide_eq_false_2 (spec_Primaries _ = 0)%Z) in Hl by done.
  rewrite (bool_decide_eq_false_2 (st_LastAppliedPrimaries _ = 0)%Z) in Hl by done.
  simpl in Hl. by rewrite andb_true_iff, !bool_decide_eq_true in Hl.
Qed.

(** The invariant of a storage cluster with a recorded topology. *)
Definition locked rk : Prop :=
  valid_spec (rk_Spec rk) = true ∧ spec_Ephemeral (rk_Spec rk) = false ∧
  (0 < st_LastAppliedPrimaries (rk_Status rk))%Z.

Lemma step_locked rk rk' : step rk rk' → locked rk → locked rk'.
Proof.
  intros Hs (Hv&He&Hl). destruct Hs as [rk s Ha|rk m Hm|rk now clk c g|rk now clk].
  - unfold admits in Ha. rewrite !andb_true_iff in Ha. destruct Ha as [[Hv' Ht] _].
    destruct (transition_frozen _ _ Hv Hv' Ht) as (_&He'&_). split_and!; [done| |done].
    simpl in *. congruence.
  - done.
  - split_and!; [done|done|].
    pose proof (aggregated_last_applied now clk rk c g) as Ha. cbn zeta in Ha.
    cbn [with_status rk_Status]. case_decide as Hd; destruct Ha as [-> _]; [|done].
    by destruct Hd as (_&_&?).
  - done.
Qed.

Lemma steps_locked rk rk' : rtc step rk rk' → locked rk → locked rk'.
Proof. induction 1; eauto using step_locked. Qed.

Lemma steps_frozen rk rk' :
  rtc step rk rk' → valid_spec (rk_Spec rk) = true →
  valid_spec (rk_Spec rk') = true ∧ frozen (rk_Spec rk) (rk_Spec rk').
Proof.
  induction 1 as [rk|rk rk1 rk' Hs _ IH]; intros Hv; [by split; [|repeat split]|].
  assert (valid_spec (rk_Spec rk1) = true ∧ frozen (rk_Spec rk) (rk_Spec rk1)) as [Hv1 Hf].
  { destruct Hs as [rk s Ha|rk m Hm|rk now clk c g|rk now clk]; [|by split; [|repeat split]..].
    unfold admits in Ha. rewrite !andb_true_iff in Ha. destruct Ha as [[Hv' Ht] _].
    split; [done|]. by apply transition_frozen. }
  destruct (IH Hv1) as [? (?&?&?&?)]. destruct Hf as (?&?&?&?). split; [done|].
  split_and!; congruence.
Qed.

End rule_facts.

(** ** Theorems *)

Section validation_theorems.
Context {K : K8sTypes} {D : Deps} {DS : DepsSpec}.
Implicit Types (rk : Redkey) (s : RedkeySpec).

(** C35: The identity of a cluster's data is fixed for life: however users update an
    admitted Redkey and the operator its status, its mode, whether it is ephemeral,
    its storage size and its storage class stay what they were, although the rule
    on the optional storage field alone does not forbid adding or removing it. *)
Theorem storage_identity_fixed rk rk' :
  rtc step rk rk' → valid_spec (rk_Spec rk) = true →
  valid_spec (rk_Spec rk') = true ∧ frozen (rk_Spec rk) (rk_Spec rk').
Proof. apply steps_frozen. Qed.

(** Scaling up from zero restores the recorded topology: once a topology is
    recorded for a storage cluster, then after any sequence of accepted updates and
    operator status updates a topology is still recorded, and every accepted update
    that takes the cluster from no primaries to some has exactly the recorded
    primaries and replicas per primary. *)
Theorem scale_up_restores_topology rk rk' s :
  rtc step rk rk' → valid_spec (rk_Spec rk) = true → spec_Ephemeral (rk_Spec rk) = false →
  (0 < st_LastAppliedPrimaries (rk_Status rk))%Z →
  (0 < st_LastAppliedPrimaries (rk_Status rk'))%Z ∧
  (admits rk' (with_spec rk' s) = true → spec_Primaries (rk_Spec rk') = 0%Z →
   spec_Primaries s ≠ 0%Z →
   spec_Primaries s = st_LastAppliedPrimaries (rk_Status rk') ∧
   spec_ReplicasPerPrimary s = st_LastAppliedReplicasPerPrimary (rk_Status rk')).
Proof.
  intros Hs Hv He Hl. destruct (steps_locked _ _ Hs) as (Hv'&He'&Hl'); [done|].
  split; [done|]. intros Ha Hz Hn.
  assert (locked (with_spec rk' s)) as (_&He''&_).
  { eapply step_locked; [by constructor|done]. }
  unfold admits in Ha. rewrite !andb_true_iff in Ha. destruct Ha as [_ Hlock].
  apply (scale_lock_spec _ _ Hlock); try done. simpl. lia.
Qed.

End validation_theorems.

Section validation_witnesses.
Import Simple.

(** A running storage cluster with its topology recorded, and scaled to zero. *)
Definition w_run : Redkey :=
  Sample.redkey 1 (Sample.spec 3 1 false)
    (mkRedkeyStatus 3 PhaseReady "Ready" RedkeySubstatus_zero None [] None 1 3 1).

Definition w_stopped : Redkey := with_spec w_run (Sample.spec 0 1 false).

Lemma w_scaled_down : rtc step w_run w_stopped.
Proof. eapply rtc_l; [|apply rtc_refl]. apply user_update. vm_compute. reflexivity. Qed.

Lemma storage_identity_fixed_witness :
  frozen (rk_Spec w_run) (rk_Spec w_stopped).
Proof.
  refine (proj2 (storage_identity_fixed w_run w_stopped w_scaled_down _)). vm_compute. reflexivity.
Defined.

Lemma scale_up_restores_topology_witness :
  admits w_stopped (with_spec w_stopped (Sample.spec 3 1 false)) = true ∧
  admits w_stopped (with_spec w_stopped (Sample.spec 5 1 false)) = false ∧
  (0 < st_LastAppliedPrimaries (rk_Status w_stopped))%Z.
Proof.
  split; [vm_compute; reflexivity|]. split; [vm_compute; reflexivity|].
  refine (proj1 (scale_up_restores_topology w_run w_stopped (Sample.spec 3 1 false)
    w_scaled_down _ _ _)); vm_compute; reflexivity.
Defined.

End validation_witnesses.
