(* ===== verification/Server.v ===== *)
(** * Running against an API server

    [Effects] states what a program does for every answer. Here programs run
    against a server: [hoare] triples follow the server's state, the class
    [KubeServer] lists the documented behaviour of the Kubernetes API that the
    theorems rely on, and the module [Memory] is an in-memory server that has it.
    With it a whole sequence of reconciles can be computed. *)

From S2P Require Import Prelude Strconv ApiTypes Effects External Samples Metrics Metadata.
From S2P Require Import ConfigLifecycle Robin ScaleZero Reconciler Validation.

(** ** Following the server's state *)

Section hoare.
Context {K : K8sTypes} {S W : Type} (h : ∀ c, W → W * ans c).

Definition hoare {A} (P : W → Prop) (m : M S A) (Q : A → W → Prop) : Prop :=
  ∀ s w, P w → Q (run h (m s) w).2.2 (run h (m s) w).1.

Lemma hoare_ret {A} (P : W → Prop) (a : A) (Q : A → W → Prop) :
  (∀ w, P w → Q a w) → hoare P (mret a) Q.
Proof. intros HQ s w Hw. simpl. auto. Qed.

Lemma hoare_bind {A B} P (m : M S A) (f : A → M S B) Q T :
  hoare P m Q → (∀ a, hoare (Q a) (f a) T) → hoare P (m ≫= f) T.
Proof.
  intros Hm Hf s w Hw. unfold mbind, M_bind. rewrite run_bind.
  specialize (Hm s w Hw). destruct (run h (m s) w) as [w' [s' a]]. simpl in *. by apply Hf.
Qed.

(** An error ends the program; success goes on. *)
Lemma hoare_bindE {A B} P (m : M S (error + A)) (f : A → M S (error + B)) Q T :
  hoare P m (λ r w, match r with inl e => T (inl e) w | inr a => Q a w end) →
  (∀ a, hoare (Q a) (f a) T) → hoare P (bindE m f) T.
Proof.
  intros Hm Hf. unfold bindE. eapply hoare_bind; [exact Hm|].
  intros [e|a]; [by apply hoare_ret|apply Hf].
Qed.

Lemma hoare_invoke c (P : W → Prop) (Q : ans c → W → Prop) :
  (∀ w, P w → Q (h c w).2 (h c w).1) → hoare P (invoke c) Q.
Proof. intros HQ s w Hw. unfold invoke. simpl. specialize (HQ w Hw). by destruct (h c w). Qed.

Lemma hoare_weaken {A} (P P' : W → Prop) (m : M S A) (Q Q' : A → W → Prop) :
  hoare P m Q → (∀ w, P' w → P w) → (∀ a w, Q a w → Q' a w) → hoare P' m Q'.
Proof. intros Hm HP HQ s w Hw. apply HQ, Hm, HP, Hw. Qed.

End hoare.

(** ** What the operator relies on *)

(** [present w k key]: the server stores an object of kind [k] under [key];
    [selected w ns label value key]: it stores a RedkeyConfig under [key] that a
    listing of the namespace with that label finds. *)
Class KubeServer `{K8sTypes} {W} (h : ∀ c, W → W * ans c)
    (present : W → okind → NamespacedName → Prop)
    (selected : W → string → string → string → NamespacedName → Prop) : Prop := {
  (** A deletion that is accepted, or finds nothing, leaves nothing. *)
  delete_present : ∀ k key w, gone (Obs (Delete k key) (h (Delete k key) w).2) →
    ¬ present (h (Delete k key) w).1 k key;
  (** Deletions, listings, readings of the clock and status updates create nothing
      and put no config under a label. *)
  calm_present : ∀ c w k key,
    match c with Delete _ _ | ListConfigs _ _ _ | UpdateStatus _ | Now | Clock => True
    | _ => False end → present (h c w).1 k key → present w k key;
  calm_selected : ∀ c w ns l v key,
    match c with Delete _ _ | ListConfigs _ _ _ | UpdateStatus _ | Now | Clock => True
    | _ => False end → selected (h c w).1 ns l v key → selected w ns l v key;
  (** What is selected is present, and an up-to-date listing finds all of it. *)
  selected_present : ∀ w ns l v key, selected w ns l v key → present w KRedkeyConfig key;
  list_selected : ∀ ns l v w items key,
    (h (ListConfigs ns l v) w).2 = inr items → selected w ns l v key →
    ∃ c, c ∈ items ∧ meta_key (cfg_meta c) = key }.

Section teardown.
Context {K : K8sTypes} {D : Deps} {SS : SortSlice} {W : Type} (h : ∀ c, W → W * ans c).
Context (present : W → okind → NamespacedName → Prop).
Context (selected : W → string → string → string → NamespacedName → Prop).
Context {KS : KubeServer h present selected}.
Implicit Types (cluster : Redkey) (w : W) (ts : list target).

(** None of the targets is stored. *)
Definition cleared ts w : Prop := Forall (λ t, ¬ present w (tg_kind t) (tg_key t)) ts.

(** A condition that once true stays true as long as nothing is created. *)
Definition stable (P : W → Prop) : Prop :=
  ∀ c w, match c with Delete _ _ | ListConfigs _ _ _ | UpdateStatus _ | Now | Clock => True
         | _ => False end → P w → P (h c w).1.

Lemma cleared_stable ts : stable (cleared ts).
Proof.
  intros c w Hc Hw. eapply Forall_impl; [exact Hw|]. intros t Ht Hp. apply Ht.
  eapply calm_present; eauto.
Qed.

Lemma stable_and P Q : stable P → stable Q → stable (λ w, P w ∧ Q w).
Proof. intros HP HQ c w Hc [??]. auto. Qed.

(** A run of deletions keeps a stable condition and, on success, clears its targets. *)
Lemma hoare_delete_each P ts :
  stable P → hoare h P (delete_each ts) (λ r w, P w ∧ (r = inr tt → cleared ts w)).
Proof.
  revert P. induction ts as [|t ts IH]; intros P HP; cbn [delete_each].
  { apply hoare_ret. intros w Hw. split; [done|]. intros _. by apply Forall_nil. }
  assert (Hrest : hoare h (λ w, P w ∧ ¬ present w (tg_kind t) (tg_key t)) (delete_each ts)
    (λ r w, P w ∧ (r = inr tt → cleared (t :: ts) w))).
  { eapply hoare_weaken; [apply (IH (λ w, P w ∧ ¬ present w (tg_kind t) (tg_key t)))|done|].
    - apply stable_and; [done|]. intros c w Hc Hn Hp. eapply Hn, calm_present; eauto.
    - intros r w [[? ?] Hr]. split; [done|]. intros Heq. apply Forall_cons. split; [done|by apply Hr]. }
  eapply (hoare_bind _ _ _ _ (λ r w, P w ∧
    (gone (Obs (Delete (tg_kind t) (tg_key t)) r) → ¬ present w (tg_kind t) (tg_key t)))).
  { apply (hoare_invoke _ (Delete _ _)). intros w Hw. split; [by apply HP|].
    apply (delete_present (tg_kind t) (tg_key t) w). }
  intros [e|u].
  - destruct (IsNotFound e) eqn:He.
    + eapply hoare_weaken; [exact Hrest| |done]. intros w [? Hg]. split; [done|]. by apply Hg.
    + apply hoare_ret. intros w [? _]. split; [done|]. intros Heq; discriminate Heq.
  - eapply hoare_weaken; [exact Hrest| |done]. intros w [? Hg]. split; [done|]. by apply Hg.
Qed.

(** No config of the cluster is stored. *)
Definition no_configs cluster w : Prop :=
  ∀ key, ¬ selected w (om_Namespace (rk_meta cluster)) ClusterLabel (om_Name (rk_meta cluster)) key.

Lemma no_configs_stable cluster : stable (no_configs cluster).
Proof. intros c w Hc Hw key Hs. eapply Hw, calm_selected; eauto. Qed.

Lemma hoare_deleteAllConfigs P cluster :
  stable P → hoare h P (deleteAllConfigs cluster)
    (λ r w, P w ∧ (r = inr tt → no_configs cluster w)).
Proof.
  intros HP. unfold deleteAllConfigs.
  set (from (items : list RedkeyConfig) w := ∀ key, selected w (om_Namespace (rk_meta cluster)) ClusterLabel
    (om_Name (rk_meta cluster)) key → ∃ c, c ∈ items ∧ meta_key (cfg_meta c) = key).
  assert (Hfrom : ∀ items, stable (from items)).
  { intros items c w Hc Hw key Hs. eapply Hw, calm_selected; eauto. }
  eapply (hoare_bind _ _ _ _ (λ r w, P w ∧ ∀ items, r = inr items → from items w)).
  { apply (hoare_invoke _ (ListConfigs _ _ _)). intros w Hw. split; [by apply HP|].
    intros items Hi. apply Hfrom; [done|]. intros key. by apply list_selected. }
  intros [e|items].
  { apply hoare_ret. intros w [? _]. by split. }
  eapply hoare_weaken.
  - apply (hoare_delete_each (λ w, P w ∧ from items w)). by apply stable_and.
  - intros w [? Hi]. split; [done|]. by apply Hi.
  - intros r w [[? Hi] Hr]. split; [done|]. intros Heq key Hs.
    destruct (Hi key Hs) as (c&Hc&<-). apply selected_present in Hs.
    specialize (Hr Heq). unfold cleared in Hr. rewrite Forall_fmap, Forall_forall in Hr.
    by apply (Hr c Hc).
Qed.

Lemma hoare_updateStatus P cluster :
  stable P → hoare h P (updateStatusScaledToZero cluster) (λ _, P).
Proof.
  intros HP. unfold updateStatusScaledToZero.
  eapply (hoare_bind _ _ _ _ (λ _, P)); [apply (hoare_invoke _ Now); intros w; by apply HP|].
  intros now. eapply (hoare_bind _ _ _ _ (λ _, P));
    [apply (hoare_invoke _ Clock); intros w; by apply HP|]. intros clk.
  eapply (hoare_bindE _ _ _ _ (λ _, P)).
  - eapply hoare_weaken; [apply (hoare_invoke _ (UpdateStatus _) P (λ _, P))|done|].
    + intros w. by apply HP.
    + by intros [].
  - intros x. by apply hoare_ret.
Qed.

Definition ok_of {A} (res : error + A) : option A :=
  match res with inl _ => None | inr a => Some a end.

(** The objects Robin runs with. *)
Definition robin_kinds : list okind := [KDeployment; KRoleBinding; KRole; KServiceAccount].

Lemma hoare_tear_down r cluster :
  hoare h (λ _, True) (tear_down r cluster) (λ res w, is_Some (ok_of res) →
    (∀ k, k ∈ robin_kinds → ¬ present w k (robin_key cluster)) ∧ no_configs cluster w).
Proof.
  set (d := [deployment_target cluster]).
  set (b := rbac_target cluster <$> [KRoleBinding; KRole; KServiceAccount]).
  assert (Hst : stable (λ _, True)) by done.
  unfold tear_down, deleteRobinDeployment, deleteRBAC.
  eapply (hoare_bindE _ _ _ _ (λ _, cleared d)).
  { eapply hoare_weaken; [by apply (hoare_delete_each (λ _, True))|done|].
    intros [e|[]] w [_ Hr]; [by intros []|by apply Hr]. }
  intros _. eapply (hoare_bindE _ _ _ _ (λ _ w, cleared d w ∧ cleared b w)).
  { eapply hoare_weaken; [apply (hoare_delete_each (cleared d)), cleared_stable|done|].
    intros [e|[]] w [? Hr]; [by intros []|]. split; [done|by apply Hr]. }
  assert (Hdb : stable (λ w, cleared d w ∧ cleared b w))
    by (apply stable_and; apply cleared_stable).
  intros _. eapply (hoare_bindE _ _ _ _ (λ _ w, (cleared d w ∧ cleared b w) ∧
    no_configs cluster w)).
  { eapply hoare_weaken; [by apply (hoare_deleteAllConfigs (λ w, cleared d w ∧ cleared b w))|done|].
    intros [e|[]] w [? Hr]; [by intros []|]. split; [done|by apply Hr]. }
  intros _. eapply (hoare_bindE _ _ _ _ (λ _ w, (cleared d w ∧ cleared b w) ∧
    no_configs cluster w)).
  { eapply hoare_weaken; [apply (hoare_updateStatus (λ w, (cleared d w ∧ cleared b w) ∧
      no_configs cluster w)), stable_and; [done|apply no_configs_stable]|done|].
    intros [e|u] w ?; [by intros []|done]. }
  intros cl. apply hoare_ret. intros w [[Hd Hb] Hn] _. split; [|done].
  unfold cleared, d, b in *. rewrite Forall_fmap in Hb. rewrite Forall_singleton in Hd.
  intros k [->|Hk]%elem_of_cons; [done|]. rewrite Forall_forall in Hb. by apply (Hb k).
Qed.

(** C10: A completed teardown leaves nothing behind: run against a server that
    behaves as documented and whose listing is up to date, a teardown that reports
    success ends with none of Robin's objects and no config of the cluster stored,
    whatever was there before. *)
Theorem tear_down_leaves_nothing r cluster s w res :
  (run h (tear_down r cluster s) w).2.2 = inr res →
  (∀ k, k ∈ robin_kinds → ¬ present (run h (tear_down r cluster s) w).1 k (robin_key cluster)) ∧
  no_configs cluster (run h (tear_down r cluster s) w).1.
Proof.
  intros Hok. apply (hoare_tear_down r cluster s w I). rewrite Hok. eauto.
Qed.

End teardown.

(** ** A server in memory *)

Module Memory.

Section memory.
Context {K : K8sTypes}.

Record World := mkWorld {
  w_redkeys : gmap NamespacedName Redkey;
  w_redkeyconfigs : gmap NamespacedName RedkeyConfig;
  w_serviceaccounts : gmap NamespacedName ServiceAccount;
  w_roles : gmap NamespacedName Role;
  w_rolebindings : gmap NamespacedName RoleBinding;
  w_deployments : gmap NamespacedName Deployment;
  w_clock : Time }.

Definition store (k : okind) (w : World) : gmap NamespacedName (obj_of k) :=
  match k with
  | KRedkey => w_redkeys w | KRedkeyConfig => w_redkeyconfigs w
  | KServiceAccount => w_serviceaccounts w | KRole => w_roles w
  | KRoleBinding => w_rolebindings w | KDeployment => w_deployments w
  end.

Definition alter_store (k : okind)
    : (gmap NamespacedName (obj_of k) → gmap NamespacedName (obj_of k)) → World → World :=
  match k with
  | KRedkey => λ f '(mkWorld a b c d e g t), mkWorld (f a) b c d e g t
  | KRedkeyConfig => λ f '(mkWorld a b c d e g t), mkWorld a (f b) c d e g t
  | KServiceAccount => λ f '(mkWorld a b c d e g t), mkWorld a b (f c) d e g t
  | KRole => λ f '(mkWorld a b c d e g t), mkWorld a b c (f d) e g t
  | KRoleBinding => λ f '(mkWorld a b c d e g t), mkWorld a b c d (f e) g t
  | KDeployment => λ f '(mkWorld a b c d e g t), mkWorld a b c d e (f g) t
  end.

Definition NotFound : error := APIError ReasonNotFound "not found".
Definition AlreadyExists : error := APIError ReasonAlreadyExists "already exists".
Definition Conflict : error := APIError ReasonConflict "the object has been modified".

(** A config in a namespace with a label. *)
Definition matches (ns label value : string) (c : RedkeyConfig) : Prop :=
  om_Namespace (cfg_meta c) = ns ∧ map_get (om_Labels (cfg_meta c)) label = Some value.

#[export] Instance matches_dec ns label value c : Decision (matches ns label value c).
Proof. unfold matches. apply _. Defined.

(** The next resource version. *)
Definition bump (m : ObjectMeta) : ObjectMeta :=
  mkMeta (om_Name m) (om_Namespace m) (om_Labels m) (om_Annotations m) (om_Generation m)
    (om_ResourceVersion m +:+ "'") (om_CreationTimestamp m) (om_OwnerReferences m) (om_rest m).

Definition update_status (r : Redkey) (w : World) : World * (error + Redkey) :=
  let key := meta_key (rk_meta r) in
  match store KRedkey w !! key with
  | None => (w, inl NotFound)
  | Some cur =>
      if decide (om_ResourceVersion (rk_meta cur) = om_ResourceVersion (rk_meta r)) then
        let new := mkRedkey (rk_type cur) (bump (rk_meta cur)) (rk_Spec cur) (rk_Status r) in
        (alter_store KRedkey <[key := new]> w, inr new)
      else (w, inl Conflict)
  end.

(** Each call is atomic; listing is up to date. *)
Definition handler (c : call) (w : World) : World * ans c :=
  match c return World * ans c with
  | Get k key => (w, match store k w !! key with Some o => inr o | None => inl NotFound end)
  | ListConfigs ns label value =>
      (w, inr (filter (matches ns label value) (map_to_list (store KRedkeyConfig w)).*2))
  | Create k o =>
      let key := meta_key (obj_meta k o) in
      match store k w !! key with
      | Some _ => (w, inl AlreadyExists)
      | None => (alter_store k <[key := o]> w, inr tt)
      end
  | Patch k o _ =>
      let key := meta_key (obj_meta k o) in
      match store k w !! key with
      | None => (w, inl NotFound)
      | Some _ => (alter_store k <[key := o]> w, inr tt)
      end
  | Delete k key =>
      match store k w !! key with
      | None => (w, inl NotFound)
      | Some _ => (alter_store k (delete key) w, inr tt)
      end
  | UpdateStatus r => update_status r w
  | Now => (w, w_clock w)
  | Clock => (w, λ i, (w_clock w + Z.of_nat i)%Z)
  end.

(** The same server behind a client whose cache of configs is out of date. *)
Definition cached (items : list RedkeyConfig) (c : call) (w : World) : World * ans c :=
  match c return World * ans c with
  | ListConfigs ns label value => (w, inr (filter (matches ns label value) items))
  | c => handler c w
  end.

Definition present (w : World) (k : okind) (key : NamespacedName) : Prop :=
  is_Some (store k w !! key).

Definition selected (w : World) (ns label value : string) (key : NamespacedName) : Prop :=
  ∃ c, store KRedkeyConfig w !! key = Some c ∧ matches ns label value c ∧
    meta_key (cfg_meta c) = key.

Lemma store_alter k f w : store k (alter_store k f w) = f (store k w).
Proof. by destruct k, w. Qed.

Lemma store_alter_ne k k' f w : k ≠ k' → store k' (alter_store k f w) = store k' w.
Proof. by destruct k, k', w. Qed.

Lemma store_delete k key w k' key' o :
  store k' (alter_store k (delete key) w) !! key' = Some o → store k' w !! key' = Some o.
Proof.
  destruct (decide (k = k')) as [->|Hk]; [|by rewrite store_alter_ne].
  rewrite store_alter, lookup_delete_Some. by intros [_ ?].
Qed.

(** What a calm call leaves in the stores was there before, but for the status of
    a Redkey. *)
Lemma calm_store c w k key :
  match c with Delete _ _ | ListConfigs _ _ _ | UpdateStatus _ | Now | Clock => True
  | _ => False end →
  (is_Some (store k (handler c w).1 !! key) → is_Some (store k w !! key)) ∧
  (k = KRedkeyConfig → ∀ o, store k (handler c w).1 !! key = Some o → store k w !! key = Some o).
Proof.
  destruct c; try done; intros _; simpl.
  - destruct (store k0 w !! key0) eqn:E; simpl; [|done].
    split; [|intros _ o'; apply store_delete]. intros [o' Ho]. apply store_delete in Ho. eauto.
  - unfold update_status. destruct (store KRedkey w !! _) as [cur|] eqn:E; [|done].
    case_decide; [|done]. cbn [fst]. split.
    + destruct (decide (k = KRedkey)) as [->|Hk]; [|by rewrite store_alter_ne].
      rewrite store_alter, lookup_insert_is_Some. intros [<-|[_ ?]]; eauto.
    + intros ->. by rewrite store_alter_ne.
Qed.

#[export] Instance server : KubeServer handler present selected.
Proof.
  split.
  - intros k key w. unfold present. simpl. destruct (store k w !! key) eqn:E; simpl; intros _.
    + rewrite store_alter, lookup_delete_eq. by intros [].
    + rewrite E. by intros [].
  - intros c w k key Hc. unfold present. by apply calm_store.
  - intros c w ns l v key Hc (o&Ho&?&?). exists o. split_and!; [|done|done].
    by eapply (proj2 (calm_store c w KRedkeyConfig key Hc)).
  - intros w ns l v key (o&Ho&_). by exists o.
  - intros ns l v w items key [= <-] (o&Ho&Hm&Hk). exists o. split; [|done].
    apply list_elem_of_filter. split; [done|]. apply list_elem_of_fmap.
    exists (key, o). split; [done|]. by apply elem_of_map_to_list.
Qed.

End memory.

End Memory.

Section server_witnesses.
Import Simple.

Definition w_put_configs (l : list RedkeyConfig) : gmap NamespacedName RedkeyConfig :=
  list_to_map ((λ c, (meta_key (cfg_meta c), c)) <$> l).

Definition w_world (rk : Redkey) (l : list RedkeyConfig) : Memory.World :=
  Memory.mkWorld {[meta_key (rk_meta rk) := rk]} (w_put_configs l) ∅ ∅ ∅ ∅ 100.

Definition w_torn := run Memory.handler (tear_down w_reconciler w_zero w_state)
                       (w_world w_zero w_done).

Lemma tear_down_leaves_nothing_witness :
  no_configs Memory.selected w_zero w_torn.1 ∧ size (Memory.w_redkeyconfigs w_torn.1) = 0.
Proof.
  split; [|vm_compute; reflexivity].
  refine (proj2 (tear_down_leaves_nothing (KS := Memory.server) Memory.handler Memory.present
    Memory.selected
    w_reconciler w_zero w_state (w_world w_zero w_done)
    (match w_torn.2.2 with inr res => res | inl _ => (Result_zero, w_zero) end) _)).
  vm_compute. reflexivity.
Defined.

End server_witnesses.
