(* ===== verification/Convergence.v ===== *)
(** * Convergence of reconciles

    Against a server without other actors, a reconcile that succeeds leaves the newest
    config made for the observed generation and nothing for the next one to do: the next
    reconcile writes nothing but the status. That the generations on record are true
    ([honest]) is a hypothesis here and an invariant of [Bookkeeping]. The
    server may fail any request and may complete what it stores (default values,
    resource versions, the revision annotation); the class [KubeStore] says what it
    may not do. *)

From S2P Require Import Prelude Strconv ApiTypes Effects External Samples Metrics Metadata.
From S2P Require Import ConfigLifecycle Robin ScaleZero Reconciler Validation Server.

(** ** The store behind the API *)

(** The kind of objects a call may change. *)
Definition touches `{K8sTypes} (c : call) : option okind :=
  match c with
  | Create k _ | Patch k _ _ | Delete k _ => Some k
  | UpdateStatus _ => Some KRedkey
  | Get _ _ | ListConfigs _ _ _ | Now | Clock => None
  end.

Section store.
Context {K : K8sTypes} {D : Deps}.

(** How the server may complete the metadata of an object it stores. *)
Definition same_meta (m m' : ObjectMeta) : Prop :=
  meta_key m' = meta_key m ∧ entries (om_Labels m') = entries (om_Labels m) ∧
  entries (om_Annotations m') = entries (om_Annotations m).

(** The Deployment controller adds its annotation, and unset fields of the pod spec
    get default values. *)
Definition same_deployment (d d' : Deployment) : Prop :=
  let s := deploy_Spec d in
  let s' := deploy_Spec d' in
  meta_key (deploy_meta d') = meta_key (deploy_meta d) ∧
  dspec_Replicas s' = dspec_Replicas s ∧
  entries (om_Labels (deploy_meta d')) = entries (om_Labels (deploy_meta d)) ∧
  delete deploymentRevisionAnnotation (entries (om_Annotations (deploy_meta d'))) =
    delete deploymentRevisionAnnotation (entries (om_Annotations (deploy_meta d))) ∧
  entries (om_Labels (tpl_meta (dspec_Template s'))) =
    entries (om_Labels (tpl_meta (dspec_Template s))) ∧
  entries (om_Annotations (tpl_meta (dspec_Template s'))) =
    entries (om_Annotations (tpl_meta (dspec_Template s))) ∧
  ∀ p, DeepDerivative_podspec p (tpl_Spec (dspec_Template s)) = true →
       DeepDerivative_podspec p (tpl_Spec (dspec_Template s')) = true.

(** How a status is stored: times to the second, empty maps perhaps not at all. *)
Definition same_status (s s' : RedkeyStatus) : Prop :=
  st_Replicas s' = st_Replicas s ∧ st_Phase s' = st_Phase s ∧ st_Status s' = st_Status s ∧
  st_Substatus s' = st_Substatus s ∧
  Forall2 same_condition (st_Conditions s) (st_Conditions s') ∧
  st_ObservedGeneration s' = st_ObservedGeneration s ∧
  st_LastAppliedPrimaries s' = st_LastAppliedPrimaries s ∧
  st_LastAppliedReplicasPerPrimary s' = st_LastAppliedReplicasPerPrimary s.

(** How the spec of a config is stored: an unset mode gets its default, an empty map may
    become a nil one, and what is nested deeper may be completed and normalised but
    neither appears nor disappears. *)
Definition same_config_spec (s s' : RedkeyConfigSpec) : Prop :=
  cs_Sequence s' = cs_Sequence s ∧ cs_SkipIfSuperseded s' = cs_SkipIfSuperseded s ∧
  (cs_Mode s' = cs_Mode s ∨ cs_Mode s = "" ∧ cs_Mode s' = ModeCluster) ∧
  cs_Primaries s' = cs_Primaries s ∧ cs_ReplicasPerPrimary s' = cs_ReplicasPerPrimary s ∧
  cs_Ephemeral s' = cs_Ephemeral s ∧ cs_Storage s' = cs_Storage s ∧
  cs_StorageClassName s' = cs_StorageClassName s ∧ cs_Image s' = cs_Image s ∧
  cs_Version s' = cs_Version s ∧ cs_RedisConfig s' = cs_RedisConfig s ∧
  cs_Auth s' = cs_Auth s ∧ cs_DeletePVC s' = cs_DeletePVC s ∧
  cs_PurgeKeysOnRebalance s' = cs_PurgeKeysOnRebalance s ∧
  entries (derefMap (cs_Labels s')) = entries (derefMap (cs_Labels s)) ∧
  entries (derefMap (cs_Annotations s')) = entries (derefMap (cs_Annotations s)) ∧
  (is_Some (cs_Resources s') ↔ is_Some (cs_Resources s)) ∧
  (is_Some (cs_Override s') ↔ is_Some (cs_Override s)) ∧
  pdb_Enabled (cs_Pdb s') = pdb_Enabled (cs_Pdb s) ∧
  (is_Some (cs_RobinConfig s') ↔ is_Some (cs_RobinConfig s)).

(** [stored_as k o o']: a request with [o] may leave [o'] in the store. *)
Definition stored_as (k : okind) : obj_of k → obj_of k → Prop :=
  match k with
  | KRedkey => λ o o', same_meta (rk_meta o) (rk_meta o') ∧
      om_Generation (rk_meta o') = om_Generation (rk_meta o) ∧
      rk_Spec o' = rk_Spec o ∧ same_status (rk_Status o) (rk_Status o')
  | KRedkeyConfig => λ o o', same_meta (cfg_meta o) (cfg_meta o') ∧
      same_config_spec (cfg_Spec o) (cfg_Spec o') ∧ cfg_phase o' = cfg_phase o
  | KServiceAccount => λ o o', same_meta (sa_meta o) (sa_meta o')
  | KRole => λ o o', same_meta (role_meta o) (role_meta o') ∧ role_Rules o' = role_Rules o
  | KRoleBinding => λ o o', same_meta (rb_meta o) (rb_meta o') ∧
      rb_Subjects o' = rb_Subjects o ∧ rb_RoleRef o' = rb_RoleRef o
  | KDeployment => same_deployment
  end.

(** The config is selected by the label of a cluster. *)
Definition labelled (ns label value : string) (c : RedkeyConfig) : Prop :=
  om_Namespace (cfg_meta c) = ns ∧ map_get (om_Labels (cfg_meta c)) label = Some value.

Definition listing (configs : gmap NamespacedName RedkeyConfig) (ns label value : string)
    (items : list RedkeyConfig) : Prop :=
  NoDup items ∧
  ∀ c, c ∈ items ↔ labelled ns label value c ∧ configs !! meta_key (cfg_meta c) = Some c.

(** Objects are stored under their own key. *)
Definition keyed {W} (st : ∀ k, W → gmap NamespacedName (obj_of k)) (w : W) : Prop :=
  ∀ k key o, st k w !! key = Some o → meta_key (obj_meta k o) = key.

Class KubeStore {W} (h : ∀ c, W → W * ans c)
    (st : ∀ k, W → gmap NamespacedName (obj_of k)) : Prop := {
  (** A call changes the objects of the kind it names only. *)
  store_frame : ∀ c w k, touches c ≠ Some k → st k (h c w).1 = st k w;
  get_store : ∀ k key w,
    match (h (Get k key) w).2 with
    | inr o => st k w !! key = Some o
    | inl e => IsNotFound e = true → st k w !! key = None
    end;
  list_store : ∀ ns l v w items,
    keyed st w → (h (ListConfigs ns l v) w).2 = inr items → listing (st KRedkeyConfig w) ns l v items;
  create_store : ∀ k o w,
    match (h (Create k o) w).2 with
    | inr _ => ∃ o', stored_as k o o' ∧
        st k (h (Create k o) w).1 = <[meta_key (obj_meta k o) := o']> (st k w)
    | inl e => st k (h (Create k o) w).1 = st k w ∧
        (IsAlreadyExists e = true → is_Some (st k w !! meta_key (obj_meta k o)))
    end;
  (** A patch is the difference to its base. *)
  patch_store : ∀ k o b w,
    match (h (Patch k o b) w).2 with
    | inr _ => ∃ o', meta_key (obj_meta k o') = meta_key (obj_meta k o) ∧
        (st k w !! meta_key (obj_meta k o) = Some b → stored_as k o o') ∧
        st k (h (Patch k o b) w).1 = <[meta_key (obj_meta k o) := o']> (st k w)
    | inl _ => st k (h (Patch k o b) w).1 = st k w
    end;
  delete_store : ∀ k key w,
    match (h (Delete k key) w).2 with
    | inr _ => st k (h (Delete k key) w).1 = delete key (st k w)
    | inl e => st k (h (Delete k key) w).1 = st k w ∧
        (IsNotFound e = true → st k w !! key = None)
    end;
  (** A status update replaces the status alone. *)
  update_store : ∀ r w,
    match (h (UpdateStatus r) w).2 with
    | inr r' => ∃ cur, st KRedkey w !! meta_key (rk_meta r) = Some cur ∧
        stored_as KRedkey (with_status cur (rk_Status r)) r' ∧
        st KRedkey (h (UpdateStatus r) w).1 = <[meta_key (rk_meta r) := r']> (st KRedkey w)
    | inl _ => st KRedkey (h (UpdateStatus r) w).1 = st KRedkey w
    end }.

Lemma stored_as_key k o o' :
  stored_as k o o' → meta_key (obj_meta k o') = meta_key (obj_meta k o).
Proof. destruct k; simpl; unfold same_meta, same_deployment; naive_solver. Qed.

Lemma insert_keyed k (m : gmap NamespacedName (obj_of k)) (o o' : obj_of k) :
  (∀ key x, m !! key = Some x → meta_key (obj_meta k x) = key) →
  meta_key (obj_meta k o') = meta_key (obj_meta k o) →
  ∀ key x, <[meta_key (obj_meta k o) := o']> m !! key = Some x → meta_key (obj_meta k x) = key.
Proof. intros Hm Ho key x [[<- <-]|[_ Hx]]%lookup_insert_Some; [done|by apply Hm]. Qed.

End store.

(** ** Traces a server produces *)

Section follows.
Context {K : K8sTypes} {D : Deps} {DS : DepsSpec} {W : Type} (h : ∀ c, W → W * ans c).
Context (st : ∀ k, W → gmap NamespacedName (obj_of k)) {KS : KubeStore h st}.
Implicit Types (tr : list obs) (w : W).

(** From [w], the server answers the calls of [tr] as recorded and ends in [w']. *)
Fixpoint follows w tr w' : Prop :=
  match tr with
  | [] => w' = w
  | o :: tr' => (h (obs_call o) w).2 = obs_ans o ∧ follows (h (obs_call o) w).1 tr' w'
  end.

Lemma follows_cons w c (x : ans c) tr w' :
  follows w (Obs c x :: tr) w' ↔ (h c w).2 = x ∧ follows (h c w).1 tr w'.
Proof. done. Qed.

Ltac follows_step H Hx :=
  lazymatch type of H with
  | follows ?w (Obs ?c ?x :: ?tr) ?w' => destruct (proj1 (follows_cons w c x tr w') H) as [Hx ?]; clear H;
      rename select (follows _ _ _) into H
  end.

Lemma follows_app w tr1 tr2 w' :
  follows w (tr1 ++ tr2) w' ↔ ∃ w1, follows w tr1 w1 ∧ follows w1 tr2 w'.
Proof.
  revert w. induction tr1 as [|o tr1 IH]; intros w; simpl; [naive_solver|].
  rewrite IH. naive_solver.
Qed.

(** Running a program against the server gives such a trace. *)
Lemma follows_run {A} (p : prog A) w : follows w (run_trace h p w) (run h p w).1.
Proof.
  revert w. induction p as [a|c f IH]; intros w; simpl; [done|].
  destruct (h c w) as [w' x] eqn:E. simpl. rewrite E. split; [done|apply IH].
Qed.

(** Objects of a kind no call touches stay as they are. *)
Lemma follows_frame w tr w' k :
  follows w tr w' → Forall (λ o, touches (obs_call o) ≠ Some k) tr → st k w' = st k w.
Proof.
  revert w. induction tr as [|o tr IH]; intros w; simpl; [by intros -> _|].
  intros [_ Hf] [Ho Ht]%Forall_cons. rewrite (IH _ Hf Ht). by apply store_frame.
Qed.

(** Every object stays under its own key. *)
Lemma call_keyed c w : keyed st w → keyed st (h c w).1.
Proof.
  intros Hw k. destruct (decide (touches c = Some k)) as [Hc|Hc].
  2: { rewrite (store_frame c w k Hc). apply Hw. }
  destruct c as [| |k' o|k' o b|k' key|r| |]; try done; simpl in Hc; injection Hc as <-.
  - pose proof (create_store k' o w) as H. destruct (h (Create k' o) w).2 as [e|u].
    + destruct H as [-> _]. apply Hw.
    + destruct H as (o'&Ho%stored_as_key&->). apply (insert_keyed k' _ o); [apply Hw|done].
  - pose proof (patch_store k' o b w) as H. destruct (h (Patch k' o b) w).2 as [e|u].
    + rewrite H. apply Hw.
    + destruct H as (o'&Ho&_&->). apply (insert_keyed k' _ o); [apply Hw|done].
  - pose proof (delete_store k' key w) as H. destruct (h (Delete k' key) w).2 as [e|u].
    + destruct H as [-> _]. apply Hw.
    + rewrite H. intros key' o [_ Ho]%lookup_delete_Some. by apply Hw.
  - pose proof (update_store r w) as H. destruct (h (UpdateStatus r) w).2 as [e|r'].
    + rewrite H. apply Hw.
    + destruct H as (cur&Hcur&Hr%stored_as_key&->). apply (Hw KRedkey) in Hcur.
      apply (insert_keyed KRedkey _ r); [apply Hw|]. simpl in *. congruence.
Qed.

Lemma follows_keyed w tr w' : keyed st w → follows w tr w' → keyed st w'.
Proof.
  revert w. induction tr as [|o tr IH]; intros w Hw; simpl; [by intros ->|].
  intros [_ Hf]. eapply IH; [|exact Hf]. by apply call_keyed.
Qed.

(** *** One call *)

Lemma follows_get w k key x tr w' :
  follows w (Obs (Get k key) x :: tr) w' →
  match x with inr o => st k w !! key = Some o | inl e => IsNotFound e = true → st k w !! key = None end ∧
  ∃ w1, (∀ k', st k' w1 = st k' w) ∧ follows w1 tr w'.
Proof.
  intros Hf. follows_step Hf Hx. pose proof (get_store k key w) as Hg. rewrite Hx in Hg.
  split; [done|]. eexists. split; [|exact Hf]. intros k'. by apply store_frame.
Qed.

(** Only objects of the listed kinds may change. *)
Definition within (ks : list okind) (o : obs) : Prop :=
  match touches (obs_call o) with Some k => k ∈ ks | None => True end.

Lemma follows_within ks k w tr w' :
  Forall (within ks) tr → follows w tr w' → k ∉ ks → st k w' = st k w.
Proof.
  intros Ht Hf Hk. eapply follows_frame; [exact Hf|]. eapply Forall_impl; [exact Ht|].
  unfold within. intros o Ho Hc. rewrite Hc in Ho. by apply Hk.
Qed.

(** Without writes the store does not change. *)
Lemma quiet_world w tr w' :
  Forall (λ o, is_write o = false) tr → follows w tr w' → ∀ k, st k w' = st k w.
Proof.
  intros Hn Hf k. eapply follows_frame; [exact Hf|]. eapply Forall_impl; [exact Hn|].
  intros [c x] Ho. by destruct c.
Qed.

(** A status update after reading. *)
Lemma follows_update w tr o x w' :
  Forall (λ o, is_write o = false) tr → follows w (tr ++ [Obs (UpdateStatus o) x]) w' →
  match x with
  | inr r => ∃ cur, st KRedkey w !! meta_key (rk_meta o) = Some cur ∧
      stored_as KRedkey (with_status cur (rk_Status o)) r ∧
      st KRedkey w' = <[meta_key (rk_meta o) := r]> (st KRedkey w)
  | inl _ => st KRedkey w' = st KRedkey w
  end.
Proof.
  intros Hn (w1&Hf1&Hf)%follows_app. follows_step Hf Hx. cbn [follows] in Hf. subst w'.
  pose proof (update_store o w1) as Hu. rewrite Hx in Hu.
  by rewrite !(quiet_world w tr w1 Hn Hf1) in Hu.
Qed.

(** *** RBAC objects *)

Lemma rbac_stored cluster k o o' :
  rbac_in_sync cluster k o → stored_as k o o' → rbac_in_sync cluster k o'.
Proof.
  destruct k; simpl; try done; unfold sa_in_sync, role_in_sync, rb_in_sync, meta_in_sync, same_meta.
  - intros [??] (_&->&->). done.
  - intros [[??] ?] [(_&->&->) ->]. done.
  - intros [[??] [??]] [(_&->&->) [-> ->]]. done.
Qed.

(** The object of a kind is stored under Robin's key and in sync. *)
Definition synced cluster (k : okind) w : Prop :=
  ∃ o, st k w !! robin_key cluster = Some o ∧ rbac_in_sync cluster k o.

Lemma ensured_synced cluster k tr w w' :
  keyed st w → ensured cluster k tr (inr tt) → follows w tr w' → synced cluster k w'.
Proof.
  intros Hkw. inversion 1 as [|? He|e obj x He Hs Hk|obj Hs|obj new x Hn Hs Hk|?|obj new x Hk Hn Hs Hkey]; subst;
    intros Hf; apply follows_get in Hf as [Hg (w1&Hw1&Hf)].
  - follows_step Hf Hx. cbn [follows] in Hf. subst w'. pose proof (create_store k obj w1) as Hc.
    rewrite Hx in Hc. destruct Hc as (o'&Ho'&Hst). exists o'. rewrite Hst, Hk.
    split; [apply lookup_insert_eq|]. by eapply rbac_stored.
  - simpl in Hf. subst. exists obj. rewrite Hw1. done.
  - follows_step Hf Hx. cbn [follows] in Hf. subst w'. pose proof (patch_store k new obj w1) as Hc.
    rewrite Hx in Hc. destruct Hc as (o'&_&Ho'&Hst). exists o'. rewrite Hst, Hk in *.
    rewrite (Hkw k _ _ Hg), Hw1 in *. split; [apply lookup_insert_eq|].
    eapply rbac_stored; [exact Hs|]. by apply Ho'.
  - follows_step Hf Hdel. follows_step Hf Hx. cbn [follows] in Hf. subst w'.
    match goal with |- synced _ _ (h (Create _ _) ?w2).1 =>
      pose proof (create_store KRoleBinding new w2) as Hc end.
    rewrite Hx in Hc. destruct Hc as (o'&Ho'&Hst). exists o'.
    rewrite Hst. simpl in *. rewrite Hkey. split; [apply lookup_insert_eq|].
    by apply (rbac_stored cluster KRoleBinding new).
Qed.

(** With the object in sync the part only reads. *)
Lemma ensured_quiet_world cluster k tr r w w' :
  synced cluster k w → ensured cluster k tr r → follows w tr w' →
  Forall (λ o, is_write o = false) tr ∧ ∀ k', st k' w' = st k' w.
Proof.
  intros (o&Ho&Hs) He Hf.
  assert (Forall (read_in_sync cluster) tr) as Hr.
  { inversion He; subst; [by apply Forall_nil|..];
      apply follows_get in Hf as [Hg _]; repeat apply Forall_cons_2; try apply Forall_nil;
      try done; simpl; first [ congruence | naive_solver | done ]. }
  pose proof (ensured_no_write _ _ _ _ Hr He) as Hn. split; [done|]. by apply (quiet_world w tr).
Qed.

Lemma ensured_within cluster k tr r : ensured cluster k tr r → Forall (within [k]) tr.
Proof.
  inversion 1; subst; repeat apply Forall_cons_2; try apply Forall_nil; unfold within; simpl;
    try done; apply elem_of_cons; by left.
Qed.

Lemma ensured_other cluster k k' tr r w w' :
  ensured cluster k tr r → follows w tr w' → k' ≠ k → st k' w' = st k' w.
Proof.
  intros He Hf Hk. eapply follows_within; [by eapply ensured_within|exact Hf|].
  by intros ->%list_elem_of_singleton.
Qed.

Lemma synced_eq cluster k w w' : st k w' = st k w → synced cluster k w → synced cluster k w'.
Proof. unfold synced. by intros ->. Qed.

(** After the whole RBAC stage. *)
Lemma follows_rbac cluster s tr s' w w' :
  keyed st w → exec (ensureRBAC cluster) s tr s' (inr tt) → follows w tr w' →
  (∀ k, k ∈ rbac_kinds → synced cluster k w') ∧ ∀ k, k ∉ rbac_kinds → st k w' = st k w.
Proof.
  intros Hkw [_ [(e&?&_)|(t1&H1&[(t2&e&_&?&_)|(t2&t3&->&H2&H3)])]]%exec_ensureRBAC Hf; try done.
  apply follows_app in Hf as (w1&Hf1&(w2&Hf2&Hf3)%follows_app).
  pose proof (follows_keyed _ _ _ Hkw Hf1) as Hk1. pose proof (follows_keyed _ _ _ Hk1 Hf2) as Hk2.
  split.
  - intros k [->|[->| ->]]%elem_of_rbac_kinds.
    + eapply synced_eq; [by apply (ensured_other _ _ _ _ _ _ _ H3 Hf3)|].
      eapply synced_eq; [by apply (ensured_other _ _ _ _ _ _ _ H2 Hf2)|].
      exact (ensured_synced _ _ _ _ _ Hkw H1 Hf1).
    + eapply synced_eq; [by apply (ensured_other _ _ _ _ _ _ _ H3 Hf3)|].
      exact (ensured_synced _ _ _ _ _ Hk1 H2 Hf2).
    + exact (ensured_synced _ _ _ _ _ Hk2 H3 Hf3).
  - intros k Hk. rewrite elem_of_rbac_kinds in Hk.
    rewrite (ensured_other _ _ k _ _ _ _ H3 Hf3) by naive_solver.
    rewrite (ensured_other _ _ k _ _ _ _ H2 Hf2) by naive_solver.
    apply (ensured_other _ _ k _ _ _ _ H1 Hf1). naive_solver.
Qed.

Lemma follows_rbac_quiet cluster s tr s' r w w' :
  (∀ k, k ∈ rbac_kinds → synced cluster k w) →
  exec (ensureRBAC cluster) s tr s' r → follows w tr w' →
  Forall (λ o, is_write o = false) tr ∧ ∀ k, st k w' = st k w.
Proof.
  intros Hs Hx Hf.
  assert (Forall (λ o, is_write o = false) tr) as Hn; [|split; [done|by apply (quiet_world w tr)]].
  assert (Hq : ∀ k t r w1 w2, k ∈ rbac_kinds → (∀ k, st k w1 = st k w) → ensured cluster k t r →
    follows w1 t w2 → Forall (λ o, is_write o = false) t ∧ ∀ k, st k w2 = st k w).
  { intros k t r' w1 w2 Hk Hw He Hf'. destruct (ensured_quiet_world cluster k t r' w1 w2) as [? Hw'];
      [eapply (synced_eq cluster k w); [apply Hw|by apply Hs]|done|done|].
    split; [done|]. intros k'. by rewrite Hw'. }
  apply exec_ensureRBAC in Hx as [_ [(e&_&H1)|(t1&H1&[(t2&e&->&_&H2)|(t2&t3&->&H2&H3)])]].
  - by apply (Hq KServiceAccount tr (inl e) w w'); [apply elem_of_rbac_kinds; tauto|..].
  - apply follows_app in Hf as (w1&Hf1&Hf2).
    destruct (Hq KServiceAccount t1 (inr tt) w w1) as [? Hw1];
      [apply elem_of_rbac_kinds; tauto|done..|].
    destruct (Hq KRole t2 (inl e) w1 w') as [? _]; [apply elem_of_rbac_kinds; tauto|done..|].
    by apply Forall_app.
  - apply follows_app in Hf as (w1&Hf1&(w2&Hf2&Hf3)%follows_app).
    destruct (Hq KServiceAccount t1 (inr tt) w w1) as [? Hw1];
      [apply elem_of_rbac_kinds; tauto|done..|].
    destruct (Hq KRole t2 (inr tt) w1 w2) as [? Hw2]; [apply elem_of_rbac_kinds; tauto|done..|].
    destruct (Hq KRoleBinding t3 r w2 w') as [? _]; [apply elem_of_rbac_kinds; tauto|done..|].
    by rewrite !Forall_app.
Qed.

(** *** The Deployment *)

Lemma deployment_stored d d' desired :
  deployment_in_sync d desired → same_deployment d d' → deployment_in_sync d' desired.
Proof.
  intros (Hr&Hr'&Hl&Ha&Htl&Hta&Hp) (_&Er&El&Ea&Etl&Eta&Ep). unfold deployment_in_sync.
  rewrite Er, El, Ea, Etl, Eta. split_and!; try done. by apply Ep.
Qed.

(** The owner references play no part in the comparison. *)
Lemma in_sync_owner cluster m d :
  SetControllerReference cluster (deploy_meta (buildDesiredRobinDeployment cluster)) = inr m →
  deployment_in_sync d (with_deploy_meta (buildDesiredRobinDeployment cluster) m) ↔
  deployment_in_sync d (buildDesiredRobinDeployment cluster).
Proof.
  intros Hm. apply SetControllerReference_keeps in Hm as (_&_&Hl&Ha&_).
  unfold deployment_in_sync. cbn [with_deploy_meta deploy_meta deploy_Spec]. by rewrite Hl, Ha.
Qed.

Definition deployed cluster w : Prop :=
  ∃ d, st KDeployment w !! robin_key cluster = Some d ∧
    deployment_in_sync d (buildDesiredRobinDeployment cluster).

Lemma ensureRobinDeployment_deployed cluster s tr s' w w' :
  map_get (rbac_annotations cluster) deploymentRevisionAnnotation = None → keyed st w →
  exec (ensureRobinDeployment cluster) s tr s' (inr tt) → follows w tr w' → deployed cluster w'.
Proof.
  intros Ha Hkw Hx Hf. apply exec_ensureRobinDeployment in Hx as [(_&_&?&?)|(m&x&tr'&->&Hm&Hx)]; [done|].
  apply follows_get in Hf as [Hg (w1&Hw1&Hf)]. cbn zeta in Hx.
  set (desired := with_deploy_meta (buildDesiredRobinDeployment cluster) m) in *.
  assert (Hdm : meta_key (deploy_meta desired) = robin_key cluster ∧
    map_get (om_Annotations (deploy_meta desired)) deploymentRevisionAnnotation = None).
  { pose proof (SetControllerReference_keeps _ _ _ Hm) as (Hn&Hns&_&Han&_).
    subst desired. unfold meta_key. cbn [with_deploy_meta deploy_meta].
    rewrite Hn, Hns, Han, desired_annotations. by rewrite desired_deployment_eq. }
  assert (Hrep : is_Some (dspec_Replicas (deploy_Spec desired))).
  { subst desired. cbn [with_deploy_meta deploy_Spec]. by rewrite desired_replicas. }
  destruct Hdm as [Hk Hann].
  destruct x as [e|existing].
  - destruct (IsNotFound e); [|naive_solver]. destruct Hx as (y&->&<-&_).
    follows_step Hf Hy. cbn [follows] in Hf. subst w'.
    pose proof (create_store KDeployment desired w1) as Hc. rewrite Hy in Hc.
    destruct Hc as (d&Hd&Hst). exists d. rewrite Hst. cbn [obj_meta]. rewrite Hk.
    split; [apply lookup_insert_eq|]. apply (in_sync_owner cluster m d Hm).
    eapply deployment_stored; [|exact Hd]. by apply self_in_sync.
  - destruct (robinDeploymentNeedsUpdate existing desired) eqn:Hu.
    + destruct Hx as (y&->&<-&_). follows_step Hf Hy. cbn [follows] in Hf. subst w'.
      pose proof (patch_store KDeployment (patched_deployment existing desired) existing w1) as Hc.
      rewrite Hy in Hc. destruct Hc as (d&_&Hd&Hst). exists d. rewrite Hst.
      pose proof (Hkw KDeployment _ _ Hg) as Hkey. rewrite Hw1 in *.
      change (meta_key (obj_meta KDeployment (patched_deployment existing desired)))
        with (meta_key (obj_meta KDeployment existing)) in *. rewrite Hkey in *.
      split; [apply lookup_insert_eq|]. apply (in_sync_owner cluster m d Hm).
      eapply deployment_stored; [|by apply Hd]. by apply patched_in_sync.
    + destruct Hx as (->&_&_). cbn [follows] in Hf. subst w'. exists existing. rewrite Hw1.
      split; [done|]. apply needsUpdate_false in Hu. by apply (in_sync_owner cluster m existing Hm).
Qed.

Lemma ensureRobinDeployment_quiet cluster s tr s' r w w' :
  deployed cluster w → exec (ensureRobinDeployment cluster) s tr s' r → follows w tr w' →
  Forall (λ o, is_write o = false) tr ∧ ∀ k, st k w' = st k w.
Proof.
  intros (d&Hd&Hs) Hx Hf.
  assert (Forall (λ o, is_write o = false) tr) as Hn; [|split; [done|by apply (quiet_world w tr)]].
  apply exec_ensureRobinDeployment in Hx as [(->&_)|(m&x&tr'&->&Hm&Hx)]; [by apply Forall_nil|].
  apply follows_get in Hf as [Hg _]. apply Forall_cons. split; [done|]. cbn zeta in Hx.
  destruct x as [e|existing].
  - destruct (IsNotFound e); [|destruct Hx as (->&_); by apply Forall_nil].
    discriminate (eq_trans (eq_sym Hd) (Hg eq_refl)).
  - injection (eq_trans (eq_sym Hd) Hg) as <-.
    rewrite <-(in_sync_owner _ _ _ Hm), <-needsUpdate_false in Hs. rewrite Hs in Hx.
    destruct Hx as (->&_). by apply Forall_nil.
Qed.

End follows.

(** ** Configs in the store *)

Section configs.
Context {K : K8sTypes} {D : Deps} {DS : DepsSpec} {SS : SortSlice} {SP : SortSliceSpec}.
Context {W : Type} (h : ∀ c, W → W * ans c).
Context (st : ∀ k, W → gmap NamespacedName (obj_of k)) {KS : KubeStore h st}.
Variable cluster : Redkey.
Implicit Types (tr : list obs) (w : W) (c : RedkeyConfig) (l : list RedkeyConfig).

(** The config is stored and selected by the cluster's label. *)
Definition holds (cfgs : gmap NamespacedName RedkeyConfig) c : Prop :=
  labelled (om_Namespace (rk_meta cluster)) ClusterLabel (om_Name (rk_meta cluster)) c ∧
  cfgs !! meta_key (cfg_meta c) = Some c.

(** Sequence numbers tell the cluster's configs apart. *)
Definition distinct (cfgs : gmap NamespacedName RedkeyConfig) : Prop :=
  ∀ c c', holds cfgs c → holds cfgs c' → cfg_seq c = cfg_seq c' → c = c'.

(** The configs of a cluster as only the operator makes them: distinct sequence
    numbers within the counter's range, and the names of the cluster's configs are
    not used for anything else. *)
Definition configs_ok (cfgs : gmap NamespacedName RedkeyConfig) : Prop :=
  distinct cfgs ∧
  (∀ c, holds cfgs c → (0 ≤ cfg_seq c)%Z ∧ in_int64 (cfg_seq c + 1)) ∧
  (∀ seq c, (0 < seq)%Z →
     cfgs !! mkNN (om_Namespace (rk_meta cluster)) (config_name cluster seq) = Some c →
     holds cfgs c ∧ cfg_seq c = seq).

(** The config with the highest sequence number. *)
Definition newest (cfgs : gmap NamespacedName RedkeyConfig) c : Prop :=
  holds cfgs c ∧ ∀ d, holds cfgs d → (cfg_seq d ≤ cfg_seq c)%Z.

(** The config asks Robin for what the cluster's spec says... *)
Definition configures c : Prop :=
  ∃ cs, carries (rk_Spec cluster) (cfg_seq c) cs ∧ same_config_spec cs (cfg_Spec c).

(** ...and the newest one does, and was made for the cluster's generation. *)
Definition current (cfgs : gmap NamespacedName RedkeyConfig) : Prop :=
  ∃ c, newest cfgs c ∧ config_generation c = Some (om_Generation (rk_meta cluster)) ∧
       configures c.

(** [l] is the sorted list of the cluster's configs. *)
Definition lists_all (cfgs : gmap NamespacedName RedkeyConfig) l : Prop :=
  NoDup l ∧ StronglySorted (key_le cfg_seq) l ∧ ∀ c, c ∈ l ↔ holds cfgs c.

Lemma sorted_listing cfgs items :
  listing cfgs (om_Namespace (rk_meta cluster)) ClusterLabel (om_Name (rk_meta cluster)) items →
  lists_all cfgs (sort_slice cfg_seq items).
Proof.
  intros [Hnd Hi]. pose proof (sort_slice_perm cfg_seq items) as Hp. split_and!.
  - by rewrite Hp.
  - apply sort_slice_sorted.
  - intros c. by rewrite Hp, Hi.
Qed.

(** With distinct sequence numbers there is only one such list. *)
Lemma lists_all_unique cfgs l l' :
  distinct cfgs → lists_all cfgs l → lists_all cfgs l' → l = l'.
Proof.
  intros Hd (Hn&Hs&Hl) (Hn'&Hs'&Hl'). apply (StronglySorted_unique_strong (key_le cfg_seq)); try done.
  - intros c c' Hc Hc' H1 H2. apply Hl in Hc. apply Hl' in Hc'. apply Hd; try done.
    unfold key_le in *. lia.
  - apply NoDup_Permutation; try done. intros c. by rewrite Hl, Hl'.
Qed.

(** The newest config is the last one listed. *)
Lemma listed_newest cfgs l c : lists_all cfgs l → slice_last l = Some c → newest cfgs c.
Proof.
  intros (_&Hs&Hl) Hc. unfold slice_last in Hc. split.
  - apply Hl. by apply last_Some_elem_of.
  - intros d Hd%Hl. by eapply last_max.
Qed.

Lemma newest_listed cfgs l c :
  distinct cfgs → lists_all cfgs l → newest cfgs c → slice_last l = Some c.
Proof.
  intros Hd Hl [Hc Hmax]. destruct (slice_last l) as [d|] eqn:E.
  - pose proof (listed_newest _ _ _ Hl E) as [Hd' Hmax']. f_equal. apply Hd; [done..|].
    specialize (Hmax d Hd'). specialize (Hmax' c Hc). lia.
  - apply last_None in E as ->. apply Hl in Hc. by apply elem_of_nil in Hc.
Qed.

(** What a listing against the server returns. *)
Lemma follows_list s tr s' l w w' :
  keyed st w → exec (listConfigs cluster) s tr s' (inr l) → follows h w tr w' →
  lists_all (st KRedkeyConfig w) l ∧ ∀ k, st k w' = st k w.
Proof.
  intros Hkw (->&x&->&Hr)%exec_listConfigs Hf. destruct x as [e|items]; [done|]. injection Hr as ->.
  destruct Hf as [Hx Hf]. cbn [follows] in Hf. subst w'. split.
  - apply sorted_listing. by apply (list_store (h := h)).
  - intros k. by apply (store_frame (h := h)).
Qed.

(** [c] has been added to the cluster's configs: the next one, as the cluster's spec and
    generation ask for it, which Robin has not seen. *)
Definition added (cfgs cfgs' : gmap NamespacedName RedkeyConfig) c : Prop :=
  holds cfgs' c ∧ configures c ∧ cfg_phase c = "" ∧
  (in_int64 (om_Generation (rk_meta cluster)) →
     config_generation c = Some (om_Generation (rk_meta cluster))) ∧
  meta_key (cfg_meta c) = mkNN (om_Namespace (rk_meta cluster)) (config_name cluster (cfg_seq c)) ∧
  cfgs !! meta_key (cfg_meta c) = None ∧ cfgs' = <[meta_key (cfg_meta c) := c]> cfgs ∧
  (0 < cfg_seq c)%Z ∧ ∀ d, holds cfgs d → (cfg_seq d < cfg_seq c)%Z.

Lemma configures_primaries c :
  configures c → cs_Primaries (cfg_Spec c) = spec_Primaries (rk_Spec cluster).
Proof. intros (cs&(_&_&<-&_)&(_&_&_&->&_)). done. Qed.

(** Whether the server accepts a creation or not, it may only add that config. *)
Lemma follows_creation s tr s' l res w w' :
  configs_ok (st KRedkeyConfig w) → lists_all (st KRedkeyConfig w) l →
  exec (createNewConfig cluster (slice_last l)) s tr s' res → follows h w tr w' →
  (∃ c, added (st KRedkeyConfig w) (st KRedkeyConfig w') c) ∨
  (∃ e, res = inl e) ∧ st KRedkeyConfig w' = st KRedkeyConfig w.
Proof.
  intros (Hd&Hrange&Hnames) (_&Hs&Hl) Hx Hf. apply exec_createNewConfig in Hx.
  destruct (SetControllerReference _ _) as [e|m] eqn:Hm.
  { destruct Hx as (->&_&->). right. split; [by exists e|]. by rewrite Hf. }
  destruct Hx as (x&->&Hx). destruct Hf as [Hans Hf]. cbn [follows] in Hf. subst w'.
  set (seq := next_seq (slice_last l)) in *. set (c := new_config cluster seq m) in *.
  assert (Hseq : (0 < seq)%Z ∧ ∀ d, holds (st KRedkeyConfig w) d → (cfg_seq d < seq)%Z).
  { subst seq. destruct (slice_last l) as [hi|] eqn:Hhi; unfold slice_last in Hhi.
    - assert (hi ∈ l) as Hin by (apply last_Some in Hhi as [l' ->]; set_solver).
      apply Hl in Hin. destruct (Hrange hi Hin) as [H0 Hov]. simpl. rewrite wrap64_id by done.
      split; [lia|]. intros d Hd'. apply Hl in Hd'.
      pose proof (last_max cfg_seq _ hi d Hs Hhi Hd'). lia.
    - split; [done|]. intros d Hd'. apply last_None in Hhi as ->. apply Hl in Hd'.
      by apply not_elem_of_nil in Hd'. }
  destruct Hseq as [Hpos Hmax]. pose proof (config_generation_created cluster seq m) as Hgen.
  pose proof (config_meta_keeps _ _ _ Hm) as (Hkey&Hlab&_).
  assert (Hfresh : st KRedkeyConfig w !! meta_key (cfg_meta c) = None).
  { destruct (st KRedkeyConfig w !! meta_key (cfg_meta c)) as [d|] eqn:E; [|done].
    change (cfg_meta c) with m in E. rewrite Hkey in E.
    destruct (Hnames seq d Hpos E) as [Hh Heq]. specialize (Hmax d Hh). lia. }
  pose proof (create_store (h := h) KRedkeyConfig c w) as Hc.
  change ((h (Create KRedkeyConfig c) w).2 = x) in Hans. rewrite Hans in Hc.
  destruct x as [e|u].
  { destruct Hc as [Hc Hal]. destruct Hx as [_ ->]. destruct (IsAlreadyExists e) eqn:He.
    - destruct (Hal eq_refl) as [d Hc']. discriminate (eq_trans (eq_sym Hc') Hfresh).
    - right. split; [by exists e|exact Hc]. }
  left. destruct Hc as (c'&[(Hk'&Hl'&Ha') [Hsp Hph]]&Hst). cbn [obj_meta] in Hst.
  change (obs_call _) with (Create KRedkeyConfig c). rewrite Hst.
  assert (Hc' : holds (<[meta_key (cfg_meta c) := c']> (st KRedkeyConfig w)) c').
  { unfold holds, labelled, map_get. rewrite Hk'. split; [|apply lookup_insert_eq].
    rewrite Hl'. split; [|exact Hlab]. apply (f_equal nn_Namespace) in Hk'.
    simpl in Hk'. rewrite Hk'. by apply (f_equal nn_Namespace) in Hkey. }
  assert (Hsc : cfg_seq c' = seq) by (unfold cfg_seq; by destruct Hsp as [-> _]).
  exists c'. split; [exact Hc'|]. rewrite Hsc. split.
  { exists (cfg_Spec c). rewrite Hsc. split; [apply carries_config_spec|exact Hsp]. }
  split; [by rewrite Hph|]. split.
  { intros Hg. specialize (Hgen Hg Hm). unfold config_generation, map_index, map_get in *.
    by rewrite Ha'. }
  rewrite Hk'. split_and!; done.
Qed.

Lemma follows_created s tr s' l w w' :
  configs_ok (st KRedkeyConfig w) → lists_all (st KRedkeyConfig w) l →
  exec (createNewConfig cluster (slice_last l)) s tr s' (inr tt) → follows h w tr w' →
  ∃ c, added (st KRedkeyConfig w) (st KRedkeyConfig w') c.
Proof.
  intros Hok Hl Hx Hf. by destruct (follows_creation _ _ _ _ _ _ _ Hok Hl Hx Hf) as [|[[??] _]].
Qed.

Lemma added_holds cfgs cfgs' c d :
  added cfgs cfgs' c → holds cfgs' d → d = c ∨ holds cfgs d.
Proof.
  intros (_&_&_&_&_&_&->&_) [Hl [[_ <-]|[_ ?]]%lookup_insert_Some]; [by left|]. right. by split.
Qed.

Lemma added_newest cfgs cfgs' c : added cfgs cfgs' c → newest cfgs' c.
Proof.
  intros Ha. split; [apply Ha|]. intros d [->|Hd]%(added_holds _ _ _ _ Ha); [done|].
  destruct Ha as (_&_&_&_&_&_&_&_&Hmax). specialize (Hmax d Hd). lia.
Qed.

Lemma added_distinct cfgs cfgs' c : distinct cfgs → added cfgs cfgs' c → distinct cfgs'.
Proof.
  intros Hdis Ha. pose proof Ha as (_&_&_&_&_&_&_&_&Hmax).
  intros d d' [->|Hd1]%(added_holds _ _ _ _ Ha) [->|Hd2]%(added_holds _ _ _ _ Ha) Heq;
    [done| | |by apply Hdis].
  - specialize (Hmax d' Hd2). lia.
  - specialize (Hmax d Hd1). lia.
Qed.

Lemma added_current cfgs cfgs' c :
  in_int64 (om_Generation (rk_meta cluster)) → added cfgs cfgs' c → current cfgs'.
Proof.
  intros Hg Ha. exists c. split; [by eapply added_newest|]. destruct Ha as (_&Hc&_&Hgen&_).
  split; [by apply Hgen|done].
Qed.

(** Deletions that were accepted or had nothing to delete empty their keys. *)
Lemma follows_deletes tr l w w' :
  obs_call <$> tr = delete_call <$> l → Forall gone tr → follows h w tr w' →
  ∀ key, st KRedkeyConfig w' !! key =
    if decide (key ∈ (meta_key ∘ cfg_meta) <$> l) then None else st KRedkeyConfig w !! key.
Proof.
  revert tr w. induction l as [|c l IH]; intros [|[call x] tr] w; try done.
  { intros _ _ -> key. rewrite decide_False; [done|]. apply not_elem_of_nil. }
  intros [= -> Htr] [Hg Hgs]%Forall_cons [Hx Hf] key. change ((h (delete_call c) w).2 = x) in Hx.
  rewrite (IH _ _ Htr Hgs Hf key). change (obs_call _) with (delete_call c).
  pose proof (delete_store (h := h) KRedkeyConfig (meta_key (cfg_meta c)) w) as Hd.
  change (Delete _ _) with (delete_call c) in Hd. rewrite Hx in Hd.
  assert (st KRedkeyConfig (h (delete_call c) w).1 = delete (meta_key (cfg_meta c)) (st KRedkeyConfig w))
    as ->.
  { destruct x as [e|u]; [|exact Hd]. destruct Hd as [-> Hn]. symmetry.
    apply delete_id, Hn, Hg. }
  rewrite fmap_cons. case_decide as Hl; [by rewrite decide_True by (right; done)|].
  destruct (decide (key = meta_key (cfg_meta c))) as [->|Hne].
  - rewrite decide_True by left. apply lookup_delete_eq.
  - rewrite lookup_delete_ne by done. rewrite decide_False; [done|].
    by intros [|]%elem_of_cons.
Qed.

Lemma keep_keep l : keep_from_last_applied (keep_from_last_applied l) = keep_from_last_applied l.
Proof.
  induction l as [|c l IH]; [done|]. simpl. case_decide as He; [exact IH|].
  simpl. by rewrite decide_False.
Qed.

Lemma keep_nonempty l : l ≠ [] → keep_from_last_applied l ≠ [].
Proof.
  induction l as [|c l IH]; [done|]. intros _. simpl. case_decide as He; [|done].
  apply IH. intros ->. by apply Exists_nil in He.
Qed.

Lemma keep_last l : last (keep_from_last_applied l) = last l.
Proof.
  induction l as [|c l IH]; [done|]. simpl. case_decide as He; [|done]. rewrite IH.
  destruct l; [by apply Exists_nil in He|done].
Qed.

(** A cleanup that succeeds leaves the configs from the last applied one on. *)
Lemma follows_cleanup s tr s' l l' w w' :
  lists_all (st KRedkeyConfig w) l →
  exec (cleanup_stage l) s tr s' (inr l') → follows h w tr w' →
  l' = keep_from_last_applied l ∧ lists_all (st KRedkeyConfig w') l' ∧
  (∀ c, holds (st KRedkeyConfig w') c → holds (st KRedkeyConfig w) c) ∧
  (keep_from_last_applied l = l → tr = []).
Proof.
  intros (Hnd&Hs&Hl) Hx Hf. unfold cleanup_stage in Hx.
  apply exec_bind in Hx as (tr1&tr2&s1&[rest oe]&->&Hc&Hx).
  destruct oe as [e|]; [by exec_inv|]. apply exec_ret in Hx as (->&->&[= ->]).
  rewrite app_nil_r in *. apply cleanup_spec in Hc as [(pre&Hpre&Hcalls&Hlen&->&Hg) _].
  rewrite Hlen, firstn_all in Hcalls. pose proof (follows_deletes _ _ _ _ Hcalls Hg Hf) as Hw.
  assert (Hh : ∀ c, holds (st KRedkeyConfig w') c ↔ c ∈ keep_from_last_applied l).
  { intros c. transitivity (holds (st KRedkeyConfig w) c ∧ c ∉ pre).
    - unfold holds. rewrite Hw. case_decide as Hk; [|split].
      + apply list_elem_of_fmap in Hk as (d&Hd&Hin). split; [by intros [_ ?]|].
        intros [[_ Hc] Hn]. assert (d ∈ l) as [_ Hd']%Hl by (rewrite Hpre; set_solver).
        simpl in Hd. rewrite <-Hd, Hc in Hd'. by simplify_eq.
      + intros [??]. split; [done|]. intros Hin. apply Hk. apply list_elem_of_fmap. by exists c.
      + by intros [??].
    - rewrite <-Hl. rewrite Hpre in Hnd. apply NoDup_app in Hnd as (_&Hdis&_).
      rewrite Hpre at 1. rewrite elem_of_app. split; [intros [[|] ?]; done|].
      intros Hk. split; [by right|]. intros Hp. by apply (Hdis c). }
  split_and!; [done|split_and!| |].
  - rewrite Hpre in Hnd. by apply NoDup_app in Hnd as (_&_&?).
  - apply (StronglySorted_suffix _ l); [apply keep_suffix|done].
  - intros c. by rewrite Hh.
  - intros c Hc%Hh. apply Hl. rewrite Hpre. by apply elem_of_app; right.
  - intros Hk. assert (pre = []) as ->.
    { apply (f_equal length) in Hpre. rewrite length_app, Hk in Hpre. destruct pre; [done|simpl in *; lia]. }
    by destruct tr1.
Qed.

(** Deletions, accepted or not, empty no other key. *)
Lemma follows_deletions tr l w w' :
  obs_call <$> tr = delete_call <$> l → follows h w tr w' →
  st KRedkeyConfig w' ⊆ st KRedkeyConfig w ∧
  ∀ key, key ∉ (meta_key ∘ cfg_meta) <$> l → st KRedkeyConfig w' !! key = st KRedkeyConfig w !! key.
Proof.
  revert tr w. induction l as [|c l IH]; intros [|[call x] tr] w; try done;
    [by intros _ [= ->]|].
  intros [= -> Htr] [_ Hf]. change (obs_call _) with (delete_call c) in Hf.
  destruct (IH _ _ Htr Hf) as [Hs Hk].
  pose proof (delete_store (h := h) KRedkeyConfig (meta_key (cfg_meta c)) w) as Hd.
  change (Delete _ _) with (delete_call c) in Hd.
  assert (st KRedkeyConfig (h (delete_call c) w).1 = st KRedkeyConfig w ∨
    st KRedkeyConfig (h (delete_call c) w).1 = delete (meta_key (cfg_meta c)) (st KRedkeyConfig w)) as Hc.
  { destruct (h (delete_call c) w).2; [left; by destruct Hd|by right]. }
  split.
  - etransitivity; [exact Hs|]. destruct Hc as [->| ->]; [done|apply delete_subseteq].
  - rewrite fmap_cons. intros key [Hne Hin]%not_elem_of_cons. rewrite Hk by done.
    destruct Hc as [->| ->]; [done|]. by apply lookup_delete_ne.
Qed.

(** Whatever becomes of a cleanup, the newest config stays. *)
Lemma follows_pruning s tr s' l res w w' :
  l ≠ [] → distinct (st KRedkeyConfig w) → lists_all (st KRedkeyConfig w) l →
  exec (cleanup_stage l) s tr s' res → follows h w tr w' →
  st KRedkeyConfig w' ⊆ st KRedkeyConfig w ∧
  ∀ c, newest (st KRedkeyConfig w) c → newest (st KRedkeyConfig w') c.
Proof.
  intros Hne Hd Hl Hx Hf. unfold cleanup_stage in Hx.
  apply exec_bind in Hx as (tr1&tr2&s1&[rest oe]&->&[(pre&Hpre&Hcalls&_) _]%cleanup_spec&Hx).
  apply exec_ret in Hx as (->&->&_). rewrite app_nil_r in Hf.
  destruct (follows_deletions _ _ _ _ Hcalls Hf) as [Hs Hk]. split; [done|].
  intros c Hc. pose proof (newest_listed _ _ _ Hd Hl Hc) as Hlast. destruct Hc as [[Hlab Hc] Hmax].
  destruct Hl as (Hnd&_&Hl). split.
  2: { intros d [Hdl Hd']. apply Hmax. split; [done|]. by eapply lookup_weaken. }
  split; [done|]. rewrite Hk; [done|]. intros (d&Hkey&Hin)%list_elem_of_fmap.
  assert (Hdp : d ∈ pre) by (rewrite <-(take_drop (length tr1) pre); by apply elem_of_app; left).
  assert (d ∈ l) as [_ Hd']%Hl by (rewrite Hpre; by apply elem_of_app; left).
  simpl in Hkey. rewrite <-Hkey, Hc in Hd'. injection Hd' as <-.
  rewrite Hpre in Hnd. apply NoDup_app in Hnd as (_&Hdis&_). apply (Hdis c Hdp).
  apply last_Some_elem_of. by rewrite keep_last.
Qed.

(** What an attempt does to the Redkeys. *)
Lemma follows_attempt c tr res w w' :
  attempt_trace cluster c tr res → follows h w tr w' →
  match res with
  | inl _ => st KRedkey w' = st KRedkey w
  | inr _ => ∃ latest now clk r,
      st KRedkey w !! meta_key (rk_meta cluster) = Some latest ∧
      (meta_key (rk_meta latest) = meta_key (rk_meta cluster) →
       stored_as KRedkey (with_status latest
         (aggregated_status now clk latest c (om_Generation (rk_meta cluster)))) r ∧
       st KRedkey w' = <[meta_key (rk_meta cluster) := r]> (st KRedkey w))
  end.
Proof.
  intros [(e&->&->)|(latest&now&clk&x&->&->)] Hf.
  { apply (follows_frame h st _ _ _ _ Hf). by repeat apply Forall_cons_2. }
  destruct (follows_get h st _ _ _ _ _ _ Hf) as [Hg _].
  apply (follows_update h st w [Obs (Get KRedkey _) (inr latest); Obs Now now; Obs Clock clk]) in Hf;
    [|by repeat apply Forall_cons_2].
  destruct x as [e|u]; [done|]. destruct Hf as (cur&Hcur&Hu&Hst).
  exists latest, now, clk, u. split; [done|]. intros Hk. cbn [rk_meta with_status] in Hcur, Hst.
  rewrite Hk in Hcur, Hst. split; [|done].
  by injection (eq_trans (eq_sym Hg) Hcur) as <-.
Qed.

(** The Redkey as a status update leaves it: the one read, with another status. *)
Definition same_redkey (r : Redkey) : Prop :=
  meta_key (rk_meta r) = meta_key (rk_meta cluster) ∧
  om_Generation (rk_meta r) = om_Generation (rk_meta cluster) ∧
  rk_Spec r = rk_Spec cluster.

(** An aggregation that succeeds stores the generation as observed. *)
Lemma follows_aggregate s tr s' l res w w' :
  l ≠ [] → st KRedkey w !! meta_key (rk_meta cluster) = Some cluster →
  exec (aggregateStatus cluster l) s tr s' res → follows h w tr w' →
  match res with
  | inl _ => st KRedkey w' = st KRedkey w
  | inr _ => ∃ r, st KRedkey w' !! meta_key (rk_meta cluster) = Some r ∧ same_redkey r ∧
               st_ObservedGeneration (rk_Status r) = om_Generation (rk_meta cluster)
  end.
Proof.
  intros Hne Hst [(->&_)|(c&failed&final&_&->&_&Hfl&Hfin&_)]%exec_aggregateStatus Hf; [done|].
  apply follows_app in Hf as (w1&Hf1&Hf).
  assert (Hw1 : st KRedkey w1 = st KRedkey w).
  { clear Hst Hf. revert w Hf1. induction failed as [|t failed IH]; intros w Hf1; [by rewrite Hf1|].
    apply Forall_cons in Hfl as [(e&Ha&_) Hfl]. simpl in Hf1.
    apply follows_app in Hf1 as (w2&Hf2&Hf1). rewrite (IH Hfl w2 Hf1).
    exact (follows_attempt _ _ _ _ _ Ha Hf2). }
  pose proof (follows_attempt _ _ _ _ _ Hfin Hf) as Ha. destruct res as [e|cl]; [by rewrite Ha|].
  destruct Ha as (latest&now&clk&r&Hg&Hr).
  rewrite Hw1, Hst in Hg. injection Hg as <-. destruct (Hr eq_refl) as [(Hm&Hgen&Hsp&(_&_&_&_&_&Hs&_)) ->].
  exists r. split; [apply lookup_insert_eq|]. split; [|by rewrite Hs].
  split_and!; [by destruct Hm|done|done].
Qed.

End configs.

(** ** What a reconcile leaves behind *)

#[export] Hint Extern 1 (within _ _) => (unfold within; simpl; (exact I || set_solver)) : redkey.

Section stages.
Context {K : K8sTypes} {D : Deps} {DS : DepsSpec} {SS : SortSlice}.
Implicit Types cluster : Redkey.

Lemma within_deployment cluster : makes (within [KDeployment]) (ensureRobinDeployment cluster).
Proof. unfold ensureRobinDeployment, emit. makes_tac. Qed.

Lemma within_create cluster c : makes (within [KRedkeyConfig]) (createNewConfig cluster c).
Proof. unfold createNewConfig, emit. makes_tac. Qed.

Lemma within_cleanup l : makes (within [KRedkeyConfig]) (cleanup_stage l).
Proof.
  unfold cleanup_stage. makes_step; [|by makes_step].
  assert (∀ rest n, makes (within [KRedkeyConfig]) (cleanup_loop rest n)) as Hloop.
  { intros rest. induction rest as [|c rest IH]; intros [|n]; simpl; try (by makes_step).
    unfold emit. makes_tac; apply IH. }
  unfold cleanupSupersededConfigs. repeat (case_match; try (by makes_step)). apply Hloop.
Qed.

(** The only write is a status update. *)
Definition status_only (o : obs) : Prop :=
  is_write o = true → ∃ new, obs_call o = UpdateStatus new.

Lemma within_aggregate cluster l :
  makes (λ o, within [KRedkey] o ∧ status_only o) (aggregateStatus cluster l).
Proof.
  unfold aggregateStatus. makes_step; [|by makes_step].
  apply makes_RetryOnConflict; [auto with redkey|].
  unfold aggregate_attempt, status_only. makes_tac; (split; [auto with redkey|done || eauto]).
Qed.

Lemma within_report r cluster l :
  makes (λ o, within [] o ∧ is_write o = false) (report r cluster l).
Proof.
  unfold report, recordRedkeyMetrics, observe, set_state, enteredReady, emit.
  makes_tac; by split.
Qed.

Lemma within_fail name e : makes (λ o, within [] o ∧ is_write o = false) (fail_stage name e).
Proof. unfold fail_stage, stage_error, emit. makes_tac. Qed.

(** A stage in the middle of a reconcile. *)
Lemma exec_stage {A} name (m : M OpState (error + A)) k s tr s' a :
  exec (stage name m k) s tr s' a ↔
  ∃ tr1 tr2 s1 x, tr = tr1 ++ tr2 ∧ exec m s tr1 s1 x ∧
    exec (match x with inl e => fail_stage name e | inr y => k y end) s1 tr2 s' a.
Proof. unfold stage. apply exec_bind. Qed.

Lemma exec_stage_ok {A} name (m : M OpState (error + A)) k s tr s' res :
  exec (stage name m k) s tr s' (res, None) →
  ∃ tr1 tr2 s1 x, tr = tr1 ++ tr2 ∧ exec m s tr1 s1 (inr x) ∧ exec (k x) s1 tr2 s' (res, None).
Proof.
  intros (tr1&tr2&s1&[e|x]&->&H1&H2)%exec_stage; [|eauto 10].
  unfold fail_stage, stage_error, emit in H2. exec_inv.
Qed.

End stages.

Section convergence.
Context {K : K8sTypes} {D : Deps} {DS : DepsSpec} {SS : SortSlice} {SP : SortSliceSpec}.
Context {W : Type} (h : ∀ c, W → W * ans c).
Context (st : ∀ k, W → gmap NamespacedName (obj_of k)) {KS : KubeStore h st}.
Variable r : RedkeyReconciler.
Implicit Types (tr : list obs) (w : W) (cluster : Redkey) (l : list RedkeyConfig).

(** What Robin's objects should be depends on the key and the spec alone. *)
Lemma same_redkey_key cluster cluster' :
  same_redkey cluster cluster' →
  om_Name (rk_meta cluster') = om_Name (rk_meta cluster) ∧
  om_Namespace (rk_meta cluster') = om_Namespace (rk_meta cluster) ∧
  rk_Spec cluster' = rk_Spec cluster.
Proof. intros (Hk&_&Hs). unfold meta_key in Hk. by injection Hk. Qed.

Lemma same_synced cluster cluster' k w :
  same_redkey cluster cluster' → synced st cluster k w → synced st cluster' k w.
Proof.
  intros (Hn&Hns&Hs)%same_redkey_key (o&Ho&Hr). exists o.
  unfold robin_key, robin_name. rewrite Hn, Hns. split; [exact Ho|].
  destruct k; try done; simpl in *;
    unfold sa_in_sync, role_in_sync, rb_in_sync, meta_in_sync, rbac_labels, rbac_annotations,
      robin_base_labels, robin_subjects, robin_roleref, robin_name in *;
    by rewrite Hn, ?Hns, Hs.
Qed.

Lemma same_deployed cluster cluster' w :
  same_redkey cluster cluster' → deployed st cluster w → deployed st cluster' w.
Proof.
  intros (Hn&Hns&Hs)%same_redkey_key (d&Hd&Hr). exists d.
  unfold robin_key, robin_name. rewrite Hn, Hns. split; [exact Hd|].
  replace (buildDesiredRobinDeployment cluster') with (buildDesiredRobinDeployment cluster);
    [done|].
  unfold buildDesiredRobinDeployment, desired_podspec, desired_container, robin_container,
    robinDefaultEnvVars, robin_base_labels, robin_name.
  by rewrite Hn, Hns, Hs.
Qed.

Lemma same_holds cluster cluster' cfgs c :
  same_redkey cluster cluster' → holds cluster' cfgs c ↔ holds cluster cfgs c.
Proof. intros (Hn&Hns&_)%same_redkey_key. unfold holds. by rewrite Hn, Hns. Qed.

(** The configs are in order: some are left, with distinct sequence numbers, and
    cleanup has nothing to delete. *)
Definition tidy cluster (cfgs : gmap NamespacedName RedkeyConfig) : Prop :=
  distinct cluster cfgs ∧
  ∃ l, l ≠ [] ∧ lists_all cluster cfgs l ∧ keep_from_last_applied l = l.

Lemma same_tidy cluster cluster' cfgs :
  same_redkey cluster cluster' → tidy cluster cfgs → tidy cluster' cfgs.
Proof.
  intros Hsame [Hd (l&Hne&(Hnd&Hs&Hl)&Hk)]. split.
  - intros c c'. rewrite !(same_holds _ _ _ _ Hsame). apply Hd.
  - exists l. split_and!; try done. split_and!; try done. intros c. by rewrite (same_holds _ _ _ _ Hsame).
Qed.

Lemma same_newest cluster cluster' cfgs c :
  same_redkey cluster cluster' → newest cluster' cfgs c ↔ newest cluster cfgs c.
Proof. intros Hs. unfold newest. by setoid_rewrite (same_holds _ _ _ _ Hs). Qed.

Lemma same_configures cluster cluster' c :
  same_redkey cluster cluster' → configures cluster' c ↔ configures cluster c.
Proof. intros (_&_&Hs). unfold configures. by rewrite Hs. Qed.

Lemma same_current cluster cluster' cfgs :
  same_redkey cluster cluster' → current cluster cfgs → current cluster' cfgs.
Proof.
  intros Hs (c&Hn&Hg&Hc). exists c. rewrite (same_newest _ _ _ _ Hs), (same_configures _ _ _ Hs).
  destruct Hs as (_&->&_). done.
Qed.

(** The generations on record are true: no config is annotated with a generation still
    to come, one annotated with the cluster's generation is what its spec asks for, and
    so is the newest once that generation counts as observed. *)
Definition honest cluster (cfgs : gmap NamespacedName RedkeyConfig) : Prop :=
  (st_ObservedGeneration (rk_Status cluster) ≤ om_Generation (rk_meta cluster))%Z ∧
  (∀ c g, holds cluster cfgs c → config_generation c = Some g →
     (g ≤ om_Generation (rk_meta cluster))%Z ∧
     (g = om_Generation (rk_meta cluster) → configures cluster c)) ∧
  (spec_Primaries (rk_Spec cluster) ≠ 0%Z →
   st_ObservedGeneration (rk_Status cluster) = om_Generation (rk_meta cluster) →
   current cluster cfgs).

(** So where no new config is needed, the newest one is current. *)
Lemma honest_current cluster cfgs c :
  spec_Primaries (rk_Spec cluster) ≠ 0%Z → honest cluster cfgs → newest cluster cfgs c →
  needsNewConfig cluster (Some c) = false → current cluster cfgs.
Proof.
  intros Hp (Hobs&Hg&Hc) Hn Hneed.
  destruct (decide (st_ObservedGeneration (rk_Status cluster) < om_Generation (rk_meta cluster))%Z);
    [|apply Hc; [done|lia]].
  destruct (config_generation c) as [g|] eqn:Eg.
  - destruct (decide (g < om_Generation (rk_meta cluster))%Z) as [Hlt|].
    + assert (needsNewConfig cluster (Some c) = true) as E; [|congruence].
      apply needsNewConfig_spec. split; [done|]. intros c0 g0 [= <-] Eg0. congruence.
    + destruct (Hg c g (proj1 Hn) Eg) as [Hle Hcf].
      assert (g = om_Generation (rk_meta cluster)) as -> by lia. exists c. auto.
  - assert (needsNewConfig cluster (Some c) = true) as E; [|congruence].
    apply needsNewConfig_spec. split; [done|]. intros c0 g0 [= <-]. congruence.
Qed.

(** Nothing is left to do for the Redkey stored under the key: its generation is
    observed and the newest config made for it, Robin's objects are in sync, no config
    is left to clean up. *)
Definition settled_at (req : NamespacedName) w : Prop :=
  ∃ cluster, st KRedkey w !! req = Some cluster ∧ meta_key (rk_meta cluster) = req ∧
    spec_Primaries (rk_Spec cluster) ≠ 0%Z ∧
    st_ObservedGeneration (rk_Status cluster) = om_Generation (rk_meta cluster) ∧
    (∀ k, k ∈ rbac_kinds → synced st cluster k w) ∧ deployed st cluster w ∧
    tidy cluster (st KRedkeyConfig w) ∧ current cluster (st KRedkeyConfig w).

(** *** The first reconcile *)

(** From the configs on. *)
Lemma follows_finish cluster l s tr s' res w w' :
  l ≠ [] → st KRedkey w !! meta_key (rk_meta cluster) = Some cluster →
  distinct cluster (st KRedkeyConfig w) → lists_all cluster (st KRedkeyConfig w) l →
  exec (finish r cluster l) s tr s' (res, None) → follows h w tr w' →
  (tidy cluster (st KRedkeyConfig w') ∧
   ∀ c, newest cluster (st KRedkeyConfig w) c → newest cluster (st KRedkeyConfig w') c) ∧
  (∃ cluster', st KRedkey w' !! meta_key (rk_meta cluster) = Some cluster' ∧
     same_redkey cluster cluster' ∧
     st_ObservedGeneration (rk_Status cluster') = om_Generation (rk_meta cluster)) ∧
  ∀ k, k ∉ [KRedkeyConfig; KRedkey] → st k w' = st k w.
Proof.
  intros Hne Hst Hd Hl Hx Hf. unfold finish in Hx. destruct l as [|c0 l0]; [done|].
  set (l := c0 :: l0) in *.
  apply exec_stage_ok in Hx as (t1&t2&s1&l1&->&H1&Hx).
  apply exec_stage_ok in Hx as (t3&t4&s2&cl&->&H2&H3).
  apply follows_app in Hf as (w1&Hf1&(w2&Hf2&Hf3)%follows_app).
  destruct (follows_cleanup h st cluster _ _ _ _ _ _ _ Hl H1 Hf1) as (->&Hl1&Hsub&_).
  pose proof (makes_exec _ _ _ _ _ _ (within_cleanup l) H1) as Hw1.
  pose proof (makes_exec _ _ _ _ _ _ (within_aggregate cluster _) H2) as [Hw2 _]%Forall_and.
  pose proof (makes_exec _ _ _ _ _ _ (within_report r cl _) H3) as [Hw3 _]%Forall_and.
  assert (E3 : ∀ k, st k w' = st k w2).
  { intros k. apply (follows_within h st [] k _ _ _ Hw3 Hf3), not_elem_of_nil. }
  assert (E2 : ∀ k, k ∉ [KRedkey] → st k w2 = st k w1).
  { intros k. by apply (follows_within h st _ k _ _ _ Hw2 Hf2). }
  assert (E1 : ∀ k, k ∉ [KRedkeyConfig] → st k w1 = st k w).
  { intros k. by apply (follows_within h st _ k _ _ _ Hw1 Hf1). }
  assert (Hne1 : keep_from_last_applied l ≠ []) by (by apply keep_nonempty).
  split; [|split].
  - rewrite E3, E2 by set_solver. split; [split; [intros c c' ? ?; apply Hd; by apply Hsub|]|].
    + exists (keep_from_last_applied l). split_and!; [done|done|apply keep_keep].
    + intros c Hc. eapply listed_newest; [exact Hl1|].
      unfold slice_last. rewrite keep_last. by eapply newest_listed.
  - rewrite E3. rewrite <-E1 in Hst by set_solver.
    exact (follows_aggregate h st cluster _ _ _ _ (inr cl) _ _ Hne1 Hst H2 Hf2).
  - intros k Hk. rewrite E3, E2, E1 by set_solver. done.
Qed.

Lemma current_kept cluster cfgs cfgs' :
  (∀ c, newest cluster cfgs c → newest cluster cfgs' c) →
  current cluster cfgs → current cluster cfgs'.
Proof. intros Hn (c&Hc&?). exists c. split; [by apply Hn|done]. Qed.

(** The configs stage and what follows it. *)
Lemma follows_configs cluster s tr s' res w w' :
  keyed st w → st KRedkey w !! meta_key (rk_meta cluster) = Some cluster →
  spec_Primaries (rk_Spec cluster) ≠ 0%Z → in_int64 (om_Generation (rk_meta cluster)) →
  configs_ok cluster (st KRedkeyConfig w) → honest cluster (st KRedkeyConfig w) →
  exec (reconcile_configs r cluster) s tr s' (res, None) → follows h w tr w' →
  (tidy cluster (st KRedkeyConfig w') ∧ current cluster (st KRedkeyConfig w')) ∧
  (∃ cluster', st KRedkey w' !! meta_key (rk_meta cluster) = Some cluster' ∧
     same_redkey cluster cluster' ∧
     st_ObservedGeneration (rk_Status cluster') = om_Generation (rk_meta cluster)) ∧
  ∀ k, k ∉ [KRedkeyConfig; KRedkey] → st k w' = st k w.
Proof.
  intros Hkw Hst Hp Hg Hok Hh Hx Hf. unfold reconcile_configs in Hx.
  apply exec_stage_ok in Hx as (t1&t2&s1&l&->&H1&Hx). cbn zeta in Hx.
  apply follows_app in Hf as (w1&Hf1&Hf).
  destruct (follows_list h st cluster _ _ _ _ _ _ Hkw H1 Hf1) as [Hl Hw1].
  pose proof (follows_keyed h st _ _ _ Hkw Hf1) as Hk1.
  rewrite <-(Hw1 KRedkeyConfig) in Hok, Hl, Hh. rewrite <-(Hw1 KRedkey) in Hst.
  setoid_rewrite <-Hw1. destruct (match l with [] => _ | _ => _ end) eqn:Hc.
  - apply exec_stage_ok in Hx as (t3&t4&s2&[]&->&H2&Hx).
    apply exec_stage_ok in Hx as (t5&t6&s3&l2&->&H3&Hx).
    apply follows_app in Hf as (w2&Hf2&(w3&Hf3&Hf)%follows_app).
    destruct (follows_created h st cluster _ _ _ _ _ _ Hok Hl H2 Hf2) as (c&Hadd).
    pose proof (added_distinct cluster _ _ _ (proj1 Hok) Hadd) as Hd.
    pose proof (added_current cluster _ _ _ Hg Hadd) as Hcur.
    pose proof (follows_keyed h st _ _ _ Hk1 Hf2) as Hk2.
    destruct (follows_list h st cluster _ _ _ _ _ _ Hk2 H3 Hf3) as [Hl2 Hw3].
    pose proof (makes_exec _ _ _ _ _ _ (within_create cluster _) H2) as Hw.
    assert (Hw2 : ∀ k, k ∉ [KRedkeyConfig] → st k w2 = st k w1).
    { intros k. by apply (follows_within h st _ k _ _ _ Hw Hf2). }
    destruct Hadd as [Hin _].
    rewrite <-(Hw3 KRedkeyConfig) in Hd, Hl2, Hin, Hcur. rewrite <-(Hw2 KRedkey) in Hst by set_solver.
    rewrite <-(Hw3 KRedkey) in Hst. assert (l2 ≠ []) as Hne.
    { intros ->. apply Hl2 in Hin. by apply not_elem_of_nil in Hin. }
    destruct (follows_finish cluster l2 _ _ _ _ _ _ Hne Hst Hd Hl2 Hx Hf) as ([? Hn]&?&Hoth).
    split_and!; [done|by apply (current_kept _ _ _ Hn)|done|]. intros k Hk. rewrite Hoth, Hw3, Hw2 by set_solver. done.
  - assert (l ≠ []) as Hne by (by intros ->). destruct Hok as [Hd _].
    destruct (follows_finish cluster l s1 t2 s' res _ _ Hne Hst Hd Hl Hx Hf) as ([? Hn]&?&?).
    split_and!; [done| |done|done]. apply (current_kept _ _ _ Hn).
    destruct (slice_last l) as [c|] eqn:Hlast; [|by apply last_None in Hlast].
    apply (honest_current _ _ c Hp Hh); [by eapply listed_newest|]. by destruct l.
Qed.

(** A reconcile that succeeds settles everything. *)
Lemma follows_reconcile req cluster s tr s' res w w' :
  keyed st w → st KRedkey w !! req = Some cluster → spec_Primaries (rk_Spec cluster) ≠ 0%Z →
  map_get (rbac_annotations cluster) deploymentRevisionAnnotation = None →
  in_int64 (om_Generation (rk_meta cluster)) →
  configs_ok cluster (st KRedkeyConfig w) → honest cluster (st KRedkeyConfig w) →
  exec (Reconcile r req) s tr s' (res, None) → follows h w tr w' → settled_at req w'.
Proof.
  intros Hkw Hst Hp Ha Hgen Hok Hh Hx Hf. unfold Reconcile in Hx. exec_call Hx as x.
  apply (follows_get h st) in Hf as [Hg (w1&Hw1&Hf)].
  pose proof (Hkw KRedkey _ _ Hst) as Hkey. simpl in Hkey. subst req.
  destruct x as [e|cl].
  { destruct (IsNotFound e); [discriminate (eq_trans (eq_sym Hst) (Hg eq_refl))|].
    unfold fail_stage, stage_error, emit in Hx. exec_inv. }
  injection (eq_trans (eq_sym Hst) Hg) as <-. rewrite bool_decide_eq_false_2 in Hx by done.
  assert (Hk1 : keyed st w1) by (intros k key o; rewrite Hw1; apply Hkw).
  rewrite <-(Hw1 KRedkey) in Hst. rewrite <-(Hw1 KRedkeyConfig) in Hok, Hh.
  apply exec_stage_ok in Hx as (t1&t2&s1&[]&->&H1&Hx).
  apply exec_stage_ok in Hx as (t3&t4&s2&[]&->&H2&Hx).
  apply follows_app in Hf as (w2&Hf1&(w3&Hf2&Hf3)%follows_app).
  destruct (follows_rbac h st cluster _ _ _ _ _ Hk1 H1 Hf1) as [Hs2 Hw2].
  pose proof (follows_keyed h st _ _ _ Hk1 Hf1) as Hk2.
  pose proof (follows_keyed h st _ _ _ Hk2 Hf2) as Hk3.
  pose proof (ensureRobinDeployment_deployed h st cluster _ _ _ _ _ Ha Hk2 H2 Hf2) as Hd3.
  pose proof (makes_exec _ _ _ _ _ _ (within_deployment cluster) H2) as Hw.
  assert (Hw3 : ∀ k, k ∉ [KDeployment] → st k w3 = st k w2).
  { intros k. by apply (follows_within h st _ k _ _ _ Hw Hf2). }
  assert (Hn : (KRedkey ∉ rbac_kinds) ∧ (KRedkeyConfig ∉ rbac_kinds))
    by (rewrite !elem_of_rbac_kinds; naive_solver).
  rewrite <-(Hw2 KRedkey), <-(Hw3 KRedkey) in Hst by first [set_solver|apply Hn].
  rewrite <-(Hw2 KRedkeyConfig), <-(Hw3 KRedkeyConfig) in Hok, Hh by first [set_solver|apply Hn].
  destruct (follows_configs cluster _ _ _ _ _ _ Hk3 Hst Hp Hgen Hok Hh Hx Hf3)
    as ([Ht Hcur]&(cl&Hcl&Hsame&Hobs)&Hoth).
  exists cl. pose proof (same_redkey_key _ _ Hsame) as (_&_&Hspec).
  destruct Hsame as (Hkey&Hgen'&Hsp). assert (same_redkey cluster cl) as Hsame by done.
  split_and!; [done|done|by rewrite Hspec|by rewrite Hgen'| | |by eapply same_tidy|by eapply same_current].
  - intros k Hk. apply (same_synced cluster); [done|].
    apply (synced_eq st cluster k w2); [|by apply Hs2].
    apply elem_of_rbac_kinds in Hk. rewrite Hoth, Hw3; [done|set_solver..].
  - apply (same_deployed cluster); [done|]. unfold deployed. rewrite Hoth by set_solver. done.
Qed.

(** *** Later reconciles *)

(** Nothing but the status of the Redkey was written. *)
Definition rests cluster w tr w' : Prop :=
  Forall status_only tr ∧ (∀ k, k ≠ KRedkey → st k w' = st k w) ∧
  (st KRedkey w' = st KRedkey w ∨
   ∃ cluster', st KRedkey w' !! meta_key (rk_meta cluster) = Some cluster' ∧
     same_redkey cluster cluster' ∧
     st_ObservedGeneration (rk_Status cluster') = om_Generation (rk_meta cluster)).

Definition no_write tr : Prop := Forall (λ o, is_write o = false) tr.

Lemma no_write_status tr : no_write tr → Forall status_only tr.
Proof. intros Hn. eapply Forall_impl; [exact Hn|]. intros o Ho Hw. by rewrite Ho in Hw. Qed.

Lemma rests_quiet cluster w tr w' : no_write tr → follows h w tr w' → rests cluster w tr w'.
Proof.
  intros Hn Hf. split; [by apply no_write_status|]. pose proof (quiet_world h st _ _ _ Hn Hf) as Hq.
  split; [by intros k _|by left].
Qed.

Lemma rests_after cluster w t1 w1 t2 w' :
  no_write t1 → follows h w t1 w1 → rests cluster w1 t2 w' → rests cluster w (t1 ++ t2) w'.
Proof.
  intros Hn Hf (Ht&Hk&Hr). pose proof (quiet_world h st _ _ _ Hn Hf) as Hq.
  split_and!; [apply Forall_app; split; [by apply no_write_status|done]| |by rewrite <-Hq].
  intros k Hne. by rewrite Hk, Hq.
Qed.

(** A stage that does not write. *)
Lemma rests_stage cluster {A} name (m : M OpState (error + A)) k s tr s' a w w' :
  exec (stage name m k) s tr s' a → follows h w tr w' →
  (∀ t1 s1 x w1, exec m s t1 s1 x → follows h w t1 w1 → no_write t1) →
  (∀ t1 s1 y w1 t2, exec m s t1 s1 (inr y) → follows h w t1 w1 → (∀ k, st k w1 = st k w) →
     exec (k y) s1 t2 s' a → follows h w1 t2 w' → rests cluster w1 t2 w') →
  rests cluster w tr w'.
Proof.
  intros (t1&t2&s1&x&->&H1&H2)%exec_stage (w1&Hf1&Hf2)%follows_app Hm Hk.
  pose proof (Hm _ _ _ _ H1 Hf1) as Hn. apply rests_after with w1; [done|done|].
  destruct x as [e|y]; [|eapply Hk; try done; by apply (quiet_world h st _ _ _ Hn)].
  apply rests_quiet; [|done]. by apply (makes_exec _ _ _ _ _ _ (within_fail name e)) in H2 as [_ ?]%Forall_and.
Qed.

(** With tidy configs only the status is written. *)
Lemma rests_finish cluster l s tr s' a w w' :
  l ≠ [] → keep_from_last_applied l = l → lists_all cluster (st KRedkeyConfig w) l →
  st KRedkey w !! meta_key (rk_meta cluster) = Some cluster →
  exec (finish r cluster l) s tr s' a → follows h w tr w' → rests cluster w tr w'.
Proof.
  intros Hne Hk Hl Hst Hx Hf. unfold finish in Hx. destruct l as [|c0 l0]; [done|].
  set (l := c0 :: l0) in *.
  assert (Hcl : ∀ t1 s1 x, exec (cleanup_stage l) s t1 s1 x → t1 = [] ∧ x = inr l).
  { intros t1 s1 x (t2&t3&s2&[rest oe]&->&[(pre&Hpre&Hc&Ho) _]%cleanup_spec&Hr)%exec_bind.
    assert (pre = []) as ->.
    { apply (f_equal length) in Hpre. rewrite length_app, Hk in Hpre. destruct pre; [done|simpl in Hpre; lia]. }
    exec_inv. destruct oe; simpl in Ho; [lia|]. destruct Ho as (Ht&->&_).
    destruct t2; [|done]. by rewrite Hk. }
  eapply rests_stage; [exact Hx|exact Hf|intros ???? [-> _]%Hcl _; by apply Forall_nil|].
  intros t1 s1 y w1 t2 [-> [= ->]]%Hcl Hf1 _ Hx2 Hf2. cbn [follows] in Hf1. subst w1.
  clear Hx; apply exec_stage in Hx2 as (t1&t3&s2&x&->&Ha&Hx). apply follows_app in Hf2 as (w1&Hf1&Hf2).
  assert (Hn : no_write t3).
  { destruct x as [e|cl].
    - by apply (makes_exec _ _ _ _ _ _ (within_fail _ e)) in Hx as [_ ?]%Forall_and.
    - by apply (makes_exec _ _ _ _ _ _ (within_report r cl l)) in Hx as [_ ?]%Forall_and. }
  pose proof (quiet_world h st _ _ _ Hn Hf2) as Hq.
  pose proof (makes_exec _ _ _ _ _ _ (within_aggregate cluster l) Ha) as [Hw Hso]%Forall_and.
  split_and!.
  - apply Forall_app. split; [done|by apply no_write_status].
  - intros k Hkk. rewrite Hq. apply (follows_within h st _ k _ _ _ Hw Hf1). set_solver.
  - rewrite Hq. pose proof (follows_aggregate h st cluster _ _ _ _ x _ _ Hne Hst Ha Hf1) as Hagg.
    destruct x; [by left|by right].
Qed.

(** Everything settled, a reconcile writes the status at most. *)
Lemma rests_reconcile req cluster s tr s' a w w' :
  keyed st w → settled_at req w → st KRedkey w !! req = Some cluster →
  exec (Reconcile r req) s tr s' a → follows h w tr w' → rests cluster w tr w'.
Proof.
  intros Hkw (cl&Hst&Hkey&Hp&Hobs&Hs&Hd&[Hdis (l&Hne&Hl&Hk)]&_) Hst' Hx Hf.
  rewrite Hst in Hst'. injection Hst' as <-. subst req. unfold Reconcile in Hx. exec_call Hx as x.
  match type of Hf with follows _ _ (?o :: ?t) _ => change (o :: t) with ([o] ++ t) in Hf |- * end.
  apply follows_app in Hf as (w1&Hf1&Hf).
  destruct (follows_get h st _ _ _ _ _ _ Hf1) as [Hg _].
  assert (no_write [Obs (Get KRedkey (meta_key (rk_meta cl))) x]) as Hn by (by apply Forall_singleton).
  pose proof (quiet_world h st _ _ _ Hn Hf1) as Hw1. apply rests_after with w1; [done|done|].
  destruct x as [e|cl'].
  { destruct (IsNotFound e); [discriminate (eq_trans (eq_sym Hst) (Hg eq_refl))|].
    apply rests_quiet; [|done].
    by apply (makes_exec _ _ _ _ _ _ (within_fail _ e)) in Hx as [_ ?]%Forall_and. }
  injection (eq_trans (eq_sym Hst) Hg) as <-. rewrite bool_decide_eq_false_2 in Hx by done.
  eapply rests_stage; [exact Hx|exact Hf| |]; clear Hx.
  { intros t1 s1 x w2 H1 Hf2. eapply (follows_rbac_quiet h st); [|exact H1|exact Hf2].
    intros k Hin. eapply synced_eq; [apply Hw1|by apply Hs]. }
  intros t1 s1 [] w2 t2 _ _ Hw2 Hx Hf2. 
  eapply rests_stage; [exact Hx|exact Hf2| |]; clear Hx.
  { intros t3 s2 x w3 H1 Hf3. eapply (ensureRobinDeployment_quiet h st); [|exact H1|exact Hf3].
    unfold deployed. by rewrite Hw2, Hw1. }
  intros t3 s2 [] w3 t4 _ _ Hw3 Hx Hf4.
  assert (Hw : ∀ k, st k w3 = st k w) by (intros k; by rewrite Hw3, Hw2, Hw1).
  assert (Hk3 : keyed st w3) by (intros k key o; rewrite Hw; apply Hkw).
  eapply rests_stage; [exact Hx|exact Hf4| |]; clear Hx.
  { intros t5 s3 x w4 (_&y&->&_)%exec_listConfigs _. by apply Forall_singleton. }
  intros t5 s3 l' w4 t6 H5 Hf5 Hw4 Hx Hf6.
  destruct (follows_list h st cl _ _ _ _ _ _ Hk3 H5 Hf5) as [Hl' _]. rewrite Hw in Hl'.
  assert (l' = l) as -> by (by apply (lists_all_unique cl _ _ _ Hdis)).
  assert (Hnew : needsNewConfig cl (slice_last l) = false).
  { apply not_true_is_false. rewrite needsNewConfig_spec. lia. }
  cbn zeta in Hx. rewrite Hnew in Hx. destruct l as [|c0 l0]; [done|].
  eapply rests_finish; [exact Hne|exact Hk| | |exact Hx|exact Hf6].
  - by rewrite Hw4, Hw.
  - by rewrite Hw4, Hw.
Qed.

(** So it stays settled. *)
Lemma rests_settled cluster w tr w' :
  settled_at (meta_key (rk_meta cluster)) w → st KRedkey w !! meta_key (rk_meta cluster) = Some cluster →
  rests cluster w tr w' → settled_at (meta_key (rk_meta cluster)) w'.
Proof.
  intros (cl&Hst&Hkey&Hp&Hobs&Hs&Hd&Ht&Hcur) Hst' (_&Hoth&Hr).
  assert (∃ cl', st KRedkey w' !! meta_key (rk_meta cluster) = Some cl' ∧ same_redkey cl cl' ∧
    st_ObservedGeneration (rk_Status cl') = om_Generation (rk_meta cl)) as (cl'&Hcl&Hsame&Hobs').
  { rewrite Hst in Hst'. injection Hst' as <-. destruct Hr as [->|Hr]; [|done]. by exists cl. }
  exists cl'. destruct (same_redkey_key _ _ Hsame) as (_&_&Hspec).
  destruct (Hsame) as (Hk'&Hgen&_).
  split_and!; [done|congruence|by rewrite Hspec|congruence| | | |].
  - intros k Hk. eapply same_synced; [done|]. eapply synced_eq; [|by apply Hs].
    apply Hoth. intros ->. apply elem_of_rbac_kinds in Hk. naive_solver.
  - eapply same_deployed; [done|]. unfold deployed. by rewrite Hoth.
  - eapply same_tidy; [done|]. by rewrite Hoth.
  - eapply same_current; [done|]. by rewrite Hoth.
Qed.

(** Reconciles of [req], one after the other, whatever they return. *)
Inductive reconciles (req : NamespacedName) : W → list obs → W → Prop :=
| reconciles_nil w : reconciles req w [] w
| reconciles_cons w s tr s' a w1 tr' w2 :
    exec (Reconcile r req) s tr s' a → follows h w tr w1 → reconciles req w1 tr' w2 →
    reconciles req w (tr ++ tr') w2.

Lemma settled_rests req w tr w' :
  reconciles req w tr w' → keyed st w → settled_at req w →
  Forall status_only tr ∧ settled_at req w' ∧ ∀ k, k ≠ KRedkey → st k w' = st k w.
Proof.
  induction 1 as [w|w s tr s' a w1 tr' w2 Hx Hf _ IH]; intros Hkw Hset; [done|].
  pose proof Hset as (cl&Hst&<-&_).
  pose proof (rests_reconcile _ _ _ _ _ _ _ _ Hkw Hset Hst Hx Hf) as Hr.
  destruct IH as (Ht&Hset'&Hk); [by eapply follows_keyed|by eapply rests_settled|].
  destruct Hr as (Ht0&Hk0&_). split_and!; [by apply Forall_app|done|].
  intros k Hne. by rewrite Hk, Hk0.
Qed.


End convergence.

(** ** The server in memory *)

Section memory.
Context {K : K8sTypes} {D : Deps}.
Import Memory.

Lemma same_status_refl s : same_status s s.
Proof.
  split_and!; try done. induction (st_Conditions s); constructor; [by split_and!|done].
Qed.

Lemma same_config_spec_refl s : same_config_spec s s.
Proof. split_and!; try done. by left. Qed.

Lemma stored_as_refl k (o : obj_of k) : stored_as k o o.
Proof.
  destruct k; simpl; unfold same_meta, same_deployment;
    auto 15 using same_status_refl, same_config_spec_refl.
Qed.

#[export] Instance memory_store : KubeStore handler (λ k w, store k w).
Proof.
  split.
  - intros [k key|ns l v|k o|k o b|k key|rk| |] w k' Hk; simpl in *; try done.
    + destruct (store k w !! _); [done|]. apply store_alter_ne. congruence.
    + destruct (store k w !! _); [|done]. apply store_alter_ne. congruence.
    + destruct (store k w !! _); [|done]. apply store_alter_ne. congruence.
    + unfold update_status. destruct (store KRedkey w !! _); [|done].
      case_decide; [|done]. apply store_alter_ne. congruence.
  - intros k key w. cbn [handler]. by destruct (store k w !! key).
  - intros ns l v w items Hkw [= <-]. split.
    + apply NoDup_filter, (NoDup_fmap_2_strong snd); [|apply NoDup_map_to_list].
      intros [k1 c1] [k2 c2] H1%elem_of_map_to_list H2%elem_of_map_to_list. simpl. intros ->.
      apply (Hkw KRedkeyConfig) in H1. apply (Hkw KRedkeyConfig) in H2. by rewrite <-H1, <-H2.
    + intros c. rewrite list_elem_of_filter. apply and_iff_compat_l.
      rewrite list_elem_of_fmap. split.
      * intros ([k c']&->&Hc%elem_of_map_to_list). pose proof (Hkw KRedkeyConfig _ _ Hc) as E.
        simpl in *. by rewrite E.
      * intros Hc. exists (meta_key (cfg_meta c), c). split; [done|]. by apply elem_of_map_to_list.
  - intros k o w. cbn [handler]. destruct (store k w !! _) eqn:E; [by split|].
    exists o. split; [apply stored_as_refl|]. apply store_alter.
  - intros k o b w. cbn [handler]. destruct (store k w !! _) eqn:E; [|done].
    exists o. split_and!; [done|intros _; apply stored_as_refl|apply store_alter].
  - intros k key w. cbn [handler]. destruct (store k w !! key) eqn:E; [apply store_alter|by split].
  - intros rk w. cbn [handler]. unfold update_status.
    destruct (store KRedkey w !! _) as [cur|] eqn:E; [|done]. case_decide; [|done].
    exists cur. split; [done|split]; [repeat split; apply same_status_refl|].
    apply (store_alter KRedkey).
Qed.

End memory.

Section convergence_witness.
Import Simple.

Definition w_old : RedkeyConfig := Sample.config 1 1 3 ConfigPhaseApplied "Ready".
Definition w_new : Redkey := Sample.redkey 2 (Sample.spec 5 1 false) (Sample.status "" "" 1).
Definition w_before : Memory.World := w_world w_new [w_old].
Definition w_once := run Memory.handler (Reconcile w_reconciler Sample.key w_state) w_before.
Definition w_twice : list obs :=
  run_trace Memory.handler (Reconcile w_reconciler Sample.key w_once.2.1) w_once.1.

Lemma w_stored key c :
  Memory.store KRedkeyConfig w_before !! key = Some c →
  key = meta_key (cfg_meta w_old) ∧ c = w_old.
Proof.
  change (Memory.store KRedkeyConfig w_before) with
    (<[meta_key (cfg_meta w_old) := w_old]> (∅ : gmap NamespacedName RedkeyConfig)).
  by intros [[<- <-]|[_ ?%lookup_empty_Some]]%lookup_insert_Some.
Qed.

Lemma w_configs_ok : configs_ok w_new (Memory.store KRedkeyConfig w_before).
Proof.
  split_and!.
  - by intros c c' [_ [_ ->]%w_stored] [_ [_ ->]%w_stored] _.
  - intros c [_ [_ ->]%w_stored]. by vm_compute.
  - intros seq c Hseq H. pose proof (w_stored _ _ H) as [Hk ->]. apply (f_equal nn_Name) in Hk.
    destruct (dashed_name_inj "rk" "rk" seq 1) as [_ ->]; [lia|lia|exact Hk|].
    split; [|done]. split; [by vm_compute|]. exact H.
Qed.

Lemma w_honest : honest w_new (Memory.store KRedkeyConfig w_before).
Proof.
  split_and!; [done| |done]. intros c g [_ [_ ->]%w_stored] [= <-]. by split.
Qed.

Lemma w_ok : w_once.2.2.2 = None.
Proof. vm_compute. reflexivity. Qed.


End convergence_witness.
