(* ===== verification/ZeroConvergence.v ===== *)
(** * Convergence of the scale to zero

    A Redkey without primaries, against the servers of [Convergence] and with Robin as
    the only other actor. [draining] holds from the moment the user has set the
    primaries to zero, whatever reconciles have failed since; [zeroed] is the goal:
    no config, none of Robin's objects, and a status that says so. *)

From S2P Require Import Prelude Strconv ApiTypes Effects External Samples Metrics Metadata.
From S2P Require Import ConfigLifecycle Robin ScaleZero Reconciler Validation Server Convergence.

Section zero.
Context {K : K8sTypes} {D : Deps} {DS : DepsSpec} {SS : SortSlice} {SP : SortSliceSpec}.
Context {W : Type} (h : ∀ c, W → W * ans c).
Context (st : ∀ k, W → gmap NamespacedName (obj_of k)) {KS : KubeStore h st}.
Variable r : RedkeyReconciler.
Implicit Types (tr : list obs) (w : W) (cluster : Redkey) (l : list RedkeyConfig).
Implicit Types (ts : list target).

(** ** States *)

Abbreviation cfgs w := (st KRedkeyConfig w).

(** No config of the cluster is stored. *)
Definition no_holds cluster w : Prop := ∀ c, ¬ holds cluster (cfgs w) c.

(** None of the objects Robin runs with is stored. *)
Definition robin_gone cluster w : Prop :=
  ∀ k, k ∈ robin_kinds → st k w !! robin_key cluster = None.

(** The configs as only the operator makes them, and the counter not at its end. *)
Definition ordered cluster (m : gmap NamespacedName RedkeyConfig) : Prop :=
  distinct cluster m ∧ (∀ c, holds cluster m c → (0 ≤ cfg_seq c)%Z) ∧
  (∀ seq c, (0 < seq)%Z →
     m !! mkNN (om_Namespace (rk_meta cluster)) (config_name cluster seq) = Some c →
     holds cluster m c ∧ cfg_seq c = seq).

Definition in_range cluster (m : gmap NamespacedName RedkeyConfig) : Prop :=
  ∀ c, holds cluster m c → in_int64 (cfg_seq c + 1).

(** The Redkey under [req] asks for no primaries; Robin's objects go before the last
    config does. *)
Definition draining (req : NamespacedName) cluster w : Prop :=
  keyed st w ∧ st KRedkey w !! req = Some cluster ∧ meta_key (rk_meta cluster) = req ∧
  spec_Primaries (rk_Spec cluster) = 0%Z ∧ ordered cluster (cfgs w) ∧
  (no_holds cluster w → robin_gone cluster w).

(** Nothing is left of the cluster but the Redkey, whose status says so. *)
Definition zeroed (req : NamespacedName) w : Prop :=
  ∃ cluster, draining req cluster w ∧ no_holds cluster w ∧
    st_Replicas (rk_Status cluster) = 0%Z ∧ st_Phase (rk_Status cluster) = PhaseReady ∧
    st_ObservedGeneration (rk_Status cluster) = om_Generation (rk_meta cluster).

(** Robin has been asked to remove the data plane, by the newest config. *)
Definition asked cluster w : Prop :=
  ∃ c, newest cluster (cfgs w) c ∧ cs_Primaries (cfg_Spec c) = 0%Z.

(** Robin reports on a config: any change of its status. *)
Definition reported (c c' : RedkeyConfig) : Prop :=
  meta_key (cfg_meta c') = meta_key (cfg_meta c) ∧
  om_Labels (cfg_meta c') = om_Labels (cfg_meta c) ∧ cfg_Spec c' = cfg_Spec c.

Definition robin_reports cluster (P : RedkeyConfig → RedkeyConfig → Prop) w w' : Prop :=
  (∀ k, k ≠ KRedkeyConfig → st k w' = st k w) ∧
  (cfgs w' = cfgs w ∧ no_holds cluster w ∨
   ∃ c c', holds cluster (cfgs w) c ∧ reported c c' ∧ P c c' ∧
     cfgs w' = <[meta_key (cfg_meta c) := c']> (cfgs w)).

(** It has applied the newest one. *)
Definition robin_applies cluster w w' : Prop :=
  robin_reports cluster (λ c c', newest cluster (cfgs w) c ∧ cfg_phase c' = ConfigPhaseApplied) w w'.

(** ** Configs that stay in order *)

Lemma ordered_ok cluster m : ordered cluster m → in_range cluster m → configs_ok cluster m.
Proof. intros (Hd&Hp&Hn) Hr. split_and!; [done| |done]. intros c Hc. split; [by apply Hp|by apply Hr]. Qed.

Lemma same_ordered cluster cluster' m :
  same_redkey cluster cluster' → ordered cluster m → ordered cluster' m.
Proof.
  intros Hsame (Hd&Hr&Hn). pose proof (same_redkey_key _ _ Hsame) as (Hna&Hns&_). split_and!.
  - intros c c'. rewrite !(same_holds _ _ _ _ Hsame). apply Hd.
  - intros c. rewrite (same_holds _ _ _ _ Hsame). apply Hr.
  - intros seq c Hseq. unfold config_name. rewrite Hna, Hns, (same_holds _ _ _ _ Hsame).
    by apply Hn.
Qed.

Lemma holds_mono cluster m m' c : m' ⊆ m → holds cluster m' c → holds cluster m c.
Proof. intros Hs [Hl Hc]. split; [done|]. by eapply lookup_weaken. Qed.

(** Deletions keep the order. *)
Lemma ordered_subseteq cluster m m' :
  (∀ key c, m !! key = Some c → meta_key (cfg_meta c) = key) →
  m' ⊆ m → ordered cluster m → ordered cluster m'.
Proof.
  intros Hk Hs (Hd&Hp&Hn). split_and!.
  - intros c c' H1 H2. apply Hd; by eapply holds_mono.
  - intros c H1. apply Hp. by eapply holds_mono.
  - intros seq c Hseq Hc. pose proof (lookup_weaken _ _ _ _ Hc Hs) as Hc'.
    destruct (Hn seq c Hseq Hc') as [[Hl _] E]. split; [|done]. split; [done|].
    by rewrite (Hk _ _ Hc').
Qed.

(** So does the creation of the next config. *)
Lemma ordered_insert cluster m c :
  ordered cluster m → holds cluster (<[meta_key (cfg_meta c) := c]> m) c →
  meta_key (cfg_meta c) = mkNN (om_Namespace (rk_meta cluster)) (config_name cluster (cfg_seq c)) →
  m !! meta_key (cfg_meta c) = None → (0 < cfg_seq c)%Z →
  (∀ d, holds cluster m d → (cfg_seq d < cfg_seq c)%Z) →
  ordered cluster (<[meta_key (cfg_meta c) := c]> m).
Proof.
  intros (Hd&Hp&Hn) Hc Hkey Hfresh Hpos Hmax.
  assert (Hold : ∀ d, holds cluster (<[meta_key (cfg_meta c) := c]> m) d → d = c ∨ holds cluster m d).
  { intros d [Hl [[_ <-]|[_ ?]]%lookup_insert_Some]; [by left|]. right. by split. }
  assert (Hmono : ∀ d, holds cluster m d → holds cluster (<[meta_key (cfg_meta c) := c]> m) d).
  { intros d [Hl Hk]. split; [done|]. by apply lookup_insert_Some; right; split; [congruence|]. }
  split_and!.
  - intros d d' [->|H1]%Hold [->|H2]%Hold Heq; [done| | |by apply Hd].
    + specialize (Hmax d' H2). lia.
    + specialize (Hmax d H1). lia.
  - intros d [->|H1]%Hold; [lia|by apply Hp].
  - intros seq d Hseq [[E <-]|[_ Hl]]%lookup_insert_Some.
    + split; [done|]. rewrite Hkey in E. injection E as E.
      apply dashed_name_inj in E as [_ E]; [done|lia..].
    + destruct (Hn seq d Hseq Hl) as [H1 H2]. split; [by apply Hmono|done].
Qed.

(** ** Deletions *)

(** What only deletes and reads. *)
Definition shrinks w w' : Prop := ∀ k, st k w' ⊆ st k w.

Lemma shrinks_trans w1 w2 w3 : shrinks w1 w2 → shrinks w2 w3 → shrinks w1 w3.
Proof. intros H1 H2 k. etransitivity; [apply H2|apply H1]. Qed.

Lemma shrinks_absent k key w w' : shrinks w w' → st k w !! key = None → st k w' !! key = None.
Proof. intros Hs Hn. by eapply lookup_weaken_None. Qed.

Lemma follows_delete k key x tr w w' :
  follows h w (Obs (Delete k key) x :: tr) w' →
  ∃ w1, shrinks w w1 ∧ follows h w1 tr w' ∧ (∀ k', k' ≠ k → st k' w1 = st k' w) ∧
    (gone (Obs (Delete k key) x) → st k w1 !! key = None).
Proof.
  intros [Hx Hf]. exists (h (Delete k key) w).1. split; [|split; [exact Hf|split]].
  - intros k'. destruct (decide (k' = k)) as [->|Hne].
    + pose proof (delete_store (h := h) (st := st) k key w) as Hd.
      destruct (h (Delete k key) w).2; [by destruct Hd as [-> _]|].
      rewrite Hd. apply delete_subseteq.
    + rewrite (store_frame (h := h) (Delete k key) w k'); [done|]. cbn. congruence.
  - intros k' Hne. apply (store_frame (h := h)). cbn. congruence.
  - intros Hg. pose proof (delete_store (h := h) (st := st) k key w) as Hd.
    change ((h (Delete k key) w).2 = x) in Hx. rewrite Hx in Hd. destruct x as [e|u].
    + destruct Hd as [-> Hn]. by apply Hn.
    + rewrite Hd. apply lookup_delete_eq.
Qed.

Lemma follows_delete_each ts s tr s' res w w' :
  exec (delete_each ts) s tr s' res → follows h w tr w' →
  shrinks w w' ∧ (∀ k, k ∉ tg_kind <$> ts → st k w' = st k w) ∧
  (res = inr tt → ∀ t, t ∈ ts → st (tg_kind t) w' !! tg_key t = None).
Proof.
  revert s tr w. induction ts as [|t ts IH]; intros s tr w Hx Hf; cbn [delete_each] in Hx.
  { exec_inv. split; [by intros k|]. split; [done|].
    by intros _ t ?%elem_of_nil. }
  exec_call Hx as x. apply follows_delete in Hf as (w1&Hs1&Hf&Hoth&Hg).
  assert (Hrest : ∀ s0 tr0, exec (delete_each ts) s0 tr0 s' res → follows h w1 tr0 w' →
    gone (Obs (Delete (tg_kind t) (tg_key t)) x) →
    shrinks w w' ∧ (∀ k, k ∉ tg_kind <$> t :: ts → st k w' = st k w) ∧
    (res = inr tt → ∀ t', t' ∈ t :: ts → st (tg_kind t') w' !! tg_key t' = None)).
  { intros s0 tr0 Hx0 Hf0 Hgone. destruct (IH _ _ _ Hx0 Hf0) as (Hs&Hk&Hr). split_and!.
    - by eapply shrinks_trans.
    - intros k [??]%not_elem_of_cons. by rewrite Hk, Hoth.
    - intros Hres t' [->|Ht']%elem_of_cons; [|by apply Hr].
      eapply shrinks_absent; [exact Hs|by apply Hg]. }
  destruct x as [e|u].
  - destruct (IsNotFound e) eqn:He; [by eapply Hrest|]. exec_inv.
    split_and!; [done| |done]. intros k [??]%not_elem_of_cons. by apply Hoth.
  - by eapply Hrest.
Qed.

(** ** The status *)

(** The recorded topology is the same. *)
Definition same_topology cluster (rk : Redkey) : Prop :=
  st_LastAppliedPrimaries (rk_Status rk) = st_LastAppliedPrimaries (rk_Status cluster) ∧
  st_LastAppliedReplicasPerPrimary (rk_Status rk) =
    st_LastAppliedReplicasPerPrimary (rk_Status cluster).

(** The status says that the cluster is at zero, and no other topology. *)
Definition says_zero cluster (rk : Redkey) : Prop :=
  same_redkey cluster rk ∧ st_Replicas (rk_Status rk) = 0%Z ∧
  st_Phase (rk_Status rk) = PhaseReady ∧
  st_ObservedGeneration (rk_Status rk) = om_Generation (rk_meta cluster) ∧
  same_topology cluster rk.

(** The stored Redkey keeps its spec; [Q] holds of it if anything was written. *)
Definition updates cluster (Q : Redkey → Prop) w w' : Prop :=
  (∀ k, k ≠ KRedkey → st k w' = st k w) ∧
  ∃ rk, same_redkey cluster rk ∧ Q rk ∧
    st KRedkey w' !! meta_key (rk_meta cluster) = Some rk.

Lemma same_redkey_refl cluster : same_redkey cluster cluster.
Proof. done. Qed.

Lemma follows_zero_status cluster s tr s' res w w' :
  st KRedkey w !! meta_key (rk_meta cluster) = Some cluster →
  exec (updateStatusScaledToZero cluster) s tr s' res → follows h w tr w' →
  updates cluster (λ rk, (rk = cluster ∨ says_zero cluster rk) ∧
                         (is_Some (ok_of res) → says_zero cluster rk)) w w'.
Proof.
  intros Hst (->&now&clk&x&->&->)%exec_updateStatusScaledToZero Hf.
  assert (Hk : ∀ k, k ≠ KRedkey → st k w' = st k w).
  { intros k Hne. apply (follows_within h st [KRedkey] k _ _ _) in Hf; [done| |set_solver].
    by repeat apply Forall_cons_2; auto with redkey. }
  apply (follows_update h st w [Obs Now now; Obs Clock clk]) in Hf;
    [|by repeat apply Forall_cons_2].
  split; [done|]. destruct x as [e|u].
  - exists cluster. split_and!; [done|by left|by intros []|by rewrite Hf].
  - destruct Hf as (cur&Hcur&(Hm&Hgen&Hsp&Hs)&->). cbn [rk_meta with_status] in *.
    injection (eq_trans (eq_sym Hst) Hcur) as <-. exists u.
    assert (same_redkey cluster u) as Hu by (split_and!; [by destruct Hm|done|done]).
    destruct Hs as (Hrep&Hph&_&_&_&Hobs&Hlp&Hlr).
    assert (says_zero cluster u).
    { split; [done|]. rewrite Hrep, Hph, Hobs. by split_and!. }
    split_and!; [done|by right|done|apply lookup_insert_eq].
Qed.

(** ** The teardown *)

Lemma robin_kinds_spec k :
  k ∈ robin_kinds ↔ k = KDeployment ∨ k = KRoleBinding ∨ k = KRole ∨ k = KServiceAccount.
Proof. unfold robin_kinds. set_solver. Qed.

Lemma follows_deleteAllConfigs cluster s tr s' res w w' :
  keyed st w → exec (deleteAllConfigs cluster) s tr s' res → follows h w tr w' →
  shrinks w w' ∧ (∀ k, k ≠ KRedkeyConfig → st k w' = st k w) ∧
  (res = inr tt → no_holds cluster w').
Proof.
  intros Hkw Hx Hf. unfold deleteAllConfigs in Hx. exec_call Hx as x.
  destruct Hf as [Hans Hf]. cbn in Hans.
  set (w1 := (h (ListConfigs (om_Namespace (rk_meta cluster)) ClusterLabel
                   (om_Name (rk_meta cluster))) w).1) in *.
  match type of Hf with follows _ _ ?t _ => change (follows h w1 t w') in Hf end.
  assert (Hw1 : ∀ k, st k w1 = st k w) by (intros k; by apply (store_frame (h := h))).
  destruct x as [e|items].
  { exec_inv. split_and!; [intros k; by rewrite Hw1|intros k _; apply Hw1|done]. }
  apply (list_store (h := h) (st := st)) in Hans as [_ Hin]; [|done].
  destruct (follows_delete_each _ _ _ _ _ _ _ Hx Hf) as (Hs&Hk&Hr). split_and!.
  - intros k. by rewrite <-(Hw1 k).
  - intros k Hne. rewrite <-(Hw1 k). apply Hk. intros (t&->&Ht)%list_elem_of_fmap.
    by apply list_elem_of_fmap in Ht as (c&->&_).
  - intros -> c [Hl Hc]. assert (Hc' : c ∈ items).
    { apply Hin. split; [done|]. rewrite <-Hw1. exact (lookup_weaken _ _ _ _ Hc (Hs KRedkeyConfig)). }
    assert (Ht : config_target c ∈ config_target <$> items) by (apply list_elem_of_fmap; eauto).
    discriminate (eq_trans (eq_sym Hc) (Hr eq_refl _ Ht)).
Qed.

(** The status update ends the run, but for the result. *)
Lemma exec_then_requeue (m : M OpState (error + Redkey)) s tr s' res :
  exec (bindE m (requeue r)) s tr s' res →
  ∃ res', exec m s tr s' res' ∧ (is_Some (ok_of res) → is_Some (ok_of res')).
Proof.
  intros [(e&H&->)|(t4&tr4&s4&cl&->&H&Hx)]%exec_bindE.
  - exists (inl e). split; [done|by intros []].
  - unfold requeue in Hx. exec_inv. rewrite app_nil_r. exists (inr cl). split; [done|by eexists].
Qed.

Lemma follows_tear_down cluster s tr s' res w w' :
  keyed st w → st KRedkey w !! meta_key (rk_meta cluster) = Some cluster →
  exec (tear_down r cluster) s tr s' res → follows h w tr w' →
  (∀ k, k ≠ KRedkey → st k w' ⊆ st k w) ∧
  (cfgs w' = cfgs w ∨ robin_gone cluster w') ∧
  ∃ rk, st KRedkey w' !! meta_key (rk_meta cluster) = Some rk ∧ same_redkey cluster rk ∧
    (rk = cluster ∨ says_zero cluster rk) ∧
    (is_Some (ok_of res) → robin_gone cluster w' ∧ no_holds cluster w' ∧ says_zero cluster rk).
Proof.
  intros Hkw Hst Hx Hf. unfold tear_down in Hx.
  apply exec_bindE in Hx as [(e&H1&->)|(t1&tr1&s1&[]&->&H1&Hx)].
  { apply follows_delete_each with (w := w) (w' := w') in H1 as (Hs&Hk&_); [|done].
    split; [by intros k _|]. split; [left; apply Hk; set_solver|].
    exists cluster. rewrite Hk by set_solver. split_and!; [done|done|by left|by intros []]. }
  apply follows_app in Hf as (w1&Hf1&Hf).
  pose proof (follows_keyed h st _ _ _ Hkw Hf1) as Hk1.
  destruct (follows_delete_each _ _ _ _ _ _ _ H1 Hf1) as (Hs1&Ho1&Hr1).
  apply exec_bindE in Hx as [(e&H2&->)|(t2&tr2&s2&[]&->&H2&Hx)].
  { destruct (follows_delete_each _ _ _ _ _ _ _ H2 Hf) as (Hs2&Ho2&_).
    split; [intros k _; by apply (shrinks_trans w w1 w')|].
    split; [left; rewrite Ho2, Ho1; [done|set_solver..]|].
    exists cluster. rewrite Ho2, Ho1 by set_solver. split_and!; [done|done|by left|by intros []]. }
  apply follows_app in Hf as (w2&Hf2&Hf).
  pose proof (follows_keyed h st _ _ _ Hk1 Hf2) as Hk2.
  destruct (follows_delete_each _ _ _ _ _ _ _ H2 Hf2) as (Hs2&Ho2&Hr2).
  assert (Hgone : robin_gone cluster w2).
  { intros k [->|Hk]%robin_kinds_spec.
    - eapply shrinks_absent; [exact Hs2|]. exact (Hr1 eq_refl (deployment_target cluster) ltac:(set_solver)).
    - apply (Hr2 eq_refl (rbac_target cluster k)). apply list_elem_of_fmap. exists k. set_solver. }
  assert (Hs02 : shrinks w w2) by (by eapply shrinks_trans).
  assert (HR2 : st KRedkey w2 = st KRedkey w) by (rewrite Ho2, Ho1; [done|set_solver..]).
  apply exec_bindE in Hx as [(e&H3&->)|(t3&tr3&s3&[]&->&H3&Hx)].
  { destruct (follows_deleteAllConfigs _ _ _ _ _ _ _ Hk2 H3 Hf) as (Hs3&Ho3&_).
    split; [intros k _; by apply (shrinks_trans w w2 w')|].
    split; [right; intros k Hk; by eapply shrinks_absent, Hgone|].
    exists cluster. rewrite Ho3, HR2 by done. split_and!; [done|done|by left|by intros []]. }
  apply follows_app in Hf as (w3&Hf3&Hf).
  destruct (follows_deleteAllConfigs _ _ _ _ _ _ _ Hk2 H3 Hf3) as (Hs3&Ho3&Hn3).
  assert (Hs03 : shrinks w w3) by (by eapply shrinks_trans).
  assert (HR3 : st KRedkey w3 = st KRedkey w) by (by rewrite Ho3).
  rewrite <-HR3 in Hst. specialize (Hn3 eq_refl).
  apply exec_then_requeue in Hx as (res'&H4&Hok).
  destruct (follows_zero_status _ _ _ _ _ _ _ Hst H4 Hf) as [Ho4 (rk&Hsame&[Hor Hz]&Hrk)].
  assert (Hgone' : robin_gone cluster w').
  { intros k Hk. rewrite Ho4; [by eapply shrinks_absent, Hgone|].
    apply robin_kinds_spec in Hk. naive_solver. }
  split; [intros k Hne; rewrite Ho4 by done; apply Hs03|]. split; [by right|].
  exists rk. split_and!; [done|done|done|]. intros Hr. split_and!; [done| |by auto].
  intros c. rewrite Ho4 by done. apply Hn3.
Qed.

(** ** Keeping Robin running *)

Lemma within_rbac cluster :
  makes (within [KServiceAccount; KRole; KRoleBinding]) (ensureRBAC cluster).
Proof. unfold ensureRBAC, ensureServiceAccount, ensureRole, ensureRoleBinding. makes_tac. Qed.

Lemma follows_keep_rbac cluster s tr s' res w w' :
  exec (ensureRBAC cluster) s tr s' res → follows h w tr w' →
  st KRedkey w' = st KRedkey w ∧ cfgs w' = cfgs w.
Proof.
  intros Hx Hf. pose proof (makes_exec _ _ _ _ _ _ (within_rbac cluster) Hx) as Hw.
  split; apply (follows_within h st _ _ _ _ _ Hw Hf); set_solver.
Qed.

Lemma follows_keep_deployment cluster s tr s' res w w' :
  exec (ensureRobinDeployment cluster) s tr s' res → follows h w tr w' →
  st KRedkey w' = st KRedkey w ∧ cfgs w' = cfgs w.
Proof.
  intros Hx Hf. pose proof (makes_exec _ _ _ _ _ _ (within_deployment cluster) Hx) as Hw.
  split; apply (follows_within h st _ _ _ _ _ Hw Hf); set_solver.
Qed.

(** The config that asks Robin to stop is stored as the newest. *)
Definition asks cluster w w' : Prop := ∃ c, added cluster (cfgs w) (cfgs w') c.

Lemma follows_hand_over cluster s tr s' l c res w w' :
  configs_ok cluster (cfgs w) → lists_all cluster (cfgs w) l → slice_last l = Some c →
  exec (hand_over_to_robin r cluster c) s tr s' res → follows h w tr w' →
  st KRedkey w' = st KRedkey w ∧
  match res with inr _ => asks cluster w w' | inl _ => asks cluster w w' ∨ cfgs w' = cfgs w end.
Proof.
  intros Hok Hl Hlast Hx Hf. unfold hand_over_to_robin in Hx.
  apply exec_bindE in Hx as [(e&H1&->)|(t1&tr1&s1&[]&->&H1&Hx)].
  { destruct (follows_keep_rbac _ _ _ _ _ _ _ H1 Hf). auto. }
  apply follows_app in Hf as (w1&Hf1&Hf).
  destruct (follows_keep_rbac _ _ _ _ _ _ _ H1 Hf1) as [ER1 EC1].
  apply exec_bindE in Hx as [(e&H2&->)|(t2&tr2&s2&[]&->&H2&Hx)].
  { destruct (follows_keep_deployment _ _ _ _ _ _ _ H2 Hf) as [-> ->]. auto. }
  apply follows_app in Hf as (w2&Hf2&Hf).
  destruct (follows_keep_deployment _ _ _ _ _ _ _ H2 Hf2) as [ER2 EC2].
  rewrite ER1 in ER2. rewrite EC1 in EC2. clear ER1 EC1 Hf1 Hf2 H1 H2.
  apply exec_bindE in Hx as [(e&H3&->)|(t3&tr3&s3&[]&->&H3&Hx)].
  - pose proof (makes_exec _ _ _ _ _ _ (within_create cluster _) H3) as Hw.
    rewrite (follows_within h st _ KRedkey _ _ _ Hw Hf) by set_solver. split; [done|]. right.
    rewrite <-EC2. apply exec_createNewConfig in H3.
    destruct (SetControllerReference _ _) as [e'|m]; [by destruct H3 as (->&_); rewrite Hf|].
    destruct H3 as (x&->&H3). destruct Hf as [Hans Hf]. cbn [follows] in Hf. subst w'.
    pose proof (create_store (h := h) (st := st) KRedkeyConfig
      (new_config cluster (next_seq (Some c)) m) w2) as Hc.
    cbn [obs_call obs_ans] in *. rewrite Hans in Hc. destruct x; [by destruct Hc|naive_solver].
  - unfold requeue in Hx. exec_inv. rewrite app_nil_r in Hf.
    pose proof (makes_exec _ _ _ _ _ _ (within_create cluster _) H3) as Hw.
    rewrite (follows_within h st _ KRedkey _ _ _ Hw Hf) by set_solver. split; [done|].
    rewrite <-Hlast in H3. rewrite <-EC2 in Hok, Hl. unfold asks. rewrite <-EC2.
    exact (follows_created h st cluster _ _ _ _ _ _ Hok Hl H3 Hf).
Qed.

Lemma follows_wait cluster s tr s' l res w w' :
  l ≠ [] → st KRedkey w !! meta_key (rk_meta cluster) = Some cluster →
  exec (wait_for_robin r cluster l) s tr s' res → follows h w tr w' →
  cfgs w' = cfgs w ∧
  ∃ rk, st KRedkey w' !! meta_key (rk_meta cluster) = Some rk ∧ same_redkey cluster rk ∧
    (rk = cluster ∨ st_ObservedGeneration (rk_Status rk) = om_Generation (rk_meta cluster)).
Proof.
  intros Hne Hst Hx Hf. unfold wait_for_robin in Hx.
  apply exec_bindE in Hx as [(e&H1&->)|(t1&tr1&s1&[]&->&H1&Hx)].
  { destruct (follows_keep_rbac _ _ _ _ _ _ _ H1 Hf) as [-> ->]. eauto 6 using same_redkey_refl. }
  apply follows_app in Hf as (w1&Hf1&Hf).
  destruct (follows_keep_rbac _ _ _ _ _ _ _ H1 Hf1) as [ER1 EC1]. rewrite <-ER1 in Hst.
  rewrite <-EC1. clear ER1 EC1 H1 Hf1.
  apply exec_bindE in Hx as [(e&H2&->)|(t2&tr2&s2&[]&->&H2&Hx)].
  { destruct (follows_keep_deployment _ _ _ _ _ _ _ H2 Hf) as [-> ->]. eauto 6 using same_redkey_refl. }
  apply follows_app in Hf as (w2&Hf2&Hf).
  destruct (follows_keep_deployment _ _ _ _ _ _ _ H2 Hf2) as [ER2 EC2]. rewrite <-ER2 in Hst.
  rewrite <-EC2. clear ER2 EC2 H2 Hf2.
  apply exec_then_requeue in Hx as (ag&H3&_).
  pose proof (makes_exec _ _ _ _ _ _ (within_aggregate cluster l) H3) as [Hw _]%Forall_and.
  split; [apply (follows_within h st _ _ _ _ _ Hw Hf); set_solver|].
  pose proof (follows_aggregate h st cluster _ _ _ _ ag _ _ Hne Hst H3 Hf) as Ha.
  destruct ag as [e|cl]; [rewrite Ha; eauto 6 using same_redkey_refl|].
  destruct Ha as (rk&Hrk&Hsame&Hobs). eauto 6.
Qed.

(** ** One reconcile *)

Lemma same_robin_key cluster cluster' :
  same_redkey cluster cluster' → robin_key cluster' = robin_key cluster.
Proof. intros (Hn&Hns&_)%same_redkey_key. unfold robin_key, robin_name. by rewrite Hn, Hns. Qed.

Lemma draining_intro req cluster rk w w' :
  draining req cluster w → keyed st w' → st KRedkey w' !! req = Some rk →
  same_redkey cluster rk → ordered cluster (cfgs w') →
  (no_holds cluster w' → robin_gone cluster w') → draining req rk w'.
Proof.
  intros (_&_&<-&Hp&_) Hkw Hrk Hsame Ho Hg. pose proof (same_redkey_key _ _ Hsame) as (_&_&Hs).
  split_and!; [done|done|by apply Hsame|by rewrite Hs|by eapply same_ordered|].
  intros Hn k Hk. rewrite (same_robin_key _ _ Hsame). apply Hg; [|done].
  intros c Hc. apply (Hn c). by apply (same_holds _ _ _ _ Hsame).
Qed.

Lemma same_no_holds cluster rk w : same_redkey cluster rk → no_holds cluster w → no_holds rk w.
Proof. intros Hs Hn c Hc. apply (Hn c). by apply (same_holds _ _ _ _ Hs). Qed.

Lemma asks_ordered cluster w w' :
  ordered cluster (cfgs w) → asks cluster w w' → ordered cluster (cfgs w').
Proof.
  intros Ho (c&Hc&_&_&_&Hkey&Hfresh&Hst&Hpos&Hmax). rewrite Hst in *. by apply ordered_insert.
Qed.

Lemma asks_asked cluster w w' :
  spec_Primaries (rk_Spec cluster) = 0%Z → asks cluster w w' → asked cluster w'.
Proof.
  intros Hz (c&Ha). exists c. split; [by eapply added_newest|].
  destruct Ha as (_&Hc&_). by rewrite (configures_primaries _ _ Hc).
Qed.

Definition finished cluster w : Prop :=
  ∀ c, newest cluster (cfgs w) c → cs_Primaries (cfg_Spec c) = 0%Z ∧ cfg_phase c = ConfigPhaseApplied.

(** What a run of the reconcile for zero primaries comes to. *)
Definition zero_run req cluster w w' (ok : Prop) : Prop :=
  ∃ rk, draining req rk w' ∧ same_redkey cluster rk ∧
    (no_holds cluster w → no_holds rk w' ∧ (rk = cluster ∨ says_zero cluster rk)) ∧
    (ok → zeroed req w' ∨ asked rk w') ∧ (ok → finished cluster w → zeroed req w') ∧
    (finished cluster w → same_topology cluster rk).

Lemma zeroed_intro req cluster rk w :
  draining req rk w → no_holds rk w → says_zero cluster rk → zeroed req w.
Proof.
  intros Hd Hn (Hsame&Hr&Hp&Ho&_). exists rk. split_and!; try done. destruct Hsame as (_&Hg&_).
  by rewrite Hg.
Qed.

Lemma zero_topology cluster rk : rk = cluster ∨ says_zero cluster rk → same_topology cluster rk.
Proof. intros [->|Hz]; [done|apply Hz]. Qed.

Lemma quiet_zero_run req cluster w w' :
  draining req cluster w → (∀ k, st k w' = st k w) → zero_run req cluster w w' False.
Proof.
  intros Hd Hq. exists cluster. split.
  - pose proof Hd as (Hk&Hst&Hkey&Hp&Ho&Hg).
    eapply draining_intro; [exact Hd| |by rewrite Hq|done|by rewrite Hq|].
    + intros k key o. rewrite Hq. apply Hk.
    + intros Hn k Hkk. rewrite Hq. apply Hg; [|done]. intros c. rewrite <-Hq. apply Hn.
  - split; [done|]. split; [|by split_and!]. intros Hn. split; [|by left]. intros c. rewrite Hq. apply Hn.
Qed.

(** The store right after the listing. *)
Definition listed_in cluster w w1 l : Prop :=
  (∀ k, st k w1 = st k w) ∧ keyed st w1 ∧ lists_all cluster (cfgs w1) l.

Lemma run_tear_down req cluster l c s tr s' res w w1 w' :
  draining req cluster w → listed_in cluster w w1 l → newest cluster (cfgs w) c →
  exec (tear_down r cluster) s tr s' res → follows h w1 tr w' →
  zero_run req cluster w w' (is_Some (ok_of res)).
Proof.
  intros Hdr (Hw1&Hk1&Hl) [Hnew _] Hx Hf. pose proof Hdr as (_&Hst&Hkey&_&Ho&_).
  rewrite <-Hkey, <-Hw1 in Hst. rewrite <-Hw1 in Ho, Hnew.
  pose proof (follows_keyed h st _ _ _ Hk1 Hf) as Hk'.
  destruct (follows_tear_down _ _ _ _ _ _ _ Hk1 Hst Hx Hf) as (Hs&Hgone&rk&Hrk&Hsame&Hor&Hok).
  assert (Hd : draining req rk w').
  { rewrite Hkey in Hrk. eapply draining_intro; [exact Hdr|done..| |].
    - eapply ordered_subseteq;
        [exact (Hk1 KRedkeyConfig)|exact (Hs KRedkeyConfig ltac:(done))|exact Ho].
    - intros Hn. destruct Hgone as [E|?]; [|done]. exfalso. apply (Hn c). by rewrite E. }
  assert (Hfinal : is_Some (ok_of res) → zeroed req w').
  { intros (_&Hn&Hz')%Hok. eapply zeroed_intro; [done| |done]. by eapply same_no_holds. }
  exists rk. split_and!; [done|done| |by auto|by auto|by intros _; apply zero_topology].
  intros Hn. exfalso. apply (Hn c). by rewrite <-Hw1.
Qed.

Lemma run_wait req cluster l c s tr s' res w w1 w' :
  draining req cluster w → listed_in cluster w w1 l → newest cluster (cfgs w) c → l ≠ [] →
  cs_Primaries (cfg_Spec c) = 0%Z → cfg_phase c ≠ ConfigPhaseApplied →
  exec (wait_for_robin r cluster l) s tr s' res → follows h w1 tr w' →
  zero_run req cluster w w' (is_Some (ok_of res)).
Proof.
  intros Hdr (Hw1&Hk1&Hl) Hnew Hne Hz Ha Hx Hf. pose proof Hdr as (_&Hst&Hkey&_&Ho&_).
  rewrite <-Hkey, <-Hw1 in Hst. pose proof (follows_keyed h st _ _ _ Hk1 Hf) as Hk'.
  destruct (follows_wait _ _ _ _ _ _ _ _ Hne Hst Hx Hf) as [EC (rk&Hrk&Hsame&_)].
  rewrite Hw1 in EC. rewrite Hkey in Hrk.
  assert (Hsome : ¬ no_holds cluster w) by (intros Hn; by apply (Hn c), Hnew).
  exists rk. split_and!; [|done|by intros ?%Hsome| | |].
  - eapply draining_intro; [exact Hdr|done..|by rewrite EC|]. intros Hn. exfalso. apply Hsome.
    intros d. rewrite <-EC. apply Hn.
  - intros _. right. exists c. split; [|done]. destruct Hnew as [Hc1 Hc2]. split.
    + apply (same_holds _ _ _ _ Hsame). by rewrite EC.
    + intros d Hd%(same_holds _ _ _ _ Hsame). apply Hc2. by rewrite <-EC.
  - intros _ Hfin. by destruct (Hfin c Hnew).
  - intros Hfin. by destruct (Hfin c Hnew).
Qed.

Lemma run_hand_over req cluster l c s tr s' res w w1 w' :
  draining req cluster w → listed_in cluster w w1 l → in_range cluster (cfgs w) →
  slice_last l = Some c → cs_Primaries (cfg_Spec c) ≠ 0%Z →
  exec (hand_over_to_robin r cluster c) s tr s' res → follows h w1 tr w' →
  zero_run req cluster w w' (is_Some (ok_of res)).
Proof.
  intros Hdr (Hw1&Hk1&Hl) Hrange Hc Hz Hx Hf. pose proof Hdr as (_&Hst&Hkey&Hp&Ho&_).
  assert (Hnew : newest cluster (cfgs w) c).
  { apply (listed_newest _ _ l); [by rewrite <-Hw1|done]. }
  rewrite <-(Hw1 KRedkeyConfig) in Ho, Hrange. rewrite <-Hw1 in Hst.
  pose proof (follows_keyed h st _ _ _ Hk1 Hf) as Hk'.
  destruct (follows_hand_over _ _ _ _ _ _ _ _ _ (ordered_ok _ _ Ho Hrange) Hl Hc Hx Hf) as [ER HC].
  rewrite <-ER in Hst.
  assert (Hor : asks cluster w1 w' ∨ cfgs w' = cfgs w1) by (destruct res; [done|by left]).
  exists cluster. split_and!; [|done| | | |done].
  - eapply draining_intro; [exact Hdr|done..| |].
    + destruct Hor as [Has| ->]; [by eapply asks_ordered|done].
    + intros Hn. exfalso. destruct Hor as [(d&Hd&_)|E]; [by apply (Hn d)|].
      apply (Hn c). rewrite E, Hw1. apply Hnew.
  - intros Hn. exfalso. apply (Hn c), Hnew.
  - intros Hok. right. destruct res as [e|a]; [by destruct Hok|]. by eapply asks_asked.
  - intros _ Hfin. by destruct (Hfin c Hnew).
Qed.

(** Without configs only the status is written. *)
Lemma run_idle req cluster s tr s' res w w1 w' (Q : Prop) :
  draining req cluster w → (∀ k, st k w1 = st k w) → keyed st w' → no_holds cluster w →
  exec (updateStatusScaledToZero cluster) s tr s' res → follows h w1 tr w' →
  (Q → is_Some (ok_of res)) → zero_run req cluster w w' Q.
Proof.
  intros Hdr Hw1 Hk' Hn Hx Hf HQ. pose proof Hdr as (_&Hst&Hkey&_&Ho&Hg).
  rewrite <-Hkey, <-Hw1 in Hst.
  destruct (follows_zero_status _ _ _ _ _ _ _ Hst Hx Hf) as [Ho4 (rk&Hsame&[Hor Hz]&Hrk)].
  rewrite Hkey in Hrk.
  assert (Hn' : no_holds rk w').
  { eapply same_no_holds; [done|]. intros d. rewrite Ho4, Hw1 by done. apply Hn. }
  assert (Hd : draining req rk w').
  { eapply draining_intro; [exact Hdr|done..|by rewrite Ho4, Hw1|].
    intros _ k Hk. rewrite Ho4, Hw1; [by apply Hg|]. apply robin_kinds_spec in Hk. naive_solver. }
  assert (Hfinal : Q → zeroed req w') by (intros HQ'; eapply zeroed_intro; [done..|by apply Hz, HQ]).
  exists rk. split_and!; [done|done|done|by auto|by auto|by intros _; apply zero_topology].
Qed.

Lemma follows_scale_to_zero req cluster s tr s' res w w' :
  draining req cluster w → in_range cluster (cfgs w) →
  exec (reconcileScaleToZero r cluster) s tr s' res → follows h w tr w' →
  zero_run req cluster w w' (is_Some (ok_of res)).
Proof.
  intros Hdr Hrange Hx Hf. unfold reconcileScaleToZero in Hx.
  apply exec_bindE in Hx as [(e&H1&->)|(t1&tr1&s1&l&->&H1&Hx)].
  { apply exec_listConfigs in H1 as (_&x&->&_).
    destruct (quiet_zero_run req cluster w w' Hdr) as (rk&?&?&?&_&_&?).
    { eapply (quiet_world h st); [|exact Hf]. by apply Forall_singleton. }
    exists rk. split_and!; [done..|by intros []|by intros []|done]. }
  apply follows_app in Hf as (w1&Hf1&Hf). pose proof Hdr as (Hkw&_).
  destruct (follows_list h st cluster _ _ _ _ _ _ Hkw H1 Hf1) as [Hl Hw1].
  pose proof (follows_keyed h st _ _ _ Hkw Hf1) as Hk1.
  assert (Hin : listed_in cluster w w1 l) by (split_and!; [done|done|by rewrite Hw1]).
  destruct (slice_last l) as [c|] eqn:Hc.
  - pose proof (listed_newest _ _ _ _ Hl Hc) as Hnew.
    case_bool_decide as Hz; cbn [negb] in Hx; [case_bool_decide as Ha|].
    + by eapply run_tear_down.
    + eapply run_wait; try done. by intros ->.
    + by eapply run_hand_over.
  - assert (l = []) as -> by (by apply last_None).
    apply exec_then_requeue in Hx as (res'&Hx&Hok).
    eapply run_idle; try done; [by eapply follows_keyed|].
    intros d Hd. destruct Hl as (_&_&Hl). apply Hl in Hd. by apply elem_of_nil in Hd.
Qed.

(** Only what is stored counts. *)
Lemma draining_eq req cluster w w' :
  (∀ k, st k w' = st k w) → draining req cluster w → draining req cluster w'.
Proof.
  intros Hq (Hk&Hst&Hkey&Hp&Ho&Hg). unfold draining, no_holds. rewrite !Hq. split_and!; try done.
  - intros k key o. rewrite Hq. apply Hk.
  - intros Hn k Hkk. rewrite Hq. by apply Hg.
Qed.

Lemma zero_run_eq req cluster w w1 w2 w' (P Q : Prop) :
  (∀ k, st k w1 = st k w) → (∀ k, st k w' = st k w2) → (Q → P) →
  zero_run req cluster w1 w2 P → zero_run req cluster w w' Q.
Proof.
  intros Hw Hq HQ (rk&Hd&Hsame&Hn&Hok&Hz&Htop).
  assert (Hzz : zeroed req w2 → zeroed req w').
  { intros (c&Hd'&Hn'&?). exists c. split; [by eapply draining_eq|]. split; [|done].
    intros d. rewrite Hq. apply Hn'. }
  exists rk. split_and!; [by eapply draining_eq|done| | | |].
  - intros Hn0. destruct Hn as [Hn' ?]; [by intros c; rewrite Hw|]. split; [|done].
    intros c. rewrite Hq. apply Hn'.
  - intros [?|Ha]%HQ%Hok; [left; by apply Hzz|right]. unfold asked, newest in *. by rewrite Hq.
  - intros Ho%HQ Hf. apply Hzz, Hz; [done|]. unfold finished, newest in *. by rewrite Hw.
  - intros Hf. apply Htop. unfold finished, newest in *. by rewrite Hw.
Qed.

(** A reconcile of a Redkey without primaries: a failed read, which writes nothing, or
    [reconcileScaleToZero] on the stored Redkey between steps that write nothing. *)
Lemma reconcile_at_zero req cluster s tr s' res oe w w' :
  st KRedkey w !! req = Some cluster → spec_Primaries (rk_Spec cluster) = 0%Z →
  exec (Reconcile r req) s tr s' (res, oe) → follows h w tr w' →
  (oe ≠ None ∧ ∀ k, st k w' = st k w) ∨
  ∃ w1 w2 s1 t1 s2 x, (∀ k, st k w1 = st k w) ∧ (∀ k, st k w' = st k w2) ∧
    exec (reconcileScaleToZero r cluster) s1 t1 s2 x ∧ follows h w1 t1 w2 ∧
    (oe = None → is_Some (ok_of x)).
Proof.
  intros Hst Hp Hx Hf.
  unfold Reconcile in Hx. exec_call Hx as x. apply (follows_get h st) in Hf as [Hget (w1&Hw1&Hf)].
  destruct x as [e|cl].
  { left. destruct (IsNotFound e); [discriminate (eq_trans (eq_sym Hst) (Hget eq_refl))|].
    split; [unfold fail_stage, stage_error, emit in Hx; by exec_inv|].
    apply (makes_exec _ _ _ _ _ _ (within_fail _ e)) in Hx as [_ Hn]%Forall_and.
    intros k. by rewrite (quiet_world h st _ _ _ Hn Hf k). }
  injection (eq_trans (eq_sym Hst) Hget) as <-. rewrite bool_decide_eq_true_2 in Hx by done.
  apply exec_stage in Hx as (t1&t2&s1&x&->&H1&Hx).
  apply follows_app in Hf as (w2&Hf1&Hf2). right.
  assert (Forall (λ o, is_write o = false) t2 ∧ (oe = None → is_Some (ok_of x))) as [Hnw Hoe].
  { destruct x as [e|[rs cl]].
    - split; [by apply (makes_exec _ _ _ _ _ _ (within_fail _ e)) in Hx as [_ ?]%Forall_and|].
      intros ->. unfold fail_stage, stage_error, emit in Hx. exec_inv.
    - split; [|by eexists]. eapply makes_exec; [|exact Hx].
      unfold recordRedkeyMetrics, observe, set_state, enteredReady, emit. makes_tac. }
  exists w1, w2, s, t1, s1, x. split_and!; [exact Hw1|exact (quiet_world h st _ _ _ Hnw Hf2)|done..].
Qed.

Lemma follows_reconcile_zero req cluster s tr s' res oe w w' :
  draining req cluster w → in_range cluster (cfgs w) →
  exec (Reconcile r req) s tr s' (res, oe) → follows h w tr w' →
  zero_run req cluster w w' (oe = None).
Proof.
  intros Hdr Hrange Hx Hf. pose proof Hdr as (_&Hst&_&Hp&_).
  destruct (reconcile_at_zero _ _ _ _ _ _ _ _ _ Hst Hp Hx Hf)
    as [[Hoe Hq]|(w1&w2&s1&t1&s2&x&Hw1&Hq&H1&Hf1&Hoe)].
  - eapply (zero_run_eq req cluster w w w' w' False); [done..|by apply quiet_zero_run].
  - eapply (zero_run_eq req cluster w w1 w2 w'); [exact Hw1|exact Hq|exact Hoe|].
    eapply follows_scale_to_zero; [by eapply draining_eq| |exact H1|exact Hf1]. by rewrite Hw1.
Qed.

(** ** Where draining begins *)

(** The user sets the primaries of the Redkey under [req] to zero. *)
Definition stops (req : NamespacedName) w w' : Prop :=
  (∀ k, k ≠ KRedkey → st k w' = st k w) ∧
  ∃ cluster cluster', st KRedkey w !! req = Some cluster ∧
    meta_key (rk_meta cluster') = meta_key (rk_meta cluster) ∧
    spec_Primaries (rk_Spec cluster') = 0%Z ∧
    st KRedkey w' = <[req := cluster']> (st KRedkey w).

(** Of a cluster that reconciles have settled, the teardown then follows as
    [scale_to_zero_converges] says. *)
Lemma settled_draining req w w' :
  keyed st w → settled_at st req w →
  (∀ cluster, st KRedkey w !! req = Some cluster → ordered cluster (cfgs w)) →
  stops req w w' → ∃ cluster, draining req cluster w'.
Proof.
  intros Hk (cl&Hst&Hkey&_&_&_&_&[_ (l&Hne&(_&_&Hl)&_)]&_) Ho [Hoth (cl0&cl'&Hst0&Hm&Hz&Hins)].
  rewrite Hst in Hst0. injection Hst0 as <-. exists cl'.
  assert (Hname : om_Name (rk_meta cl') = om_Name (rk_meta cl) ∧
                  om_Namespace (rk_meta cl') = om_Namespace (rk_meta cl))
    by (unfold meta_key in Hm; split; congruence).
  destruct Hname as [Hna Hns].
  assert (Hh : ∀ m c, holds cl' m c ↔ holds cl m c)
    by (intros m c; unfold holds, labelled; by rewrite Hna, Hns).
  split_and!.
  - intros k key o. destruct (decide (k = KRedkey)) as [->|Hk']; [|rewrite Hoth by done; apply Hk].
    rewrite Hins. intros [[<- <-]|[_ Ho']]%lookup_insert_Some; [by cbn; rewrite Hm|by apply Hk].
  - rewrite Hins. apply lookup_insert_eq.
  - by rewrite Hm.
  - done.
  - rewrite Hoth by done. destruct (Ho cl Hst) as (Hd&Hp&Hn). split_and!.
    + intros c c' H1%Hh H2%Hh. by apply Hd.
    + intros c H1%Hh. by apply Hp.
    + intros seq c. unfold config_name. rewrite Hna, Hns, Hh. by apply Hn.
  - intros Hn. destruct l as [|c l]; [done|]. exfalso. apply (Hn c), Hh.
    rewrite Hoth by done. apply Hl. by left.
Qed.

(** ** Without configs *)

(** The Redkey under [req] asks for no primaries and has no configs; nothing is said of
    Robin's objects. *)
Definition idle (req : NamespacedName) w : Prop :=
  keyed st w ∧ ∃ cluster, st KRedkey w !! req = Some cluster ∧
    meta_key (rk_meta cluster) = req ∧ spec_Primaries (rk_Spec cluster) = 0%Z ∧
    no_holds cluster w.

(** A reconcile then writes the status of a Redkey and nothing else. *)
Lemma idle_reconcile req s tr s' res w w' :
  idle req w → exec (Reconcile r req) s tr s' res → follows h w tr w' →
  idle req w' ∧ ∀ k, k ≠ KRedkey → st k w' = st k w.
Proof.
  intros (Hkw&cluster&Hst&Hkey&Hp&Hn) Hx Hf. destruct res as [res oe].
  pose proof (follows_keyed h st _ _ _ Hkw Hf) as Hk'.
  destruct (reconcile_at_zero _ _ _ _ _ _ _ _ _ Hst Hp Hx Hf)
    as [[_ Hq]|(w1&w2&s1&t1&s2&x&Hw1&Hq&H1&Hf1&_)].
  { split; [|by intros k _]. split; [done|]. exists cluster. rewrite Hq. split_and!; try done.
    intros c. rewrite Hq. apply Hn. }
  assert (Hk1 : keyed st w1) by (intros k key o; rewrite Hw1; apply Hkw).
  assert (Hsuf : ∃ rk, same_redkey cluster rk ∧ st KRedkey w2 !! req = Some rk ∧
    ∀ k, k ≠ KRedkey → st k w2 = st k w1).
  { unfold reconcileScaleToZero in H1.
    apply exec_bindE in H1 as [(e&H1&->)|(t2&tr2&s3&l&->&H1&H2)].
    { apply exec_listConfigs in H1 as (_&y&->&_). exists cluster.
      assert (Hq1 : ∀ k, st k w2 = st k w1)
        by (eapply (quiet_world h st); [|exact Hf1]; by apply Forall_singleton).
      rewrite !Hq1, Hw1. by split_and!. }
    apply follows_app in Hf1 as (w3&Hf1&Hf2).
    destruct (follows_list h st cluster _ _ _ _ _ _ Hk1 H1 Hf1) as [(_&_&Hl) Hw3].
    destruct (slice_last l) as [c|] eqn:Hc.
    { exfalso. apply (Hn c). rewrite <-Hw1. apply Hl. by apply last_Some_elem_of. }
    apply exec_then_requeue in H2 as (res'&H2&_).
    assert (Hst3 : st KRedkey w3 !! meta_key (rk_meta cluster) = Some cluster)
      by (by rewrite Hkey, Hw3, Hw1).
    destruct (follows_zero_status _ _ _ _ _ _ _ Hst3 H2 Hf2) as [Ho (rk&Hsame&_&Hrk)].
    exists rk. rewrite <-Hkey. split_and!; [done|done|]. intros k Hne. by rewrite Ho, Hw3. }
  destruct Hsuf as (rk&Hsame&Hrk&Hoth).
  assert (Hfin : ∀ k, k ≠ KRedkey → st k w' = st k w) by (intros k Hne; by rewrite Hq, Hoth, Hw1).
  split; [|done]. split; [done|]. exists rk. rewrite Hq. pose proof Hsame as (Hm&_&Hsp).
  split_and!; [done| |by rewrite Hsp|].
  - rewrite <-Hkey. by destruct Hm.
  - eapply same_no_holds; [done|]. intros c. rewrite Hfin by done. apply Hn.
Qed.

(** ** Histories *)

(** What happens while the cluster drains: reconciles, successful or not, and reports
    by Robin. *)
Definition reconciled (req : NamespacedName) (ok : bool) w w' : Prop :=
  ∃ cluster s tr s' res oe, st KRedkey w !! req = Some cluster ∧ in_range cluster (cfgs w) ∧
    exec (Reconcile r req) s tr s' (res, oe) ∧ follows h w tr w' ∧ (ok = true → oe = None).

Definition robin_steps (req : NamespacedName) w w' : Prop :=
  ∃ cluster, st KRedkey w !! req = Some cluster ∧ robin_reports cluster (λ _ _, True) w w'.

Definition event (req : NamespacedName) w w' : Prop :=
  reconciled req false w w' ∨ robin_steps req w w'.

(** A report changes neither which configs there are nor their order. *)
Section report.
Variables (cluster : Redkey) (m : gmap NamespacedName RedkeyConfig) (c c' : RedkeyConfig).
Hypothesis Hc : holds cluster m c.
Hypothesis Hrep : reported c c'.
Hypothesis Hkeyed : ∀ key x, m !! key = Some x → meta_key (cfg_meta x) = key.

Lemma reported_seq : cfg_seq c' = cfg_seq c.
Proof. destruct Hrep as (_&_&Hs). unfold cfg_seq. by rewrite Hs. Qed.

Lemma reported_holds : holds cluster (<[meta_key (cfg_meta c) := c']> m) c'.
Proof.
  destruct Hrep as (Hk&Hl&_), Hc as [[Hns Hlab] _]. split; [|by rewrite Hk; apply lookup_insert_eq].
  split; [|by rewrite Hl]. apply (f_equal nn_Namespace) in Hk. cbn in Hk. by rewrite Hk.
Qed.

Lemma report_old d :
  holds cluster (<[meta_key (cfg_meta c) := c']> m) d →
  d = c' ∨ (holds cluster m d ∧ meta_key (cfg_meta d) ≠ meta_key (cfg_meta c)).
Proof. intros [Hl [[_ <-]|[? ?]]%lookup_insert_Some]; [by left|]. right. split; [by split|done]. Qed.

Lemma report_ordered :
  ordered cluster m → ordered cluster (<[meta_key (cfg_meta c) := c']> m).
Proof.
  intros (Hd&Hp&Hn). assert (Hne : ∀ d, holds cluster m d → meta_key (cfg_meta d) ≠ meta_key (cfg_meta c) →
    cfg_seq d ≠ cfg_seq c') by (intros d H1 H2; rewrite reported_seq; intros E; by rewrite (Hd d c H1 Hc E) in H2).
  split_and!.
  - intros d d' [->|[H1 N1]]%report_old [->|[H2 N2]]%report_old Heq; [done| | |by apply Hd].
    + by destruct (Hne d').
    + by destruct (Hne d).
  - intros d [->|[H1 _]]%report_old; [rewrite reported_seq|]; by apply Hp.
  - intros seq d Hseq [[E <-]|[Hk Hl]]%lookup_insert_Some.
    + split; [apply reported_holds|]. rewrite reported_seq. destruct Hc as [_ Hm].
      rewrite E in Hm. by apply Hn.
    + destruct (Hn seq d Hseq Hl) as [[Hlab Hm] ?]. split; [|done]. split; [done|].
      apply lookup_insert_Some. right. split; [|done]. by rewrite (Hkeyed _ _ Hl).
Qed.

Lemma report_newest :
  distinct cluster m → (∀ d, holds cluster m d → (cfg_seq d ≤ cfg_seq c)%Z) →
  ∀ d, (holds cluster (<[meta_key (cfg_meta c) := c']> m) d ∧
        ∀ e, holds cluster (<[meta_key (cfg_meta c) := c']> m) e → (cfg_seq e ≤ cfg_seq d)%Z) →
  d = c'.
Proof.
  intros Hd Hmax d [[->|[H1 N1]]%report_old Hnew]; [done|]. exfalso.
  specialize (Hnew c' reported_holds). rewrite reported_seq in Hnew. specialize (Hmax d H1).
  assert (d = c) as -> by (apply Hd; [done|apply Hc|lia]). done.
Qed.
End report.

Lemma report_draining req cluster P w w' :
  draining req cluster w → robin_reports cluster P w w' → draining req cluster w'.
Proof.
  intros (Hk&Hst&Hkey&Hp&Ho&Hg) [Hoth Hr].
  assert (Hcase : cfgs w' = cfgs w ∨ ∃ c c', holds cluster (cfgs w) c ∧ reported c c' ∧
    cfgs w' = <[meta_key (cfg_meta c) := c']> (cfgs w)) by naive_solver.
  destruct Hcase as [E|(c&c'&Hc&Hrep&E)].
  - apply (draining_eq _ _ w); [|done]. intros k. destruct (decide (k = KRedkeyConfig)) as [->|]; auto.
  - split_and!; [|by rewrite Hoth|done|done| |].
    + intros k. destruct (decide (k = KRedkeyConfig)) as [->|Hne]; [|rewrite Hoth by done; apply Hk].
      rewrite E. apply (insert_keyed KRedkeyConfig); [apply Hk|apply Hrep].
    + rewrite E. apply report_ordered; [done|done|apply (Hk KRedkeyConfig)|done].
    + intros Hn. exfalso. apply (Hn c'). rewrite E. by apply reported_holds.
Qed.

Lemma event_draining req cluster w w' :
  draining req cluster w → event req w w' → ∃ cluster', draining req cluster' w'.
Proof.
  intros Hd [(cl&s&tr&s'&res&oe&Hst&Hr&Hx&Hf&_)|(cl&Hst&Hr)].
  - destruct Hd as (?&Hst'&Hd). rewrite Hst' in Hst. injection Hst as <-.
    assert (draining req cluster w) as Hd' by done.
    destruct (follows_reconcile_zero _ _ _ _ _ _ _ _ _ Hd' Hr Hx Hf) as (rk&?&_). by exists rk.
  - exists cluster. destruct Hd as (?&Hst'&Hd). rewrite Hst' in Hst. injection Hst as <-.
    by eapply report_draining.
Qed.

Lemma event_zeroed req w w' : zeroed req w → event req w w' → zeroed req w'.
Proof.
  intros (cluster&Hd&Hn&Hs) [(cl&s&tr&s'&res&oe&Hst&Hr&Hx&Hf&_)|(cl&Hst&Hr)];
    pose proof Hd as (_&Hst'&_); rewrite Hst' in Hst; injection Hst as <-.
  - destruct (follows_reconcile_zero _ _ _ _ _ _ _ _ _ Hd Hr Hx Hf) as (rk&Hd'&Hsame&Hno&_).
    destruct (Hno Hn) as [Hn' [->|Hz]]; [by exists cluster|]. by eapply zeroed_intro.
  - exists cluster. split; [by eapply report_draining|]. split; [|done].
    destruct Hr as [_ [[E _]|(c&c'&Hc&_)]]; [|by destruct (Hn c)]. intros c. rewrite E. apply Hn.
Qed.

(** Once Robin has applied what it was asked, the next reconcile tears down. *)
Lemma applied_finished cluster w w' :
  ordered cluster (cfgs w) → asked cluster w → robin_applies cluster w w' → finished cluster w'.
Proof.
  intros Ho (c&[Hc Hmax]&Hz) [_ [[_ Hn]|(c1&c'&Hc1&Hrep&[[_ Hmax1] Ha]&E)]]; [by destruct (Hn c)|].
  assert (c1 = c) as ->.
  { apply Ho; [done|done|]. specialize (Hmax c1 Hc1). specialize (Hmax1 c Hc). lia. }
  intros d. unfold newest. rewrite E. intros Hd.
  apply (report_newest cluster (cfgs w) c c') in Hd as ->; try done; [|by apply Ho].
  destruct Hrep as (_&_&Hsp). by rewrite Hsp.
Qed.

Lemma events_draining req cluster w w' :
  draining req cluster w → rtc (event req) w w' → ∃ cluster', draining req cluster' w'.
Proof.
  intros Hd Hr. revert cluster Hd. induction Hr as [w|w w1 w' He _ IH]; intros cluster Hd; [by exists cluster|].
  destruct (event_draining _ _ _ _ Hd He) as [cl Hcl]. by eapply IH.
Qed.

Lemma events_zeroed req w w' : zeroed req w → rtc (event req) w w' → zeroed req w'.
Proof. intros Hz. induction 1; eauto using event_zeroed. Qed.

(** Without configs no reconcile and no report touches anything but the Redkey. *)
Lemma events_idle req w w' k :
  idle req w → rtc (event req) w w' → k ≠ KRedkey → st k w' = st k w.
Proof.
  intros Hi Hr Hne. revert Hi. induction Hr as [w|w w1 w' He _ IH]; intros Hi; [done|].
  assert (idle req w1 ∧ st k w1 = st k w) as [Hi1 <-]; [|by apply IH].
  destruct He as [(cl&s&tr&s'&res&oe&_&_&Hx&Hf&_)|(cl&Hst&Hoth&Hr)].
  - destruct (idle_reconcile _ _ _ _ _ _ _ Hi Hx Hf) as [? Ho]. auto.
  - pose proof Hi as (Hk&cluster&Hst'&Hkey&Hp&Hn). rewrite Hst' in Hst. injection Hst as <-.
    destruct Hr as [[E _]|(c&_&Hc&_)]; [|by destruct (Hn c)].
    assert (Hq : ∀ k', st k' w1 = st k' w)
      by (intros k'; destruct (decide (k' = KRedkeyConfig)) as [->|]; auto).
    split; [|apply Hq]. split; [intros k' key o; rewrite Hq; apply Hk|].
    exists cluster. rewrite Hq. split_and!; try done. intros c. rewrite Hq. apply Hn.
Qed.

(** C6: Scaling to zero converges: take a server that only the operator and Robin
    write to, and a Redkey without primaries whose Robin objects, if it has no
    configs, are gone. Whatever has happened before, failed reconciles at any point of
    the hand-over or the teardown included: after a reconcile that succeeds, Robin
    applying the newest config, and another reconcile that succeeds, the server holds
    no config of the cluster and none of Robin's objects, and the status shows zero
    replicas, phase Ready and the current generation; and no further reconcile,
    successful or not, and no report changes that. *)
Theorem scale_to_zero_converges req cluster w0 w1 w2 cl w3 w4 w5 :
  draining req cluster w0 → rtc (event req) w0 w1 →
  reconciled req true w1 w2 →
  st KRedkey w2 !! req = Some cl → robin_applies cl w2 w3 →
  reconciled req true w3 w4 →
  rtc (event req) w4 w5 → zeroed req w5.
Proof.
  intros Hd0 H01 (c1&s1&t1&s1'&r1&o1&Hs1&Hr1&Hx1&Hf1&Ho1) Hcl Hap
    (c3&s3&t3&s3'&r3&o3&Hs3&Hr3&Hx3&Hf3&Ho3) H45.
  apply events_zeroed with w4; [|done].
  destruct (events_draining _ _ _ _ Hd0 H01) as [c1' Hd1].
  pose proof Hd1 as (_&Hs1'&_). rewrite Hs1' in Hs1. injection Hs1 as <-.
  destruct (follows_reconcile_zero _ _ _ _ _ _ _ _ _ Hd1 Hr1 Hx1 Hf1) as (rk&Hd2&_&_&Hor&_).
  pose proof Hd2 as (_&Hs2&_&_&Hord&_). rewrite Hs2 in Hcl. injection Hcl as <-.
  pose proof (report_draining _ _ _ _ _ Hd2 Hap) as Hd3.
  pose proof Hd3 as (_&Hs3'&_). rewrite Hs3' in Hs3. injection Hs3 as <-.
  destruct (Hor (Ho1 eq_refl)) as [Hz|Ha].
  - eapply event_zeroed; [eapply (event_zeroed _ w2); [done|]|].
    + right. exists rk. split; [done|]. destruct Hap as [? Hap]. split; [done|]. naive_solver.
    + left. by exists rk, s3, t3, s3', r3, o3.
  - destruct (follows_reconcile_zero _ _ _ _ _ _ _ _ _ Hd3 Hr3 Hx3 Hf3) as (rk'&_&_&_&_&Hfin&_).
    apply Hfin; [by apply Ho3|]. by eapply applied_finished.
Qed.
End zero.

(** ** A scale to zero in memory *)

Section zero_witness.
Import Simple.

Definition z_redkey : Redkey := Sample.redkey 2 (Sample.spec 0 1 false) (Sample.status "" "" 1).
Definition z_start : Memory.World := w_world z_redkey [w_old].
Definition z_reconcile (w : Memory.World) :=
  run Memory.handler (Reconcile w_reconciler Sample.key w_state) w.

(** Robin is asked to stop, applies the config, and everything is removed. *)
Definition z_asked : Memory.World := (z_reconcile z_start).1.
Definition z_config : RedkeyConfig :=
  default w_old (Memory.store KRedkeyConfig z_asked !! mkNN "ns" "rk-2").
Definition z_config' : RedkeyConfig :=
  mkConfig (cfg_type z_config) (cfg_meta z_config) (cfg_Spec z_config)
    (mkConfigStatus ConfigPhaseApplied "" RedkeySubstatus_zero None [] None 1).
Definition z_applied : Memory.World :=
  Memory.alter_store KRedkeyConfig <[meta_key (cfg_meta z_config) := z_config']> z_asked.
Definition z_end : Memory.World := (z_reconcile z_applied).1.

Abbreviation z_store := (λ k w, Memory.store k w).

Lemma stored_all (P : RedkeyConfig → Prop) `{!∀ c, Decision (P c)} w key c :
  bool_decide (Forall P (map_to_list (Memory.store KRedkeyConfig w)).*2) = true →
  Memory.store KRedkeyConfig w !! key = Some c → P c.
Proof.
  intros Hall%bool_decide_eq_true Hc. rewrite Forall_forall in Hall. apply Hall.
  apply list_elem_of_fmap. exists (key, c). split; [done|]. by apply elem_of_map_to_list.
Qed.

Lemma z_in_range w :
  bool_decide (Forall (λ c, (- 2 ^ 63 ≤ cfg_seq c + 1)%Z ∧ (cfg_seq c + 1 < 2 ^ 63)%Z)
    (map_to_list (Memory.store KRedkeyConfig w)).*2) = true →
  in_range z_redkey (Memory.store KRedkeyConfig w).
Proof. intros Hall c [_ Hc]. by apply (stored_all _ _ _ _ Hall Hc). Qed.

Lemma z_draining : draining z_store Sample.key z_redkey z_start.
Proof.
  assert (Hold : holds z_redkey (Memory.store KRedkeyConfig z_start) w_old)
    by (split; [split|]; by vm_compute).
  split_and!; [| |done|done| |].
  - intros [] key o; try done.
    + change (({[Sample.key := z_redkey]} : gmap NamespacedName Redkey) !! key = Some o →
        meta_key (rk_meta o) = key). by intros [<- <-]%lookup_singleton_Some.
    + intros [-> ->]%w_stored. done.
  - by vm_compute.
  - destruct w_configs_ok as (Hd&Hr&Hn). split_and!; [exact Hd| |exact Hn].
    intros c Hc. by apply Hr.
  - intros Hn. by destruct (Hn w_old).
Qed.

Lemma z_reconciled w rk :
  Memory.store KRedkey w !! Sample.key = Some rk → in_range rk (Memory.store KRedkeyConfig w) →
  (z_reconcile w).2.2.2 = None →
  reconciled Memory.handler z_store w_reconciler Sample.key true w (z_reconcile w).1.
Proof.
  intros Hst Hr Hok. exists rk, w_state,
    (run_trace Memory.handler (Reconcile w_reconciler Sample.key w_state) w),
    (z_reconcile w).2.1, (z_reconcile w).2.2.1, (z_reconcile w).2.2.2.
  split_and!; [done|done| |apply follows_run|done].
  rewrite <-surjective_pairing. apply exec_run.
Qed.

Lemma z_applies : robin_applies z_store z_redkey z_asked z_applied.
Proof.
  split; [intros k Hk; by apply Memory.store_alter_ne|]. right. exists z_config, z_config'.
  assert (Hc : holds z_redkey (Memory.store KRedkeyConfig z_asked) z_config)
    by (split; [split|]; by vm_compute).
  split_and!; [done|done|split; [done|]|done|apply Memory.store_alter].
  intros d [_ Hd]. refine (stored_all (λ d, (cfg_seq d ≤ cfg_seq z_config)%Z) _ _ _ _ Hd).
  by vm_compute.
Qed.

Lemma scale_to_zero_converges_witness :
  zeroed z_store Sample.key z_end ∧ size (Memory.store KRedkeyConfig z_asked) = 2 ∧
  size (Memory.store KDeployment z_asked) = 1.
Proof.
  split; [|by vm_compute].
  refine (scale_to_zero_converges Memory.handler z_store w_reconciler Sample.key z_redkey
    z_start z_start z_asked z_redkey z_applied z_end z_end z_draining _ _ _ z_applies _ _).
  - reflexivity.
  - apply (z_reconciled _ z_redkey); [by vm_compute|apply z_in_range; by vm_compute|by vm_compute].
  - by vm_compute.
  - apply (z_reconciled _ z_redkey); [by vm_compute|apply z_in_range; by vm_compute|by vm_compute].
  - reflexivity.
Defined.

End zero_witness.
