(* ===== verification/Bookkeeping.v ===== *)
(** * What histories of reconciles keep

    A Redkey over any sequence of reconciles, successful or not, reports by Robin and
    edits by its users, against the servers of [Convergence]: which generation counts as
    observed and which config was made for it ([bookkept]), that the hand-over to Robin
    before a scale to zero happens once, and what becomes of the recorded topology. The
    events follow one another, and a reconcile is one of them while the next sequence
    number fits into an int64 ([in_range]); reconciles that overlap with other actors
    and stale reads are the subject of [Interleaving]. *)

From S2P Require Import Prelude Strconv ApiTypes Effects External Samples Metrics Metadata.
From S2P Require Import ConfigLifecycle Robin ScaleZero Reconciler Validation Server Convergence ZeroConvergence.

(** ** One reconcile, whatever its outcome *)

Section step.
Context {K : K8sTypes} {D : Deps} {DS : DepsSpec} {SS : SortSlice} {SP : SortSliceSpec}.
Context {W : Type} (h : ∀ c, W → W * ans c).
Context (st : ∀ k, W → gmap NamespacedName (obj_of k)) {KS : KubeStore h st}.
Variable r : RedkeyReconciler.
Implicit Types (tr : list obs) (w : W) (cluster : Redkey) (l : list RedkeyConfig).
Implicit Types (m : gmap NamespacedName RedkeyConfig).

Abbreviation cfgs w := (st KRedkeyConfig w).

(** At most one config is added, and only where the newest one calls for it. *)
Definition grown cluster (Q : RedkeyConfig → Prop) m m' : Prop :=
  m' = m ∨ ∃ c, added cluster m m' c ∧ ∀ d, newest cluster m d → Q d.

(** The status of the Redkey is written over the one read, or not at all, and its
    generation is counted as observed in the course of that. *)
Definition observes cluster (P : Prop) w' : Prop :=
  ∃ rk, st KRedkey w' !! meta_key (rk_meta cluster) = Some rk ∧ same_redkey cluster rk ∧
    (rk = cluster ∨ st_ObservedGeneration (rk_Status rk) = om_Generation (rk_meta cluster) ∧ P).

(** A reconcile with primaries: one config may be added, all but the newest may go, and
    the generation is observed only with a config for it, or with no need for one. *)
Definition config_step cluster w w' : Prop :=
  ∃ m, grown cluster (λ d, needsNewConfig cluster (Some d) = true) (cfgs w) m ∧
    cfgs w' ⊆ m ∧ (∀ c, newest cluster m c → newest cluster (cfgs w') c) ∧
    observes cluster ((∃ c, added cluster (cfgs w) m c) ∨
      m = cfgs w ∧ ∃ c, newest cluster m c ∧ needsNewConfig cluster (Some c) = false) w'.

(** One without primaries: the config that stops Robin may be added after one with
    primaries, and any may go. *)
Definition zero_step cluster w w' : Prop :=
  ∃ m, grown cluster (λ d, cs_Primaries (cfg_Spec d) ≠ 0%Z) (cfgs w) m ∧
    cfgs w' ⊆ m ∧ observes cluster True w'.

Lemma grown_refl cluster Q m : grown cluster Q m m.
Proof. by left. Qed.

Lemma observes_quiet cluster P w w' :
  st KRedkey w !! meta_key (rk_meta cluster) = Some cluster →
  st KRedkey w' = st KRedkey w → observes cluster P w'.
Proof. intros Hst E. exists cluster. rewrite E. split_and!; [done|done|by left]. Qed.

Lemma config_step_quiet cluster w w' :
  st KRedkey w !! meta_key (rk_meta cluster) = Some cluster →
  st KRedkey w' = st KRedkey w → cfgs w' = cfgs w → config_step cluster w w'.
Proof.
  intros Hst ER EC. exists (cfgs w). rewrite EC. split_and!; [by left|done|done|].
  by eapply observes_quiet.
Qed.

(** From the complete list of configs on. *)
Lemma finish_leaves cluster l s tr s' a w w' :
  l ≠ [] → st KRedkey w !! meta_key (rk_meta cluster) = Some cluster →
  distinct cluster (cfgs w) → lists_all cluster (cfgs w) l →
  exec (finish r cluster l) s tr s' a → follows h w tr w' →
  cfgs w' ⊆ cfgs w ∧ (∀ c, newest cluster (cfgs w) c → newest cluster (cfgs w') c) ∧
  observes cluster True w'.
Proof.
  intros Hne Hst Hd Hl Hx Hf. unfold finish in Hx. destruct l as [|c0 l0]; [done|].
  set (l := c0 :: l0) in *.
  apply exec_stage in Hx as (t1&t2&s1&x&->&H1&Hx). apply follows_app in Hf as (w1&Hf1&Hf).
  destruct (follows_pruning h st cluster _ _ _ _ _ _ _ Hne Hd Hl H1 Hf1) as [Hs Hn].
  pose proof (makes_exec _ _ _ _ _ _ (within_cleanup l) H1) as Hw1.
  assert (ER : st KRedkey w1 = st KRedkey w) by (apply (follows_within h st _ _ _ _ _ Hw1 Hf1); set_solver).
  destruct x as [e|l1].
  { apply (makes_exec _ _ _ _ _ _ (within_fail _ e)) in Hx as [_ Hq]%Forall_and.
    pose proof (quiet_world h st _ _ _ Hq Hf) as E. rewrite (E KRedkeyConfig). split_and!; [done|done|].
    eapply observes_quiet; [exact Hst|]. by rewrite (E KRedkey). }
  destruct (follows_cleanup h st cluster _ _ _ _ _ _ _ Hl H1 Hf1) as (->&_).
  apply exec_stage in Hx as (t3&t4&s2&x&->&H2&Hx). apply follows_app in Hf as (w2&Hf2&Hf).
  pose proof (makes_exec _ _ _ _ _ _ (within_aggregate cluster _) H2) as [Hw2 _]%Forall_and.
  assert (EC : cfgs w2 = cfgs w1) by (apply (follows_within h st _ _ _ _ _ Hw2 Hf2); set_solver).
  assert (Hq : Forall (λ o, is_write o = false) t4).
  { destruct x as [e|cl].
    - by apply (makes_exec _ _ _ _ _ _ (within_fail _ e)) in Hx as [_ ?]%Forall_and.
    - by apply (makes_exec _ _ _ _ _ _ (within_report r cl _)) in Hx as [_ ?]%Forall_and. }
  pose proof (quiet_world h st _ _ _ Hq Hf) as E. rewrite (E KRedkeyConfig), EC. split_and!; [done|done|].
  rewrite <-ER in Hst.
  pose proof (follows_aggregate h st cluster _ _ _ _ x _ _ (keep_nonempty _ Hne) Hst H2 Hf2) as Ha.
  destruct x as [e|cl].
  - eapply observes_quiet; [exact Hst|]. by rewrite (E KRedkey).
  - destruct Ha as (rk&Hrk&Hsame&Hobs). exists rk. rewrite (E KRedkey). auto.
Qed.

(** Steps that write nothing. *)
Lemma fail_leaves name e s tr s' a w w' :
  exec (fail_stage name e) s tr s' a → follows h w tr w' → ∀ k, st k w' = st k w.
Proof.
  intros [_ Hq]%(makes_exec _ _ _ _ _ _ (within_fail name e))%Forall_and Hf.
  exact (quiet_world h st _ _ _ Hq Hf).
Qed.

Lemma list_leaves cluster s tr s' x w w' :
  exec (listConfigs cluster) s tr s' x → follows h w tr w' → ∀ k, st k w' = st k w.
Proof.
  intros (_&y&->&_)%exec_listConfigs Hf. eapply (quiet_world h st); [|exact Hf].
  by apply Forall_singleton.
Qed.

(** From the listing of the configs on. *)
Lemma create_leaves cluster l s tr s' a w w' :
  keyed st w → st KRedkey w !! meta_key (rk_meta cluster) = Some cluster →
  configs_ok cluster (cfgs w) → lists_all cluster (cfgs w) l →
  (∀ c, slice_last l = Some c → needsNewConfig cluster (Some c) = true) →
  exec (stage "create_new_config" (createNewConfig cluster (slice_last l)) (λ _,
        stage "list_configs" (listConfigs cluster) (finish r cluster))) s tr s' a →
  follows h w tr w' → config_step cluster w w'.
Proof.
  intros Hkw Hst Hok Hl Hneed Hx Hf.
  apply exec_stage in Hx as (t1&t2&s1&x&->&H1&Hx). apply follows_app in Hf as (w1&Hf1&Hf).
  pose proof (follows_keyed h st _ _ _ Hkw Hf1) as Hk1.
  pose proof (makes_exec _ _ _ _ _ _ (within_create cluster _) H1) as Hw.
  assert (ER : st KRedkey w1 = st KRedkey w) by (apply (follows_within h st _ _ _ _ _ Hw Hf1); set_solver).
  assert (Hgrown : ∀ c, added cluster (cfgs w) (cfgs w1) c →
    grown cluster (λ d, needsNewConfig cluster (Some d) = true) (cfgs w) (cfgs w1)).
  { intros c Hc. right. exists c. split; [done|]. intros d Hd. apply Hneed.
    eapply newest_listed; [apply Hok|done..]. }
  destruct (follows_creation h st cluster _ _ _ _ _ _ _ Hok Hl H1 Hf1) as [(c&Hadd)|[(e&->) EC]].
  2: { pose proof (fail_leaves _ _ _ _ _ _ _ _ Hx Hf) as E.
       apply config_step_quiet; [done|by rewrite (E KRedkey)|by rewrite (E KRedkeyConfig)]. }
  specialize (Hgrown c Hadd). rewrite <-ER in Hst.
  assert (Hstop : (∀ k, st k w' = st k w1) → config_step cluster w w').
  { intros E. exists (cfgs w1). rewrite (E KRedkeyConfig). split_and!; [done|done|done|].
    eapply observes_quiet; [exact Hst|apply E]. }
  destruct x as [e|[]]; [apply Hstop; by eapply fail_leaves|].
  apply exec_stage in Hx as (t3&t4&s2&x&->&H2&Hx). apply follows_app in Hf as (w2&Hf2&Hf).
  pose proof (list_leaves _ _ _ _ _ _ _ H2 Hf2) as E2.
  destruct x as [e|l2].
  { apply Hstop. intros k. rewrite <-(E2 k). by eapply fail_leaves. }
  destruct (follows_list h st cluster _ _ _ _ _ _ Hk1 H2 Hf2) as [Hl2 _].
  rewrite <-(E2 KRedkeyConfig) in Hl2.
  assert (Hd2 : distinct cluster (cfgs w2))
    by (rewrite (E2 KRedkeyConfig); eapply added_distinct; [apply Hok|exact Hadd]).
  assert (Hne : l2 ≠ []).
  { intros ->. destruct Hl2 as (_&_&Hl2). destruct Hadd as [Hin _].
    rewrite <-(E2 KRedkeyConfig) in Hin. apply Hl2 in Hin. by apply elem_of_nil in Hin. }
  rewrite <-(E2 KRedkey) in Hst.
  destruct (finish_leaves _ _ _ _ _ _ _ _ Hne Hst Hd2 Hl2 Hx Hf) as (Hs&Hn&Hobs).
  rewrite (E2 KRedkeyConfig) in Hs, Hn. exists (cfgs w1). split_and!; [done|done|done|].
  destruct Hobs as (rk&?&?&Hor). exists rk. split_and!; [done|done|]. naive_solver.
Qed.

Lemma configs_leave cluster s tr s' a w w' :
  keyed st w → st KRedkey w !! meta_key (rk_meta cluster) = Some cluster →
  configs_ok cluster (cfgs w) →
  exec (reconcile_configs r cluster) s tr s' a → follows h w tr w' → config_step cluster w w'.
Proof.
  intros Hkw Hst Hok Hx Hf. unfold reconcile_configs in Hx.
  apply exec_stage in Hx as (t1&t2&s1&x&->&H1&Hx). apply follows_app in Hf as (w1&Hf1&Hf).
  pose proof (list_leaves _ _ _ _ _ _ _ H1 Hf1) as E1.
  pose proof (follows_keyed h st _ _ _ Hkw Hf1) as Hk1.
  assert (Hback : config_step cluster w1 w' → config_step cluster w w').
  { unfold config_step. by rewrite (E1 KRedkeyConfig). }
  destruct x as [e|l].
  { pose proof (fail_leaves _ _ _ _ _ _ _ _ Hx Hf) as E.
    apply config_step_quiet; [done|by rewrite (E KRedkey), (E1 KRedkey)|].
    by rewrite (E KRedkeyConfig), (E1 KRedkeyConfig). }
  destruct (follows_list h st cluster _ _ _ _ _ _ Hkw H1 Hf1) as [Hl _].
  rewrite <-(E1 KRedkeyConfig) in Hl, Hok. rewrite <-(E1 KRedkey) in Hst. apply Hback.
  cbn zeta in Hx. destruct (match l with [] => _ | _ => _ end) eqn:Hc.
  - eapply create_leaves; [exact Hk1|exact Hst|exact Hok|exact Hl| |exact Hx|exact Hf].
    intros c Hlast. rewrite <-Hlast. by destruct l.
  - assert (Hne : l ≠ []) by (by intros ->). destruct Hok as [Hd _].
    destruct (finish_leaves _ _ _ _ _ _ _ _ Hne Hst Hd Hl Hx Hf) as (Hs&Hn&rk&?&?&Hor).
    exists (cfgs w1). split_and!; [by left|done|done|]. exists rk. split_and!; [done|done|].
    destruct Hor as [?|[? _]]; [by left|]. right. split; [done|]. right. split; [done|].
    destruct (slice_last l) as [c|] eqn:Hlast; [|by apply last_None in Hlast].
    exists c. split; [by eapply listed_newest|]. by destruct l.
Qed.

(** A reconcile with primaries. *)
Lemma reconcile_leaves cluster req s tr s' a w w' :
  keyed st w → st KRedkey w !! req = Some cluster → spec_Primaries (rk_Spec cluster) ≠ 0%Z →
  configs_ok cluster (cfgs w) →
  exec (Reconcile r req) s tr s' a → follows h w tr w' → config_step cluster w w'.
Proof.
  intros Hkw Hst Hp Hok Hx Hf. unfold Reconcile in Hx. exec_call Hx as x.
  apply (follows_get h st) in Hf as [Hg (w1&Hw1&Hf)].
  pose proof (Hkw KRedkey _ _ Hst) as Hkey. simpl in Hkey. subst req.
  assert (Hquiet : (st KRedkey w' = st KRedkey w) → cfgs w' = cfgs w → config_step cluster w w')
    by (by apply config_step_quiet).
  destruct x as [e|cl].
  { destruct (IsNotFound e); [discriminate (eq_trans (eq_sym Hst) (Hg eq_refl))|].
    pose proof (fail_leaves _ _ _ _ _ _ _ _ Hx Hf) as E. by apply Hquiet; rewrite E, Hw1. }
  injection (eq_trans (eq_sym Hst) Hg) as <-. rewrite bool_decide_eq_false_2 in Hx by done.
  assert (Hk1 : keyed st w1) by (intros k key o; rewrite Hw1; apply Hkw).
  apply exec_stage in Hx as (t1&t2&s1&x&->&H1&Hx). apply follows_app in Hf as (w2&Hf1&Hf).
  destruct (follows_keep_rbac h st _ _ _ _ _ _ _ H1 Hf1) as [ER1 EC1].
  pose proof (follows_keyed h st _ _ _ Hk1 Hf1) as Hk2.
  destruct x as [e|[]].
  { pose proof (fail_leaves _ _ _ _ _ _ _ _ Hx Hf) as E.
    by apply Hquiet; [rewrite E, ER1|rewrite E, EC1]. }
  apply exec_stage in Hx as (t3&t4&s2&x&->&H2&Hx). apply follows_app in Hf as (w3&Hf2&Hf).
  destruct (follows_keep_deployment h st _ _ _ _ _ _ _ H2 Hf2) as [ER2 EC2].
  pose proof (follows_keyed h st _ _ _ Hk2 Hf2) as Hk3.
  destruct x as [e|[]].
  { pose proof (fail_leaves _ _ _ _ _ _ _ _ Hx Hf) as E.
    by apply Hquiet; [rewrite E, ER2, ER1|rewrite E, EC2, EC1]. }
  assert (ER : st KRedkey w3 = st KRedkey w) by (by rewrite ER2, ER1).
  assert (EC : cfgs w3 = cfgs w) by (by rewrite EC2, EC1).
  rewrite <-ER in Hst. rewrite <-EC in Hok.
  pose proof (configs_leave _ _ _ _ _ _ _ Hk3 Hst Hok Hx Hf) as Hstep.
  unfold config_step in *. by rewrite EC in Hstep.
Qed.

(** A reconcile without primaries. *)
Lemma observes_zero cluster w rk :
  st KRedkey w !! meta_key (rk_meta cluster) = Some rk → same_redkey cluster rk →
  rk = cluster ∨ says_zero cluster rk → observes cluster True w.
Proof.
  intros Hrk Hsame Hor. exists rk. split_and!; [done|done|].
  destruct Hor as [?|(_&_&_&?&_)]; [by left|by right].
Qed.

Lemma zero_stage_leaves cluster s tr s' res w w' :
  keyed st w → st KRedkey w !! meta_key (rk_meta cluster) = Some cluster →
  configs_ok cluster (cfgs w) →
  exec (reconcileScaleToZero r cluster) s tr s' res → follows h w tr w' → zero_step cluster w w'.
Proof.
  intros Hkw Hst Hok Hx Hf. unfold reconcileScaleToZero in Hx.
  assert (Hsame : ∀ w1, cfgs w' = cfgs w1 → cfgs w1 = cfgs w → observes cluster True w' →
    zero_step cluster w w').
  { intros w1 E E1 Ho. exists (cfgs w). rewrite E, E1. split_and!; [by left|done|done]. }
  apply exec_bindE in Hx as [(e&H1&->)|(t1&tr1&s1&l&->&H1&Hx)].
  { pose proof (list_leaves _ _ _ _ _ _ _ H1 Hf) as E. apply (Hsame w); [apply E|done|].
    eapply observes_quiet; [exact Hst|apply E]. }
  apply follows_app in Hf as (w1&Hf1&Hf).
  pose proof (follows_keyed h st _ _ _ Hkw Hf1) as Hk1.
  destruct (follows_list h st cluster _ _ _ _ _ _ Hkw H1 Hf1) as [Hl E1].
  rewrite <-(E1 KRedkey) in Hst. rewrite <-(E1 KRedkeyConfig) in Hl, Hok.
  destruct (slice_last l) as [c|] eqn:Hc.
  - pose proof (listed_newest _ _ _ _ Hl Hc) as Hnew.
    case_bool_decide as Hz; cbn [negb] in Hx; [case_bool_decide as Ha|].
    + destruct (follows_tear_down h st r _ _ _ _ _ _ _ Hk1 Hst Hx Hf) as (Hs&_&rk&Hrk&Hsm&Hor&_).
      exists (cfgs w). rewrite <-(E1 KRedkeyConfig). split_and!; [by left|by apply Hs|].
      by eapply observes_zero.
    + assert (Hne : l ≠ []) by (by intros ->).
      destruct (follows_wait h st r _ _ _ _ _ _ _ _ Hne Hst Hx Hf) as [EC (rk&Hrk&Hsm&Hor)].
      apply (Hsame w1); [done|apply E1|]. exists rk. naive_solver.
    + destruct (follows_hand_over h st r _ _ _ _ _ _ _ _ _ Hok Hl Hc Hx Hf) as [ER Has].
      assert (Hobs : observes cluster True w') by (by eapply observes_quiet).
      assert (asks st cluster w1 w' ∨ cfgs w' = cfgs w1) as [(d&Hd)|E] by (destruct res; [done|by left]);
        [|by apply (Hsame w1)].
      exists (cfgs w'). split_and!; [|done|done]. right. rewrite <-(E1 KRedkeyConfig). exists d.
      split; [done|]. intros d' Hd'. pose proof (newest_listed _ _ _ _ (proj1 Hok) Hl Hd') as E.
      rewrite Hc in E. by injection E as <-.
  - apply exec_then_requeue in Hx as (res'&Hx&_).
    destruct (follows_zero_status h st _ _ _ _ _ _ _ Hst Hx Hf) as [Ho (rk&Hsm&[Hor _]&Hrk)].
    apply (Hsame w1); [by apply Ho|apply E1|by eapply observes_zero].
Qed.

Lemma zero_reconcile_leaves cluster req s tr s' a w w' :
  keyed st w → st KRedkey w !! req = Some cluster → spec_Primaries (rk_Spec cluster) = 0%Z →
  configs_ok cluster (cfgs w) →
  exec (Reconcile r req) s tr s' a → follows h w tr w' → zero_step cluster w w'.
Proof.
  intros Hkw Hst Hp Hok Hx Hf. pose proof (Hkw KRedkey _ _ Hst) as Hkey. simpl in Hkey. subst req.
  destruct a as [res oe].
  destruct (reconcile_at_zero h st r _ _ _ _ _ _ _ _ _ Hst Hp Hx Hf)
    as [[_ E]|(w1&w2&s1&t1&s2&x&E1&E2&Hx1&Hf1&_)].
  - exists (cfgs w). rewrite (E KRedkeyConfig). split_and!; [by left|done|].
    eapply observes_quiet; [exact Hst|apply E].
  - assert (Hk1 : keyed st w1) by (intros k key o; rewrite E1; apply Hkw).
    rewrite <-(E1 KRedkey) in Hst. rewrite <-(E1 KRedkeyConfig) in Hok.
    destruct (zero_stage_leaves _ _ _ _ _ _ _ Hk1 Hst Hok Hx1 Hf1) as (m&Hm&Hs&Ho).
    exists m. rewrite <-(E1 KRedkeyConfig), (E2 KRedkeyConfig). split_and!; [done|done|].
    unfold observes in *. by rewrite (E2 KRedkey).
Qed.

End step.

(** ** Generations and configs *)

Section books.
Context {K : K8sTypes} {D : Deps} {DS : DepsSpec} {SS : SortSlice} {SP : SortSliceSpec}.
Context {W : Type} (h : ∀ c, W → W * ans c).
Context (st : ∀ k, W → gmap NamespacedName (obj_of k)) {KS : KubeStore h st}.
Variable r : RedkeyReconciler.
Implicit Types (tr : list obs) (w : W) (cluster rk : Redkey) (c : RedkeyConfig).
Implicit Types (m : gmap NamespacedName RedkeyConfig).

Abbreviation cfgs w := (st KRedkeyConfig w).

(** The users edit the Redkey: the server counts the generation up when the spec
    changes, and only then. *)
Definition edits (req : NamespacedName) w w' : Prop :=
  (∀ k, k ≠ KRedkey → st k w' = st k w) ∧
  ∃ cluster cluster', st KRedkey w !! req = Some cluster ∧
    meta_key (rk_meta cluster') = meta_key (rk_meta cluster) ∧
    rk_Status cluster' = rk_Status cluster ∧ in_int64 (om_Generation (rk_meta cluster')) ∧
    (om_Generation (rk_meta cluster') = om_Generation (rk_meta cluster) ∧
       rk_Spec cluster' = rk_Spec cluster ∨
     om_Generation (rk_meta cluster) < om_Generation (rk_meta cluster'))%Z ∧
    st KRedkey w' = <[req := cluster']> (st KRedkey w).

(** Robin reports on a config; annotations are not part of its status. *)
Definition reports (req : NamespacedName) w w' : Prop :=
  ∃ cluster, st KRedkey w !! req = Some cluster ∧
    robin_reports st cluster
      (λ c c', om_Annotations (cfg_meta c') = om_Annotations (cfg_meta c)) w w'.

(** Anything happens to the other objects. *)
Definition elsewhere w w' : Prop :=
  keyed st w' ∧ st KRedkey w' = st KRedkey w ∧ cfgs w' = cfgs w.

Inductive happens (req : NamespacedName) w w' : Prop :=
| happens_reconcile : reconciled h st r req false w w' → happens req w w'
| happens_report : reports req w w' → happens req w w'
| happens_edit : edits req w w' → happens req w w'
| happens_elsewhere : elsewhere w w' → happens req w w'.

(** The books are kept: the configs are the operator's, and the generations on record
    are true. *)
Record bookkept (req : NamespacedName) cluster w : Prop := {
  bk_keyed : keyed st w;
  bk_stored : st KRedkey w !! req = Some cluster;
  bk_key : meta_key (rk_meta cluster) = req;
  bk_int64 : in_int64 (om_Generation (rk_meta cluster));
  bk_ordered : ordered cluster (cfgs w);
  bk_honest : honest cluster (cfgs w) }.

(** A Redkey just created: no generation is observed yet, it has no config, and the
    names of its configs are free. *)
Definition fresh (req : NamespacedName) cluster w : Prop :=
  keyed st w ∧ st KRedkey w !! req = Some cluster ∧ meta_key (rk_meta cluster) = req ∧
  in_int64 (om_Generation (rk_meta cluster)) ∧
  (st_ObservedGeneration (rk_Status cluster) < om_Generation (rk_meta cluster))%Z ∧
  no_holds st cluster w ∧
  ∀ seq, (0 < seq)%Z →
    cfgs w !! mkNN (om_Namespace (rk_meta cluster)) (config_name cluster seq) = None.

Lemma fresh_bookkept req cluster w : fresh req cluster w → bookkept req cluster w.
Proof.
  intros (Hk&Hst&Hkey&Hg&Hobs&Hn&Hfree). split; try done.
  - split_and!.
    + intros c c' Hc. by destruct (Hn c).
    + intros c Hc. by destruct (Hn c).
    + intros seq c Hseq Hc. by rewrite Hfree in Hc.
  - split_and!; [lia| |lia]. intros c g Hc. by destruct (Hn c).
Qed.

Lemma same_honest cluster rk m :
  same_redkey cluster rk →
  st_ObservedGeneration (rk_Status rk) = st_ObservedGeneration (rk_Status cluster) →
  honest cluster m → honest rk m.
Proof.
  intros Hs Hobs (H1&H2&H3). pose proof Hs as (_&Hgen&Hspec). unfold honest.
  rewrite Hobs, Hgen, Hspec. split_and!; [done| |].
  - intros c g Hc Hg. rewrite (same_configures _ _ _ Hs). apply (same_holds _ _ _ _ Hs) in Hc.
    by apply H2.
  - intros Hp E. apply (same_current _ _ _ Hs). by apply H3.
Qed.

Lemma grown_holds cluster Q m m' c :
  grown cluster Q m m' → holds cluster m' c →
  holds cluster m c ∨ added cluster m m' c.
Proof.
  intros [->|(d&Ha&_)] Hc; [by left|].
  destruct (added_holds _ _ _ _ _ Ha Hc) as [->|?]; [by right|by left].
Qed.

(** One reconcile keeps the generations on record true. *)
Lemma step_honest cluster rk Q m m1 m' :
  in_int64 (om_Generation (rk_meta cluster)) → honest cluster m → grown cluster Q m m1 →
  m' ⊆ m1 → same_redkey cluster rk →
  rk = cluster ∨ st_ObservedGeneration (rk_Status rk) = om_Generation (rk_meta cluster) →
  (spec_Primaries (rk_Spec cluster) ≠ 0%Z →
   st_ObservedGeneration (rk_Status rk) = om_Generation (rk_meta cluster) → current cluster m') →
  honest rk m'.
Proof.
  intros Hg (H1&H2&_) Hgr Hs Hsame Hor Hcur. pose proof Hsame as (_&Hgen&Hspec).
  unfold honest. rewrite Hgen, Hspec. split_and!.
  - destruct Hor as [->|]; [done|lia].
  - intros c g Hc Hcg. rewrite (same_configures _ _ _ Hsame).
    apply (same_holds _ _ _ _ Hsame), (holds_mono _ _ _ _ Hs) in Hc.
    destruct (grown_holds _ _ _ _ _ Hgr Hc) as [Hc'|(_&Hcf&_&Hcg'&_)]; [by apply H2|].
    rewrite (Hcg' Hg) in Hcg. injection Hcg as <-. by split.
  - intros Hp Hobs. apply (same_current _ _ _ Hsame). by apply Hcur.
Qed.

Lemma config_step_current cluster m m1 m' rk :
  in_int64 (om_Generation (rk_meta cluster)) → spec_Primaries (rk_Spec cluster) ≠ 0%Z →
  honest cluster m →
  grown cluster (λ d, needsNewConfig cluster (Some d) = true) m m1 →
  (∀ c, newest cluster m1 c → newest cluster m' c) →
  rk = cluster ∨ st_ObservedGeneration (rk_Status rk) = om_Generation (rk_meta cluster) ∧
    ((∃ c, added cluster m m1 c) ∨
     m1 = m ∧ ∃ c, newest cluster m1 c ∧ needsNewConfig cluster (Some c) = false) →
  st_ObservedGeneration (rk_Status rk) = om_Generation (rk_meta cluster) → current cluster m'.
Proof.
  intros Hg Hp Hh Hgr Hn Hor Hobs. apply (current_kept _ _ _ Hn).
  destruct Hor as [->|[_ [(c&Ha)|[-> (c&Hc&Hneed)]]]].
  - pose proof Hh as (_&_&H3). destruct (H3 Hp Hobs) as (c&Hc&Hrest).
    destruct Hgr as [->|(d&_&Hd)]; [by exists c|]. specialize (Hd c Hc).
    apply needsNewConfig_spec in Hd as [Hlt _]. lia.
  - by eapply added_current.
  - by eapply honest_current.
Qed.

Lemma grown_ordered cluster Q m m1 :
  ordered cluster m → grown cluster Q m m1 → ordered cluster m1.
Proof.
  intros Ho [->|(c&(Hc&_&_&_&Hkey&Hfresh&Hst&Hpos&Hmax)&_)]; [done|]. rewrite Hst in *.
  by apply ordered_insert.
Qed.

Lemma grown_keyed cluster Q m m1 :
  (∀ key c, m !! key = Some c → meta_key (cfg_meta c) = key) → grown cluster Q m m1 →
  ∀ key c, m1 !! key = Some c → meta_key (cfg_meta c) = key.
Proof.
  intros Hk [->|(d&(_&_&_&_&_&_&->&_)&_)]; [done|].
  intros key c [[<- <-]|[_ ?]]%lookup_insert_Some; [done|by apply Hk].
Qed.

Lemma reconcile_bookkept req cluster w w' :
  bookkept req cluster w → reconciled h st r req false w w' → ∃ rk, bookkept req rk w'.
Proof.
  intros [Hk Hst Hkey Hg Ho Hh] (cl&s&tr&s'&res&oe&Hst'&Hr&Hx&Hf&_).
  rewrite Hst in Hst'. injection Hst' as <-.
  pose proof (ordered_ok _ _ Ho Hr) as Hok. pose proof (follows_keyed h st _ _ _ Hk Hf) as Hk'.
  assert (∃ Q m1 rk, grown cluster Q (cfgs w) m1 ∧ cfgs w' ⊆ m1 ∧
    st KRedkey w' !! req = Some rk ∧ same_redkey cluster rk ∧ honest rk (cfgs w'))
    as (Q&m1&rk&Hgr&Hs&Hrk&Hsame&Hh').
  { destruct (decide (spec_Primaries (rk_Spec cluster) = 0%Z)) as [Hp|Hp].
    - destruct (zero_reconcile_leaves h st r _ _ _ _ _ _ _ _ Hk Hst Hp Hok Hx Hf)
        as (m1&Hgr&Hs&rk&Hrk&Hsame&Hor). rewrite Hkey in Hrk. eexists _, m1, rk.
      do 4 (split; [eassumption|]). eapply step_honest; try done. naive_solver.
    - destruct (reconcile_leaves h st r _ _ _ _ _ _ _ _ Hk Hst Hp Hok Hx Hf)
        as (m1&Hgr&Hs&Hn&rk&Hrk&Hsame&Hor). rewrite Hkey in Hrk. eexists _, m1, rk.
      do 4 (split; [eassumption|]). eapply step_honest; try done; [naive_solver|].
      intros _ Hobs. by eapply config_step_current. }
  exists rk. pose proof Hsame as (Hm&Hgen&_). split; try done; [congruence|by rewrite Hgen|].
  eapply same_ordered; [done|].
  pose proof (grown_keyed _ _ _ _ (Hk KRedkeyConfig) Hgr) as Hkm.
  eapply ordered_subseteq; [exact Hkm|exact Hs|by eapply grown_ordered].
Qed.

(** A report on a config, or none: what is stored afterwards. *)
Definition after_report cluster w w' : Prop :=
  cfgs w' = cfgs w ∨ ∃ c c', holds cluster (cfgs w) c ∧ reported c c' ∧
    om_Annotations (cfg_meta c') = om_Annotations (cfg_meta c) ∧
    cfgs w' = <[meta_key (cfg_meta c) := c']> (cfgs w).

Lemma reports_case req cluster w w' :
  st KRedkey w !! req = Some cluster → reports req w w' →
  (∀ k, k ≠ KRedkeyConfig → st k w' = st k w) ∧ after_report cluster w w'.
Proof.
  intros Hst (cl&Hst'&Hoth&Hr). rewrite Hst in Hst'. injection Hst' as <-. split; [done|].
  unfold after_report. naive_solver.
Qed.

Lemma report_keyed cluster w w' :
  keyed st w → (∀ k, k ≠ KRedkeyConfig → st k w' = st k w) → after_report cluster w w' → keyed st w'.
Proof.
  intros Hk Hoth Hr k key o. destruct (decide (k = KRedkeyConfig)) as [->|Hne];
    [|rewrite Hoth by done; apply Hk].
  destruct Hr as [->|(c&c'&Hc&Hrep&_&->)]; [apply Hk|].
  apply (insert_keyed KRedkeyConfig); [apply Hk|apply Hrep].
Qed.

(** What a report says nothing of stays: generations, specs, which config is newest. *)
Definition same_order (c c' : RedkeyConfig) : Prop :=
  config_generation c' = config_generation c ∧ cfg_Spec c' = cfg_Spec c.

Lemma after_holds cluster w w' d :
  after_report cluster w w' → holds cluster (cfgs w') d →
  ∃ c, holds cluster (cfgs w) c ∧ same_order c d.
Proof.
  intros [->|(c&c'&Hc&Hrep&Ha&->)] Hd; [by exists d|].
  apply report_old in Hd as [->|[Hd _]]; [|by exists d]. exists c. split; [done|].
  split; [unfold config_generation; by rewrite Ha|apply Hrep].
Qed.

Lemma after_newest cluster w w' d :
  after_report cluster w w' → newest cluster (cfgs w) d →
  ∃ d', newest cluster (cfgs w') d' ∧ same_order d d'.
Proof.
  intros [->|(c&c'&Hc&Hrep&Ha&->)] [Hd Hmax]; [by exists d|].
  assert (Hle : ∀ e, holds cluster (<[meta_key (cfg_meta c) := c']> (cfgs w)) e →
    (cfg_seq e ≤ cfg_seq d)%Z).
  { intros e [->|[He _]]%report_old; [rewrite (reported_seq c c' Hrep)|]; by apply Hmax. }
  destruct (decide (meta_key (cfg_meta d) = meta_key (cfg_meta c))) as [Hkd|Hkd].
  - assert (d = c) as ->.
    { destruct Hd as [_ Hd], Hc as [_ Hc]. rewrite Hkd, Hc in Hd. by injection Hd. }
    exists c'. split; [split; [by apply reported_holds|by rewrite (reported_seq c c' Hrep)]|].
    split; [unfold config_generation; by rewrite Ha|apply Hrep].
  - exists d. split; [split; [|done]|done]. destruct Hd as [Hl Hd]. split; [done|].
    by rewrite lookup_insert_ne.
Qed.

Lemma after_ordered cluster w w' :
  keyed st w → after_report cluster w w' → ordered cluster (cfgs w) → ordered cluster (cfgs w').
Proof.
  intros Hk [->|(c&c'&Hc&Hrep&_&->)] Ho; [done|].
  apply report_ordered; [done|done|apply (Hk KRedkeyConfig)|done].
Qed.

Lemma order_configures cluster c c' :
  same_order c c' → configures cluster c' ↔ configures cluster c.
Proof. intros [_ Hs]. unfold configures, cfg_seq. by rewrite Hs. Qed.

Lemma report_bookkept req cluster w w' :
  bookkept req cluster w → reports req w w' → bookkept req cluster w'.
Proof.
  intros [Hk Hst Hkey Hg Ho (H1&H2&H3)] Hr.
  destruct (reports_case _ _ _ _ Hst Hr) as [Hoth Ha].
  split; [by eapply report_keyed|by rewrite Hoth|done|done|by eapply after_ordered|].
  split_and!; [done| |].
  - intros d g Hd. destruct (after_holds _ _ _ _ Ha Hd) as (c&Hc&Hs).
    rewrite (order_configures _ _ _ Hs). destruct Hs as [-> _]. by apply H2.
  - intros Hp Hobs. destruct (H3 Hp Hobs) as (c&Hc&Hcg&Hcc).
    destruct (after_newest _ _ _ _ Ha Hc) as (c'&Hc'&Hs). exists c'.
    rewrite (order_configures _ _ _ Hs). destruct Hs as [-> _]. done.
Qed.

Lemma edit_bookkept req cluster w w' :
  bookkept req cluster w → edits req w w' → ∃ rk, bookkept req rk w'.
Proof.
  intros [Hk Hst Hkey Hg Ho Hh] (Hoth&cl&rk&Hst'&Hm&Hs&Hg'&Hor&Hins).
  rewrite Hst in Hst'. injection Hst' as <-. exists rk.
  assert (Hkeyed : keyed st w').
  { intros k key o. destruct (decide (k = KRedkey)) as [->|Hne]; [|rewrite Hoth by done; apply Hk].
    rewrite Hins. intros [[<- <-]|[_ ?]]%lookup_insert_Some; [by cbn; rewrite Hm|by apply Hk]. }
  assert (Hname : om_Name (rk_meta rk) = om_Name (rk_meta cluster) ∧
                  om_Namespace (rk_meta rk) = om_Namespace (rk_meta cluster))
    by (unfold meta_key in Hm; split; congruence).
  destruct Hname as [Hna Hns].
  assert (Hhold : ∀ m c, holds rk m c ↔ holds cluster m c)
    by (intros m c; unfold holds, labelled; by rewrite Hna, Hns).
  split; [done| |congruence|done|rewrite Hoth by done..].
  - rewrite Hins. apply lookup_insert_eq.
  - destruct Ho as (Hd&Hp&Hn). split_and!.
    + intros c c' H1%Hhold H2%Hhold. by apply Hd.
    + intros c H1%Hhold. by apply Hp.
    + intros seq c. unfold config_name. rewrite Hna, Hns, Hhold. by apply Hn.
  - destruct Hor as [[Hgen Hspec]|Hlt].
    + apply (same_honest cluster); [by split_and!|by rewrite Hs|done].
    + destruct Hh as (H1&H2&_). unfold honest. rewrite Hs. split_and!; [lia| |lia].
      intros c g Hc%Hhold Hcg. destruct (H2 c g Hc Hcg). lia.
Qed.

Lemma happens_bookkept req cluster w w' :
  bookkept req cluster w → happens req w w' → ∃ rk, bookkept req rk w'.
Proof.
  intros Hb [Hr|Hr|He|(Hk&ER&EC)].
  - by eapply reconcile_bookkept.
  - exists cluster. by eapply report_bookkept.
  - by eapply edit_bookkept.
  - exists cluster. destruct Hb. split; rewrite ?ER, ?EC; done.
Qed.

Lemma history_bookkept req cluster w w' :
  bookkept req cluster w → rtc (happens req) w w' → ∃ rk, bookkept req rk w'.
Proof.
  intros Hb Hr. revert cluster Hb. induction Hr as [w|w w1 w' He _ IH]; intros cluster Hb; [by exists cluster|].
  destruct (happens_bookkept _ _ _ _ Hb He) as [rk ?]. by eapply IH.
Qed.



(** *** A generation without a config *)

(** The generation counts as observed and no config was made for it. *)
Definition lost (req : NamespacedName) cluster w : Prop :=
  keyed st w ∧ st KRedkey w !! req = Some cluster ∧ meta_key (rk_meta cluster) = req ∧
  spec_Primaries (rk_Spec cluster) ≠ 0%Z ∧
  st_ObservedGeneration (rk_Status cluster) = om_Generation (rk_meta cluster) ∧
  ordered cluster (cfgs w) ∧ (∃ c, newest cluster (cfgs w) c) ∧
  ∀ c, holds cluster (cfgs w) c →
    config_generation c ≠ Some (om_Generation (rk_meta cluster)) ∧ ¬ configures cluster c.

(** As long as nobody edits the Redkey. *)
Definition unedited (req : NamespacedName) w w' : Prop :=
  reconciled h st r req false w w' ∨ reports req w w' ∨ elsewhere w w'.

(** Then no reconcile makes up for it. *)
Lemma reconcile_lost req cluster w w' :
  lost req cluster w → reconciled h st r req false w w' →
  ∃ rk, lost req rk w' ∧ same_redkey cluster rk.
Proof.
  intros (Hk&Hst&Hkey&Hp&Hobs&Ho&(c&Hc)&Hno) (cl&s&tr&s'&res&oe&Hst'&Hr&Hx&Hf&_).
  rewrite Hst in Hst'. injection Hst' as <-.
  destruct (reconcile_leaves h st r _ _ _ _ _ _ _ _ Hk Hst Hp (ordered_ok _ _ Ho Hr) Hx Hf)
    as (m&Hgr&Hs&Hn&rk&Hrk&Hsame&Hor).
  assert (m = cfgs w) as ->.
  { destruct Hgr as [->|(d&_&Hd)]; [done|].
    specialize (Hd c Hc). apply needsNewConfig_spec in Hd as [Hlt _]. lia. }
  rewrite Hkey in Hrk. exists rk. split; [|done]. pose proof Hsame as (Hm&Hgen&Hspec).
  split; [by eapply follows_keyed|]. split; [done|]. split; [congruence|].
  rewrite Hspec, Hgen. split; [done|]. split; [destruct Hor as [->|[-> _]]; done|].
  split. { eapply same_ordered; [done|]. by eapply ordered_subseteq; [apply (Hk KRedkeyConfig)|..]. }
  split. { exists c. apply (same_newest _ _ _ _ Hsame). by apply Hn. }
  intros d Hd. rewrite (same_configures _ _ _ Hsame). apply Hno.
  apply (same_holds _ _ _ _ Hsame) in Hd. by eapply holds_mono.
Qed.

Lemma report_lost req cluster w w' : lost req cluster w → reports req w w' → lost req cluster w'.
Proof.
  intros (Hk&Hst&Hkey&Hp&Hobs&Ho&(c&Hc)&Hno) Hr.
  destruct (reports_case _ _ _ _ Hst Hr) as [Hoth Ha].
  split; [by eapply report_keyed|]. split; [by rewrite Hoth|]. do 3 (split; [done|]).
  split; [by eapply after_ordered|].
  split; [destruct (after_newest _ _ _ _ Ha Hc) as (c'&Hc'&_); by exists c'|].
  intros d Hd. destruct (after_holds _ _ _ _ Ha Hd) as (e&He&Hs).
  rewrite (order_configures _ _ _ Hs). destruct Hs as [-> _]. by apply Hno.
Qed.

Lemma unedited_lost req cluster w w' :
  lost req cluster w → rtc (unedited req) w w' → ∃ rk, lost req rk w' ∧ same_redkey cluster rk.
Proof.
  intros Hl Hr. revert cluster Hl.
  induction Hr as [w|w w1 w' He _ IH]; intros cluster Hl; [by exists cluster|].
  assert (∃ rk, lost req rk w1 ∧ same_redkey cluster rk) as (rk&Hl1&Hs1).
  { destruct He as [Hr|[Hr|(Hk&ER&EC)]]; [by eapply reconcile_lost|..]; exists cluster; (split; [|done]).
    - by eapply report_lost.
    - destruct Hl as (_&Hl). split; [done|]. by rewrite ER, EC. }
  destruct (IH _ Hl1) as (rk'&Hl'&Hs'). exists rk'. split; [done|].
  destruct Hs1 as (?&?&?), Hs' as (?&?&?). split_and!; congruence.
Qed.

End books.

(** ** Scaling to zero *)

Section stopping.
Context {K : K8sTypes} {D : Deps} {DS : DepsSpec} {SS : SortSlice} {SP : SortSliceSpec}.
Context {W : Type} (h : ∀ c, W → W * ans c).
Context (st : ∀ k, W → gmap NamespacedName (obj_of k)) {KS : KubeStore h st}.
Variable r : RedkeyReconciler.
Implicit Types (tr : list obs) (w : W) (cluster rk : Redkey) (c d : RedkeyConfig).

Abbreviation cfgs w := (st KRedkeyConfig w).

(** A reconcile of a Redkey without primaries and with configs: the calls before the
    newest config is looked at write nothing, and neither do those after the stage. *)
Lemma stopping_cases req cluster c s tr s' res oe w w' :
  draining st req cluster w → newest cluster (cfgs w) c →
  exec (Reconcile r req) s tr s' (res, oe) → follows h w tr w' →
  (oe ≠ None ∧ ∀ k, st k w' = st k w) ∨
  ∃ l w1 w2 s1 t1 s2 x, (∀ k, st k w1 = st k w) ∧ (∀ k, st k w' = st k w2) ∧
    lists_all cluster (cfgs w1) l ∧ slice_last l = Some c ∧
    exec (if negb (bool_decide (cs_Primaries (cfg_Spec c) = 0%Z))
          then hand_over_to_robin r cluster c
          else if bool_decide (cfg_phase c = ConfigPhaseApplied)
          then tear_down r cluster else wait_for_robin r cluster l) s1 t1 s2 x ∧
    follows h w1 t1 w2 ∧ (oe = None → is_Some (ok_of x)).
Proof.
  intros (Hk&Hst&Hkey&Hp&Ho&_) Hc Hx Hf.
  destruct (reconcile_at_zero h st r _ _ _ _ _ _ _ _ _ Hst Hp Hx Hf)
    as [?|(w1&w2&s1&t1&s2&x&E1&E2&Hx1&Hf1&Hoe)]; [by left|].
  assert (Hk1 : keyed st w1) by (intros k key o; rewrite E1; apply Hk).
  unfold reconcileScaleToZero in Hx1.
  apply exec_bindE in Hx1 as [(e&H1&->)|(t2&t3&s3&l&->&H1&Hx1)].
  { left. pose proof (list_leaves h st _ _ _ _ _ _ _ H1 Hf1) as E. split.
    - intros ->. by destruct (Hoe eq_refl).
    - intros k. by rewrite E2, E, E1. }
  right. apply follows_app in Hf1 as (w3&Hf1&Hf2).
  destruct (follows_list h st cluster _ _ _ _ _ _ Hk1 H1 Hf1) as [Hl E3].
  assert (Hlast : slice_last l = Some c).
  { rewrite (E1 KRedkeyConfig) in Hl. eapply newest_listed; [apply Ho|done..]. }
  rewrite Hlast in Hx1. exists l, w3, w2, s3, t3, s2, x.
  split; [intros k; by rewrite E3|]. split; [done|]. split; [by rewrite (E3 KRedkeyConfig)|].
  by split_and!.
Qed.

(** Robin reports, but the newest config is not applied yet; reconciles go on. *)
Definition waits (req : NamespacedName) w w' : Prop :=
  reconciled h st r req false w w' ∨
  ∃ cluster, st KRedkey w !! req = Some cluster ∧
    robin_reports st cluster
      (λ c c', newest cluster (cfgs w) c → cfg_phase c' ≠ ConfigPhaseApplied) w w'.

(** [d] is the newest config and asks Robin to stop, which it has not done yet. *)
Definition waiting (req : NamespacedName) (names : gset NamespacedName) d w : Prop :=
  ∃ cluster d', draining st req cluster w ∧ newest cluster (cfgs w) d' ∧
    meta_key (cfg_meta d') = meta_key (cfg_meta d) ∧ cfg_Spec d' = cfg_Spec d ∧
    cs_Primaries (cfg_Spec d) = 0%Z ∧ cfg_phase d' ≠ ConfigPhaseApplied ∧
    dom (cfgs w) = names.

Lemma reconcile_waiting req names d w w' :
  waiting req names d w → reconciled h st r req false w w' → waiting req names d w'.
Proof.
  intros (cluster&d'&Hd&Hn&Hkd&Hsp&Hz&Hph&Hdom) (cl&s&tr&s'&res&oe&Hst'&Hr&Hx&Hf&_).
  pose proof Hd as (_&Hst&Hkey&_). rewrite Hst in Hst'. injection Hst' as <-.
  destruct (follows_reconcile_zero h st r _ _ _ _ _ _ _ _ _ Hd Hr Hx Hf) as (rk&Hd'&Hsame&_).
  assert (E : cfgs w' = cfgs w).
  { destruct (stopping_cases _ _ _ _ _ _ _ _ _ _ Hd Hn Hx Hf)
      as [[_ E]|(l&w1&w2&s1&t1&s2&x&E1&E2&Hl&Hlast&Hx1&Hf1&_)]; [apply E|].
    rewrite Hsp, Hz, bool_decide_eq_true_2, bool_decide_eq_false_2 in Hx1 by done.
    cbn [negb] in Hx1. assert (Hne : l ≠ []) by (by intros ->).
    rewrite <-Hkey, <-(E1 KRedkey) in Hst.
    destruct (follows_wait h st r _ _ _ _ _ _ _ _ Hne Hst Hx1 Hf1) as [EC _].
    by rewrite (E2 KRedkeyConfig), EC. }
  exists rk, d'. rewrite E. split; [done|]. split; [by apply (same_newest _ _ _ _ Hsame)|done].
Qed.

Lemma report_waiting req names d w w' cluster0 :
  waiting req names d w → st KRedkey w !! req = Some cluster0 →
  robin_reports st cluster0
    (λ c c', newest cluster0 (cfgs w) c → cfg_phase c' ≠ ConfigPhaseApplied) w w' →
  waiting req names d w'.
Proof.
  intros (cluster&d'&Hd&Hn&Hkd&Hsp&Hz&Hph&Hdom) Hst' Hr.
  pose proof Hd as (_&Hst&_). rewrite Hst in Hst'. injection Hst' as <-.
  pose proof (report_draining st _ _ _ _ _ Hd Hr) as Hd'.
  destruct Hr as [Hoth [[E _]|(c&c'&Hc&Hrep&Ha&E)]].
  { exists cluster, d'. by rewrite E. }
  assert (Hseq : cfg_seq c' = cfg_seq c) by (by apply reported_seq).
  assert (Hmax : ∀ e, holds cluster (cfgs w') e → (cfg_seq e ≤ cfg_seq d')%Z).
  { intros e He. rewrite E in He. destruct Hn as [_ Hmax].
    apply report_old in He as [->|[He _]]; [rewrite Hseq|]; by apply Hmax. }
  assert (Hdom' : dom (cfgs w') = names).
  { rewrite E, dom_insert_lookup_L; [done|]. destruct Hc as [_ Hc]. by exists c. }
  destruct (decide (meta_key (cfg_meta d') = meta_key (cfg_meta c))) as [Hkc|Hkc].
  - assert (d' = c) as ->.
    { destruct Hn as [[_ H1] _], Hc as [_ H2]. rewrite Hkc, H2 in H1. by injection H1. }
    pose proof Hrep as (Hk'&_&Hs'). exists cluster, c'.
    split; [done|]. split; [split; [rewrite E; by apply reported_holds|by rewrite Hseq]|].
    split; [congruence|]. split; [congruence|]. by auto.
  - exists cluster, d'. split; [done|]. split; [split; [|done]|done].
    destruct Hn as [[Hl H1] _]. split; [done|]. by rewrite E, lookup_insert_ne.
Qed.

Lemma waits_waiting req names d w w' :
  waiting req names d w → rtc (waits req) w w' → waiting req names d w'.
Proof.
  intros Hw. induction 1 as [w|w w1 w' He _ IH]; [done|]. apply IH.
  destruct He as [Hr|(cl&Hst&Hr)]; [by eapply reconcile_waiting|by eapply report_waiting].
Qed.


(** *** The recorded topology *)

Lemma zeroed_topology req w w' rk :
  zeroed st req w → st KRedkey w !! req = Some rk → rtc (event h st r req) w w' →
  ∃ rk', st KRedkey w' !! req = Some rk' ∧ same_topology rk rk'.
Proof.
  intros Hz Hst Hr. revert rk Hz Hst.
  induction Hr as [w|w w1 w' He _ IH]; intros rk Hz Hst; [by exists rk|].
  assert (∃ rk1, st KRedkey w1 !! req = Some rk1 ∧ same_topology rk rk1) as (rk1&Hst1&H1).
  { destruct Hz as (cl&Hd&Hn&_). pose proof Hd as (_&Hst'&_).
    rewrite Hst in Hst'. injection Hst' as <-.
    destruct He as [(cl&s&tr&s'&res&oe&Hst'&Hr&Hx&Hf&_)|(cl&Hst'&Hoth&_)];
      rewrite Hst in Hst'; injection Hst' as <-.
    - destruct (follows_reconcile_zero h st r _ _ _ _ _ _ _ _ _ Hd Hr Hx Hf)
        as (rk1&(_&Hst1&_)&_&Hno&_). exists rk1. split; [done|].
      destruct (Hno Hn) as [_ Hor]. by apply zero_topology.
    - exists rk. by rewrite Hoth. }
  destruct (IH rk1 (event_zeroed h st r _ _ _ Hz He) Hst1) as (rk'&Hst2&H2).
  exists rk'. split; [done|]. destruct H1, H2. split; congruence.
Qed.

(** C39: The scale to zero records no topology: when the newest config asks for no
    primaries and Robin has applied it, and no topology is on record yet, a reconcile
    that succeeds deletes the older configs, applied or not, without recording theirs;
    from then on, whatever reconciles and reports follow, no topology is on record and
    the rule that should bring the old one back lets any other pass. *)
Theorem applied_topology_not_recorded req cluster w0 w1 w2 :
  draining st req cluster w0 → finished st cluster w0 →
  st_LastAppliedPrimaries (rk_Status cluster) = 0%Z →
  reconciled h st r req true w0 w1 → rtc (event h st r req) w1 w2 →
  zeroed st req w2 ∧ ∃ rk, st KRedkey w2 !! req = Some rk ∧
    st_LastAppliedPrimaries (rk_Status rk) = 0%Z ∧
    ∀ s, scale_lock rk (with_spec rk s) = true.
Proof.
  intros Hd Hfin Hla (cl&s&tr&s'&res&oe&Hst'&Hr&Hx&Hf&Hoe) Hev.
  pose proof Hd as (_&Hst&_). rewrite Hst in Hst'. injection Hst' as <-.
  destruct (follows_reconcile_zero h st r _ _ _ _ _ _ _ _ _ Hd Hr Hx Hf)
    as (rk&(_&Hst1&_)&_&_&_&Hz&Htop).
  specialize (Hz (Hoe eq_refl) Hfin). destruct (Htop Hfin) as [Ht _].
  split; [by eapply events_zeroed|].
  destruct (zeroed_topology _ _ _ _ Hz Hst1 Hev) as (rk2&Hst2&[Ht2 _]).
  exists rk2. split; [done|]. assert (E : st_LastAppliedPrimaries (rk_Status rk2) = 0%Z) by congruence.
  split; [done|]. intros s0. unfold scale_lock, has_last_applied. cbn [with_spec rk_Status].
  rewrite E. by rewrite !orb_true_r.
Qed.

End stopping.

(** ** Histories in memory *)

Section histories_witness.
Import Simple.

Abbreviation m_store := (λ k w, Memory.store k w).

(** A Redkey just created, and its first reconcile. *)
Definition f_redkey : Redkey := Sample.redkey 1 (Sample.spec 3 1 false) (Sample.status "" "" 0).
Definition f_start : Memory.World := w_world f_redkey [].
Definition f_created : Memory.World := (z_reconcile f_start).1.
Definition f_after : Redkey :=
  default f_redkey (Memory.store KRedkey f_created !! Sample.key).

Lemma f_fresh : fresh m_store Sample.key f_redkey f_start.
Proof.
  assert (Hempty : Memory.store KRedkeyConfig f_start = ∅) by done.
  split_and!; [| |done| |done| |].
  - intros [] key o; try done.
    change (({[Sample.key := f_redkey]} : gmap NamespacedName Redkey) !! key = Some o →
      meta_key (rk_meta o) = key). by intros [<- <-]%lookup_singleton_Some.
  - by vm_compute.
  - by vm_compute.
  - intros c [_ Hc]. cbn beta in Hc. by rewrite Hempty in Hc.
  - intros seq _. cbn beta. by rewrite Hempty.
Qed.

(** What a reconcile in memory comes to is a step of the history. *)
Lemma m_reconciled w rk :
  Memory.store KRedkey w !! Sample.key = Some rk →
  bool_decide (Forall (λ c, (- 2 ^ 63 ≤ cfg_seq c + 1)%Z ∧ (cfg_seq c + 1 < 2 ^ 63)%Z)
    (map_to_list (Memory.store KRedkeyConfig w)).*2) = true →
  reconciled Memory.handler m_store w_reconciler Sample.key false w (z_reconcile w).1.
Proof.
  intros Hst Hr. exists rk, w_state,
    (run_trace Memory.handler (Reconcile w_reconciler Sample.key w_state) w),
    (z_reconcile w).2.1, (z_reconcile w).2.2.1, (z_reconcile w).2.2.2.
  split_and!; [done| | |apply follows_run|done].
  - intros c [_ Hc]. by apply (stored_all _ _ _ _ Hr Hc).
  - rewrite <-surjective_pairing. apply exec_run.
Qed.

Lemma f_created_happens :
  rtc (happens Memory.handler m_store w_reconciler Sample.key) f_start f_created.
Proof.
  apply rtc_once, happens_reconcile, (m_reconciled _ f_redkey); by vm_compute.
Qed.


Definition f_again := run Memory.handler (Reconcile w_reconciler Sample.key w_state) f_created.

Lemma f_again_ok : f_again.2.2.2 = None.
Proof. vm_compute. reflexivity. Qed.


(** The scale to zero of [ZeroConvergence], waiting for Robin. *)
Definition z_waiting : Memory.World := (z_reconcile z_asked).1.

Lemma z_waits : waits Memory.handler m_store w_reconciler Sample.key z_asked z_waiting.
Proof. left. apply (m_reconciled _ z_redkey); by vm_compute. Qed.

Lemma w_old_newest : newest z_redkey (Memory.store KRedkeyConfig z_start) w_old.
Proof. split; [split; [split|]; by vm_compute|]. by intros d [_ [_ ->]%w_stored]. Qed.


(** Robin has applied both configs, and no reconcile came in between. *)
Lemma z_applied_draining : draining m_store Sample.key z_redkey z_applied.
Proof.
  refine (report_draining m_store Sample.key z_redkey _ z_asked z_applied _ z_applies).
  destruct (event_draining Memory.handler m_store w_reconciler Sample.key z_redkey z_start z_asked
    z_draining) as [rk Hrk].
  - left. apply (m_reconciled _ z_redkey); by vm_compute.
  - assert (rk = z_redkey) as ->; [|exact Hrk]. destruct Hrk as (_&Hst&_).
    vm_compute in Hst. by injection Hst.
Qed.

Lemma z_applied_finished : finished m_store z_redkey z_applied.
Proof.
  intros c [[_ Hc] Hmax].
  assert (holds z_redkey (Memory.store KRedkeyConfig z_applied) z_config') as Hz
    by (split; [split|]; by vm_compute).
  specialize (Hmax _ Hz). revert Hmax.
  refine (stored_all (λ c, (cfg_seq z_config' ≤ cfg_seq c)%Z →
    cs_Primaries (cfg_Spec c) = 0%Z ∧ cfg_phase c = ConfigPhaseApplied) _ _ _ _ Hc).
  by vm_compute.
Qed.

Lemma applied_topology_not_recorded_witness :
  cs_Primaries (cfg_Spec w_old) = 3%Z ∧ applied w_old ∧
  ∃ rk, Memory.store KRedkey z_end !! Sample.key = Some rk ∧
    st_LastAppliedPrimaries (rk_Status rk) = 0%Z.
Proof.
  split; [reflexivity|]. split; [reflexivity|].
  destruct (applied_topology_not_recorded Memory.handler m_store w_reconciler Sample.key z_redkey
    z_applied z_end z_end z_applied_draining z_applied_finished) as (_&rk&Hst&Hrk&_).
  - reflexivity.
  - apply (z_reconciled _ z_redkey); [by vm_compute|apply z_in_range; by vm_compute|by vm_compute].
  - reflexivity.
  - exists rk. split; [exact Hst|exact Hrk].
Defined.

End histories_witness.
