(* ===== verification/System.v ===== *)
(** * The operator among other actors: the system

    The operator's reconciles run concurrently with each other, with users, with
    Robin and with the garbage collector; every call is one atomic step of the API
    server, may fail before or after taking effect, and reads may come from a cache
    that lags behind by any amount. The system is a step relation, with an
    executable selection of its steps.

    Workers are the reconciles under way, at most one per request as
    controller-runtime guarantees. A worker starts from any state of the metric
    trackers: no call depends on it, and the entries of a Redkey are only changed by
    its own worker. *)

From S2P Require Import Prelude Strconv ApiTypes Effects External Samples Metrics Metadata.
From S2P Require Import ConfigLifecycle Robin ScaleZero Reconciler Validation Server.

(** ** Reconciles cut short *)

Section partial.
Context {K : K8sTypes}.

(** [partial p tr q]: with the answers in [tr], [p] has come as far as [q]. *)
Fixpoint partial {A} (p : prog A) (tr : list obs) (q : prog A) : Prop :=
  match tr with
  | [] => q = p
  | o :: tr' => ∃ k, p = Call (obs_call o) k ∧ partial (k (obs_ans o)) tr' q
  end.

Lemma partial_snoc {A} (p : prog A) tr c (k : ans c → prog A) x :
  partial p tr (Call c k) → partial p (tr ++ [Obs c x]) (k x).
Proof.
  revert p. induction tr as [|o tr IH]; intros p; simpl.
  - intros <-. by exists k.
  - intros (k'&->&Hp). exists k'. split; [done|]. by apply IH.
Qed.

Lemma partial_runs {A} (p : prog A) tr q tr' a :
  partial p tr q → runs q tr' a → runs p (tr ++ tr') a.
Proof.
  revert p. induction tr as [|o tr IH]; intros p; simpl; [by intros ->|].
  intros (k&->&Hp) Hr. simpl. exists (obs_ans o), (tr ++ tr').
  split; [by destruct o|]. by apply IH.
Qed.

(** The server goes away: from now on every request fails. *)
Definition outage (c : call) (w : unit) : unit * ans c :=
  (w, match c return ans c with
      | Now => 0%Z | Clock => λ _, 0%Z
      | Get _ _ => inl (APIError ReasonOther "") | ListConfigs _ _ _ => inl (APIError ReasonOther "")
      | Create _ _ => inl (APIError ReasonOther "") | Patch _ _ _ => inl (APIError ReasonOther "")
      | Delete _ _ => inl (APIError ReasonOther "") | UpdateStatus _ => inl (APIError ReasonOther "")
      end).

(** What a program guarantees of its calls it guarantees of the next one. *)
Lemma partial_guarantee {S A} (R G : obs → Prop) (m : M S A) Q s tr c k :
  rg R G m Q → (∀ c w, R (Obs c (outage c w).2)) →
  partial (m s) tr (Call c k) → Forall R tr → ∃ x, G (Obs c x).
Proof.
  intros Hm Ho Hp Hr. set (q := Call c k) in *.
  assert (Forall R (run_trace outage q tt)) as Hq.
  { clear Hp. clearbody q. induction q as [a|c' k' IH]; simpl; [done|].
    apply Forall_cons. split; [by apply (Ho c' tt)|apply IH]. }
  pose proof (partial_runs _ _ _ _ _ Hp (run_runs outage q tt)) as Hx.
  rewrite (surjective_pairing (run outage q tt).2) in Hx.
  destruct (Hm s _ _ _ Hx) as [Hg _]; [by apply Forall_app|].
  apply Forall_app in Hg as [_ Hg]. apply Forall_cons in Hg as [Hg _]. by eexists.
Qed.

End partial.

(** ** The system *)

Section system.
Context {K : K8sTypes} {D : Deps} {SS : SortSlice}.
Variable r : RedkeyReconciler.
(** The Redkeys that users may delete, and create again. *)
Variable deletable : NamespacedName → Prop.

(** The server's Redkeys and configs, and every version of a Redkey it ever stored,
    any of which a cache may still show. *)
Record Store := mkStore {
  kv_redkeys : gmap NamespacedName Redkey;
  kv_versions : list Redkey;
  kv_configs : gmap NamespacedName RedkeyConfig }.

Definition put_redkey (rk : Redkey) (w : Store) : Store :=
  mkStore (<[meta_key (rk_meta rk) := rk]> (kv_redkeys w)) (rk :: kv_versions w) (kv_configs w).

Definition set_configs (f : gmap NamespacedName RedkeyConfig → gmap NamespacedName RedkeyConfig)
    (w : Store) : Store := mkStore (kv_redkeys w) (kv_versions w) (f (kv_configs w)).

(** Resource versions are not used twice. *)
Definition new_version (rk : Redkey) (w : Store) : Prop :=
  ∀ rk', rk' ∈ kv_versions w →
    om_ResourceVersion (rk_meta rk') ≠ om_ResourceVersion (rk_meta rk).

(** The server may change a config's metadata and status, not its key, labels,
    annotations and spec. *)
Definition same_config (c c' : RedkeyConfig) : Prop :=
  meta_key (cfg_meta c') = meta_key (cfg_meta c) ∧
  om_Labels (cfg_meta c') = om_Labels (cfg_meta c) ∧
  om_Annotations (cfg_meta c') = om_Annotations (cfg_meta c) ∧ cfg_Spec c' = cfg_Spec c.

(** A failed request. *)
Definition failed {A} (x : error + A) : Prop := ∃ e, x = inl e.

(** [served w c x w']: in [w] the call [c] may be answered with [x] and leave [w'].
    Nothing is said of writes to Redkeys other than their status, of patches to
    configs, which the operator never makes. *)
Definition served (w : Store) (c : call) : ans c → Store → Prop :=
  match c return ans c → Store → Prop with
  | Get k key => λ x w', w' = w ∧
      match x with
      | inl _ => True
      | inr o => meta_key (obj_meta k o) = key ∧
          match k return obj_of k → Prop with KRedkey => (.∈ kv_versions w) | _ => λ _, True end o
      end
  | ListConfigs _ _ _ => λ _ w', w' = w
  | Create k o => λ x w',
      match k return obj_of k → Prop with
      | KRedkey => λ _, True
      | KRedkeyConfig => λ c, (failed x ∧ w' = w) ∨
          ∃ c', same_config c c' ∧ kv_configs w !! meta_key (cfg_meta c) = None ∧
            w' = set_configs <[meta_key (cfg_meta c) := c']> w
      | _ => λ _, w' = w
      end o
  | Patch k _ _ => λ _ w', match k with KRedkey | KRedkeyConfig => True | _ => w' = w end
  | Delete k key => λ x w',
      match k with
      | KRedkey => True
      | KRedkeyConfig => (failed x ∧ w' = w) ∨ w' = set_configs (delete key) w
      | _ => w' = w
      end
  | UpdateStatus new => λ x w', (failed x ∧ w' = w) ∨
      ∃ cur m, kv_redkeys w !! meta_key (rk_meta new) = Some cur ∧
        om_ResourceVersion (rk_meta cur) = om_ResourceVersion (rk_meta new) ∧
        meta_key m = meta_key (rk_meta cur) ∧ om_Generation m = om_Generation (rk_meta cur) ∧
        let stored := with_meta (with_status cur (rk_Status new)) m in
        new_version stored w ∧ w' = put_redkey stored w ∧ (failed x ∨ x = inr stored)
  | Now | Clock => λ _ w', w' = w
  end.

(** The status of a new object. *)
Definition RedkeyStatus_zero : RedkeyStatus :=
  mkRedkeyStatus 0 "" "" RedkeySubstatus_zero None [] None 0 0 0.

(** What the others do. *)
Inductive env_step (w : Store) : Store → Prop :=
| user_creates rk :
    kv_redkeys w !! meta_key (rk_meta rk) = None → valid_spec (rk_Spec rk) = true →
    rk_Status rk = RedkeyStatus_zero → om_Generation (rk_meta rk) = 1%Z → new_version rk w →
    env_step w (put_redkey rk w)
| user_updates key rk s m :
    kv_redkeys w !! key = Some rk → admits rk (with_spec rk s) = true →
    meta_key m = meta_key (rk_meta rk) → om_Generation m = (om_Generation (rk_meta rk) + 1)%Z →
    new_version (with_meta (with_spec rk s) m) w →
    env_step w (put_redkey (with_meta (with_spec rk s) m) w)
| metadata_edited key rk m :
    kv_redkeys w !! key = Some rk → meta_key m = meta_key (rk_meta rk) →
    om_Generation m = om_Generation (rk_meta rk) → new_version (with_meta rk m) w →
    env_step w (put_redkey (with_meta rk m) w)
| user_deletes key :
    deletable key → env_step w (mkStore (delete key (kv_redkeys w)) (kv_versions w) (kv_configs w))
| robin_reports key c c' :
    kv_configs w !! key = Some c → same_config c c' → env_step w (set_configs <[key := c']> w)
| config_collected key : env_step w (set_configs (delete key) w).

(** A reconcile under way. *)
Definition Worker : Type := prog (OpState * (Result * option error)).

Record System := mkSystem { sys_store : Store; sys_workers : gmap NamespacedName Worker }.

Inductive sys_step : System → System → Prop :=
| request_starts w ws req (s : OpState) :
    ws !! req = None → sys_step (mkSystem w ws) (mkSystem w (<[req := Reconcile r req s]> ws))
| worker_calls w ws req c k x w' :
    ws !! req = Some (Call c k) → served w c x w' →
    sys_step (mkSystem w ws) (mkSystem w' (<[req := k x]> ws))
| worker_done w ws req a :
    ws !! req = Some (Ret a) → sys_step (mkSystem w ws) (mkSystem w (delete req ws))
| operator_restarts w ws : sys_step (mkSystem w ws) (mkSystem w ∅)
| others_act w ws w' : env_step w w' → sys_step (mkSystem w ws) (mkSystem w' ws).

Definition sys_init : System := mkSystem (mkStore ∅ [] ∅) ∅.

Definition reachable (σ : System) : Prop := rtc sys_step sys_init σ.

(** ** The abstract system: Redkeys that live *)

Inductive life_step (m : gmap NamespacedName Redkey) : gmap NamespacedName Redkey → Prop :=
| life_begins rk :
    m !! meta_key (rk_meta rk) = None → valid_spec (rk_Spec rk) = true →
    rk_Status rk = RedkeyStatus_zero → life_step m (<[meta_key (rk_meta rk) := rk]> m)
| life_goes_on key rk rk' :
    m !! key = Some rk → step rk rk' → life_step m (<[key := rk']> m)
| life_ends key : deletable key → life_step m (delete key m).

End system.

(** ** Executing the system *)

Section execution.
Context {K : K8sTypes} {D : Deps} {SS : SortSlice}.
Variable r : RedkeyReconciler.
Implicit Types (w : Store) (σ : System).

(** The metadata of the next version of an object. *)
Definition next_meta w (m : ObjectMeta) (generation : Z) : ObjectMeta :=
  mkMeta (om_Name m) (om_Namespace m) (om_Labels m) (om_Annotations m) generation
    (pretty (length (kv_versions w))) (om_CreationTimestamp m) (om_OwnerReferences m) (om_rest m).

#[export] Instance new_version_dec rk w : Decision (new_version rk w).
Proof.
  refine (cast_if (decide (Forall (λ rk', om_ResourceVersion (rk_meta rk') ≠
    om_ResourceVersion (rk_meta rk)) (kv_versions w)))); unfold new_version;
    by rewrite <-Forall_forall.
Defined.

(** One of the ways the server may answer: nothing fails, reads are up to date, and
    Robin's own objects are always created anew. *)
Definition store_handler (c : call) (w : Store) : Store * ans c :=
  match c return Store * ans c with
  | Get k key => (w,
      match k return error + obj_of k with
      | KRedkey => match kv_redkeys w !! key with Some o => inr o | None => inl Memory.NotFound end
      | _ => inl Memory.NotFound
      end)
  | ListConfigs ns label value =>
      (w, inr (filter (Memory.matches ns label value) (map_to_list (kv_configs w)).*2))
  | Create k o =>
      match k return obj_of k → Store * (error + unit) with
      | KRedkeyConfig => λ c,
          match kv_configs w !! meta_key (cfg_meta c) with
          | Some _ => (w, inl Memory.AlreadyExists)
          | None => (set_configs <[meta_key (cfg_meta c) := c]> w, inr tt)
          end
      | _ => λ _, (w, inr tt)
      end o
  | Patch _ _ _ => (w, inr tt)
  | Delete k key =>
      (match k with KRedkeyConfig => set_configs (delete key) w | _ => w end, inr tt)
  | UpdateStatus new =>
      match kv_redkeys w !! meta_key (rk_meta new) with
      | None => (w, inl Memory.NotFound)
      | Some cur =>
          let m := next_meta w (rk_meta cur) (om_Generation (rk_meta cur)) in
          let stored := with_meta (with_status cur (rk_Status new)) m in
          if decide (om_ResourceVersion (rk_meta cur) = om_ResourceVersion (rk_meta new) ∧
                     new_version stored w)
          then (put_redkey stored w, inr stored) else (w, inl Memory.Conflict)
      end
  | Now => (w, 0%Z)
  | Clock => (w, λ _, 0%Z)
  end.

(** Steps by name. [Advances] takes the next call of a worker, answered by
    [store_handler]; [ReadsStale] answers a read with the [n]-th newest version ever
    stored; [RequestFails] answers with an error; a worker at its end is done. *)
Inductive event :=
| UserCreates (rk : Redkey)
| UserUpdates (key : NamespacedName) (s : RedkeySpec)
| UserDeletes (key : NamespacedName)
| RobinReports (key : NamespacedName) (phase status : string)
| Starts (req : NamespacedName) (s : OpState)
| Advances (req : NamespacedName)
| ReadsStale (req : NamespacedName) (n : nat)
| RequestFails (req : NamespacedName).

(** The answer to a read from a cache. *)
Definition stale_answer w (n : nat) (c : call) : option (ans c) :=
  match c return option (ans c) with
  | Get k key =>
      match k return option (error + obj_of k) with
      | KRedkey =>
          rk ← kv_versions w !! n;
          if decide (meta_key (rk_meta rk) = key) then Some (inr rk) else None
      | _ => None
      end
  | _ => None
  end.

(** The worker goes on with an answer. *)
Definition answered σ req (f : ∀ c, option (Store * ans c)) : option System :=
  match sys_workers σ !! req with
  | Some (Call c k) =>
      match f c with
      | Some (w', x) => Some (mkSystem w' (<[req := k x]> (sys_workers σ)))
      | None => None
      end
  | Some (Ret _) => Some (mkSystem (sys_store σ) (delete req (sys_workers σ)))
  | None => None
  end.

Definition with_store σ w : System := mkSystem w (sys_workers σ).

Definition act (e : event) (σ : System) : option System :=
  let w := sys_store σ in
  match e with
  | UserCreates rk =>
      let rk := with_meta (with_status rk RedkeyStatus_zero) (next_meta w (rk_meta rk) 1) in
      if decide (kv_redkeys w !! meta_key (rk_meta rk) = None ∧ valid_spec (rk_Spec rk) = true ∧
                 new_version rk w)
      then Some (with_store σ (put_redkey rk w)) else None
  | UserUpdates key s =>
      match kv_redkeys w !! key with
      | Some rk =>
          let rk' := with_meta (with_spec rk s)
                       (next_meta w (rk_meta rk) (om_Generation (rk_meta rk) + 1)) in
          if decide (admits rk (with_spec rk s) = true ∧ new_version rk' w)
          then Some (with_store σ (put_redkey rk' w)) else None
      | None => None
      end
  | UserDeletes key =>
      Some (with_store σ (mkStore (delete key (kv_redkeys w)) (kv_versions w) (kv_configs w)))
  | RobinReports key phase status =>
      match kv_configs w !! key with
      | Some c =>
          Some (with_store σ (set_configs <[key := mkConfig (cfg_type c) (cfg_meta c) (cfg_Spec c)
            (mkConfigStatus phase status RedkeySubstatus_zero None [] None 1)]> w))
      | None => None
      end
  | Starts req s =>
      match sys_workers σ !! req with
      | None => Some (mkSystem w (<[req := Reconcile r req s]> (sys_workers σ)))
      | Some _ => None
      end
  | Advances req => answered σ req (λ c, Some (store_handler c w))
  | ReadsStale req n => answered σ req (λ c, x ← stale_answer w n c; Some (w, x))
  | RequestFails req => answered σ req (λ c, Some (w, (outage c tt).2))
  end.

Fixpoint acts (es : list event) (σ : System) : option System :=
  match es with
  | [] => Some σ
  | e :: es' => σ' ← act e σ; acts es' σ'
  end.

End execution.
