(* ===== verification/Interleaving.v ===== *)
(** * The operator among other actors: invariants and refinement

    What holds in every state the system of [System] can reach: an invariant on the
    store and on the reconciles under way, by rule induction on the steps, and the
    refinement of the lives of Redkeys alone. *)

From S2P Require Import Prelude Strconv ApiTypes Effects External Samples Metrics Metadata.
From S2P Require Import ConfigLifecycle Robin ScaleZero Reconciler Validation Server System.

(** ** The invariant *)

Section invariant.
Context {K : K8sTypes} {D : Deps} {DS : DepsSpec} {SS : SortSlice} {SP : SortSliceSpec}.
Variable r : RedkeyReconciler.
Variable deletable : NamespacedName → Prop.
Implicit Types (w : Store) (rk : Redkey) (vs : list Redkey) (ws : gmap NamespacedName Worker).

(** The config was made from one of the versions. *)
Definition made_from vs (c : RedkeyConfig) : Prop :=
  ∃ rk seq m, rk ∈ vs ∧ SetControllerReference rk (config_meta rk seq) = inr m ∧
    same_config (new_config rk seq m) c.

(** The generation recorded as observed is one the Redkey had. *)
Definition observed_from vs rk : Prop :=
  st_ObservedGeneration (rk_Status rk) = 0%Z ∨
  ∃ rk', rk' ∈ vs ∧ meta_key (rk_meta rk') = meta_key (rk_meta rk) ∧
    om_Generation (rk_meta rk') = st_ObservedGeneration (rk_Status rk).

Record store_inv w : Prop := {
  inv_current key rk :
    kv_redkeys w !! key = Some rk → rk ∈ kv_versions w ∧ meta_key (rk_meta rk) = key;
  inv_versions rk rk' :
    rk ∈ kv_versions w → rk' ∈ kv_versions w →
    om_ResourceVersion (rk_meta rk) = om_ResourceVersion (rk_meta rk') → rk = rk';
  inv_observed rk : rk ∈ kv_versions w → observed_from (kv_versions w) rk;
  inv_generation rk :
    rk ∈ kv_versions w → (0 < om_Generation (rk_meta rk))%Z ∧
    (¬ deletable (meta_key (rk_meta rk)) →
     ∃ cur, kv_redkeys w !! meta_key (rk_meta rk) = Some cur ∧
       (om_Generation (rk_meta rk) ≤ om_Generation (rk_meta cur))%Z);
  inv_configs key c :
    kv_configs w !! key = Some c → made_from (kv_versions w) c ∧ meta_key (cfg_meta c) = key }.

(** A worker has come as far as it is with reads of versions the server stored. *)
Definition worker_inv vs req (p : Worker) : Prop :=
  ∃ s tr, partial (Reconcile r req s) tr p ∧ Forall (rely (λ _, True) (.∈ vs)) tr.

Definition sys_inv (σ : System) : Prop :=
  store_inv (sys_store σ) ∧
  map_Forall (worker_inv (kv_versions (sys_store σ))) (sys_workers σ).

Lemma same_config_trans c1 c2 c3 : same_config c1 c2 → same_config c2 c3 → same_config c1 c3.
Proof. intros (?&?&?&?) (?&?&?&?). split_and!; congruence. Qed.

Lemma made_from_mono vs vs' c : vs ⊆ vs' → made_from vs c → made_from vs' c.
Proof. intros Hs (rk&seq&m&?&?). exists rk, seq, m. auto. Qed.

Lemma observed_from_mono vs vs' rk : vs ⊆ vs' → observed_from vs rk → observed_from vs' rk.
Proof. intros Hs [?|(rk'&?&?)]; [by left|right]. exists rk'. auto. Qed.

Lemma worker_inv_mono vs vs' req p : vs ⊆ vs' → worker_inv vs req p → worker_inv vs' req p.
Proof.
  intros Hs (s&tr&Hp&Ht). exists s, tr. split; [done|]. eapply Forall_impl; [exact Ht|].
  intros [c x] Ho. destruct c as [[] key| | | | | | |]; try done; destruct x; naive_solver.
Qed.

(** Storing a new version. *)
Lemma put_redkey_inv rk w :
  store_inv w → new_version rk w → observed_from (rk :: kv_versions w) rk →
  (0 < om_Generation (rk_meta rk))%Z →
  (∀ cur, kv_redkeys w !! meta_key (rk_meta rk) = Some cur →
     (om_Generation (rk_meta cur) ≤ om_Generation (rk_meta rk))%Z) →
  store_inv (put_redkey rk w).
Proof.
  intros [Hc Hv Ho Hg Hcf] Hn Hobs Hpos Hle. split; simpl.
  - intros key rk' [[<- <-]|[_ H]]%lookup_insert_Some; [by split; [left|]|].
    destruct (Hc _ _ H). split; [by right|done].
  - intros rk1 rk2 [->|H1]%elem_of_cons [->|H2]%elem_of_cons Heq; [done| | |by apply Hv].
    + by destruct (Hn rk2 H2).
    + by destruct (Hn rk1 H1).
  - intros rk' [->|H]%elem_of_cons; [done|].
    eapply observed_from_mono; [|by apply Ho]. set_solver.
  - intros rk' [->|H]%elem_of_cons.
    + split; [done|]. intros _. exists rk. by rewrite lookup_insert_eq.
    + destruct (Hg rk' H) as [Hp Hd]. split; [done|]. intros Hnd.
      destruct (Hd Hnd) as (cur&Hcur&Hgen).
      destruct (decide (meta_key (rk_meta rk) = meta_key (rk_meta rk'))) as [E|E].
      * exists rk. rewrite E, lookup_insert_eq. split; [done|].
        specialize (Hle cur). rewrite E in Hle. specialize (Hle Hcur). lia.
      * exists cur. by rewrite lookup_insert_ne.
  - intros key c H. destruct (Hcf _ _ H). split; [|done]. eapply made_from_mono; [|done]. set_solver.
Qed.

(** Changing the configs. *)
Lemma set_configs_inv f w :
  store_inv w →
  (∀ key c, f (kv_configs w) !! key = Some c →
     made_from (kv_versions w) c ∧ meta_key (cfg_meta c) = key) →
  store_inv (set_configs f w).
Proof. intros [Hc Hv Ho Hg _] Hf. by split. Qed.

(** A new version of the object stored under the key. *)
Lemma put_next_inv rk w key cur :
  store_inv w → kv_redkeys w !! key = Some cur → meta_key (rk_meta rk) = key →
  new_version rk w → observed_from (rk :: kv_versions w) rk →
  (om_Generation (rk_meta cur) ≤ om_Generation (rk_meta rk))%Z → store_inv (put_redkey rk w).
Proof.
  intros Hw Hc Hk Hn Ho Hg. apply put_redkey_inv; [done..| |].
  - destruct (inv_current w Hw _ _ Hc) as [Hin _]. destruct (inv_generation w Hw _ Hin) as [? _]. lia.
  - intros cur' Hc'. rewrite Hk, Hc in Hc'. by injection Hc' as <-.
Qed.

Lemma env_step_inv w w' :
  store_inv w → env_step deletable w w' → store_inv w' ∧ kv_versions w ⊆ kv_versions w'.
Proof.
  intros Hw [rk Hnone _ Hs Hgen Hn|key rk s m Hk _ Hm Hg Hn|key rk m Hk Hm Hg Hn|key Hdel|key c c' Hk Hc|key];
    simpl.
  - split; [|set_solver]. apply put_redkey_inv; [done..| | |].
    + left. by rewrite Hs.
    + rewrite Hgen. lia.
    + intros cur Hcur. by rewrite Hnone in Hcur.
  - split; [|set_solver]. destruct (inv_current w Hw _ _ Hk) as [Hin Hkey].
    eapply put_next_inv; [done|exact Hk|simpl; congruence|done| |simpl; lia].
    destruct (inv_observed w Hw _ Hin) as [?|(rk'&?&?&?)]; [by left|right].
    exists rk'. simpl. split_and!; [by right|congruence|done].
  - split; [|set_solver]. destruct (inv_current w Hw _ _ Hk) as [Hin Hkey].
    eapply put_next_inv; [done|exact Hk|simpl; congruence|done| |simpl; lia].
    destruct (inv_observed w Hw _ Hin) as [?|(rk'&?&?&?)]; [by left|right].
    exists rk'. simpl. split_and!; [by right|congruence|done].
  - split; [|done]. destruct Hw as [Hc ?? Hg ?]. split; simpl; try done.
    + intros key' rk [_ H]%lookup_delete_Some. by apply Hc.
    + intros rk Hin. destruct (Hg rk Hin) as [? Hn]. split; [done|]. intros Hnd.
      rewrite lookup_delete_ne by congruence. by apply Hn.
  - split; [|done]. apply set_configs_inv; [done|].
    intros key' d [[<- <-]|[_ H]]%lookup_insert_Some; [|by apply (inv_configs w Hw)].
    destruct (inv_configs w Hw _ _ Hk) as [(rk&seq&m&?&?&?) <-]. split; [|by destruct Hc].
    exists rk, seq, m. split_and!; [done|done|]. by eapply same_config_trans.
  - split; [|done]. apply set_configs_inv; [done|].
    intros key' d [_ H]%lookup_delete_Some. by apply (inv_configs w Hw).
Qed.

(** The next call of a worker is one the reconcile is allowed to make. *)
Lemma worker_allowed vs req c k :
  worker_inv vs req (Call c k) → allowed req (λ _, True) (.∈ vs) c.
Proof.
  intros (s&tr&Hp&Ht).
  destruct (partial_guarantee _ _ _ _ s tr c k (rg_Reconcile req (λ _, True) (.∈ vs) r)) as [x Hx];
    [|done|done|exact Hx].
  intros c' []. by destruct c'.
Qed.

(** A status update that takes effect applies to the very object it was computed
    from: the server compares resource versions, which are not used twice. *)
Lemma status_applies w req new cur :
  store_inv w → own_status req (.∈ kv_versions w) new →
  kv_redkeys w !! meta_key (rk_meta new) = Some cur →
  om_ResourceVersion (rk_meta cur) = om_ResourceVersion (rk_meta new) →
  meta_key (rk_meta cur) = req ∧ status_of req (.∈ kv_versions w) cur new.
Proof.
  intros Hw (latest&[Hl Hk]&Hs&Hm&_) Hc Hv. destruct (inv_current w Hw _ _ Hc) as [Hin _].
  rewrite Hm in Hv. by rewrite (inv_versions w Hw cur latest Hin Hl Hv).
Qed.

Lemma status_of_observed w req cur new :
  store_inv w → cur ∈ kv_versions w → meta_key (rk_meta cur) = req →
  status_of req (.∈ kv_versions w) cur new →
  ∃ rk', rk' ∈ kv_versions w ∧ meta_key (rk_meta rk') = req ∧
    om_Generation (rk_meta rk') = st_ObservedGeneration (rk_Status new).
Proof.
  intros Hw Hin Hk [(now&clk&c&cluster&[Hl ?]&->)|(now&clk&->)]; [by exists cluster|by exists cur].
Qed.

Lemma status_of_step req Lr cur new :
  status_of req Lr cur new → step cur (with_status cur (rk_Status new)).
Proof. by intros [(now&clk&c&cluster&_&->)|(now&clk&->)]; constructor. Qed.

(** A step of the life of one Redkey, with new metadata. *)
Lemma life_step_meta (m : gmap NamespacedName Redkey) key rk rk' meta :
  m !! key = Some rk → step rk rk' → meta_key meta = meta_key (rk_meta rk') →
  rtc (life_step deletable) m (<[key := with_meta rk' meta]> m).
Proof.
  intros Hk Hs Hm. eapply rtc_l; [by eapply life_goes_on|].
  eapply rtc_l; [eapply (life_goes_on _ _ key rk' (with_meta rk' meta))|].
  - apply lookup_insert_eq.
  - by apply metadata_changes.
  - by rewrite insert_insert_eq.
Qed.

(** What a worker's call does to the store. *)
Lemma served_inv w req c x w' :
  store_inv w → allowed req (λ _, True) (.∈ kv_versions w) c → served w c x w' →
  store_inv w' ∧ kv_versions w ⊆ kv_versions w' ∧
  rely (λ _, True) (.∈ kv_versions w) (Obs c x) ∧
  rtc (life_step deletable) (kv_redkeys w) (kv_redkeys w').
Proof.
  intros Hw Ha Hs.
  assert (Hsame : w' = w → rely (λ _, True) (.∈ kv_versions w) (Obs c x) →
    store_inv w' ∧ kv_versions w ⊆ kv_versions w' ∧
    rely (λ _, True) (.∈ kv_versions w) (Obs c x) ∧
    rtc (life_step deletable) (kv_redkeys w) (kv_redkeys w')) by (by intros ->).
  destruct c as [k key|ns l v|k o|k o b|k key|new| |]; simpl in Hs.
  - destruct Hs as [-> Hx]. apply Hsame; [done|]. destruct x; [done|]. by destruct k.
  - apply Hsame; [done|]. destruct x; [done|]. by apply Forall_true.
  - destruct k; try (by apply Hsame). destruct Hs as [[_ ->]|(c'&Hc'&_&->)]; [by apply Hsame|].
    split_and!; [|done|done|done]. apply set_configs_inv; [done|].
    intros key d [[<- <-]|[_ H]]%lookup_insert_Some; [|by apply (inv_configs w Hw)].
    destruct Ha as (_&_&_&rk&seq&m&[Hr _]&Hm&->). split; [by exists rk, seq, m|by destruct Hc'].
  - destruct Ha as [Hk _]. destruct k; try (by apply Hsame).
    + apply elem_of_cons in Hk as [|Hk]; [done|]. apply elem_of_rbac_kinds in Hk. naive_solver.
    + apply elem_of_cons in Hk as [|Hk]; [done|]. apply elem_of_rbac_kinds in Hk. naive_solver.
  - destruct k; try (by apply Hsame).
    + destruct Ha as [[Hk _]|[? _]]; [|done].
      apply elem_of_cons in Hk as [|Hk]; [done|]. apply elem_of_rbac_kinds in Hk. naive_solver.
    + destruct Hs as [[_ ->]| ->]; [by apply Hsame|]. split_and!; [|done|done|done].
      apply set_configs_inv; [done|]. intros key' d [_ H]%lookup_delete_Some.
      by apply (inv_configs w Hw).
  - destruct Hs as [[_ ->]|(cur&m&Hc&Hv&Hk&Hg&Hn&->&_)]; [by apply Hsame|].
    destruct (status_applies w req new cur Hw Ha Hc Hv) as [Hkey Hst].
    destruct (inv_current w Hw _ _ Hc) as [Hin Hck].
    destruct (status_of_observed w req cur new Hw Hin Hkey Hst) as (rk'&?&?&?).
    split_and!; [|set_solver|done|].
    + eapply put_next_inv; [done|exact Hc|simpl; congruence|done| |simpl; lia].
      right. exists rk'. simpl. split_and!; [by right|congruence|done].
    + simpl. rewrite Hk, Hck. apply (life_step_meta _ _ cur); [done|by eapply status_of_step|done].
  - by apply Hsame.
  - by apply Hsame.
Qed.

Lemma env_step_life w w' : store_inv w → env_step deletable w w' → rtc (life_step deletable) (kv_redkeys w) (kv_redkeys w').
Proof.
  intros Hw [rk Hk Hv Hs _ Hn|key rk s m Hk Ha Hm _ Hn|key rk m Hk Hm Hg Hn|key Hdel|key c c' Hk Hc|key];
    simpl; try done.
  - by apply rtc_once, life_begins.
  - destruct (inv_current w Hw _ _ Hk) as [_ Hkey]. rewrite Hm, Hkey.
    apply (life_step_meta _ _ rk); [done|by constructor|done].
  - destruct (inv_current w Hw _ _ Hk) as [_ Hkey]. rewrite Hm, Hkey.
    apply rtc_once. by eapply life_goes_on, metadata_changes.
  - by apply rtc_once, life_ends.
Qed.

(** One step of the system: the invariant, and steps of the abstract system. *)
Lemma sys_step_simulates σ σ' :
  sys_inv σ → sys_step r deletable σ σ' →
  sys_inv σ' ∧ rtc (life_step deletable) (kv_redkeys (sys_store σ)) (kv_redkeys (sys_store σ')).
Proof.
  intros Hi Hstep. destruct Hstep as [w ws req s Hreq|w ws req c k x w' Hreq Hs|w ws req a Hreq
    |w ws|w ws w' He]; destruct Hi as [Hw Hws]; simpl in *.
  - split; [|done]. split; [exact Hw|]. apply map_Forall_insert_2; [|done].
    by exists s, [].
  - pose proof (Hws _ _ Hreq) as Hp.
    destruct (served_inv w req c x w' Hw (worker_allowed _ _ _ _ Hp) Hs) as (Hw'&Hv&Hx&Hl).
    split; [|done]. split; [exact Hw'|]. simpl. apply map_Forall_insert_2.
    + apply (worker_inv_mono (kv_versions w)); [done|].
      destruct Hp as (s&tr&Hp&Ht). exists s, (tr ++ [Obs c x]). split; [by apply partial_snoc|].
      apply Forall_app. split; [exact Ht|by apply Forall_singleton].
    + eapply map_Forall_impl; [exact Hws|]. intros req' p. by apply worker_inv_mono.
  - split; [|done]. split; [exact Hw|]. by apply map_Forall_delete.
  - split; [|done]. split; [exact Hw|]. apply map_Forall_empty.
  - destruct (env_step_inv w w' Hw He) as [Hw' Hv]. split; [|by apply env_step_life].
    split; [exact Hw'|]. eapply map_Forall_impl; [exact Hws|]. intros req' p. by apply worker_inv_mono.
Qed.

Lemma sys_init_inv : sys_inv sys_init.
Proof.
  split; [|apply map_Forall_empty].
  split; simpl.
  - by intros ?? ?%lookup_empty_Some.
  - by intros ?? ?%not_elem_of_nil.
  - by intros ? ?%not_elem_of_nil.
  - by intros ? ?%not_elem_of_nil.
  - by intros ?? ?%lookup_empty_Some.
Qed.

Lemma reachable_simulates σ :
  reachable r deletable σ → sys_inv σ ∧ rtc (life_step deletable) ∅ (kv_redkeys (sys_store σ)).
Proof.
  revert σ. apply (rtc_ind_r (λ σ, sys_inv σ ∧ rtc (life_step deletable) ∅ (kv_redkeys (sys_store σ))) sys_init).
  { by split; [apply sys_init_inv|]. }
  intros σ σ' _ Hs [Hi Hl]. destruct (sys_step_simulates σ σ' Hi Hs) as [? Hl']. split; [done|]. by etrans.
Qed.

(** *** The life of one Redkey *)

Lemma life_step_key m m' key rk :
  ¬ deletable key → life_step deletable m m' → m !! key = Some rk →
  ∃ rk', m' !! key = Some rk' ∧ rtc step rk rk'.
Proof.
  intros Hd [rk0 Hn _ _|key0 rk0 rk1 Hk Hs|key0 Hd0] Hm.
  - exists rk. split; [|done]. rewrite lookup_insert_ne; [done|]. intros E. congruence.
  - destruct (decide (key0 = key)) as [->|E].
    + exists rk1. rewrite lookup_insert_eq. split; [done|]. apply rtc_once. congruence.
    + exists rk. by rewrite lookup_insert_ne.
  - exists rk. rewrite lookup_delete_ne; [done|]. by intros ->.
Qed.

Lemma lives_key m m' key rk :
  ¬ deletable key → rtc (life_step deletable) m m' → m !! key = Some rk →
  ∃ rk', m' !! key = Some rk' ∧ rtc step rk rk'.
Proof.
  intros Hd Hr. revert rk. induction Hr as [m|m m1 m' Hs _ IH]; intros rk Hm; [by exists rk|].
  destruct (life_step_key _ _ _ _ Hd Hs Hm) as (rk1&Hm1&H1).
  destruct (IH _ Hm1) as (rk2&?&?). exists rk2. split; [done|]. by etrans.
Qed.

Lemma lives_valid m :
  rtc (life_step deletable) ∅ m → map_Forall (λ _ rk, valid_spec (rk_Spec rk) = true) m.
Proof.
  revert m. apply rtc_ind_r; [apply map_Forall_empty|].
  intros m m' _ [rk _ Hv _|key rk rk' Hk Hs|key _] Hm.
  - by apply map_Forall_insert_2.
  - apply map_Forall_insert_2; [|done].
    by apply (steps_frozen rk rk'); [apply rtc_once|apply (Hm key)].
  - by apply map_Forall_delete.
Qed.

(** The steps after a reachable state. *)
Lemma reachable_later σ σ' :
  reachable r deletable σ → rtc (sys_step r deletable) σ σ' →
  rtc (life_step deletable) (kv_redkeys (sys_store σ)) (kv_redkeys (sys_store σ')).
Proof.
  intros [Hi _]%reachable_simulates Hr. induction Hr as [σ|σ σ1 σ' Hs _ IH]; [done|].
  destruct (sys_step_simulates σ σ1 Hi Hs) as [Hi1 Hl]. etrans; [done|]. by apply IH.
Qed.

End invariant.

(** ** The executable steps are steps *)

Section execution_facts.
Context {K : K8sTypes} {D : Deps} {DS : DepsSpec} {SS : SortSlice} {SP : SortSliceSpec}.
Variable r : RedkeyReconciler.
Variable deletable : NamespacedName → Prop.
Implicit Types (w : Store) (σ : System).

Lemma store_handler_served w c :
  store_inv deletable w → served w c (store_handler c w).2 (store_handler c w).1.
Proof.
  intros Hw. destruct c as [k key|ns l v|k o|k o b|k key|new| |]; simpl; try done.
  - split; [done|]. destruct k; try done.
    destruct (kv_redkeys w !! key) as [o|] eqn:E; [|done].
    by destruct (inv_current _ _ Hw _ _ E).
  - destruct k; try done. destruct (kv_configs w !! meta_key (cfg_meta o)) as [c|] eqn:E.
    + left. by split; [eexists|].
    + right. exists o. by split_and!.
  - by destruct k.
  - destruct k; try done. by right.
  - destruct (kv_redkeys w !! meta_key (rk_meta new)) as [cur|] eqn:E; [|left; by split; [eexists|]].
    case_decide as Hd; [|left; by split; [eexists|]]. destruct Hd as [Hv Hn]. right.
    exists cur, (next_meta w (rk_meta cur) (om_Generation (rk_meta cur))). split_and!; try done. by right.
Qed.

(** A worker that goes on with an answer the server may give. *)
Lemma answered_step σ σ' req f :
  answered σ req f = Some σ' →
  (∀ c w' x, f c = Some (w', x) → served (sys_store σ) c x w') → sys_step r deletable σ σ'.
Proof.
  destruct σ as [w ws]. unfold answered. simpl. destruct (ws !! req) as [[a|c k]|] eqn:E; [| |done].
  - intros [= <-] _. by eapply worker_done.
  - destruct (f c) as [[w' x]|] eqn:Hf; [|done]. intros [= <-] Hs. by eapply worker_calls, Hs.
Qed.

(** Events are steps. *)
Lemma act_step e σ σ' :
  sys_inv r deletable σ → (∀ key, e = UserDeletes key → deletable key) →
  act r e σ = Some σ' → sys_step r deletable σ σ'.
Proof.
  intros [Hw _] Hdel Ha. destruct σ as [w ws]. destruct e as [rk|key s|key|key phase status|req s|req|req n|req];
    simpl in *.
  - case_decide as Hd; [|done]. destruct Hd as (Hn&Hv&Hnew). injection Ha as <-.
    by apply others_act, user_creates.
  - destruct (kv_redkeys w !! key) as [rk|] eqn:E; [|done]. case_decide as Hd; [|done].
    destruct Hd as (Had&Hnew). injection Ha as <-. apply others_act. by eapply user_updates.
  - injection Ha as <-. apply others_act, user_deletes. by apply Hdel.
  - destruct (kv_configs w !! key) as [c|] eqn:E; [|done]. injection Ha as <-.
    by eapply others_act, robin_reports.
  - destruct (ws !! req) eqn:E; [done|]. injection Ha as <-. by apply request_starts.
  - eapply answered_step; [exact Ha|]. intros c w' x [= Hx]. simpl.
    rewrite (surjective_pairing (store_handler c w)) in Hx. injection Hx as <- <-.
    by apply store_handler_served.
  - eapply answered_step; [exact Ha|]. intros c w' x Hx. simpl.
    destruct c as [k key| | | | | | |]; try done. destruct k; try done. simpl in Hx.
    destruct (kv_versions w !! n) as [rk|] eqn:E; [|done]. simpl in Hx. case_decide; [|done].
    injection Hx as <- <-. split; [done|]. split; [done|]. by eapply list_elem_of_lookup_2.
  - eapply answered_step; [exact Ha|]. intros c w' x [= <- <-]. destruct c as [k| |k|k|k| | |]; simpl;
      try done; try (by destruct k); try (destruct k; try done); left; by split; [eexists|].
Qed.

Lemma acts_steps es σ σ' :
  sys_inv r deletable σ → (∀ key, UserDeletes key ∈ es → deletable key) →
  acts r es σ = Some σ' → rtc (sys_step r deletable) σ σ'.
Proof.
  revert σ. induction es as [|e es IH]; intros σ Hi Hdel; simpl; [by intros [= ->]|].
  destruct (act r e σ) as [σ1|] eqn:E; [|done]. simpl. intros Ha.
  assert (Hs : sys_step r deletable σ σ1).
  { eapply act_step; [done| |done]. intros key ->. apply Hdel. by left. }
  eapply rtc_l; [exact Hs|]. apply IH; [by apply (sys_step_simulates r deletable σ σ1 Hi Hs)| |done].
  intros key Hin. apply Hdel. by right.
Qed.

End execution_facts.

(** ** Theorems *)

Section interleaving_theorems.
Context {K : K8sTypes} {D : Deps} {DS : DepsSpec} {SS : SortSlice} {SP : SortSliceSpec}.
Variable r : RedkeyReconciler.
Variable deletable : NamespacedName → Prop.

(** C1: The running system refines the lives of its Redkeys: however the calls of
    concurrent reconciles, users, Robin and the garbage collector interleave,
    whatever requests fail (before or after taking effect) and however stale the
    reads are, the Redkeys stored go through a sequence of steps in which a Redkey
    begins, ends, or goes on by one of the steps of its life alone; in particular a
    status the operator writes was computed from the very object it replaces. *)
Theorem system_refines_lives σ σ' :
  reachable r deletable σ → rtc (sys_step r deletable) σ σ' →
  rtc (life_step deletable) ∅ (kv_redkeys (sys_store σ)) ∧
  rtc (life_step deletable) (kv_redkeys (sys_store σ)) (kv_redkeys (sys_store σ')).
Proof. intros Hr Hs. split; [by apply (reachable_simulates r)|by apply (reachable_later r)]. Qed.

(** C2: The topology lock holds in the running system: once a topology is recorded
    for a storage cluster that is not deleted, it stays recorded in every later
    state, and every update of the spec that the server admits and that takes the
    cluster from no primaries to some restores the recorded topology, also while
    reconciles with stale copies are under way. *)
Theorem topology_locked_concurrently σ σ' key rk :
  reachable r deletable σ → ¬ deletable key →
  kv_redkeys (sys_store σ) !! key = Some rk → spec_Ephemeral (rk_Spec rk) = false →
  (0 < st_LastAppliedPrimaries (rk_Status rk))%Z →
  rtc (sys_step r deletable) σ σ' →
  ∃ rk', kv_redkeys (sys_store σ') !! key = Some rk' ∧
    (0 < st_LastAppliedPrimaries (rk_Status rk'))%Z ∧
    ∀ s, admits rk' (with_spec rk' s) = true → spec_Primaries (rk_Spec rk') = 0%Z →
      spec_Primaries s ≠ 0%Z →
      spec_Primaries s = st_LastAppliedPrimaries (rk_Status rk') ∧
      spec_ReplicasPerPrimary s = st_LastAppliedReplicasPerPrimary (rk_Status rk').
Proof.
  intros Hr Hd Hk He Hl Hs. pose proof (reachable_later r deletable σ σ' Hr Hs) as Hlater.
  destruct (lives_key deletable _ _ key rk Hd Hlater Hk) as (rk'&Hk'&Hsteps).
  assert (locked rk) as Hlock.
  { split; [|done]. apply reachable_simulates in Hr as [_ Hlives].
    exact (lives_valid deletable _ Hlives key rk Hk). }
  pose proof (steps_locked _ _ Hsteps Hlock) as (Hv'&He'&Hl').
  exists rk'. split_and!; [done|done|]. intros s Ha Hz Hn.
  assert (locked (with_spec rk' s)) as (_&He''&_).
  { eapply step_locked; [by apply user_update|done]. }
  unfold admits in Ha. rewrite !andb_true_iff in Ha. destruct Ha as [_ Hsl].
  apply (scale_lock_spec _ _ Hsl); try done. simpl. lia.
Qed.

(** C7: Every config Robin can see is a snapshot: in every reachable state a stored
    config was made from one version of a Redkey that the server stored, as a whole:
    it carries that Redkey's label and, under its annotated generation, every
    setting of that version's spec, and its name is the Redkey's with its sequence
    number; no interleaving mixes the settings of two versions. *)
Theorem configs_are_snapshots σ key c :
  reachable r deletable σ → kv_configs (sys_store σ) !! key = Some c →
  ∃ rk, rk ∈ kv_versions (sys_store σ) ∧
    key = mkNN (om_Namespace (rk_meta rk)) (config_name rk (cfg_seq c)) ∧
    carries (rk_Spec rk) (cfg_seq c) (cfg_Spec c) ∧
    map_get (om_Labels (cfg_meta c)) ClusterLabel = Some (om_Name (rk_meta rk)) ∧
    (in_int64 (om_Generation (rk_meta rk)) →
     config_generation c = Some (om_Generation (rk_meta rk))).
Proof.
  intros [[Hw _] _]%reachable_simulates Hc.
  destruct (inv_configs _ _ Hw _ _ Hc) as [(rk&seq&m&Hin&Hm&(Hk&Hl&Ha&Hsp)) <-].
  pose proof (config_meta_keeps _ _ _ Hm) as (Hkey&Hlab&_).
  assert (cfg_seq c = seq) as -> by (unfold cfg_seq; by rewrite Hsp).
  exists rk. split; [done|]. split; [by rewrite Hk|].
  split; [rewrite Hsp; apply carries_config_spec|]. split.
  - unfold map_get in *. by rewrite Hl.
  - intros Hg. rewrite <-(config_generation_created _ _ _ Hg Hm).
    unfold config_generation. by rewrite Ha.
Qed.

(** C11: The generation recorded as observed is never ahead: in every reachable state
    it is none or one that a version of the Redkey of this name had, and for a Redkey
    that is not deleted and created again it is at most the current generation. *)
Theorem observed_within_generation σ key rk :
  reachable r deletable σ → kv_redkeys (sys_store σ) !! key = Some rk →
  (st_ObservedGeneration (rk_Status rk) = 0%Z ∨
   ∃ rk', rk' ∈ kv_versions (sys_store σ) ∧ meta_key (rk_meta rk') = key ∧
     om_Generation (rk_meta rk') = st_ObservedGeneration (rk_Status rk)) ∧
  (¬ deletable key → st_ObservedGeneration (rk_Status rk) ≤ om_Generation (rk_meta rk))%Z.
Proof.
  intros [[Hw _] _]%reachable_simulates Hk.
  destruct (inv_current _ _ Hw _ _ Hk) as [Hin Hkey].
  destruct (inv_generation _ _ Hw _ Hin) as [Hpos _].
  destruct (inv_observed _ _ Hw _ Hin) as [->|(rk'&Hin'&Hk'&Hg)].
  - split; [by left|]. intros _. lia.
  - rewrite Hkey in Hk'. split; [right; by exists rk'|]. intros Hd.
    destruct (inv_generation _ _ Hw _ Hin') as [_ Hcur]. rewrite Hk' in Hcur.
    destruct (Hcur Hd) as (cur&Hc&Hle). rewrite Hk in Hc. injection Hc as <-. lia.
Qed.

End interleaving_theorems.

(** ** Witnesses *)

Section interleaving_witnesses.
Import Simple.

(** Events that all happen lead to a reachable system. *)
Definition w_after (es : list event) (σ : System) : System :=
  match acts w_reconciler es σ with Some σ' => σ' | None => σ end.

Definition happen (es : list event) (σ : System) : bool :=
  match acts w_reconciler es σ with Some _ => true | None => false end.

Definition deletes (es : list event) : bool :=
  existsb (λ e, match e with UserDeletes _ => true | _ => false end) es.

Definition w_deletable (key : NamespacedName) : Prop := False.

Lemma w_after_steps es σ :
  sys_inv w_reconciler w_deletable σ → happen es σ = true → deletes es = false →
  rtc (sys_step w_reconciler w_deletable) σ (w_after es σ).
Proof.
  unfold happen, w_after, deletes. intros Hi Hh Hd.
  destruct (acts w_reconciler es σ) as [σ'|] eqn:E; [|done].
  apply (acts_steps w_reconciler w_deletable es); [done| |done]. intros key Hin.
  apply not_true_iff_false in Hd. destruct Hd. apply existsb_exists.
  exists (UserDeletes key). split; [by apply list_elem_of_In|done].
Qed.

Definition w_advances (n : nat) : list event := replicate n (Advances Sample.key).

(** A cluster is created and applied, and its topology recorded. *)
Definition w_setup : list event :=
  [UserCreates (Sample.redkey 1 (Sample.spec 3 1 false) RedkeyStatus_zero);
   Starts Sample.key w_state] ++ w_advances 17 ++
  [RobinReports (mkNN "ns" "rk-1") ConfigPhaseApplied "Ready"; Starts Sample.key w_state] ++
  w_advances 16.

(** The user stops the cluster while a reconcile is under way, which then reads a
    version from before, fails to write its status and tries again. *)
Definition w_race : list event :=
  [Starts Sample.key w_state] ++ w_advances 10 ++
  [UserUpdates Sample.key (Sample.spec 0 1 false); ReadsStale Sample.key 1] ++ w_advances 9.

Definition w_ready : System := w_after w_setup sys_init.
Definition w_raced : System := w_after w_race w_ready.

Lemma w_ready_reachable : reachable w_reconciler w_deletable w_ready.
Proof.
  apply w_after_steps; [apply sys_init_inv|vm_compute; reflexivity..].
Qed.

Lemma w_raced_later : rtc (sys_step w_reconciler w_deletable) w_ready w_raced.
Proof.
  apply w_after_steps; [|vm_compute; reflexivity..].
  apply (reachable_simulates w_reconciler w_deletable). exact w_ready_reachable.
Qed.

Definition w_of (σ : System) : Redkey :=
  default (Sample.redkey 0 (Sample.spec 0 0 true) RedkeyStatus_zero)
    (kv_redkeys (sys_store σ) !! Sample.key).

Lemma system_refines_lives_witness :
  rtc (life_step w_deletable) (kv_redkeys (sys_store w_ready)) (kv_redkeys (sys_store w_raced)) ∧
  length (kv_versions (sys_store w_raced)) = 5 ∧ om_Generation (rk_meta (w_of w_raced)) = 2%Z.
Proof.
  split; [|split; vm_compute; reflexivity].
  exact (proj2 (system_refines_lives w_reconciler w_deletable w_ready w_raced
    w_ready_reachable w_raced_later)).
Defined.

Lemma topology_locked_concurrently_witness :
  ∃ rk, kv_redkeys (sys_store w_raced) !! Sample.key = Some rk ∧
    (0 < st_LastAppliedPrimaries (rk_Status rk))%Z.
Proof.
  destruct (topology_locked_concurrently w_reconciler w_deletable w_ready w_raced Sample.key
    (w_of w_ready) w_ready_reachable ltac:(intros []) ltac:(vm_compute; reflexivity)
    ltac:(vm_compute; reflexivity) ltac:(vm_compute; reflexivity) w_raced_later)
    as (rk&Hk&Hl&_).
  exists rk. split; [exact Hk|exact Hl].
Defined.

Definition w_config : RedkeyConfig :=
  default (Sample.config 0 0 0 "" "") (kv_configs (sys_store w_ready) !! mkNN "ns" "rk-1").

Lemma configs_are_snapshots_witness :
  ∃ rk, rk ∈ kv_versions (sys_store w_ready) ∧
    carries (rk_Spec rk) (cfg_seq w_config) (cfg_Spec w_config).
Proof.
  destruct (configs_are_snapshots w_reconciler w_deletable w_ready (mkNN "ns" "rk-1") w_config
    w_ready_reachable ltac:(vm_compute; reflexivity)) as (rk&Hin&_&Hs&_).
  exists rk. split; [exact Hin|exact Hs].
Defined.

Lemma observed_within_generation_witness :
  (st_ObservedGeneration (rk_Status (w_of w_ready)) ≤ om_Generation (rk_meta (w_of w_ready)))%Z.
Proof.
  refine (proj2 (observed_within_generation w_reconciler w_deletable w_ready Sample.key
    (w_of w_ready) w_ready_reachable _) _).
  - vm_compute. reflexivity.
  - intros [].
Defined.

(** A Redkey deleted and created again while a reconcile is under way gets the
    generation of the old one recorded as observed. *)
Definition w_recreated : list event :=
  [UserCreates (Sample.redkey 1 (Sample.spec 3 1 false) RedkeyStatus_zero);
   Starts Sample.key w_state] ++ w_advances 17 ++
  [UserUpdates Sample.key (Sample.spec 5 1 false); Starts Sample.key w_state] ++
  w_advances 12 ++
  [UserDeletes Sample.key; UserCreates (Sample.redkey 1 (Sample.spec 4 1 false) RedkeyStatus_zero)]
  ++ w_advances 5.

Example recreated_runs_ahead :
  let rk := w_of (w_after w_recreated sys_init) in
  happen w_recreated sys_init = true ∧ om_Generation (rk_meta rk) = 1%Z ∧
  st_ObservedGeneration (rk_Status rk) = 2%Z.
Proof. vm_compute. split_and!; reflexivity. Qed.

End interleaving_witnesses.
