(* ===== verification/Scenarios.v ===== *)
(** * Whole runs of the operator

    Sequences of reconciles, user updates and steps of Robin computed against the
    in-memory server: two in which everything goes as meant, and some that show where
    the code does not do what its comments say. Of two of these the outcome is computed
    and what follows from it is proved for all later histories. *)

From S2P Require Import Prelude Strconv ApiTypes Effects External Samples Metrics Metadata.
From S2P Require Import ConfigLifecycle Robin ScaleZero Reconciler Validation Server.
From S2P Require Import Convergence ZeroConvergence Bookkeeping.

Section scenarios.
Import Simple.

Definition r : RedkeyReconciler := mkReconciler 600 1.

(** The operator process and the server, after one reconcile. *)
Definition System : Type := Memory.World * OpState.

Definition reconcile_with (h : ∀ c, Memory.World → Memory.World * ans c) (sys : System) : System :=
  let out := run h (Reconcile r Sample.key sys.2) sys.1 in (out.1, out.2.1).

Definition reconcile : System → System := reconcile_with Memory.handler.

(** Robin reports a phase and a status on a config. *)
Definition robin_reports (name phase status : string) (sys : System) : System :=
  (Memory.alter_store KRedkeyConfig
     (alter (λ c, mkConfig (cfg_type c) (cfg_meta c) (cfg_Spec c)
                    (mkConfigStatus phase status RedkeySubstatus_zero None [] None 1))
        (mkNN "ns" name)) sys.1, sys.2).

(** The user changes the spec; the server admits it and counts the generation. *)
Definition user_sets (s : RedkeySpec) (sys : System) : System :=
  (Memory.alter_store KRedkey
     (alter (λ rk,
        if admits rk (with_spec rk s) then
          let m := rk_meta rk in
          mkRedkey (rk_type rk)
            (mkMeta (om_Name m) (om_Namespace m) (om_Labels m) (om_Annotations m)
               (om_Generation m + 1) (om_ResourceVersion m +:+ "'") (om_CreationTimestamp m)
               (om_OwnerReferences m) (om_rest m)) s (rk_Status rk)
        else rk) Sample.key) sys.1, sys.2).

Definition redkey_of (sys : System) : option Redkey := Memory.w_redkeys sys.1 !! Sample.key.
Definition configs_of (sys : System) : list RedkeyConfig :=
  (map_to_list (Memory.w_redkeyconfigs sys.1)).*2.

(** The configs by name, with the primaries they ask for. *)
Definition config_names (sys : System) : list (string * Z) :=
  (λ c, (om_Name (cfg_meta c), cs_Primaries (cfg_Spec c))) <$> sort_slice cfg_seq (configs_of sys).

Definition phase_of (sys : System) : option string := st_Phase ∘ rk_Status <$> redkey_of sys.
Definition observed_of (sys : System) : option Z :=
  st_ObservedGeneration ∘ rk_Status <$> redkey_of sys.
Definition recorded_of (sys : System) : option (Z * Z) :=
  (λ rk, (st_LastAppliedPrimaries (rk_Status rk),
          st_LastAppliedReplicasPerPrimary (rk_Status rk))) <$> redkey_of sys.

Definition start (l : list RedkeyConfig) (gen observed : Z) (primaries : Z) : System :=
  (w_world (Sample.redkey gen (Sample.spec primaries 1 false) (Sample.status "" "" observed)) l,
   mkOpState ∅ ∅ []).

(** ** As meant *)

(** From creation through a change of size to zero and back. *)
Definition created := reconcile (start [] 1 0 3).
Definition running := reconcile (robin_reports "rk-1" ConfigPhaseApplied "Ready" created).
Definition resized := reconcile (user_sets (Sample.spec 5 1 false) running).
Definition grown := reconcile (robin_reports "rk-2" ConfigPhaseApplied "Ready" resized).
Definition stopping := reconcile (user_sets (Sample.spec 0 1 false) grown).
Definition stopped := reconcile (robin_reports "rk-3" ConfigPhaseApplied "" stopping).
Definition restarted := reconcile (user_sets (Sample.spec 5 1 false) stopped).

Example lifecycle :
  (config_names created, phase_of created) = ([("rk-1", 3%Z)], Some PhaseConfiguring) ∧
  (phase_of running, recorded_of running) = (Some PhaseReady, Some (3%Z, 1%Z)) ∧
  config_names resized = [("rk-1", 3%Z); ("rk-2", 5%Z)] ∧
  (config_names grown, recorded_of grown) = ([("rk-2", 5%Z)], Some (5%Z, 1%Z)) ∧
  config_names stopping = [("rk-2", 5%Z); ("rk-3", 0%Z)] ∧
  (config_names stopped, size (Memory.w_deployments stopped.1), recorded_of stopped) =
    ([], 0, Some (5%Z, 1%Z)) ∧
  config_names restarted = [("rk-1", 5%Z)].
Proof. vm_compute. repeat split. Qed.

(** Scaling up to another topology is refused. *)
Example locked_out :
  redkey_of (user_sets (Sample.spec 4 1 false) stopped) = redkey_of stopped.
Proof. vm_compute. reflexivity. Qed.

(** ** Not as meant *)

(** A config cache that lags behind by one config: the reconcile of generation 3
    computes the name of the config of generation 2, takes AlreadyExists for its
    own config and records generation 3 as observed. *)
Definition lagging := start [Sample.config 1 1 3 ConfigPhaseApplied "Ready";
                             Sample.config 2 2 4 ConfigPhasePending ""] 3 2 5.
Definition lagged := reconcile_with
  (Memory.cached [Sample.config 1 1 3 ConfigPhaseApplied "Ready"]) lagging.

Definition m_store (k : okind) (w : Memory.World) := Memory.store k w.

(** All configs stored are the cluster's, under the names the operator gives them. *)
Lemma stored_ordered cluster w :
  bool_decide (Forall (λ c, meta_key (cfg_meta c) =
      mkNN (om_Namespace (rk_meta cluster)) (config_name cluster (cfg_seq c)) ∧
      map_get (om_Labels (cfg_meta c)) ClusterLabel = Some (om_Name (rk_meta cluster)) ∧
      (0 < cfg_seq c)%Z)
    (map_to_list (Memory.store KRedkeyConfig w)).*2) = true →
  keyed m_store w → ordered cluster (Memory.store KRedkeyConfig w).
Proof.
  intros Hall Hk. pose proof (λ key c, stored_all _ w key c Hall) as Hc.
  split_and!.
  - intros c c' [_ H1] [_ H2] Heq. destruct (Hc _ _ H1) as [E1 _], (Hc _ _ H2) as [E2 _].
    rewrite Heq, <-E2 in E1. rewrite E1, H2 in H1. by injection H1.
  - intros c [_ H1]. destruct (Hc _ _ H1) as (_&_&?). lia.
  - intros seq c Hseq H1. destruct (Hc _ _ H1) as (E&Hl&Hpos).
    pose proof (Hk KRedkeyConfig _ _ H1) as E'. simpl in E'. pose proof E' as Hns. rewrite E in E'.
    injection E' as E'. apply dashed_name_inj in E' as [_ <-]; [|lia..]. split; [|done].
    split; [split; [|done]|by rewrite Hns].
    by apply (f_equal nn_Namespace) in Hns.
Qed.

Lemma stored_keyed w :
  (∀ k, bool_decide (map_Forall (λ key o, meta_key (obj_meta k o) = key) (m_store k w)) = true) →
  keyed m_store w.
Proof. intros H k key o Ho. specialize (H k). apply bool_decide_eq_true in H. exact (H key o Ho). Qed.

(** A reconcile in memory is a step of the histories. *)
Lemma reconcile_reconciled sys rk :
  m_store KRedkey sys.1 !! Sample.key = Some rk →
  bool_decide (Forall (λ c, (- 2 ^ 63 ≤ cfg_seq c + 1)%Z ∧ (cfg_seq c + 1 < 2 ^ 63)%Z)
    (map_to_list (Memory.store KRedkeyConfig sys.1)).*2) = true →
  reconciled Memory.handler m_store r Sample.key false sys.1 (reconcile sys).1.
Proof.
  intros Hst Hr.
  exists rk, sys.2, (run_trace Memory.handler (Reconcile r Sample.key sys.2) sys.1).
  set (out := run Memory.handler (Reconcile r Sample.key sys.2) sys.1).
  exists out.2.1, out.2.2.1, out.2.2.2. split_and!; [done| | |apply follows_run|done].
  - intros c [_ Hc]. by apply (stored_all _ _ _ _ Hr Hc).
  - rewrite <-surjective_pairing. apply exec_run.
Qed.

Definition lagged_redkey : Redkey := default w_redkey (redkey_of lagged).
Definition lagged_newest : RedkeyConfig :=
  default w_old (m_store KRedkeyConfig lagged.1 !! mkNN "ns" "rk-2").

Lemma lagged_values :
  om_Generation (rk_meta lagged_redkey) = 3%Z ∧ spec_Primaries (rk_Spec lagged_redkey) = 5%Z.
Proof. split; vm_compute; reflexivity. Qed.

Lemma lagged_lost : lost m_store Sample.key lagged_redkey lagged.1.
Proof.
  assert (Hk : keyed m_store lagged.1) by (apply stored_keyed; by intros []; vm_compute).
  split; [exact Hk|]. split; [by vm_compute|]. split; [by vm_compute|]. split; [by vm_compute|].
  split; [by vm_compute|]. split; [apply stored_ordered; [by vm_compute|exact Hk]|]. split.
  - exists lagged_newest. split; [split; [split|]; by vm_compute|]. intros d [_ Hd].
    refine (stored_all (λ d, (cfg_seq d ≤ cfg_seq lagged_newest)%Z) _ _ _ _ Hd). by vm_compute.
  - intros c [_ Hc].
    assert (config_generation c ≠ Some 3%Z ∧ cs_Primaries (cfg_Spec c) ≠ 5%Z) as [H1 H2].
    { refine (stored_all (λ c, config_generation c ≠ Some 3%Z ∧ cs_Primaries (cfg_Spec c) ≠ 5%Z)
        _ _ _ _ Hc). by vm_compute. }
    destruct lagged_values as [E1 E2]. rewrite E1. split; [exact H1|].
    intros Hcf%configures_primaries. apply H2. rewrite Hcf. exact E2.
Qed.

(** C38: An AlreadyExists from a stale cache loses a generation: the reconcile records
    generation 3 as observed without a config for it; and however many reconciles with
    an up-to-date cache follow, whatever they come to and whatever Robin reports, the
    generation stays observed, no config is ever annotated with it and none asks for the
    primaries of its spec, until somebody edits the Redkey. *)
Theorem stale_cache_loses_a_generation w :
  rtc (unedited Memory.handler m_store r Sample.key) lagged.1 w →
  ∃ rk, m_store KRedkey w !! Sample.key = Some rk ∧
    om_Generation (rk_meta rk) = 3%Z ∧ st_ObservedGeneration (rk_Status rk) = 3%Z ∧
    spec_Primaries (rk_Spec rk) = 5%Z ∧
    ∀ c, holds rk (m_store KRedkeyConfig w) c →
      config_generation c ≠ Some 3%Z ∧ ¬ configures rk c.
Proof.
  intros Hr. destruct (unedited_lost Memory.handler m_store r _ _ _ _ lagged_lost Hr)
    as (rk&(_&Hst&_&_&Hobs&_&_&Hno)&(_&Hgen&Hspec)).
  destruct lagged_values as [E1 E2].
  rewrite E1 in Hgen. rewrite Hgen in *. exists rk. rewrite Hspec. by split_and!.
Qed.

Lemma stale_cache_loses_a_generation_witness :
  observed_of lagging = Some 2%Z ∧
  ∃ rk, m_store KRedkey (reconcile lagged).1 !! Sample.key = Some rk ∧
    st_ObservedGeneration (rk_Status rk) = 3%Z.
Proof.
  split; [vm_compute; reflexivity|].
  destruct (stale_cache_loses_a_generation (reconcile lagged).1) as (rk&Hst&_&Hobs&_).
  - apply rtc_once. left. apply (reconcile_reconciled _ lagged_redkey); by vm_compute.
  - exists rk. split; [exact Hst|exact Hobs].
Defined.

(** No reconcile runs between the moment Robin applies the first config and the
    user's scale to zero. *)
Definition raced := reconcile (user_sets (Sample.spec 0 1 false)
  (robin_reports "rk-1" ConfigPhaseApplied "Ready" created)).
Definition raced_stopped := reconcile (robin_reports "rk-2" ConfigPhaseApplied "" raced).

(** The scale-to-zero path does not aggregate an Applied config: the topology that
    Robin applied is never recorded, and a scale-up from zero to another is admitted. *)
Example raced_topology :
  config_names raced = [("rk-1", 3%Z); ("rk-2", 0%Z)] ∧
  (config_names raced_stopped, recorded_of raced_stopped) = ([], Some (0%Z, 0%Z)) ∧
  (spec_Primaries ∘ rk_Spec <$> redkey_of (user_sets (Sample.spec 5 1 false) raced_stopped)) =
    Some 5%Z.
Proof. vm_compute. repeat split. Qed.

(** The server refuses the config of the first reconcile, after Robin's objects have
    been created; then the user scales to zero. *)
Definition refusing (c : call) (w : Memory.World) : Memory.World * ans c :=
  match c return Memory.World * ans c with
  | Create k o =>
      if decide (k = KRedkeyConfig) then (w, inl Sample.unreachable)
      else Memory.handler (Create k o) w
  | c => Memory.handler c w
  end.

Definition orphaned : System :=
  user_sets (Sample.spec 0 1 false) (reconcile_with refusing (start [] 1 0 3)).

Definition m_event : Memory.World → Memory.World → Prop :=
  event Memory.handler m_store r Sample.key.

Lemma orphaned_idle : idle m_store Sample.key orphaned.1.
Proof.
  split.
  - apply stored_keyed. by intros []; vm_compute.
  - destruct (redkey_of orphaned) as [rk|] eqn:E; [|vm_compute in E; discriminate E].
    exists rk. split; [exact E|]. vm_compute in E. injection E as <-.
    split_and!; [done|done|]. intros c [_ Hc]. vm_compute in Hc. discriminate Hc.
Qed.

(** C40: Robin may be left behind: when the first reconcile has created Robin's
    objects but no config and the user then sets the primaries to zero, the next
    reconcile reports the scaled-to-zero state as reached, and no reconcile and no
    report ever removes Robin's Deployment, Role, RoleBinding or ServiceAccount. *)
Theorem robin_left_behind w :
  rtc m_event orphaned.1 w →
  phase_of (reconcile orphaned) = Some PhaseReady ∧
  observed_of (reconcile orphaned) = Some 2%Z ∧ configs_of orphaned = [] ∧
  ∀ k, k ∈ robin_kinds → is_Some (m_store k w !! robin_key w_redkey).
Proof.
  intros Hr. split_and!; [by vm_compute..|]. intros k Hk.
  rewrite (events_idle Memory.handler m_store r Sample.key _ w k orphaned_idle Hr)
    by (apply (robin_kinds_spec Memory.handler m_store) in Hk; naive_solver).
  revert k Hk. apply Forall_forall, (bool_decide_unpack _). vm_compute. exact I.
Qed.

Lemma robin_left_behind_witness :
  m_event orphaned.1 (reconcile orphaned).1 ∧
  is_Some (m_store KDeployment (reconcile orphaned).1 !! robin_key w_redkey).
Proof.
  assert (m_event orphaned.1 (reconcile orphaned).1) as He.
  { left. destruct orphaned_idle as (_&rk&Hst&_).
    apply (reconcile_reconciled _ rk); [exact Hst|by vm_compute]. }
  split; [exact He|]. eapply (robin_left_behind (reconcile orphaned).1); [by apply rtc_once|].
  set_solver.
Defined.

(** A newer config that Robin has not finished is deleted as soon as a later one
    is Applied, and the sequence starts again at 1 after a scale to zero. *)
Theorem unfinished_config_deleted :
  config_names (reconcile (start [Sample.config 1 1 3 ConfigPhaseApplied "Ready";
     Sample.config 2 2 4 ConfigPhasePending ""; Sample.config 3 3 5 ConfigPhaseApplied "Ready"]
     3 3 5)) = [("rk-3", 5%Z)].
Proof. vm_compute. reflexivity. Qed.

(** The admission rules bound neither primaries nor replicas from above, so the
    node count of an admitted spec can wrap around. *)
Example node_count_wraps :
  valid_spec (Sample.spec (2 ^ 30) 1 false) = true ∧
  NodesNeeded (Sample.spec (2 ^ 30) 1 false) = (- 2 ^ 31)%Z.
Proof. vm_compute. split; reflexivity. Qed.

End scenarios.
