(* ===== verification/MainCmd.v ===== *)
(** * The command line (src/cmd/main.go)

    What [main] computes before it starts the manager: the flags with their
    defaults, the TLS options of the metrics and webhook servers, the metrics
    server's options, the namespaces the cache is scoped to and the reconciler.
    TLS options are functions that [main] builds; only which of them a server gets,
    and in which order, is modelled. Loading certificates is a parameter that may
    fail, in which case the process exits. Starting the manager, the health checks
    and the pprof server are in [Startup]. *)

From Stdlib Require Import Ascii.
From S2P Require Import Prelude ScaleZero.

(** ** Definitions *)

Definition USER_AGENT_NAME := "redkey-operator".
Definition USER_AGENT_VERSION := "0.2.0".

(** The variables of [main] that flags are bound to; durations in nanoseconds. *)
Record Flags := mkFlags {
  metricsAddr : string; probeAddr : string; enableLeaderElection : bool; secureMetrics : bool;
  watchNamespaces : string;
  webhookCertPath : string; webhookCertName : string; webhookCertKey : string;
  metricsCertPath : string; metricsCertName : string; metricsCertKey : string;
  enableHTTP2 : bool; enablePprof : bool; pprofAddr : string;
  resyncInterval : Z; maxConcurrentReconciles : Z }.

(** The values of the flags that are not given. *)
Definition default_flags : Flags :=
  mkFlags ":8080" ":8081" false false "" "" "tls.crt" "tls.key" "" "tls.crt" "tls.key"
    false false ":6060" (5 * 60 * 1000000000) 10.

(** The functions on a TLS configuration that [main] passes on. *)
Inductive tls_opt :=
| disableHTTP2                            (* NextProtos = ["http/1.1"] *)
| certificateFrom (cert key : string).    (* GetCertificate of the watcher *)

Section setup.
(** [certwatcher.New(cert, key)] succeeds. *)
Variable loads : string → string → bool.
(** [filepath.Join(dir, name)] *)
Variable Join_path : string → string → string.

(** [tlsOpts] *)
Definition tlsOpts (f : Flags) : list tls_opt := if enableHTTP2 f then [] else [disableHTTP2].

(** The options of a server with a certificate directory; [None] is [os.Exit(1)]. *)
Definition with_certificate (opts : list tls_opt) (path name key : string)
    : option (list tls_opt) :=
  if bool_decide (path = "") then Some opts
  else
    let cert := Join_path path name in
    let key := Join_path path key in
    if loads cert key then Some (opts ++ [certificateFrom cert key]) else None.

(** [webhookTLSOpts] *)
Definition webhookTLSOpts (f : Flags) : option (list tls_opt) :=
  with_certificate (tlsOpts f) (webhookCertPath f) (webhookCertName f) (webhookCertKey f).

(** [metricsServerOptions]; the filter protects the endpoint with authentication. *)
Record MetricsOptions := mkMetricsOptions {
  BindAddress : string; SecureServing : bool; TLSOpts : list tls_opt; authenticated : bool }.

Definition metricsServerOptions (f : Flags) : option MetricsOptions :=
  opts ← with_certificate (tlsOpts f) (metricsCertPath f) (metricsCertName f) (metricsCertKey f);
  Some (mkMetricsOptions (metricsAddr f) (secureMetrics f) opts (secureMetrics f)).

End setup.

(** [restConfig.UserAgent] *)
Definition userAgent : string := USER_AGENT_NAME +:+ "/" +:+ USER_AGENT_VERSION.

(** The reconciler that is set up with the manager. *)
Definition reconciler_of (f : Flags) : RedkeyReconciler :=
  mkReconciler (resyncInterval f) (maxConcurrentReconciles f).

(** [strings.Split(s, sep)] for a one-character separator: always at least one
    part. *)
Fixpoint Split (sep : ascii) (s : string) : list string :=
  match s with
  | EmptyString => [""]
  | String c s' =>
      if bool_decide (c = sep) then "" :: Split sep s' else
      match Split sep s' with
      | [] => [String c ""]
      | x :: xs => String c x :: xs
      end
  end.

(** The UTF-8 encodings of the runes for which [unicode.IsSpace] holds: the six ASCII
    ones, U+0085, U+00A0, U+1680, U+2000 to U+200A, U+2028, U+2029, U+202F, U+205F and
    U+3000. No encoding occurs inside that of another rune, so what a string begins and
    ends with is decided by its bytes. *)
Definition spaces : list string :=
  [" "; String "009" ""; String "010" ""; String "011" ""; String "012" ""; String "013" "";
   String "194" (String "133" ""); String "194" (String "160" "")] ++
  ((λ bs, String bs.1.1 (String bs.1.2 (String bs.2 ""))) <$>
   [("225", "154", "128"); ("226", "128", "128"); ("226", "128", "129"); ("226", "128", "130");
    ("226", "128", "131"); ("226", "128", "132"); ("226", "128", "133"); ("226", "128", "134");
    ("226", "128", "135"); ("226", "128", "136"); ("226", "128", "137"); ("226", "128", "138");
    ("226", "128", "168"); ("226", "128", "169"); ("226", "128", "175"); ("226", "129", "159");
    ("227", "128", "128")]%char).

(** [s] without the prefix [p]. *)
Fixpoint strip_prefix (p s : string) : option string :=
  match p, s with
  | EmptyString, _ => Some s
  | String a p', String b s' => if bool_decide (a = b) then strip_prefix p' s' else None
  | String _ _, EmptyString => None
  end.

(** [s] without its first rune, if that is white space. *)
Definition strip_space (s : string) : option string := head (omap (λ p, strip_prefix p s) spaces).

(** [strings.TrimLeftFunc(s, unicode.IsSpace)]; every rune removed is at least one byte
    long, so the length of the string is fuel enough. *)
Fixpoint trim_left_fuel (n : nat) (s : string) : string :=
  match n with
  | 0 => s
  | S n' => match strip_space s with Some s' => trim_left_fuel n' s' | None => s end
  end.

Definition trim_left (s : string) : string := trim_left_fuel (String.length s) s.

(** [strings.TrimRightFunc(s, unicode.IsSpace)] *)
Fixpoint trim_right (s : string) : string :=
  match s with
  | EmptyString => ""
  | String c s' =>
      let t := String c (trim_right s') in
      if bool_decide (t ∈ spaces) then "" else t
  end.

(** [strings.TrimSpace(s)] *)
Definition TrimSpace (s : string) : string := trim_right (trim_left s).

(** The loop over the parts: the keys of [defaultNamespaces]. *)
Fixpoint add_namespaces (nsList : list string) (defaultNamespaces : gset string) : gset string :=
  match nsList with
  | [] => defaultNamespaces
  | ns :: nsList' =>
      let ns := TrimSpace ns in
      add_namespaces nsList'
        (if bool_decide (ns = "") then defaultNamespaces else {[ns]} ∪ defaultNamespaces)
  end.

(** [cacheOpts.DefaultNamespaces]; [None] is the nil map of an unscoped cache. *)
Definition cacheNamespaces (watch : string) : option (gset string) :=
  if bool_decide (watch = "") then None else Some (add_namespaces (Split "," watch) ∅).

(** ** References *)

Fixpoint all_chars (P : ascii → Prop) (s : string) : Prop :=
  match s with EmptyString => True | String c s' => P c ∧ all_chars P s' end.

(** [strings.Join(parts, sep)] *)
Fixpoint Join (sep : ascii) (parts : list string) : string :=
  match parts with
  | [] => ""
  | [x] => x
  | x :: xs => x +:+ String sep (Join sep xs)
  end.

(** Nothing but white space. *)
Inductive blank : string → Prop :=
| blank_nil : blank ""
| blank_cons p s : p ∈ spaces → blank s → blank (p +:+ s).

(** [t] is [s] without the white space around it. *)
Definition trimmed (s t : string) : Prop :=
  (∃ l r, s = l +:+ t +:+ r ∧ blank l ∧ blank r) ∧
  ∀ p k, p ∈ spaces → t ≠ p +:+ k ∧ t ≠ k +:+ p.

(** ** Facts *)

Lemma Split_nonempty sep s : Split sep s ≠ [].
Proof. destruct s as [|c s]; simpl; [done|]. case_bool_decide; [done|]. by destruct (Split sep s). Qed.

(** The parts are what the separators separate. *)
Lemma Join_Split sep s : Join sep (Split sep s) = s.
Proof.
  induction s as [|c s IH]; cbn [Split]; [done|]. pose proof (Split_nonempty sep s) as Hne.
  case_bool_decide as Hc; destruct (Split sep s) as [|x xs] eqn:E; try done.
  - subst c. cbn [Join] in *. by rewrite IH.
  - cbn [Join] in *. destruct xs; by rewrite <-IH.
Qed.

Lemma Split_parts sep s : Forall (all_chars (λ c, c ≠ sep)) (Split sep s).
Proof.
  induction s as [|c s IH]; cbn [Split]; [by apply Forall_singleton|].
  case_bool_decide as Hc; [by apply Forall_cons|].
  destruct (Split sep s) as [|x xs]; [by apply Forall_singleton|].
  apply Forall_cons in IH as [Hx Hxs]. by apply Forall_cons.
Qed.

Lemma cons_app_string c s t : String c s +:+ t = String c (s +:+ t).
Proof. done. Qed.

Lemma app_assoc_string s t u : (s +:+ t) +:+ u = s +:+ t +:+ u.
Proof. induction s as [|c s IH]; [done|]. by rewrite !cons_app_string, IH. Qed.

Lemma app_length_string s t : String.length (s +:+ t) = String.length s + String.length t.
Proof. induction s as [|c s IH]; [done|]. rewrite cons_app_string. simpl. by rewrite IH. Qed.

Lemma spaces_nonempty : Forall (λ p, p ≠ "") spaces.
Proof. by repeat constructor. Qed.

Lemma space_nonempty p : p ∈ spaces → p ≠ "".
Proof. pose proof spaces_nonempty as H. rewrite Forall_forall in H. apply H. Qed.

Lemma strip_prefix_spec p s s' : strip_prefix p s = Some s' ↔ s = p +:+ s'.
Proof.
  revert s. induction p as [|a p IH]; intros s; cbn [strip_prefix].
  { split; [by intros [= ->]|by intros ->]. }
  rewrite cons_app_string. destruct s as [|b s]; [done|]. case_bool_decide as Hab.
  - rewrite IH. subst. split; [by intros ->|by intros [= ->]].
  - split; [done|]. by intros [= -> _].
Qed.

Lemma strip_space_Some s s' : strip_space s = Some s' → ∃ p, p ∈ spaces ∧ s = p +:+ s'.
Proof.
  intros Hh%head_Some_elem_of. apply list_elem_of_omap in Hh as (p&Hp&Hs%strip_prefix_spec).
  by exists p.
Qed.

Lemma strip_space_None s p k : strip_space s = None → p ∈ spaces → s ≠ p +:+ k.
Proof.
  unfold strip_space. intros Hn Hp Hs. apply head_None in Hn.
  assert (k ∈ omap (λ p, strip_prefix p s) spaces) as Hin.
  { apply list_elem_of_omap. exists p. split; [done|]. by apply strip_prefix_spec. }
  rewrite Hn in Hin. by apply elem_of_nil in Hin.
Qed.

Lemma trim_left_fuel_spec n s :
  String.length s ≤ n →
  (∃ l, s = l +:+ trim_left_fuel n s ∧ blank l) ∧
  ∀ p k, p ∈ spaces → trim_left_fuel n s ≠ p +:+ k.
Proof.
  revert s. induction n as [|n IH]; intros s Hn; cbn [trim_left_fuel].
  { destruct s; [|simpl in Hn; lia]. split; [exists ""; split; [done|constructor]|].
    intros p k Hp%space_nonempty. by destruct p. }
  destruct (strip_space s) as [s'|] eqn:E.
  - apply strip_space_Some in E as (p&Hp&->). destruct (IH s') as [(l&Hs&Hl) Ht].
    { pose proof (space_nonempty p Hp). destruct p as [|c p]; [done|].
      rewrite app_length_string in Hn. simpl in Hn. lia. }
    split; [|done]. exists (p +:+ l). split; [by rewrite app_assoc_string, <-Hs|by constructor].
  - split; [exists ""; split; [done|constructor]|]. intros p k Hp. by apply strip_space_None.
Qed.

Lemma trim_right_spec s :
  (∃ r, s = trim_right s +:+ r ∧ blank r) ∧ ∀ p k, p ∈ spaces → trim_right s ≠ k +:+ p.
Proof.
  assert (Hempty : ∀ p k, p ∈ spaces → "" ≠ k +:+ p).
  { intros p k Hp%space_nonempty. destruct k; [by destruct p|done]. }
  induction s as [|c s [(r&Hs&Hr) Ht]]; cbn [trim_right].
  { split; [|done]. exists "". split; [done|constructor]. }
  case_bool_decide as Hsp.
  - split; [|done]. exists (String c (trim_right s) +:+ r).
    split; [by rewrite cons_app_string, <-Hs|by constructor].
  - split; [exists r; split; [by rewrite cons_app_string, <-Hs|done]|]. intros p [|d k] Hp.
    + intros E. change ("" +:+ p) with p in E. by rewrite E in Hsp.
    + rewrite cons_app_string. intros [= _ E]. by apply (Ht p k Hp).
Qed.

Lemma TrimSpace_trimmed s : trimmed s (TrimSpace s).
Proof.
  destruct (trim_left_fuel_spec (String.length s) s) as [(l&Hs&Hl) Hleft]; [done|].
  fold (trim_left s) in Hs, Hleft. destruct (trim_right_spec (trim_left s)) as [(r&Ht&Hr) Hright].
  fold (TrimSpace s) in Ht, Hright. split.
  - exists l, r. by rewrite <-Ht.
  - intros p k Hp. split; [|by apply Hright]. intros E. apply (Hleft p (k +:+ r) Hp).
    by rewrite Ht, E, app_assoc_string.
Qed.

Lemma elem_of_add_namespaces parts acc ns :
  ns ∈ add_namespaces parts acc ↔
  ns ∈ acc ∨ ns ≠ "" ∧ ∃ part, part ∈ parts ∧ ns = TrimSpace part.
Proof.
  revert acc. induction parts as [|x parts IH]; intros acc; cbn [add_namespaces]; [set_solver|].
  rewrite IH. case_bool_decide as Hx; set_solver.
Qed.

(** ** Theorems *)

(** C36: The watch list is read as it is written: the flag leaves the cache unscoped
    exactly when it is empty; any other value is cut at its commas, and the cache is
    scoped to the parts without the white space around them, those that are nothing
    but white space left out. A flag of nothing but commas and white space therefore
    scopes the cache to an empty set of names. *)
Theorem cacheNamespaces_reads_list watch :
  match cacheNamespaces watch with
  | None => watch = ""
  | Some names => watch ≠ "" ∧
      ∃ parts, Join "," parts = watch ∧ Forall (all_chars (λ c, c ≠ ","%char)) parts ∧
        Forall (λ part, trimmed part (TrimSpace part)) parts ∧
        ∀ ns, ns ∈ names ↔ ns ≠ "" ∧ ∃ part, part ∈ parts ∧ ns = TrimSpace part
  end.
Proof.
  unfold cacheNamespaces. case_bool_decide as Hw; [done|]. split; [done|].
  exists (Split "," watch). split_and!; [apply Join_Split|apply Split_parts| |].
  - apply Forall_forall. intros part _. apply TrimSpace_trimmed.
  - intros ns. rewrite elem_of_add_namespaces. set_solver.
Qed.

(** A list with white space, one with nothing to name, and a no-break space. *)
Example cacheNamespaces_examples :
  cacheNamespaces "team-a, team-b ,,team-c" = Some {["team-a"; "team-b"; "team-c"]} ∧
  cacheNamespaces " , " = Some ∅ ∧
  cacheNamespaces (String "194" (String "160" "team-a")) = Some {["team-a"]}.
Proof. vm_compute. repeat split. Qed.

(** HTTP/2 stays off unless it is asked for: without --enable-http2 both servers
    get the option that restricts them to HTTP/1.1, before any certificate option,
    whatever certificates are configured, and the metrics endpoint is authenticated
    exactly when it is served securely. *)
Theorem servers_disable_http2 loads join f webhook metrics :
  enableHTTP2 f = false →
  webhookTLSOpts loads join f = Some webhook → metricsServerOptions loads join f = Some metrics →
  head webhook = Some disableHTTP2 ∧ head (TLSOpts metrics) = Some disableHTTP2 ∧
  authenticated metrics = SecureServing metrics.
Proof.
  intros Hf Hw Hm. unfold webhookTLSOpts, metricsServerOptions, with_certificate, tlsOpts in *.
  rewrite Hf in *. repeat case_match; simplify_eq/=; done.
Qed.

Lemma servers_disable_http2_witness :
  head (TLSOpts (mkMetricsOptions ":8080" false [disableHTTP2] false)) = Some disableHTTP2.
Proof.
  exact (proj1 (proj2 (servers_disable_http2 (λ _ _, true) (λ d n, d +:+ "/" +:+ n) default_flags
    [disableHTTP2] (mkMetricsOptions ":8080" false [disableHTTP2] false)
    eq_refl eq_refl eq_refl))).
Defined.
