(* ===== verification/Heap.v ===== *)
(** * Go values on a heap

    A model of Go memory in which aliasing shows: a pointer, a slice and a map hold
    an address, assignment copies the address, and what the address leads to is
    shared. A program is a function on heaps that fails where Go panics (a nil
    pointer dereferenced) or where a value does not have the shape its type gives
    it.

    [view] reads a value of a type through the heap into a tree without addresses,
    [footprint] lists the addresses it leads to. A function copies deeply when the
    result has the same view and its footprint is new; such functions compose along
    the structure of types. A function that fills in an [out] variable is modelled by the
    value it leaves there; the order of allocations is not that of the Go code, where it
    cannot be observed. *)

From S2P Require Import Prelude.
#[local] Set Warnings "-register-all".

(** ** Values, types and heaps *)

Abbreviation loc := positive (only parsing).

(** Strings, numbers and booleans, and types defined as one of them. *)
Inductive scalar := SStr (s : string) | SInt (z : Z) | SBool (b : bool).

(** [VNil] is the nil pointer, slice or map; a slice is a window on an array. *)
Inductive val :=
| VScalar (s : scalar)
| VStruct (fields : list (string * val))
| VNil
| VPtr (l : loc)
| VSlice (l : loc) (off len : nat)
| VMap (l : loc).

(** What is stored at an address: a variable, an array, a map with string keys. *)
Inductive cell :=
| CVar (v : val)
| CArr (vs : list val)
| CMap (m : gmap string val).

Abbreviation heap := (gmap positive cell).

Inductive ty :=
| TScalar
| TPtr (t : ty)
| TSlice (t : ty)
| TMap (t : ty)
| TStruct (fields : list (string * ty)).

(** ** Programs *)

Definition HeapM (A : Type) : Type := heap → option (heap * A).

#[export] Instance HeapM_ret : MRet HeapM := λ A a h, Some (h, a).
#[export] Instance HeapM_bind : MBind HeapM := λ A B f m h,
  match m h with Some (h', a) => f a h' | None => None end.

Definition panic {A} : HeapM A := λ _, None.

Definition load (l : loc) : HeapM cell := λ h, (λ c, (h, c)) <$> h !! l.

(** Go's allocator gives out some address that is not in use. *)
Definition alloc (c : cell) : HeapM loc := λ h,
  let l := fresh (dom h) in Some (<[l := c]> h, l).

Definition store (l : loc) (c : cell) : HeapM unit := λ h,
  match h !! l with Some _ => Some (<[l := c]> h, tt) | None => None end.

(** [for i := range xs { ys[i] = f(xs[i]) }] *)
Fixpoint each {A B} (f : A → HeapM B) (xs : list A) : HeapM (list B) :=
  match xs with
  | [] => mret []
  | x :: xs' => y ← f x; ys ← each f xs'; mret (y :: ys)
  end.

(** The elements of a slice. *)
Definition window {A} (off len : nat) (vs : list A) : list A := take len (drop off vs).

(** ** Reading *)

(** A value without addresses. *)
Inductive tree :=
| Leaf (s : scalar)
| Nil
| Ref (t : tree)
| Seq (ts : list tree)
| Assoc (m : gmap string tree)
| Struct (fields : list (string * tree)).

(** All results of a partial function on the values of a map. *)
Definition map_all {A B} (f : A → option B) (m : gmap string A) : option (gmap string B) :=
  let m' := omap f m in if decide (dom m' = dom m) then Some m' else None.

Section view.
Variable h : heap.

Fixpoint view (t : ty) (v : val) : option tree :=
  match t, v with
  | TScalar, VScalar s => Some (Leaf s)
  | TPtr _, VNil | TSlice _, VNil | TMap _, VNil => Some Nil
  | TPtr t, VPtr l =>
      match h !! l with Some (CVar v) => Ref <$> view t v | _ => None end
  | TSlice t, VSlice l off len =>
      match h !! l with
      | Some (CArr vs) =>
          if bool_decide (off + len ≤ length vs)
          then Seq <$> mapM (view t) (window off len vs) else None
      | _ => None
      end
  | TMap t, VMap l =>
      match h !! l with Some (CMap m) => Assoc <$> map_all (view t) m | _ => None end
  | TStruct fts, VStruct fs =>
      Struct <$>
      (fix go (fts : list (string * ty)) (fs : list (string * val)) : option (list (string * tree)) :=
         match fts, fs with
         | [], [] => Some []
         | (n, t) :: fts', (n', v) :: fs' =>
             if decide (n = n') then x ← view t v; xs ← go fts' fs'; Some ((n, x) :: xs) else None
         | _, _ => None
         end) fts fs
  | _, _ => None
  end.

(** The addresses a value leads to. *)
Fixpoint footprint (t : ty) (v : val) : list loc :=
  match t, v with
  | TPtr t, VPtr l => l :: match h !! l with Some (CVar v) => footprint t v | _ => [] end
  | TSlice t, VSlice l off len =>
      l :: match h !! l with
           | Some (CArr vs) => concat (footprint t <$> window off len vs)
           | _ => [] end
  | TMap t, VMap l =>
      l :: match h !! l with
           | Some (CMap m) => concat (footprint t <$> (map_to_list m).*2)
           | _ => [] end
  | TStruct fts, VStruct fs =>
      (fix go (fts : list (string * ty)) (fs : list (string * val)) : list loc :=
         match fts, fs with
         | (_, t) :: fts', (_, v) :: fs' => footprint t v ++ go fts' fs'
         | _, _ => []
         end) fts fs
  | _, _ => []
  end.

(** The fields of a struct. *)
Fixpoint view_fields (fts : list (string * ty)) (fs : list (string * val))
    : option (list (string * tree)) :=
  match fts, fs with
  | [], [] => Some []
  | (n, t) :: fts', (n', v) :: fs' =>
      if decide (n = n') then x ← view t v; xs ← view_fields fts' fs'; Some ((n, x) :: xs)
      else None
  | _, _ => None
  end.

Fixpoint footprint_fields (fts : list (string * ty)) (fs : list (string * val)) : list loc :=
  match fts, fs with
  | (_, t) :: fts', (_, v) :: fs' => footprint t v ++ footprint_fields fts' fs'
  | _, _ => []
  end.

End view.

(** A type whose values hold no address: assignment copies them whole. *)
Fixpoint flat (t : ty) : bool :=
  match t with
  | TScalar => true
  | TStruct fts =>
      (fix go (fts : list (string * ty)) : bool :=
         match fts with [] => true | (_, t) :: fts' => flat t && go fts' end) fts
  | _ => false
  end.

(** ** Copying: the statements of a generated copy function

    A copier takes the value of [*in] and gives the value it leaves in [*out]. *)
Abbreviation copier := (val → HeapM val).

(** [if in != nil { *out = new(T); f( **in, *out) }] *)
Definition copy_ptr (f : copier) : copier := λ v,
  match v with
  | VNil => mret VNil
  | VPtr l => c ← load l;
              match c with
              | CVar x => y ← f x; l' ← alloc (CVar y); mret (VPtr l')
              | _ => panic
              end
  | _ => panic
  end.

(** [if in != nil { *out = make([]T, len(in)); for i := range in { f(in[i], &out[i]) } }];
    with [mret] for [f] it is the built-in [copy]. *)
Definition copy_slice (f : copier) : copier := λ v,
  match v with
  | VNil => mret VNil
  | VSlice l off len =>
      c ← load l;
      match c with
      | CArr xs => if bool_decide (off + len ≤ length xs)
                   then ys ← each f (window off len xs); l' ← alloc (CArr ys);
                        mret (VSlice l' 0 len)
                   else panic
      | _ => panic
      end
  | _ => panic
  end.

(** [if in != nil { *out = make(map[string]T, len(in)); for k, v := range in
    { out[k] = f(v) } }]. Go visits the keys in any order; each value depends on its
    key only. *)
Definition copy_map (f : copier) : copier := λ v,
  match v with
  | VNil => mret VNil
  | VMap l =>
      c ← load l;
      match c with
      | CMap m => let kvs := map_to_list m in
                  ys ← each f kvs.*2;
                  l' ← alloc (CMap (list_to_map (zip kvs.*1 ys))); mret (VMap l')
      | _ => panic
      end
  | _ => panic
  end.

(** The statement for field [n], when the list has one. *)
Fixpoint statement (hs : list (string * copier)) (n : string) : option copier :=
  match hs with
  | [] => None
  | (n', f) :: hs' => if String.eqb n n' then Some f else statement hs' n
  end.

Definition field_copier (hs : list (string * copier)) (n : string) : copier :=
  default mret (statement hs n).

(** [*out = *in] and then a statement for each of the listed fields. *)
Definition struct_into (hs : list (string * copier)) : copier := λ v,
  match v with
  | VStruct fs =>
      ys ← each (λ nv : string * val, field_copier hs nv.1 nv.2) fs;
      mret (VStruct (zip fs.*1 ys))
  | _ => panic
  end.

(** ** Reading is local *)

Section ty_ind.
Context (P : ty → Prop).
Hypothesis scalar_case : P TScalar.
Hypothesis ptr_case : ∀ t, P t → P (TPtr t).
Hypothesis slice_case : ∀ t, P t → P (TSlice t).
Hypothesis map_case : ∀ t, P t → P (TMap t).
Hypothesis struct_case : ∀ fts, Forall (λ nt, P nt.2) fts → P (TStruct fts).

(** Induction on types with the fields of a struct. *)
Fixpoint ty_fields_ind (t : ty) : P t :=
  match t with
  | TScalar => scalar_case
  | TPtr t => ptr_case t (ty_fields_ind t)
  | TSlice t => slice_case t (ty_fields_ind t)
  | TMap t => map_case t (ty_fields_ind t)
  | TStruct fts =>
      struct_case fts
        ((fix go (fts : list (string * ty)) : Forall (λ nt, P nt.2) fts :=
            match fts with
            | [] => Forall_nil_2 _
            | nt :: fts' => Forall_cons_2 _ nt fts' (ty_fields_ind nt.2) (go fts')
            end) fts)
  end.
End ty_ind.

Section reading.
Implicit Types (h : heap) (t : ty) (v : val) (x : tree).

Lemma view_struct h fts fs :
  view h (TStruct fts) (VStruct fs) = Struct <$> view_fields h fts fs.
Proof. reflexivity. Qed.

Lemma footprint_struct h fts fs :
  footprint h (TStruct fts) (VStruct fs) = footprint_fields h fts fs.
Proof. reflexivity. Qed.

Lemma flat_struct fts : flat (TStruct fts) = true → Forall (λ nt, flat nt.2 = true) fts.
Proof.
  induction fts as [|[n t] fts IH]; [constructor|].
  intros [??]%andb_prop. constructor; [done|by apply IH].
Qed.

Lemma flat_footprint h t v : flat t = true → footprint h t v = [].
Proof.
  revert v; induction t as [| | | |fts IH] using ty_fields_ind; intros v Hf; try done.
  apply flat_struct in Hf. destruct v as [|fs| | | |]; try done. rewrite footprint_struct.
  revert fs; induction fts as [|[n t] fts IHf]; intros [|[n' v] fs]; try done; cbn.
  apply Forall_cons in IH as [IH IHs]. apply Forall_cons in Hf as [Hf Hfs].
  by rewrite IH, IHf.
Qed.

Lemma elem_of_concat_fmap {A B} (f : A → list B) (xs : list A) b :
  b ∈ concat (f <$> xs) ↔ ∃ a, a ∈ xs ∧ b ∈ f a.
Proof.
  rewrite list_elem_of_In, in_concat. split.
  - intros (l & Hl & Hb). apply list_elem_of_In, list_elem_of_fmap in Hl as (a & -> & Ha).
    exists a. split; [done|by apply list_elem_of_In].
  - intros (a & Ha & Hb). exists (f a). split; apply list_elem_of_In; [|done].
    by apply list_elem_of_fmap_2.
Qed.

Lemma elem_of_map_values {A} (m : gmap string A) a :
  a ∈ (map_to_list m).*2 ↔ ∃ k, m !! k = Some a.
Proof.
  rewrite list_elem_of_fmap. split.
  - intros ([k a'] & -> & Hka). exists k. by apply elem_of_map_to_list.
  - intros [k Hk]. exists (k, a). split; [done|]. by apply elem_of_map_to_list.
Qed.

Lemma map_all_ext {A B} (f g : A → option B) (m : gmap string A) :
  (∀ k a, m !! k = Some a → f a = g a) → map_all f m = map_all g m.
Proof.
  intros Hfg. unfold map_all. assert (omap f m = omap g m) as ->; [|done].
  apply map_eq. intros k. rewrite !lookup_omap. destruct (m !! k) eqn:E; cbn; [|done].
  by eapply Hfg.
Qed.

Lemma map_all_Some {A B} (f : A → option B) (m : gmap string A) m' :
  map_all f m = Some m' → ∀ k, m' !! k = m !! k ≫= f ∧ (is_Some (m !! k) ↔ is_Some (m' !! k)).
Proof.
  unfold map_all. case_decide as Hd; intros [= <-] k. split; [by rewrite lookup_omap|].
  by rewrite <- !elem_of_dom, Hd.
Qed.

(** Two heaps that agree on what a value leads to show the same value. *)
Lemma view_frame h h' t v :
  (∀ l, l ∈ footprint h t v → h' !! l = h !! l) →
  view h' t v = view h t v ∧ footprint h' t v = footprint h t v.
Proof.
  revert v; induction t as [|t IH|t IH|t IH|fts IH] using ty_fields_ind; intros v Hag.
  - by destruct v.
  - destruct v; try done; cbn in *. rewrite Hag by left.
    destruct (h !! l) as [[w| |]|]; try done.
    destruct (IH w) as [-> ->]; [|done]. intros; apply Hag; by right.
  - destruct v; try done; cbn in *. rewrite Hag by left.
    destruct (h !! l) as [[|ws|]|]; try done.
    assert (Hw : ∀ w, w ∈ window off len ws →
              view h' t w = view h t w ∧ footprint h' t w = footprint h t w).
    { intros w Hw. apply IH. intros l' Hl'. apply Hag. right.
      apply elem_of_concat_fmap; eauto. }
    split.
    + destruct (bool_decide _); [|done]. f_equal. apply Forall_mapM_ext, Forall_forall.
      intros w Hin. by apply Hw.
    + do 2 f_equal. apply Forall_fmap_ext, Forall_forall. intros w Hin. by apply Hw.
  - destruct v; try done; cbn in *. rewrite Hag by left.
    destruct (h !! l) as [[| |m]|]; try done.
    assert (Hw : ∀ k w, m !! k = Some w →
              view h' t w = view h t w ∧ footprint h' t w = footprint h t w).
    { intros k w Hw. apply IH. intros l' Hl'. apply Hag. right.
      apply elem_of_concat_fmap. exists w. split; [|done].
      apply elem_of_map_values. eauto. }
    split.
    + f_equal. apply map_all_ext. intros k w Hk. by apply (Hw k).
    + do 2 f_equal. apply Forall_fmap_ext, Forall_forall. intros w Hin.
      apply elem_of_map_values in Hin as [k Hk]. by apply (Hw k).
  - destruct v as [|fs| | | |]; try done. rewrite !view_struct.
    enough (view_fields h' fts fs = view_fields h fts fs ∧
            footprint_fields h' fts fs = footprint_fields h fts fs) as [-> Hfp] by (by split).
    change (∀ l, l ∈ footprint_fields h fts fs → h' !! l = h !! l) in Hag.
    revert fs Hag; induction fts as [|[n t] fts IHf]; intros [|[n' v] fs] Hag; try done; cbn in *.
    apply Forall_cons in IH as [IH IHs]; cbn in IH.
    destruct (IH v) as [-> ->]. { intros l Hl. apply Hag, elem_of_app; by left. }
    destruct (IHf IHs fs) as [-> ->]; [|done]. intros l Hl. apply Hag, elem_of_app; by right.
Qed.

(** A value of a type leads to addresses in use. *)
Lemma view_footprint_dom h t v x :
  view h t v = Some x → ∀ l, l ∈ footprint h t v → is_Some (h !! l).
Proof.
  revert v x; induction t as [|t IH|t IH|t IH|fts IH] using ty_fields_ind; intros v x Hv l Hl.
  - by destruct v; apply elem_of_nil in Hl.
  - destruct v as [| | |l0| |]; try done; cbn in *; [by apply elem_of_nil in Hl|].
    destruct (h !! l0) as [[w| |]|] eqn:E; try done.
    apply fmap_Some in Hv as (y & Hy & _).
    apply elem_of_cons in Hl as [->|Hl]; [by rewrite E|eauto].
  - destruct v as [| | | |l0 off len|]; try done; cbn in *; [by apply elem_of_nil in Hl|].
    destruct (h !! l0) as [[|ws|]|] eqn:E; try done. destruct (bool_decide _); [|done].
    apply fmap_Some in Hv as (ys & Hys & _). apply mapM_Some in Hys.
    apply elem_of_cons in Hl as [->|Hl]; [by rewrite E|].
    apply elem_of_concat_fmap in Hl as (w & Hw & Hl).
    apply list_elem_of_lookup in Hw as [i Hi].
    destruct (Forall2_lookup_l _ _ _ _ _ Hys Hi) as (y & _ & Hy). eauto.
  - destruct v as [| | | | |l0]; try done; cbn in *; [by apply elem_of_nil in Hl|].
    destruct (h !! l0) as [[| |m]|] eqn:E; try done.
    apply fmap_Some in Hv as (m' & Hm' & _).
    apply elem_of_cons in Hl as [->|Hl]; [by rewrite E|].
    apply elem_of_concat_fmap in Hl as (w & [k Hw]%elem_of_map_values & Hl).
    destruct (map_all_Some _ _ _ Hm' k) as [Hk [[y Hy] _]]; [by eexists|].
    rewrite Hy, Hw in Hk. symmetry in Hk. eauto.
  - destruct v as [|fs| | | |]; try done. rewrite view_struct in Hv.
    apply fmap_Some in Hv as (xs & Hxs & _). rewrite footprint_struct in Hl. clear x.
    revert fs xs Hxs Hl; induction fts as [|[n t] fts IHf];
      intros [|[n' v] fs] xs Hxs Hl; cbn in *; try (by apply elem_of_nil in Hl); try done.
    apply Forall_cons in IH as [IH IHs]; cbn in IH.
    case_decide; [|done]. apply bind_Some in Hxs as (y & Hy & Hxs).
    apply bind_Some in Hxs as (ys & Hys & _).
    apply elem_of_app in Hl as [Hl|Hl]; eauto.
Qed.

(** Allocation keeps every value as it is. *)
Lemma view_mono h h' t v x :
  h ⊆ h' → view h t v = Some x →
  view h' t v = Some x ∧ footprint h' t v = footprint h t v.
Proof.
  intros Hs Hv. destruct (view_frame h h' t v) as [Hw Hf]; [|by rewrite Hw].
  intros l Hl. destruct (view_footprint_dom _ _ _ _ Hv l Hl) as [c Hc].
  rewrite Hc. by eapply lookup_weaken.
Qed.
End reading.

(** ** Deep copies *)

(** The addresses [ls] are distinct and were taken into use between [h] and [h']. *)
Definition taken (h h' : heap) (ls : list loc) : Prop :=
  NoDup ls ∧ ∀ l, l ∈ ls → h !! l = None ∧ is_Some (h' !! l).

(** [v'] shows [x] in [h'], everything it leads to is new, and nothing that was in
    [h] has changed. *)
Definition copied (h : heap) (t : ty) (x : tree) (h' : heap) (v' : val) : Prop :=
  h ⊆ h' ∧ view h' t v' = Some x ∧ taken h h' (footprint h' t v').

(** [f] copies the values of type [t]: it does not panic and copies deeply. *)
Definition copies (t : ty) (f : copier) : Prop :=
  ∀ h v x, view h t v = Some x → ∃ h' v', f v h = Some (h', v') ∧ copied h t x h' v'.

Section taken.
Implicit Types (h : heap) (ls : list loc).

Lemma taken_nil h h' : taken h h' [].
Proof. split; [constructor|]. intros l Hl. by apply elem_of_nil in Hl. Qed.

(** What two successive runs take is disjoint. *)
Lemma taken_app h h1 h2 ls1 ls2 :
  h ⊆ h1 → h1 ⊆ h2 → taken h h1 ls1 → taken h1 h2 ls2 → taken h h2 (ls1 ++ ls2).
Proof.
  intros H1 H2 [Hn1 Hd1] [Hn2 Hd2]. split.
  - apply NoDup_app. split_and!; [done| |done].
    intros l Hl1 Hl2. destruct (Hd1 _ Hl1) as [_ [c Hc]]. destruct (Hd2 _ Hl2) as [Hn _].
    congruence.
  - intros l [Hl|Hl]%elem_of_app.
    + destruct (Hd1 _ Hl) as [? [c Hc]]. split; [done|]. exists c. by eapply lookup_weaken.
    + destruct (Hd2 _ Hl) as [Hn ?]. split; [|done]. by eapply lookup_weaken_None.
Qed.

Lemma taken_perm h h' ls ls' : ls ≡ₚ ls' → taken h h' ls → taken h h' ls'.
Proof.
  intros Hp [Hn Hd]. split; [by rewrite <- Hp|]. intros l. rewrite <- Hp. apply Hd.
Qed.

Lemma alloc_fresh h : h !! (fresh (dom h) : loc) = None.
Proof. apply not_elem_of_dom, is_fresh. Qed.

(** Allocation on top of what a run has taken. *)
Lemma taken_alloc h h' ls c :
  h ⊆ h' → taken h h' ls →
  let l := fresh (dom h') in taken h (<[l := c]> h') (l :: ls).
Proof.
  intros Hs [Hn Hd] l. assert (Hl : h' !! l = None) by apply (alloc_fresh h'). split.
  - constructor; [|done]. intros Hin. destruct (Hd _ Hin) as [_ [? ?]]. congruence.
  - intros l' [->|Hin]%elem_of_cons.
    + split; [by eapply lookup_weaken_None|]. rewrite lookup_insert_eq. by eexists.
    + destruct (Hd _ Hin) as [? [c' Hc]]. split; [done|]. exists c'.
      rewrite lookup_insert_ne; [done|]. congruence.
Qed.

Lemma alloc_mono h h' c : h ⊆ h' → h ⊆ <[fresh (dom h') := c]> h'.
Proof. intros. etransitivity; [done|]. apply insert_subseteq, (alloc_fresh h'). Qed.
End taken.

Section copies.
Implicit Types (h : heap) (t : ty) (v : val) (x : tree) (f : copier).

(** Assignment copies values without addresses. *)
Lemma copies_ret t : flat t = true → copies t mret.
Proof.
  intros Hf h v x Hv. exists h, v. split; [done|]. split_and!; [done|done|].
  rewrite flat_footprint by done. apply taken_nil.
Qed.

(** Run in any extension of [h], [m] gives a copy of [x]. *)
Definition yields (h : heap) (m : HeapM val) (t : ty) (x : tree) : Prop :=
  ∀ h1, h ⊆ h1 → ∃ h2 v, m h1 = Some (h2, v) ∧ copied h1 t x h2 v.

Lemma copies_yields t f h v x : copies t f → view h t v = Some x → yields h (f v) t x.
Proof. intros Hf Hv h1 Hs. apply Hf. by apply (view_mono h h1 t v x). Qed.

Lemma yields_mono h h1 m t x : h ⊆ h1 → yields h m t x → yields h1 m t x.
Proof. intros Hs Hm h2 Hs'. apply Hm. by etransitivity. Qed.

(** Copies of several values, each of its own type. *)
Definition copied_list (h : heap) (ts : list ty) (xs : list tree) (h' : heap) (vs : list val) : Prop :=
  h ⊆ h' ∧ Forall3 (λ t v x, view h' t v = Some x) ts vs xs ∧
  taken h h' (concat (zip_with (footprint h') ts vs)).

Lemma copied_list_cons h h1 h2 t ts x xs v vs :
  copied h t x h1 v → copied_list h1 ts xs h2 vs → copied_list h (t :: ts) (x :: xs) h2 (v :: vs).
Proof.
  intros (Hs & Hv & Ht) (Hs' & Hvs & Hts). destruct (view_mono _ h2 _ _ _ Hs' Hv) as [Hv' Hf].
  split_and!; [by etransitivity|by constructor|]. cbn. rewrite Hf. by apply taken_app with h1.
Qed.

Lemma each_copied {A} (g : A → HeapM val) as_ ts xs h :
  Forall3 (λ a t x, yields h (g a) t x) as_ ts xs →
  ∃ h' vs, each g as_ h = Some (h', vs) ∧ copied_list h ts xs h' vs.
Proof.
  intros Hall. revert ts xs h Hall; induction as_ as [|a as_ IH]; intros ts xs h Hall;
    inversion Hall as [|? t x ? ts' xs' Hy Hys]; subst.
  - exists h, []. split; [done|]. split_and!; [done|constructor|apply taken_nil].
  - destruct (Hy h) as (h1 & v & Hv & Hc); [done|].
    destruct (IH ts' xs' h1) as (h2 & vs & Hvs & Hcs).
    { eapply Forall3_impl; [done|]. intros. by eapply yields_mono; [apply Hc|]. }
    exists h2, (v :: vs). split; [|by eapply copied_list_cons].
    cbn. unfold mbind, HeapM_bind. by rewrite Hv, Hvs.
Qed.

(** Storing the value a run has copied at a new address. *)
Lemma copied_new_ptr h t x h1 v :
  copied h t x h1 v →
  let l := fresh (dom h1) in copied h (TPtr t) (Ref x) (<[l := CVar v]> h1) (VPtr l).
Proof.
  intros (Hs & Hv & Ht) l. assert (Hl : h1 ⊆ <[l := CVar v]> h1)
    by apply insert_subseteq, (alloc_fresh h1).
  destruct (view_mono _ _ _ _ _ Hl Hv) as [Hv' Hf].
  split_and!; [by apply alloc_mono| |].
  - cbn. by rewrite lookup_insert_eq, Hv'.
  - cbn. rewrite lookup_insert_eq, Hf. by apply taken_alloc.
Qed.

Lemma copied_list_view h ts xs h1 vs c :
  copied_list h ts xs h1 vs →
  let h2 := <[fresh (dom h1) := c]> h1 in
  Forall3 (λ t v x, view h2 t v = Some x) ts vs xs ∧
  zip_with (footprint h2) ts vs = zip_with (footprint h1) ts vs.
Proof.
  intros (Hs & Hv & _) h2. assert (Hl : h1 ⊆ h2) by apply insert_subseteq, (alloc_fresh h1).
  clear Hs. induction Hv as [|t v x ts vs xs Hv Hvs IH]; [by split; [constructor|]|].
  destruct IH as [IHv IHf], (view_mono _ _ _ _ _ Hl Hv) as [Hv' Hf].
  split; [by constructor|]. cbn. by rewrite IHf, Hf.
Qed.

Lemma Forall3_same h t vs xs :
  Forall3 (λ t v x, view h t v = Some x) (replicate (length vs) t) vs xs →
  mapM (view h t) vs = Some xs.
Proof.
  intros Hall. apply mapM_Some. remember (replicate _ _) as ts eqn:E.
  revert E; induction Hall; cbn; intros [=]; constructor; [by subst|auto].
Qed.

Lemma zip_with_replicate_concat h t vs :
  zip_with (footprint h) (replicate (length vs) t) vs = footprint h t <$> vs.
Proof. by induction vs as [|v vs IH]; cbn; [|rewrite IH]. Qed.

(** Copies of values of one type. *)
Lemma each_copies t f h vs xs :
  copies t f → mapM (view h t) vs = Some xs →
  ∃ h' vs', each f vs h = Some (h', vs') ∧ length vs' = length vs ∧
            copied_list h (replicate (length vs') t) xs h' vs'.
Proof.
  intros Hf Hvs. apply mapM_Some in Hvs.
  destruct (each_copied f vs (replicate (length vs) t) xs h) as (h' & vs' & He & Hc).
  { induction Hvs; constructor; [by eapply copies_yields|done]. }
  exists h', vs'. split; [done|]. assert (Hl : length vs' = length vs).
  { destruct Hc as (_ & Hall & _). apply Forall3_length_lm in Hall.
    by rewrite length_replicate in Hall. }
  by rewrite Hl.
Qed.

Lemma copies_ptr t f : copies t f → copies (TPtr t) (copy_ptr f).
Proof.
  intros Hf h v x Hv. destruct v as [| | |l| |]; try done.
  { injection Hv as <-. exists h, VNil. split; [done|].
    split_and!; [done|done|apply taken_nil]. }
  cbn in Hv. destruct (h !! l) as [[w| |]|] eqn:E; try done.
  apply fmap_Some in Hv as (y & Hy & ->). destruct (Hf h w y Hy) as (h1 & v' & Hr & Hc).
  exists (<[fresh (dom h1) := CVar v']> h1), (VPtr (fresh (dom h1))).
  split; [|by apply copied_new_ptr].
  cbn. unfold mbind, HeapM_bind, load. rewrite E; cbn. by rewrite Hr.
Qed.

Lemma copies_slice t f : copies t f → copies (TSlice t) (copy_slice f).
Proof.
  intros Hf h v x Hv. destruct v as [| | | |l off len|]; try done.
  { injection Hv as <-. exists h, VNil. split; [done|].
    split_and!; [done|done|apply taken_nil]. }
  cbn in Hv. destruct (h !! l) as [[|ws|]|] eqn:E; try done.
  case_bool_decide as Hb; [|done]. apply fmap_Some in Hv as (xs & Hxs & ->).
  destruct (each_copies t f h _ xs Hf Hxs) as (h1 & vs & Hr & Hl & Hc).
  assert (Hlen : length vs = len).
  { rewrite Hl. unfold window. rewrite length_take, length_drop. lia. }
  exists (<[fresh (dom h1) := CArr vs]> h1), (VSlice (fresh (dom h1)) 0 len). split.
  { cbn. unfold mbind, HeapM_bind, load. rewrite E; cbn. rewrite bool_decide_eq_true_2 by done.
    by rewrite Hr. }
  destruct (copied_list_view h _ _ _ _ (CArr vs) Hc) as [Hv Hfp].
  rewrite !zip_with_replicate_concat in Hfp. apply Forall3_same in Hv.
  destruct Hc as (Hs & _ & Ht). rewrite zip_with_replicate_concat in Ht.
  assert (Hw : window 0 len vs = vs) by (unfold window; rewrite drop_0, take_ge; [done|lia]).
  split_and!; [by apply alloc_mono| |]; cbn; rewrite lookup_insert_eq.
  - rewrite bool_decide_eq_true_2 by lia. by rewrite Hw, Hv.
  - rewrite Hw, Hfp. by apply taken_alloc.
Qed.

Lemma map_all_insert {A B} (g : A → option B) (m : gmap string A) m' k a b :
  g a = Some b → map_all g m = Some m' → map_all g (<[k := a]> m) = Some (<[k := b]> m').
Proof.
  unfold map_all. intros Hg. case_decide as Hd; intros [= <-].
  rewrite (omap_insert_Some _ _ _ _ _ Hg), !dom_insert_L, Hd. by rewrite decide_True.
Qed.

(** A map given by a list of its keys and one of their values. *)
Lemma map_all_zip {A B} (g : A → option B) ks vs xs :
  mapM g vs = Some xs →
  map_all g (list_to_map (zip ks vs) : gmap string A) = Some (list_to_map (zip ks xs)).
Proof.
  intros Hg%mapM_Some. revert ks; induction Hg as [|v x vs xs Hv Hvs IH]; intros [|k ks]; try done.
  cbn. by apply map_all_insert.
Qed.

Lemma map_all_values {A B} (g : A → option B) (m : gmap string A) m' :
  map_all g m = Some m' → is_Some (mapM g (map_to_list m).*2).
Proof.
  intros Hm. apply mapM_is_Some, Forall_forall. intros a [k Hk]%elem_of_map_values.
  destruct (map_all_Some _ _ _ Hm k) as [Hb [[b Hb'] _]]; [by eexists|].
  exists b. by rewrite Hb', Hk in Hb.
Qed.

Lemma zip_map_to_list {A} (m : gmap string A) :
  zip (map_to_list m).*1 (map_to_list m).*2 = map_to_list m.
Proof. generalize (map_to_list m). induction l as [|[k a] l IH]; cbn; [done|by rewrite IH]. Qed.

(** The values of the map built from distinct keys are those of the list. *)
Lemma values_list_to_map {A} (ks : list string) (vs : list A) :
  NoDup ks → length vs = length ks →
  (map_to_list (list_to_map (zip ks vs) : gmap string A)).*2 ≡ₚ vs.
Proof.
  intros Hk Hl. rewrite map_to_list_to_map by (rewrite fst_zip; [done|lia]).
  by rewrite snd_zip by lia.
Qed.

Lemma copies_map t f : copies t f → copies (TMap t) (copy_map f).
Proof.
  intros Hf h v x Hv. destruct v as [| | | | |l]; try done.
  { injection Hv as <-. exists h, VNil. split; [done|].
    split_and!; [done|done|apply taken_nil]. }
  cbn in Hv. destruct (h !! l) as [[| |m]|] eqn:E; try done.
  apply fmap_Some in Hv as (m' & Hm & ->).
  destruct (map_all_values _ _ _ Hm) as [xs Hxs].
  destruct (each_copies t f h _ xs Hf Hxs) as (h1 & vs & Hr & Hl & Hc).
  set (ks := (map_to_list m).*1) in *. rewrite length_fmap in Hl.
  assert (Hlk : length vs = length ks) by (by unfold ks; rewrite length_fmap).
  exists (<[fresh (dom h1) := CMap (list_to_map (zip ks vs))]> h1), (VMap (fresh (dom h1))). split.
  { cbn. unfold mbind, HeapM_bind, load. rewrite E; cbn. by rewrite Hr. }
  destruct (copied_list_view h _ _ _ _ (CMap (list_to_map (zip ks vs))) Hc) as [Hv Hfp].
  rewrite !zip_with_replicate_concat in Hfp. apply Forall3_same in Hv.
  destruct Hc as (Hs & _ & Ht). rewrite zip_with_replicate_concat in Ht.
  split_and!; [by apply alloc_mono| |]; cbn; rewrite lookup_insert_eq.
  - rewrite (map_all_zip _ _ _ _ Hv). cbn. do 2 f_equal.
    pose proof (map_all_zip (view h t) ks _ _ Hxs) as Hm'. unfold ks in Hm'.
    rewrite zip_map_to_list, list_to_map_to_list, Hm in Hm'. by injection Hm' as ->.
  - eapply taken_perm; [|apply taken_alloc; [done|exact Ht]].
    rewrite <- Hfp. constructor.
    rewrite values_list_to_map; [done|apply NoDup_fst_map_to_list|done].
Qed.

Lemma view_fields_names h fts fs xs : view_fields h fts fs = Some xs → fs.*1 = fts.*1.
Proof.
  revert fs xs; induction fts as [|[n t] fts IH]; intros [|[n' v] fs] xs; try done; cbn.
  case_decide; [|done]. intros (y & Hy & (ys & Hys & _)%bind_Some)%bind_Some.
  cbn. by rewrite (IH _ _ Hys); subst.
Qed.

Lemma view_fields_Some h fts fs xs :
  fs.*1 = fts.*1 →
  view_fields h fts fs = Some xs ↔
  xs.*1 = fts.*1 ∧ Forall3 (λ t v x, view h t v = Some x) fts.*2 fs.*2 xs.*2.
Proof.
  revert fs xs; induction fts as [|[n t] fts IH]; intros [|[n' v] fs] xs Hn; try done; cbn in *.
  - destruct xs as [|[]]; cbn; split; try done; [by repeat constructor|].
    intros [? Hall]; done.
  - injection Hn as -> Hn. rewrite decide_True by done. split.
    + intros (y & Hy & (ys & Hys & [= <-])%bind_Some)%bind_Some.
      apply (IH _ _ Hn) in Hys as [??]. cbn. split; [by f_equal|by constructor].
    + destruct xs as [|[n'' x] xs]; cbn; [by intros []|]. intros [[= -> Hx] Hall].
      inversion Hall as [|?????? Hv Hvs]; subst. rewrite Hv; cbn.
      assert (view_fields h fts fs = Some xs) as -> by (by apply IH). done.
Qed.

Lemma footprint_fields_zip h fts fs :
  footprint_fields h fts fs = concat (zip_with (footprint h) fts.*2 fs.*2).
Proof.
  revert fs; induction fts as [|[n t] fts IH]; intros [|[n' v] fs]; try done. cbn. by rewrite IH.
Qed.

(** The statements of [DeepCopyInto] copy deeply when each field that is not flat has
    one that does. *)
Lemma copies_struct fts hs :
  Forall (λ nt, copies nt.2 (field_copier hs nt.1)) fts → copies (TStruct fts) (struct_into hs).
Proof.
  intros Hfs h v x Hv. destruct v as [|fs| | | |]; try done.
  rewrite view_struct in Hv. apply fmap_Some in Hv as (xs & Hxs & ->).
  pose proof (view_fields_names _ _ _ _ Hxs) as Hn.
  apply (view_fields_Some _ _ _ _ Hn) in Hxs as [Hxn Hxs].
  destruct (each_copied (λ nv : string * val, field_copier hs nv.1 nv.2) fs fts.*2 xs.*2 h)
    as (h' & vs & Hr & Hc).
  { clear Hxn. revert fs Hn xs Hxs; induction Hfs as [|[n t] fts Hf Hfs IH];
      intros [|[n' v] fs] Hn xs Hxs; try done; cbn in *.
    - inversion Hxs. constructor.
    - injection Hn as -> Hn. destruct xs as [|[n'' x] xs]; [inversion Hxs|].
      inversion Hxs as [|?????? Hx Hxs']; subst.
      constructor; [by eapply copies_yields|by eapply IH]. }
  exists h', (VStruct (zip fs.*1 vs)). split.
  { unfold struct_into, mbind, HeapM_bind. by rewrite Hr. }
  destruct Hc as (Hs & Hv & Ht). pose proof (Forall3_length_lm _ _ _ _ Hv) as Hl.
  rewrite length_fmap in Hl. rewrite Hn.
  assert (E1 : (zip fts.*1 vs).*1 = fts.*1) by (rewrite fst_zip; [done|rewrite length_fmap; lia]).
  assert (E2 : (zip fts.*1 vs).*2 = vs) by (rewrite snd_zip; [done|rewrite length_fmap; lia]).
  split_and!; [done| |].
  - rewrite view_struct. assert (view_fields h' fts (zip fts.*1 vs) = Some xs) as ->; [|done].
    apply view_fields_Some; [done|]. by rewrite E2.
  - rewrite footprint_struct, footprint_fields_zip, E2. done.
Qed.
End copies.

(** ** Isolation *)

(** A run from [h] to [h'] that holds [ls] only: it writes to those addresses and to
    addresses that were not in use. *)
Definition writes (ls : list loc) (h h' : heap) : Prop :=
  ∀ l, is_Some (h !! l) → l ∉ ls → h' !! l = h !! l.

(** Nothing done through the copy shows in the original, and nothing done through
    the original shows in the copy. *)
Definition isolated (h' : heap) (t : ty) (x : tree) (v v' : val) : Prop :=
  view h' t v = Some x ∧ view h' t v' = Some x ∧
  (∀ h2, writes (footprint h' t v') h' h2 → view h2 t v = Some x) ∧
  (∀ h2, writes (footprint h' t v) h' h2 → view h2 t v' = Some x).

Lemma view_writes ls h h2 t v x :
  view h t v = Some x → writes ls h h2 → (∀ l, l ∈ footprint h t v → l ∉ ls) →
  view h2 t v = Some x.
Proof.
  intros Hv Hw Hd. destruct (view_frame h h2 t v) as [-> _]; [|done].
  intros l Hl. apply Hw; [by eapply view_footprint_dom|by apply Hd].
Qed.

Lemma copied_isolated h t v x h' v' :
  view h t v = Some x → copied h t x h' v' → isolated h' t x v v'.
Proof.
  intros Hv (Hs & Hv' & _ & Ht). destruct (view_mono _ _ _ _ _ Hs Hv) as [Hv1 Hf].
  assert (Hd : ∀ l, l ∈ footprint h' t v → l ∉ footprint h' t v').
  { intros l Hl Hl'. destruct (Ht _ Hl') as [Hn _]. rewrite Hf in Hl.
    destruct (view_footprint_dom _ _ _ _ Hv l Hl). congruence. }
  split_and!; [done|done| |]; intros h2 Hw; eapply view_writes; eauto.
  intros l Hl Hl'. by apply (Hd l).
Qed.

Create HintDb copies discriminated.
#[export] Hint Constants Opaque : copies.
#[export] Hint Resolve copies_ret copies_ptr copies_slice copies_map : copies.
#[export] Hint Extern 1 (flat _ = true) => reflexivity : copies.

(** A list entry by entry; a function that follows the shape of its struct. *)
Ltac each_entry tac :=
  repeat (apply Forall_nil_2 || (apply Forall_cons_2; [cbn; tac|])).
Ltac copies_fields := apply copies_struct; each_entry ltac:(solve [auto with copies]).
