(* ===== verification/DeepCopy.v ===== *)
(** * src/api/v1beta1/zz_generated.deepcopy.go

    For each struct [X] of the API, [X_ty] describes its fields, [X_DeepCopyInto] and
    [X_DeepCopy] are its generated functions on the heap of [Heap], and
    [X_DeepCopyObject] is the method of [runtime.Object].

    The cache of the controller runtime hands out an object by [DeepCopyObject]; the
    operator then changes it (labels, status, ...). The theorems: each function gives a
    value that shows the same fields and shares nothing with the original, so that
    neither side sees what is done to the other.

    The types of Kubernetes and their copy functions are the class [ExternalTypes]. *)

From S2P Require Import Prelude Heap.

(** ** Types of other packages *)

Inductive external :=
| ObjectMeta | ListMeta | TypeMeta | Condition | Time | LabelSelector | IntOrString
| Container | EphemeralContainer | PodSecurityContext | Affinity | Toleration
| TopologySpreadConstraint | Volume | RestartPolicy | DNSPolicy | LocalObjectReference
| ResourceRequirements | PersistentVolumeClaim | PersistentVolumeAccessMode | ServicePort
| ServiceType | StatefulSetUpdateStrategy | StatefulSetOrdinals
| StatefulSetPersistentVolumeClaimRetentionPolicy.

(** Their layout, [DeepCopyInto] and [DeepCopy]. *)
Class ExternalTypes := {
  ext_ty : external → ty;
  ext_DeepCopyInto : external → copier;
  ext_DeepCopy : external → copier;
}.

(** Types that are strings, or structs of strings and numbers. *)
Definition plain (e : external) : bool :=
  match e with
  | TypeMeta | IntOrString | RestartPolicy | DNSPolicy | LocalObjectReference
  | PersistentVolumeAccessMode | ServiceType | StatefulSetOrdinals
  | StatefulSetPersistentVolumeClaimRetentionPolicy => true
  | _ => false
  end.

(** What their documentation says: plain types hold no pointers, and the functions
    copy deeply. *)
Class ExternalSpec `{ExternalTypes} := {
  ext_plain : ∀ e, plain e = true → flat (ext_ty e) = true;
  ext_DeepCopyInto_spec : ∀ e, copies (ext_ty e) (ext_DeepCopyInto e);
  ext_DeepCopy_spec : ∀ e, copies (TPtr (ext_ty e)) (ext_DeepCopy e);
}.

(** ** The functions *)

(** [if in == nil { return nil }; out := new(T); in.DeepCopyInto(out); return out] *)
Definition deep_copy (DeepCopyInto : copier) : copier := copy_ptr DeepCopyInto.

(** A [runtime.Object]: nil, or a pointer with its dynamic type. *)
Abbreviation interface := (option (string * val)).

(** [if c := in.DeepCopy(); c != nil { return c }; return nil] *)
Definition deep_copy_object (T : string) (DeepCopy : copier) (v : val) : HeapM interface :=
  c ← DeepCopy v;
  mret match c with VNil => None | _ => Some (T, c) end.

Section functions.
Context `{ExternalTypes}.

Definition RedisAuth_ty : ty :=
  TStruct [("SecretName", TScalar)].

Definition RedisAuth_DeepCopyInto : copier :=
  struct_into [].

Definition RedisAuth_DeepCopy : copier := deep_copy RedisAuth_DeepCopyInto.

Definition PartialPodSpec_ty : ty :=
  TStruct [("Containers", TSlice (ext_ty Container));
           ("InitContainers", TSlice (ext_ty Container));
           ("EphemeralContainers", TSlice (ext_ty EphemeralContainer));
           ("RestartPolicy", ext_ty RestartPolicy);
           ("TerminationGracePeriodSeconds", TPtr TScalar); ("DNSPolicy", ext_ty DNSPolicy);
           ("NodeSelector", TMap TScalar); ("ServiceAccountName", TScalar);
           ("SecurityContext", TPtr (ext_ty PodSecurityContext));
           ("ImagePullSecrets", TSlice (ext_ty LocalObjectReference));
           ("Affinity", TPtr (ext_ty Affinity)); ("Tolerations", TSlice (ext_ty Toleration));
           ("PriorityClassName", TScalar);
           ("TopologySpreadConstraints", TSlice (ext_ty TopologySpreadConstraint));
           ("Volumes", TSlice (ext_ty Volume))].

Definition PartialPodSpec_DeepCopyInto : copier :=
  struct_into [("Containers", copy_slice (ext_DeepCopyInto Container));
               ("InitContainers", copy_slice (ext_DeepCopyInto Container));
               ("EphemeralContainers", copy_slice (ext_DeepCopyInto EphemeralContainer));
               ("TerminationGracePeriodSeconds", copy_ptr mret);
               ("NodeSelector", copy_map mret);
               ("SecurityContext", copy_ptr (ext_DeepCopyInto PodSecurityContext));
               ("ImagePullSecrets", copy_slice mret);
               ("Affinity", copy_ptr (ext_DeepCopyInto Affinity));
               ("Tolerations", copy_slice (ext_DeepCopyInto Toleration));
               ("TopologySpreadConstraints", copy_slice (ext_DeepCopyInto TopologySpreadConstraint));
               ("Volumes", copy_slice (ext_DeepCopyInto Volume))].

Definition PartialPodSpec_DeepCopy : copier := deep_copy PartialPodSpec_DeepCopyInto.

Definition PartialPodTemplateSpec_ty : ty :=
  TStruct [("Metadata", ext_ty ObjectMeta); ("Spec", PartialPodSpec_ty)].

Definition PartialPodTemplateSpec_DeepCopyInto : copier :=
  struct_into [("Metadata", ext_DeepCopyInto ObjectMeta); ("Spec", PartialPodSpec_DeepCopyInto)].

Definition PartialPodTemplateSpec_DeepCopy : copier := deep_copy PartialPodTemplateSpec_DeepCopyInto.

Definition RobinConfigReconciler_ty : ty :=
  TStruct [("IntervalSeconds", TPtr TScalar); ("IntervalOnErrorSeconds", TPtr TScalar);
           ("IntervalOnWaitSeconds", TPtr TScalar)].

Definition RobinConfigReconciler_DeepCopyInto : copier :=
  struct_into [("IntervalSeconds", copy_ptr mret); ("IntervalOnErrorSeconds", copy_ptr mret);
               ("IntervalOnWaitSeconds", copy_ptr mret)].

Definition RobinConfigReconciler_DeepCopy : copier := deep_copy RobinConfigReconciler_DeepCopyInto.

Definition RobinConfigCluster_ty : ty :=
  TStruct [("ConnectionMaxRetries", TPtr TScalar); ("ConnectionBackOffSeconds", TPtr TScalar);
           ("ClusterCommandTimeoutSeconds", TPtr TScalar);
           ("ClusterMeetWaitSeconds", TPtr TScalar); ("RebalanceTimeoutSeconds", TPtr TScalar)].

Definition RobinConfigCluster_DeepCopyInto : copier :=
  struct_into [("ConnectionMaxRetries", copy_ptr mret);
               ("ConnectionBackOffSeconds", copy_ptr mret);
               ("ClusterCommandTimeoutSeconds", copy_ptr mret);
               ("ClusterMeetWaitSeconds", copy_ptr mret);
               ("RebalanceTimeoutSeconds", copy_ptr mret)].

Definition RobinConfigCluster_DeepCopy : copier := deep_copy RobinConfigCluster_DeepCopyInto.

Definition RobinConfigMetrics_ty : ty :=
  TStruct [("CollectionIntervalSeconds", TPtr TScalar); ("RedisInfoKeys", TSlice TScalar);
           ("MetricsLabels", TMap TScalar)].

Definition RobinConfigMetrics_DeepCopyInto : copier :=
  struct_into [("CollectionIntervalSeconds", copy_ptr mret);
               ("RedisInfoKeys", copy_slice mret); ("MetricsLabels", copy_map mret)].

Definition RobinConfigMetrics_DeepCopy : copier := deep_copy RobinConfigMetrics_DeepCopyInto.

Definition RobinConfigProfiling_ty : ty :=
  TStruct [("Enabled", TPtr TScalar)].

Definition RobinConfigProfiling_DeepCopyInto : copier :=
  struct_into [("Enabled", copy_ptr mret)].

Definition RobinConfigProfiling_DeepCopy : copier := deep_copy RobinConfigProfiling_DeepCopyInto.

Definition RobinConfig_ty : ty :=
  TStruct [("Reconciler", TPtr RobinConfigReconciler_ty);
           ("Cluster", TPtr RobinConfigCluster_ty); ("Metrics", TPtr RobinConfigMetrics_ty);
           ("Profiling", TPtr RobinConfigProfiling_ty)].

Definition RobinConfig_DeepCopyInto : copier :=
  struct_into [("Reconciler", copy_ptr RobinConfigReconciler_DeepCopyInto);
               ("Cluster", copy_ptr RobinConfigCluster_DeepCopyInto);
               ("Metrics", copy_ptr RobinConfigMetrics_DeepCopyInto);
               ("Profiling", copy_ptr RobinConfigProfiling_DeepCopyInto)].

Definition RobinConfig_DeepCopy : copier := deep_copy RobinConfig_DeepCopyInto.

Definition RobinSpec_ty : ty :=
  TStruct [("Image", TScalar); ("Resources", TPtr (ext_ty ResourceRequirements));
           ("Template", TPtr PartialPodTemplateSpec_ty); ("Config", TPtr RobinConfig_ty)].

Definition RobinSpec_DeepCopyInto : copier :=
  struct_into [("Resources", copy_ptr (ext_DeepCopyInto ResourceRequirements));
               ("Template", copy_ptr PartialPodTemplateSpec_DeepCopyInto);
               ("Config", copy_ptr RobinConfig_DeepCopyInto)].

Definition RobinSpec_DeepCopy : copier := deep_copy RobinSpec_DeepCopyInto.

Definition Pdb_ty : ty :=
  TStruct [("Enabled", TScalar); ("PdbSizeUnavailable", ext_ty IntOrString);
           ("PdbSizeAvailable", ext_ty IntOrString)].

Definition Pdb_DeepCopyInto : copier :=
  struct_into [("PdbSizeUnavailable", mret); ("PdbSizeAvailable", mret)].

Definition Pdb_DeepCopy : copier := deep_copy Pdb_DeepCopyInto.

Definition PartialStatefulSetSpec_ty : ty :=
  TStruct [("MinReadySeconds", TPtr TScalar); ("Replicas", TPtr TScalar);
           ("Selector", TPtr (ext_ty LabelSelector)); ("ServiceName", TScalar);
           ("Template", TPtr PartialPodTemplateSpec_ty);
           ("UpdateStrategy", TPtr (ext_ty StatefulSetUpdateStrategy));
           ("RevisionHistoryLimit", TPtr TScalar); ("PodManagementPolicy", TScalar);
           ("VolumeClaimTemplates", TSlice (ext_ty PersistentVolumeClaim));
           ("PersistentVolumeClaimRetentionPolicy", TPtr (ext_ty StatefulSetPersistentVolumeClaimRetentionPolicy));
           ("Ordinals", TPtr (ext_ty StatefulSetOrdinals))].

Definition PartialStatefulSetSpec_DeepCopyInto : copier :=
  struct_into [("MinReadySeconds", copy_ptr mret); ("Replicas", copy_ptr mret);
               ("Selector", copy_ptr (ext_DeepCopyInto LabelSelector));
               ("Template", copy_ptr PartialPodTemplateSpec_DeepCopyInto);
               ("UpdateStrategy", copy_ptr (ext_DeepCopyInto StatefulSetUpdateStrategy));
               ("RevisionHistoryLimit", copy_ptr mret);
               ("VolumeClaimTemplates", copy_slice (ext_DeepCopyInto PersistentVolumeClaim));
               ("PersistentVolumeClaimRetentionPolicy", copy_ptr mret);
               ("Ordinals", copy_ptr mret)].

Definition PartialStatefulSetSpec_DeepCopy : copier := deep_copy PartialStatefulSetSpec_DeepCopyInto.

Definition PartialStatefulSet_ty : ty :=
  TStruct [("APIVersion", TScalar); ("Kind", TScalar); ("Metadata", ext_ty ObjectMeta);
           ("Spec", TPtr PartialStatefulSetSpec_ty)].

Definition PartialStatefulSet_DeepCopyInto : copier :=
  struct_into [("Metadata", ext_DeepCopyInto ObjectMeta);
               ("Spec", copy_ptr PartialStatefulSetSpec_DeepCopyInto)].

Definition PartialStatefulSet_DeepCopy : copier := deep_copy PartialStatefulSet_DeepCopyInto.

Definition PartialServiceSpec_ty : ty :=
  TStruct [("Ports", TSlice (ext_ty ServicePort)); ("Selector", TMap TScalar);
           ("ClusterIP", TScalar); ("Type", ext_ty ServiceType);
           ("PublishNotReadyAddresses", TScalar)].

Definition PartialServiceSpec_DeepCopyInto : copier :=
  struct_into [("Ports", copy_slice (ext_DeepCopyInto ServicePort)); ("Selector", copy_map mret)].

Definition PartialServiceSpec_DeepCopy : copier := deep_copy PartialServiceSpec_DeepCopyInto.

Definition PartialService_ty : ty :=
  TStruct [("APIVersion", TScalar); ("Kind", TScalar); ("Metadata", ext_ty ObjectMeta);
           ("Spec", TPtr PartialServiceSpec_ty)].

Definition PartialService_DeepCopyInto : copier :=
  struct_into [("Metadata", ext_DeepCopyInto ObjectMeta);
               ("Spec", copy_ptr PartialServiceSpec_DeepCopyInto)].

Definition PartialService_DeepCopy : copier := deep_copy PartialService_DeepCopyInto.

Definition RedkeyOverrideSpec_ty : ty :=
  TStruct [("StatefulSet", TPtr PartialStatefulSet_ty); ("Service", TPtr PartialService_ty)].

Definition RedkeyOverrideSpec_DeepCopyInto : copier :=
  struct_into [("StatefulSet", copy_ptr PartialStatefulSet_DeepCopyInto);
               ("Service", copy_ptr PartialService_DeepCopyInto)].

Definition RedkeyOverrideSpec_DeepCopy : copier := deep_copy RedkeyOverrideSpec_DeepCopyInto.

Definition RedkeySpec_ty : ty :=
  TStruct [("Auth", RedisAuth_ty); ("Version", TScalar); ("Mode", TScalar);
           ("Primaries", TScalar); ("ReplicasPerPrimary", TScalar); ("Image", TScalar);
           ("DeletePVC", TPtr TScalar); ("Backup", TScalar); ("Robin", RobinSpec_ty);
           ("SkipIfSuperseded", TScalar); ("PurgeKeysOnRebalance", TPtr TScalar);
           ("Config", TScalar); ("Resources", TPtr (ext_ty ResourceRequirements));
           ("Labels", TPtr (TMap TScalar)); ("Annotations", TPtr (TMap TScalar));
           ("Pdb", Pdb_ty); ("Override", TPtr RedkeyOverrideSpec_ty); ("Ephemeral", TScalar);
           ("Storage", TScalar); ("StorageClassName", TScalar);
           ("AccessModes", TSlice (ext_ty PersistentVolumeAccessMode))].

Definition RedkeySpec_DeepCopyInto : copier :=
  struct_into [("Auth", mret); ("DeletePVC", copy_ptr mret); ("Robin", RobinSpec_DeepCopyInto);
               ("PurgeKeysOnRebalance", copy_ptr mret);
               ("Resources", copy_ptr (ext_DeepCopyInto ResourceRequirements));
               ("Labels", copy_ptr (copy_map mret)); ("Annotations", copy_ptr (copy_map mret));
               ("Pdb", mret); ("Override", copy_ptr RedkeyOverrideSpec_DeepCopyInto);
               ("AccessModes", copy_slice mret)].

Definition RedkeySpec_DeepCopy : copier := deep_copy RedkeySpec_DeepCopyInto.

Definition RedkeySubstatus_ty : ty :=
  TStruct [("Status", TScalar); ("UpgradingPartition", TScalar)].

Definition RedkeySubstatus_DeepCopyInto : copier :=
  struct_into [].

Definition RedkeySubstatus_DeepCopy : copier := deep_copy RedkeySubstatus_DeepCopyInto.

Definition RedisNode_ty : ty :=
  TStruct [("Role", TScalar); ("IP", TScalar); ("ReplicationStatus", TScalar)].

Definition RedisNode_DeepCopyInto : copier :=
  struct_into [].

Definition RedisNode_DeepCopy : copier := deep_copy RedisNode_DeepCopyInto.

Definition RedkeyStatus_ty : ty :=
  TStruct [("Replicas", TScalar); ("Phase", TScalar); ("Status", TScalar);
           ("Substatus", RedkeySubstatus_ty); ("Nodes", TMap (TPtr RedisNode_ty));
           ("Conditions", TSlice (ext_ty Condition)); ("LastUpdatedAt", TPtr (ext_ty Time));
           ("ObservedGeneration", TScalar); ("LastAppliedPrimaries", TScalar);
           ("LastAppliedReplicasPerPrimary", TScalar)].

Definition RedkeyStatus_DeepCopyInto : copier :=
  struct_into [("Substatus", mret); ("Nodes", copy_map (copy_ptr mret));
               ("Conditions", copy_slice (ext_DeepCopyInto Condition));
               ("LastUpdatedAt", ext_DeepCopy Time)].

Definition RedkeyStatus_DeepCopy : copier := deep_copy RedkeyStatus_DeepCopyInto.

Definition Redkey_ty : ty :=
  TStruct [("TypeMeta", ext_ty TypeMeta); ("ObjectMeta", ext_ty ObjectMeta);
           ("Spec", RedkeySpec_ty); ("Status", RedkeyStatus_ty)].

Definition Redkey_DeepCopyInto : copier :=
  struct_into [("TypeMeta", mret); ("ObjectMeta", ext_DeepCopyInto ObjectMeta);
               ("Spec", RedkeySpec_DeepCopyInto); ("Status", RedkeyStatus_DeepCopyInto)].

Definition Redkey_DeepCopy : copier := deep_copy Redkey_DeepCopyInto.

Definition Redkey_DeepCopyObject : val → HeapM interface :=
  deep_copy_object "Redkey" Redkey_DeepCopy.

Definition RedkeyList_ty : ty :=
  TStruct [("TypeMeta", ext_ty TypeMeta); ("ListMeta", ext_ty ListMeta);
           ("Items", TSlice Redkey_ty)].

Definition RedkeyList_DeepCopyInto : copier :=
  struct_into [("TypeMeta", mret); ("ListMeta", ext_DeepCopyInto ListMeta);
               ("Items", copy_slice Redkey_DeepCopyInto)].

Definition RedkeyList_DeepCopy : copier := deep_copy RedkeyList_DeepCopyInto.

Definition RedkeyList_DeepCopyObject : val → HeapM interface :=
  deep_copy_object "RedkeyList" RedkeyList_DeepCopy.

Definition RedkeyConfigSpec_ty : ty :=
  TStruct [("Sequence", TScalar); ("SkipIfSuperseded", TScalar); ("Mode", TScalar);
           ("Primaries", TScalar); ("ReplicasPerPrimary", TScalar); ("Ephemeral", TScalar);
           ("Storage", TScalar); ("StorageClassName", TScalar); ("Image", TScalar);
           ("Version", TScalar); ("RedisConfig", TScalar);
           ("Resources", TPtr (ext_ty ResourceRequirements)); ("Auth", RedisAuth_ty);
           ("Labels", TPtr (TMap TScalar)); ("Annotations", TPtr (TMap TScalar));
           ("DeletePVC", TPtr TScalar); ("PurgeKeysOnRebalance", TPtr TScalar);
           ("Override", TPtr RedkeyOverrideSpec_ty); ("Pdb", Pdb_ty);
           ("RobinConfig", TPtr RobinConfig_ty)].

Definition RedkeyConfigSpec_DeepCopyInto : copier :=
  struct_into [("Resources", copy_ptr (ext_DeepCopyInto ResourceRequirements)); ("Auth", mret);
               ("Labels", copy_ptr (copy_map mret)); ("Annotations", copy_ptr (copy_map mret));
               ("DeletePVC", copy_ptr mret); ("PurgeKeysOnRebalance", copy_ptr mret);
               ("Override", copy_ptr RedkeyOverrideSpec_DeepCopyInto); ("Pdb", mret);
               ("RobinConfig", copy_ptr RobinConfig_DeepCopyInto)].

Definition RedkeyConfigSpec_DeepCopy : copier := deep_copy RedkeyConfigSpec_DeepCopyInto.

Definition RedkeyConfigStatus_ty : ty :=
  TStruct [("ConfigPhase", TScalar); ("Status", TScalar); ("Substatus", RedkeySubstatus_ty);
           ("Nodes", TMap (TPtr RedisNode_ty)); ("Conditions", TSlice (ext_ty Condition));
           ("LastUpdatedAt", TPtr (ext_ty Time)); ("ObservedGeneration", TScalar)].

Definition RedkeyConfigStatus_DeepCopyInto : copier :=
  struct_into [("Substatus", mret); ("Nodes", copy_map (copy_ptr mret));
               ("Conditions", copy_slice (ext_DeepCopyInto Condition));
               ("LastUpdatedAt", ext_DeepCopy Time)].

Definition RedkeyConfigStatus_DeepCopy : copier := deep_copy RedkeyConfigStatus_DeepCopyInto.

Definition RedkeyConfig_ty : ty :=
  TStruct [("TypeMeta", ext_ty TypeMeta); ("ObjectMeta", ext_ty ObjectMeta);
           ("Spec", RedkeyConfigSpec_ty); ("Status", RedkeyConfigStatus_ty)].

Definition RedkeyConfig_DeepCopyInto : copier :=
  struct_into [("TypeMeta", mret); ("ObjectMeta", ext_DeepCopyInto ObjectMeta);
               ("Spec", RedkeyConfigSpec_DeepCopyInto);
               ("Status", RedkeyConfigStatus_DeepCopyInto)].

Definition RedkeyConfig_DeepCopy : copier := deep_copy RedkeyConfig_DeepCopyInto.

Definition RedkeyConfig_DeepCopyObject : val → HeapM interface :=
  deep_copy_object "RedkeyConfig" RedkeyConfig_DeepCopy.

Definition RedkeyConfigList_ty : ty :=
  TStruct [("TypeMeta", ext_ty TypeMeta); ("ListMeta", ext_ty ListMeta);
           ("Items", TSlice RedkeyConfig_ty)].

Definition RedkeyConfigList_DeepCopyInto : copier :=
  struct_into [("TypeMeta", mret); ("ListMeta", ext_DeepCopyInto ListMeta);
               ("Items", copy_slice RedkeyConfig_DeepCopyInto)].

Definition RedkeyConfigList_DeepCopy : copier := deep_copy RedkeyConfigList_DeepCopyInto.

Definition RedkeyConfigList_DeepCopyObject : val → HeapM interface :=
  deep_copy_object "RedkeyConfigList" RedkeyConfigList_DeepCopy.

(** The generated functions with the types they are for. *)
Definition generated : list (ty * copier * copier) :=
  [(RedisAuth_ty, RedisAuth_DeepCopyInto, RedisAuth_DeepCopy);
   (PartialPodSpec_ty, PartialPodSpec_DeepCopyInto, PartialPodSpec_DeepCopy);
   (PartialPodTemplateSpec_ty, PartialPodTemplateSpec_DeepCopyInto, PartialPodTemplateSpec_DeepCopy);
   (RobinConfigReconciler_ty, RobinConfigReconciler_DeepCopyInto, RobinConfigReconciler_DeepCopy);
   (RobinConfigCluster_ty, RobinConfigCluster_DeepCopyInto, RobinConfigCluster_DeepCopy);
   (RobinConfigMetrics_ty, RobinConfigMetrics_DeepCopyInto, RobinConfigMetrics_DeepCopy);
   (RobinConfigProfiling_ty, RobinConfigProfiling_DeepCopyInto, RobinConfigProfiling_DeepCopy);
   (RobinConfig_ty, RobinConfig_DeepCopyInto, RobinConfig_DeepCopy);
   (RobinSpec_ty, RobinSpec_DeepCopyInto, RobinSpec_DeepCopy);
   (Pdb_ty, Pdb_DeepCopyInto, Pdb_DeepCopy);
   (PartialStatefulSetSpec_ty, PartialStatefulSetSpec_DeepCopyInto, PartialStatefulSetSpec_DeepCopy);
   (PartialStatefulSet_ty, PartialStatefulSet_DeepCopyInto, PartialStatefulSet_DeepCopy);
   (PartialServiceSpec_ty, PartialServiceSpec_DeepCopyInto, PartialServiceSpec_DeepCopy);
   (PartialService_ty, PartialService_DeepCopyInto, PartialService_DeepCopy);
   (RedkeyOverrideSpec_ty, RedkeyOverrideSpec_DeepCopyInto, RedkeyOverrideSpec_DeepCopy);
   (RedkeySpec_ty, RedkeySpec_DeepCopyInto, RedkeySpec_DeepCopy);
   (RedkeySubstatus_ty, RedkeySubstatus_DeepCopyInto, RedkeySubstatus_DeepCopy);
   (RedisNode_ty, RedisNode_DeepCopyInto, RedisNode_DeepCopy);
   (RedkeyStatus_ty, RedkeyStatus_DeepCopyInto, RedkeyStatus_DeepCopy);
   (Redkey_ty, Redkey_DeepCopyInto, Redkey_DeepCopy);
   (RedkeyList_ty, RedkeyList_DeepCopyInto, RedkeyList_DeepCopy);
   (RedkeyConfigSpec_ty, RedkeyConfigSpec_DeepCopyInto, RedkeyConfigSpec_DeepCopy);
   (RedkeyConfigStatus_ty, RedkeyConfigStatus_DeepCopyInto, RedkeyConfigStatus_DeepCopy);
   (RedkeyConfig_ty, RedkeyConfig_DeepCopyInto, RedkeyConfig_DeepCopy);
   (RedkeyConfigList_ty, RedkeyConfigList_DeepCopyInto, RedkeyConfigList_DeepCopy)].

(** The kinds registered in the scheme, with [DeepCopyObject]. *)
Definition objects : list (string * ty * (val → HeapM interface)) :=
  [("Redkey", Redkey_ty, Redkey_DeepCopyObject);
   ("RedkeyList", RedkeyList_ty, RedkeyList_DeepCopyObject);
   ("RedkeyConfig", RedkeyConfig_ty, RedkeyConfig_DeepCopyObject);
   ("RedkeyConfigList", RedkeyConfigList_ty, RedkeyConfigList_DeepCopyObject)].

(** ** Every function copies deeply *)

Context `{!ExternalSpec}.

Lemma copies_external e : copies (ext_ty e) (ext_DeepCopyInto e).
Proof. apply ext_DeepCopyInto_spec. Qed.

Lemma copies_external_ptr e : copies (TPtr (ext_ty e)) (ext_DeepCopy e).
Proof. apply ext_DeepCopy_spec. Qed.

Lemma copies_plain e : plain e = true → copies (ext_ty e) mret.
Proof. intros. by apply copies_ret, ext_plain. Qed.

Hint Resolve copies_external copies_external_ptr copies_plain : copies.

(** [Pdb] is assigned as a whole in the specs. *)
Lemma Pdb_plain : copies Pdb_ty mret.
Proof. apply copies_ret. cbn. by rewrite ext_plain. Qed.

Hint Resolve Pdb_plain : copies.

Lemma RedisAuth_copies : copies RedisAuth_ty RedisAuth_DeepCopyInto.
Proof. copies_fields. Qed.
Hint Resolve RedisAuth_copies : copies.

Lemma PartialPodSpec_copies : copies PartialPodSpec_ty PartialPodSpec_DeepCopyInto.
Proof. copies_fields. Qed.
Hint Resolve PartialPodSpec_copies : copies.

Lemma PartialPodTemplateSpec_copies : copies PartialPodTemplateSpec_ty PartialPodTemplateSpec_DeepCopyInto.
Proof. copies_fields. Qed.
Hint Resolve PartialPodTemplateSpec_copies : copies.

Lemma RobinConfigReconciler_copies : copies RobinConfigReconciler_ty RobinConfigReconciler_DeepCopyInto.
Proof. copies_fields. Qed.
Hint Resolve RobinConfigReconciler_copies : copies.

Lemma RobinConfigCluster_copies : copies RobinConfigCluster_ty RobinConfigCluster_DeepCopyInto.
Proof. copies_fields. Qed.
Hint Resolve RobinConfigCluster_copies : copies.

Lemma RobinConfigMetrics_copies : copies RobinConfigMetrics_ty RobinConfigMetrics_DeepCopyInto.
Proof. copies_fields. Qed.
Hint Resolve RobinConfigMetrics_copies : copies.

Lemma RobinConfigProfiling_copies : copies RobinConfigProfiling_ty RobinConfigProfiling_DeepCopyInto.
Proof. copies_fields. Qed.
Hint Resolve RobinConfigProfiling_copies : copies.

Lemma RobinConfig_copies : copies RobinConfig_ty RobinConfig_DeepCopyInto.
Proof. copies_fields. Qed.
Hint Resolve RobinConfig_copies : copies.

Lemma RobinSpec_copies : copies RobinSpec_ty RobinSpec_DeepCopyInto.
Proof. copies_fields. Qed.
Hint Resolve RobinSpec_copies : copies.

Lemma Pdb_copies : copies Pdb_ty Pdb_DeepCopyInto.
Proof. copies_fields. Qed.
Hint Resolve Pdb_copies : copies.

Lemma PartialStatefulSetSpec_copies : copies PartialStatefulSetSpec_ty PartialStatefulSetSpec_DeepCopyInto.
Proof. copies_fields. Qed.
Hint Resolve PartialStatefulSetSpec_copies : copies.

Lemma PartialStatefulSet_copies : copies PartialStatefulSet_ty PartialStatefulSet_DeepCopyInto.
Proof. copies_fields. Qed.
Hint Resolve PartialStatefulSet_copies : copies.

Lemma PartialServiceSpec_copies : copies PartialServiceSpec_ty PartialServiceSpec_DeepCopyInto.
Proof. copies_fields. Qed.
Hint Resolve PartialServiceSpec_copies : copies.

Lemma PartialService_copies : copies PartialService_ty PartialService_DeepCopyInto.
Proof. copies_fields. Qed.
Hint Resolve PartialService_copies : copies.

Lemma RedkeyOverrideSpec_copies : copies RedkeyOverrideSpec_ty RedkeyOverrideSpec_DeepCopyInto.
Proof. copies_fields. Qed.
Hint Resolve RedkeyOverrideSpec_copies : copies.

Lemma RedkeySpec_copies : copies RedkeySpec_ty RedkeySpec_DeepCopyInto.
Proof. copies_fields. Qed.
Hint Resolve RedkeySpec_copies : copies.

Lemma RedkeySubstatus_copies : copies RedkeySubstatus_ty RedkeySubstatus_DeepCopyInto.
Proof. copies_fields. Qed.
Hint Resolve RedkeySubstatus_copies : copies.

Lemma RedisNode_copies : copies RedisNode_ty RedisNode_DeepCopyInto.
Proof. copies_fields. Qed.
Hint Resolve RedisNode_copies : copies.

Lemma RedkeyStatus_copies : copies RedkeyStatus_ty RedkeyStatus_DeepCopyInto.
Proof. copies_fields. Qed.
Hint Resolve RedkeyStatus_copies : copies.

Lemma Redkey_copies : copies Redkey_ty Redkey_DeepCopyInto.
Proof. copies_fields. Qed.
Hint Resolve Redkey_copies : copies.

Lemma RedkeyList_copies : copies RedkeyList_ty RedkeyList_DeepCopyInto.
Proof. copies_fields. Qed.
Hint Resolve RedkeyList_copies : copies.

Lemma RedkeyConfigSpec_copies : copies RedkeyConfigSpec_ty RedkeyConfigSpec_DeepCopyInto.
Proof. copies_fields. Qed.
Hint Resolve RedkeyConfigSpec_copies : copies.

Lemma RedkeyConfigStatus_copies : copies RedkeyConfigStatus_ty RedkeyConfigStatus_DeepCopyInto.
Proof. copies_fields. Qed.
Hint Resolve RedkeyConfigStatus_copies : copies.

Lemma RedkeyConfig_copies : copies RedkeyConfig_ty RedkeyConfig_DeepCopyInto.
Proof. copies_fields. Qed.
Hint Resolve RedkeyConfig_copies : copies.

Lemma RedkeyConfigList_copies : copies RedkeyConfigList_ty RedkeyConfigList_DeepCopyInto.
Proof. copies_fields. Qed.
Hint Resolve RedkeyConfigList_copies : copies.

Lemma deep_copies t into copy :
  copies t into → copy = deep_copy into → copies t into ∧ copies (TPtr t) copy.
Proof. intros Hc ->. split; [done|]. by apply copies_ptr. Qed.

(** C14: every generated function is total on well-typed values and copies deeply.
    For each of the 25 structs, in any heap in which the argument is a well-typed
    value, [DeepCopyInto] and [DeepCopy] return (they do not panic, nil pointers,
    slices and maps included) a well-typed value that shows the same fields, whose
    every pointer, slice and map is newly allocated, and leave what was there as it
    was. *)
Theorem DeepCopy_copies :
  Forall (λ '(t, DeepCopyInto, DeepCopy), copies t DeepCopyInto ∧ copies (TPtr t) DeepCopy)
    generated.
Proof.
  unfold generated.
  each_entry ltac:(apply deep_copies; [solve [auto with copies]|reflexivity]).
Qed.

Lemma objects_copy :
  Forall (λ '(T, t, f), ∃ into, copies t into ∧ f = deep_copy_object T (deep_copy into)) objects.
Proof.
  unfold objects. each_entry ltac:(eexists; split; [|reflexivity]; solve [auto with copies]).
Qed.

Lemma deep_copy_object_run T copy v h h' c :
  copy v h = Some (h', c) →
  deep_copy_object T copy v h =
  Some (h', match c with VNil => None | _ => Some (T, c) end).
Proof. unfold deep_copy_object, mbind, HeapM_bind. by intros ->. Qed.

Lemma view_ptr_inv h t l x : view h (TPtr t) (VPtr l) = Some x → ∃ y, x = Ref y.
Proof.
  cbn. destruct (h !! l) as [[w| |]|]; try done. intros (y & _ & ->)%fmap_Some. by eexists.
Qed.

(** C13: an object handed out by [DeepCopyObject] and its original do not see each
    other's changes. For the four kinds of the scheme: the object given out is of the
    same kind and shows the same fields; any run that writes through it (to what it
    leads to, or to memory allocated later) leaves the original as it was, and any
    run that writes through the original leaves the object as it was. *)
Theorem DeepCopyObject_isolated T t f h l x :
  (T, t, f) ∈ objects → view h (TPtr t) (VPtr l) = Some x →
  ∃ h' l', f (VPtr l) h = Some (h', Some (T, VPtr l')) ∧
           isolated h' (TPtr t) x (VPtr l) (VPtr l').
Proof.
  intros Hin Hv. pose proof objects_copy as Hall. rewrite Forall_forall in Hall.
  destruct (Hall _ Hin) as (into & Hc & ->).
  destruct (copies_ptr _ _ Hc h _ _ Hv) as (h' & v' & Hr & Hcp).
  rewrite (deep_copy_object_run T (deep_copy into) _ _ _ _ Hr).
  assert (∃ l', v' = VPtr l') as [l' ->].
  { destruct Hcp as (_ & Hv' & _). apply view_ptr_inv in Hv as [y ->].
    destruct v'; try done. by eexists. }
  exists h', l'. split; [done|]. by eapply copied_isolated.
Qed.

(** [DeepCopyObject] of a nil pointer is the nil interface, not an interface that
    holds a nil pointer, for the four kinds of the scheme; nothing is allocated. *)
Theorem DeepCopyObject_nil T t f h : (T, t, f) ∈ objects → f VNil h = Some (h, None).
Proof.
  intros Hin. pose proof objects_copy as Hall. rewrite Forall_forall in Hall.
  by destruct (Hall _ Hin) as (into & _ & ->).
Qed.
End functions.

(** ** A concrete instance and witnesses *)

Module Concrete.

(** Plain types as one scalar; the others as a struct with a map. *)
#[export] Instance concrete : ExternalTypes := {
  ext_ty e := if plain e then TScalar else TStruct [("data", TMap TScalar)];
  ext_DeepCopyInto e := if plain e then mret else struct_into [("data", copy_map mret)];
  ext_DeepCopy e := copy_ptr (if plain e then mret else struct_into [("data", copy_map mret)]);
}.

Lemma concrete_copies e : copies (ext_ty e) (ext_DeepCopyInto e).
Proof.
  cbn. destruct (plain e); [auto with copies|]. copies_fields.
Qed.

#[export] Instance concrete_spec : ExternalSpec.
Proof.
  split.
  - intros e He. cbn. by rewrite He.
  - apply concrete_copies.
  - intros e. apply copies_ptr, concrete_copies.
Defined.

Definition str (s : string) : val := VScalar (SStr s).
Definition nil_data : val := VStruct [("data", VNil)].

(** A Redkey status with one node, its map at 2 and the node at 3. *)
Definition status : val :=
  VStruct [("Replicas", VScalar (SInt 3)); ("Phase", str "Ready"); ("Status", str "Ready");
           ("Substatus", VStruct [("Status", str ""); ("UpgradingPartition", VScalar (SInt 0))]);
           ("Nodes", VMap 2); ("Conditions", VNil); ("LastUpdatedAt", VNil);
           ("ObservedGeneration", VScalar (SInt 1)); ("LastAppliedPrimaries", VScalar (SInt 3));
           ("LastAppliedReplicasPerPrimary", VScalar (SInt 0))].

Definition node (role : string) : val :=
  VStruct [("Role", str role); ("IP", str "10.0.0.1"); ("ReplicationStatus", str "")].

Definition spec : val :=
  VStruct [("Auth", VStruct [("SecretName", str "")]); ("Version", str "");
           ("Mode", str "cluster"); ("Primaries", VScalar (SInt 3));
           ("ReplicasPerPrimary", VScalar (SInt 0)); ("Image", str "redis"); ("DeletePVC", VNil);
           ("Backup", VScalar (SBool false));
           ("Robin", VStruct [("Image", str "robin"); ("Resources", VNil); ("Template", VNil);
                              ("Config", VNil)]);
           ("SkipIfSuperseded", VScalar (SBool false)); ("PurgeKeysOnRebalance", VNil);
           ("Config", str ""); ("Resources", VNil); ("Labels", VPtr 4); ("Annotations", VNil);
           ("Pdb", VStruct [("Enabled", VScalar (SBool false)); ("PdbSizeUnavailable", str "");
                            ("PdbSizeAvailable", str "")]);
           ("Override", VNil); ("Ephemeral", VScalar (SBool true)); ("Storage", str "");
           ("StorageClassName", str ""); ("AccessModes", VSlice 6 0 1)].

Definition memory : heap :=
  list_to_map
    [(1%positive, CVar (VStruct [("TypeMeta", str "Redkey"); ("ObjectMeta", nil_data);
                                 ("Spec", spec); ("Status", status)]));
     (2%positive, CMap {[ "node-0" := VPtr 3 ]}); (3%positive, CVar (node "primary"));
     (4%positive, CVar (VMap 5)); (5%positive, CMap {[ "team" := str "a" ]});
     (6%positive, CArr [str "ReadWriteOnce"; str "ReadOnlyMany"])].

Lemma DeepCopy_copies_witness :
  Forall (λ '(t, DeepCopyInto, DeepCopy), copies t DeepCopyInto ∧ copies (TPtr t) DeepCopy)
    generated.
Proof. exact DeepCopy_copies. Defined.

Lemma DeepCopyObject_isolated_witness :
  ∃ x h' l', view memory (TPtr Redkey_ty) (VPtr 1) = Some x ∧
    Redkey_DeepCopyObject (VPtr 1) memory = Some (h', Some ("Redkey", VPtr l')) ∧
    isolated h' (TPtr Redkey_ty) x (VPtr 1) (VPtr l').
Proof.
  destruct (view memory (TPtr Redkey_ty) (VPtr 1)) as [x|] eqn:E; [|by vm_compute in E].
  destruct (DeepCopyObject_isolated "Redkey" Redkey_ty Redkey_DeepCopyObject memory 1 x)
    as (h' & l' & Hr & Hi); [by left|exact E|].
  exists x, h', l'. split; [reflexivity|]. split; [exact Hr|exact Hi].
Defined.

Lemma DeepCopyObject_nil_witness : Redkey_DeepCopyObject VNil memory = Some (memory, None).
Proof. apply (DeepCopyObject_nil "Redkey" Redkey_ty). by left. Defined.

(** What the statement for a map is for: after [*out = *in] alone, a change made to a
    node through the copy of a status is seen in the original. *)
Example assignment_shares :
  ∃ v', struct_into [("Substatus", mret)] status memory = Some (memory, v') ∧
        view (<[3%positive := CVar (node "replica")]> memory) RedkeyStatus_ty status =
        view (<[3%positive := CVar (node "replica")]> memory) RedkeyStatus_ty v' ∧
        view (<[3%positive := CVar (node "replica")]> memory) RedkeyStatus_ty status ≠
        view memory RedkeyStatus_ty status.
Proof. eexists. split; [by vm_compute|]. split; [by vm_compute|]. by vm_compute. Qed.

End Concrete.
