(* ===== verification/Startup.v ===== *)
(** * Start-up of the process (src/cmd/main.go, src/api/v1beta1/groupversion_info.go,
    [init] of src/internal/controller/metrics.go)

    The initialisers of the packages, in the order of their imports, and [main] after the flags are parsed, as a
    program of calls on other code: schemes, certificate watchers, the manager, the
    controller, the checks, the pprof server. Any call may fail, and whether it does may
    depend on the calls before it; the process panics or exits where the source has it.
    What the calls are given is computed in [MainCmd] and [Reconciler]. Log output and
    flag parsing are left out. *)

From S2P Require Import Prelude Metrics ScaleZero Reconciler MainCmd.
#[local] Open Scope Z_scope.

(** ** Definitions *)

(** [GroupVersion] *)
Record GroupVersionT := mkGroupVersion { Group : string; Version : string }.

Definition GroupVersion : GroupVersionT := mkGroupVersion "redkey.inditex.dev" "v1beta1".

(** [SchemeBuilder.Register] in the [init()] of redkey_types.go and of
    redkeyconfig_types.go. *)
Definition redkey_kinds : list string := ["Redkey"; "RedkeyList"].
Definition config_kinds : list string := ["RedkeyConfig"; "RedkeyConfigList"].

(** [SchemeBuilder] once all files are initialised, in the order of their names: its
    group version and the kinds registered. *)
Definition SchemeBuilder : GroupVersionT * list string :=
  (GroupVersion, redkey_kinds ++ config_kinds).

(** [ctrl.Options] as [main] fills them. *)
Record ManagerOptions := mkManagerOptions {
  mo_Metrics : MetricsOptions; mo_WebhookTLSOpts : list tls_opt;
  mo_HealthProbeBindAddress : string; mo_LeaderElection : bool; mo_LeaderElectionID : string;
  mo_DefaultNamespaces : option (gset string); mo_UserAgent : string }.

(** A collector as it is registered: its name, its constant and its variable labels, and
    its value if it has been set. *)
Record collector := mkCollector {
  col_Name : string; col_ConstLabels : list (string * string); col_Labels : list string;
  col_Value : option Z }.

(** The collectors of src/internal/controller/metrics.go. *)
Definition of_gauge (v : gauge_vec) : collector :=
  mkCollector (gauge_name v) [] (gauge_labels v) None.
Definition of_counter (v : counter_vec) : collector :=
  mkCollector (counter_name v) [] (counter_labels v) None.
Definition of_histogram (v : histogram_vec) : collector :=
  mkCollector (histogram_name v) [] (histogram_labels v) None.

(** The goroutines that [main] starts. *)
Inductive goroutine :=
| servePprof (addr : string) (handlers : list (string * string)) (ReadHeaderTimeout : Z)
| shutdownPprof (timeout : Z).

Inductive call :=
| AddClientGoScheme
| AddToScheme (gv : GroupVersionT) (kinds : list string)
| MustRegister (collectors : list collector)
| NewCertWatcher (cert key : string)
| GetConfigOrDie
| NewManager (o : ManagerOptions)
| CompleteController (s : ControllerSetup) (ResyncInterval : Z)
| AddCertWatcher (cert key : string)
| AddHealthzCheck (name : string)
| AddReadyzCheck (name : string)
| SetupSignalHandler
| GoRoutine (g : goroutine)
| Start.

(** How the process stands after a part of it: it goes on with a value, or it has ended
    with a status; an uncaught panic ends it with 2. *)
Inductive outcome (A : Type) := Cont (a : A) | Exit (status : Z).
Arguments Cont {A} a.
Arguments Exit {A} status.

(** A part of the process, given the calls made so far. *)
Definition MainM (A : Type) : Type := list call → list call * outcome A.

#[export] Instance MainM_ret : MRet MainM := λ A a tr, (tr, Cont a).
#[export] Instance MainM_bind : MBind MainM := λ A B f m tr,
  match m tr with
  | (tr', Cont a) => f a tr'
  | (tr', Exit st) => (tr', Exit st)
  end.

Section startup.
(** [fails tr c]: after the calls [tr], [c] returns an error (or panics). *)
Variable fails : list call → call → bool.
(** [goruntime.Version()] *)
Variable go_version : string.
(** [filepath.Join(dir, name)] *)
Variable Join_path : string → string → string.

(** [if err := c; err != nil { os.Exit(status) }] *)
Definition or_exit (status : Z) (c : call) : MainM unit := λ tr,
  (tr ++ [c], if fails tr c then Exit status else Cont tt).

(** A call that has no error to check. *)
Definition perform (c : call) : MainM unit := λ tr, (tr ++ [c], Cont tt).

Definition panics : Z := 2.

(** [registerBuildInfo()] *)
Definition registerBuildInfo : MainM unit :=
  or_exit panics (MustRegister [mkCollector "redkey_operator_build_info"
    [("version", USER_AGENT_VERSION); ("go_version", go_version)] [] (Some 1)]).

(** [init()] of package controller; [MustRegister] panics at the first collector that
    cannot be registered. *)
Definition controller_init : MainM unit :=
  or_exit panics (MustRegister
    [of_gauge redkeyPhase; of_gauge redkeyConfigPhase; of_histogram redkeyOperationDuration;
     of_counter redkeyOperationTotal; of_gauge redkeyOperationInProgress;
     of_counter redkeyReconcileStageErrors; of_counter redkeyConfigCreations;
     of_counter redkeyCleanupDeletedConfigs; of_counter redkeyRobinDeploymentChanges;
     of_histogram redkeyTimeToReady]).

(** [init()] of package main. *)
Definition init : MainM unit :=
  or_exit panics AddClientGoScheme;;
  or_exit panics (AddToScheme SchemeBuilder.1 SchemeBuilder.2);;
  registerBuildInfo.

(** A certificate watcher, if a directory is configured. *)
Definition cert_watcher (path name key : string) : MainM (option (string * string)) :=
  if bool_decide (path = "") then mret None
  else
    let cert := Join_path path name in
    let key := Join_path path key in
    or_exit 1 (NewCertWatcher cert key);;
    mret (Some (cert, key)).

(** [append(opts, ...)]: the slice appended to has no spare capacity, so that the two
    servers do not overwrite each other's option, which takes the certificate from the
    watcher. *)
Definition watched (opts : list tls_opt) (w : option (string * string)) : list tls_opt :=
  match w with Some (cert, key) => opts ++ [certificateFrom cert key] | None => opts end.

(** [ctrl.Options{...}] and [restConfig.UserAgent] *)
Definition manager_options (f : Flags) (webhookW metricsW : option (string * string))
    : ManagerOptions :=
  mkManagerOptions
    (mkMetricsOptions (metricsAddr f) (secureMetrics f) (watched (tlsOpts f) metricsW)
       (secureMetrics f))
    (watched (tlsOpts f) webhookW) (probeAddr f) (enableLeaderElection f) "ad09f20a.inditex.dev"
    (cacheNamespaces (watchNamespaces f)) userAgent.

(** [if w != nil { mgr.Add(w) }] *)
Definition add_watcher (w : option (string * string)) : MainM unit :=
  match w with Some (cert, key) => or_exit 1 (AddCertWatcher cert key) | None => mret tt end.

Definition pprof_handlers : list (string * string) :=
  [("/debug/pprof/", "Index"); ("/debug/pprof/cmdline", "Cmdline");
   ("/debug/pprof/profile", "Profile"); ("/debug/pprof/symbol", "Symbol");
   ("/debug/pprof/trace", "Trace")].

Definition second : Z := 1000000000.

(** The pprof server: it is served and shut down by goroutines of its own, so that
    [main] does not see it fail. *)
Definition start_pprof (f : Flags) : MainM unit :=
  if enablePprof f
  then perform (GoRoutine (servePprof (pprofAddr f) pprof_handlers (10 * second)));;
       perform (GoRoutine (shutdownPprof (5 * second)))
  else mret tt.

(** [main()] after [flag.Parse()]; it returns when the manager has stopped. *)
Definition main (f : Flags) : MainM unit :=
  webhookW ← cert_watcher (webhookCertPath f) (webhookCertName f) (webhookCertKey f);
  metricsW ← cert_watcher (metricsCertPath f) (metricsCertName f) (metricsCertKey f);
  or_exit 1 GetConfigOrDie;;
  or_exit 1 (NewManager (manager_options f webhookW metricsW));;
  or_exit 1 (CompleteController (SetupWithManager (reconciler_of f))
               (ResyncInterval (reconciler_of f)));;
  add_watcher metricsW;;
  add_watcher webhookW;;
  or_exit 1 (AddHealthzCheck "healthz");;
  or_exit 1 (AddReadyzCheck "readyz");;
  perform SetupSignalHandler;;
  start_pprof f;;
  or_exit 1 Start.

(** The process: the initialisers, those of an imported package first, then [main]; a
    [main] that returns ends it with 0. (The initialisers of the API package, which come
    before all others, cannot fail: they only fill [SchemeBuilder].) *)
Definition process (f : Flags) : list call * Z :=
  match (controller_init;; init;; main f) [] with
  | (tr, Cont _) => (tr, 0)
  | (tr, Exit st) => (tr, st)
  end.

(** ** Reference: a plan that is followed up to the first failure *)

(** The calls of a process in which nothing fails, with the status it ends with if
    the call fails; none if [main] does not look at it. *)
Definition watcher_of (path name key : string) : option (string * string) :=
  if bool_decide (path = "") then None else Some (Join_path path name, Join_path path key).

Definition plan (f : Flags) : list (call * option Z) :=
  let webhookW := watcher_of (webhookCertPath f) (webhookCertName f) (webhookCertKey f) in
  let metricsW := watcher_of (metricsCertPath f) (metricsCertName f) (metricsCertKey f) in
  let checked c := (c, Some 1) in
  let cert (mk : string → string → call) w :=
    match w with Some (c, k) => [checked (mk c k)] | None => [] end in
  [(MustRegister
      [mkCollector "redkey_phase" [] ["namespace"; "name"; "phase"] None;
       mkCollector "redkey_config_phase" [] ["namespace"; "name"; "config_phase"] None;
       mkCollector "redkey_operation_duration_seconds" [] ["operation"] None;
       mkCollector "redkey_operation_total" [] ["operation"; "result"] None;
       mkCollector "redkey_operation_in_progress" [] ["namespace"; "name"; "operation"] None;
       mkCollector "redkey_reconcile_stage_errors_total" [] ["stage"] None;
       mkCollector "redkey_config_creations_total" [] ["reason"] None;
       mkCollector "redkey_cleanup_deleted_configs_total" [] [] None;
       mkCollector "redkey_robin_deployment_changes_total" [] ["action"] None;
       mkCollector "redkey_time_to_ready_seconds" [] [] None], Some 2);
   (AddClientGoScheme, Some 2);
   (AddToScheme GroupVersion ["Redkey"; "RedkeyList"; "RedkeyConfig"; "RedkeyConfigList"], Some 2);
   (MustRegister [mkCollector "redkey_operator_build_info"
      [("version", USER_AGENT_VERSION); ("go_version", go_version)] [] (Some 1)], Some 2)] ++
  cert NewCertWatcher webhookW ++ cert NewCertWatcher metricsW ++
  [checked GetConfigOrDie; checked (NewManager (manager_options f webhookW metricsW));
   checked (CompleteController (SetupWithManager (reconciler_of f))
              (ResyncInterval (reconciler_of f)))] ++
  cert AddCertWatcher metricsW ++ cert AddCertWatcher webhookW ++
  [checked (AddHealthzCheck "healthz"); checked (AddReadyzCheck "readyz");
   (SetupSignalHandler, None)] ++
  (if enablePprof f
   then [(GoRoutine (servePprof (pprofAddr f) pprof_handlers (10 * second)), None);
         (GoRoutine (shutdownPprof (5 * second)), None)] else []) ++
  [checked Start].

(** Following a plan. *)
Fixpoint follow (p : list (call * option Z)) (tr : list call) : list call * Z :=
  match p with
  | [] => (tr, 0)
  | (c, st) :: p' =>
      match st with
      | Some st => if fails tr c then (tr ++ [c], st) else follow p' (tr ++ [c])
      | None => follow p' (tr ++ [c])
      end
  end.

(** A part of the process follows [p]: it makes those calls and stops at the first
    that fails. *)
Definition follows {A} (m : MainM A) (p : list (call * option Z)) (a : A) : Prop :=
  ∀ tr, match m tr with
        | (tr', Cont a') => a' = a ∧ ∀ p', follow (p ++ p') tr = follow p' tr'
        | (tr', Exit st) => ∀ p', follow (p ++ p') tr = (tr', st)
        end.

Lemma follows_ret {A} (a : A) : follows (mret a) [] a.
Proof. intros tr. by split. Qed.

Lemma follows_bind {A B} (m : MainM A) (k : A → MainM B) p q a b :
  follows m p a → follows (k a) q b → follows (m ≫= k) (p ++ q) b.
Proof.
  intros Hm Hk tr. specialize (Hm tr). unfold mbind, MainM_bind.
  destruct (m tr) as [tr' [a'|st]].
  - destruct Hm as [-> Hm]. specialize (Hk tr'). destruct (k a tr') as [tr'' [b'|st]].
    + destruct Hk as [-> Hk]. split; [done|]. intros p'. by rewrite <- app_assoc, Hm.
    + intros p'. by rewrite <- app_assoc, Hm.
  - intros p'. by rewrite <- app_assoc.
Qed.

Lemma follows_or_exit st c : follows (or_exit st c) [(c, Some st)] tt.
Proof. intros tr. unfold or_exit. cbn. by destruct (fails tr c). Qed.

Lemma follows_perform c : follows (perform c) [(c, None)] tt.
Proof. intros tr. by split. Qed.

Lemma follows_watcher path name key :
  follows (cert_watcher path name key)
    match watcher_of path name key with
    | Some (cert, key) => [(NewCertWatcher cert key, Some 1)]
    | None => []
    end (watcher_of path name key).
Proof.
  unfold cert_watcher, watcher_of. case_bool_decide; [apply follows_ret|].
  eapply (follows_bind _ _ [_] []); [apply follows_or_exit|apply follows_ret].
Qed.

Lemma follows_add w :
  follows (add_watcher w)
    match w with Some (cert, key) => [(AddCertWatcher cert key, Some 1)] | None => [] end tt.
Proof. destruct w as [[cert key]|]; [apply follows_or_exit|apply follows_ret]. Qed.

Lemma follows_pprof f :
  follows (start_pprof f)
    (if enablePprof f
     then [(GoRoutine (servePprof (pprofAddr f) pprof_handlers (10 * second)), None);
           (GoRoutine (shutdownPprof (5 * second)), None)] else []) tt.
Proof.
  unfold start_pprof. destruct (enablePprof f); [|apply follows_ret].
  eapply (follows_bind _ _ [_] [_]); apply follows_perform.
Qed.

Create HintDb startup discriminated.
Hint Resolve follows_ret follows_bind follows_or_exit follows_perform follows_watcher
  follows_add follows_pprof : startup.

Lemma init_follows :
  follows init
    [(AddClientGoScheme, Some 2);
     (AddToScheme GroupVersion ["Redkey"; "RedkeyList"; "RedkeyConfig"; "RedkeyConfigList"], Some 2);
     (MustRegister [mkCollector "redkey_operator_build_info"
        [("version", USER_AGENT_VERSION); ("go_version", go_version)] [] (Some 1)], Some 2)] tt.
Proof.
  unfold init, registerBuildInfo.
  eapply (follows_bind _ _ [_] [_; _]); [apply follows_or_exit|].
  eapply (follows_bind _ _ [_] [_]); apply follows_or_exit.
Qed.

Lemma process_follows f : follows (controller_init;; init;; main f) (plan f) tt.
Proof.
  eapply (follows_bind _ _ [_] _); [apply follows_or_exit|].
  eapply (follows_bind _ _ [_; _; _] _); [apply init_follows|]. unfold main.
  eapply follows_bind; [apply follows_watcher|].
  eapply follows_bind; [apply follows_watcher|].
  eapply (follows_bind _ _ [_] (_ :: _ :: _)); [apply follows_or_exit|].
  eapply (follows_bind _ _ [_] (_ :: _)); [apply follows_or_exit|].
  eapply (follows_bind _ _ [_] _); [apply follows_or_exit|].
  eapply follows_bind; [apply follows_add|].
  eapply follows_bind; [apply follows_add|].
  eapply (follows_bind _ _ [_] (_ :: _ :: _)); [apply follows_or_exit|].
  eapply (follows_bind _ _ [_] (_ :: _)); [apply follows_or_exit|].
  eapply (follows_bind _ _ [_] _); [apply follows_perform|].
  eapply follows_bind; [apply follows_pprof|]. apply follows_or_exit.
Qed.

(** The servers' options are those of [MainCmd], where the certificates load. *)
Lemma manager_options_servers f :
  let o := manager_options f (watcher_of (webhookCertPath f) (webhookCertName f) (webhookCertKey f))
             (watcher_of (metricsCertPath f) (metricsCertName f) (metricsCertKey f)) in
  webhookTLSOpts (λ _ _, true) Join_path f = Some (mo_WebhookTLSOpts o) ∧
  metricsServerOptions (λ _ _, true) Join_path f = Some (mo_Metrics o).
Proof.
  cbn. unfold webhookTLSOpts, metricsServerOptions, with_certificate, watcher_of.
  split; by case_bool_decide.
Qed.

(** The checked calls of [p], made after [tr], succeed. *)
Definition succeed (p : list (call * option Z)) (tr : list call) : Prop :=
  ∀ p1 c st p2, p = p1 ++ (c, Some st) :: p2 → fails (tr ++ p1.*1) c = false.

Lemma succeed_nil tr : succeed [] tr.
Proof. by intros [] ????. Qed.

Lemma succeed_cons c st p tr :
  (is_Some st → fails tr c = false) → succeed p (tr ++ [c]) → succeed ((c, st) :: p) tr.
Proof.
  intros Hc Hp [|[c' st'] p1] c0 st0 p2 E; cbn in E.
  - injection E as -> -> _. rewrite app_nil_r. apply Hc. by eexists.
  - injection E as <- <- E. specialize (Hp p1 c0 st0 p2 E). by rewrite <- app_assoc in Hp.
Qed.

(** Following a plan to its end, or to the first failure. *)
Lemma follow_cases p tr :
  (follow p tr = (tr ++ p.*1, 0) ∧ succeed p tr) ∨
  ∃ pre c st post,
    p = pre ++ (c, Some st) :: post ∧ follow p tr = (tr ++ pre.*1 ++ [c], st) ∧
    succeed pre tr ∧ fails (tr ++ pre.*1) c = true.
Proof.
  revert tr; induction p as [|[c st] p IH]; intros tr.
  - left. split; [by rewrite app_nil_r|apply succeed_nil].
  - assert (Hgo : (is_Some st → fails tr c = false) → follow ((c, st) :: p) tr = follow p (tr ++ [c])).
    { intros Hc. cbn. destruct st; [|done]. by rewrite Hc. }
    destruct (decide (is_Some st ∧ fails tr c = true)) as [[[n ->] Hf]|Hn].
    { right. exists [], c, n, p. cbn. rewrite Hf, app_nil_r.
      split_and!; [done..|apply succeed_nil|done]. }
    assert (Hs : is_Some st → fails tr c = false).
    { intros. destruct (fails tr c) eqn:E; [|done]. by destruct Hn. }
    rewrite (Hgo Hs). destruct (IH (tr ++ [c])) as [[Hf Hok]|(pre & c' & st' & post & -> & Hf & Hok & Hx)].
    + left. split; [by rewrite Hf, <- app_assoc|by apply succeed_cons].
    + right. exists ((c, st) :: pre), c', st', post. rewrite <- !app_assoc in *.
      split_and!; [done|done|by apply succeed_cons|done].
Qed.

Lemma plan_status f pre c st post :
  plan f = pre ++ (c, Some st) :: post →
  st = (if decide (length pre < 4)%nat then panics else 1).
Proof.
  set (rest := drop 4 (plan f)).
  assert (Hrest : Forall (λ cs, cs.2 = Some 1 ∨ cs.2 = None) rest).
  { unfold rest, plan. cbn [app drop]. rewrite drop_0.
    repeat first [apply Forall_app; split | apply Forall_cons_2; [cbn; auto|]
                 | apply Forall_nil_2 | case_match]. }
  intros E. case_decide as Hl.
  - destruct pre as [|? [|? [|? [|? pre]]]]; [| | | |cbn in Hl; lia]; unfold plan in E; cbn [app] in E;
      by simplify_eq.
  - assert (Hin : (c, Some st) ∈ rest).
    { unfold rest. rewrite E, drop_app_le by lia. apply elem_of_app. right. by left. }
    rewrite Forall_forall in Hrest. destruct (Hrest _ Hin); by simplify_eq/=.
Qed.

(** C28: start-up stops at the first failure, and the manager runs only after everything
    else has been set up. Whatever calls fail: either the process makes all the calls
    of its plan, every call whose error it checks succeeds, and it ends with 0; or it
    makes the calls of the plan up to one that fails, every checked call before it
    having succeeded, and ends there, with 2 (a panic) while the initialisers register
    the metrics and fill the scheme and with 1 in [main]. *)
Theorem process_stops_at_first_failure f :
  (process f = ((plan f).*1, 0) ∧ succeed (plan f) []) ∨
  ∃ pre c st post,
    plan f = pre ++ (c, Some st) :: post ∧ process f = (pre.*1 ++ [c], st) ∧
    succeed pre [] ∧ fails pre.*1 c = true ∧
    st = (if decide (length pre < 4)%nat then panics else 1).
Proof.
  assert (Hp : process f = follow (plan f) []).
  { unfold process. pose proof (process_follows f []) as Hf.
    destruct ((controller_init;; init;; main f) []) as [tr [a|st]].
    - destruct Hf as [_ Hf]. specialize (Hf []). by rewrite app_nil_r in Hf.
    - specialize (Hf []). by rewrite app_nil_r in Hf. }
  rewrite Hp. destruct (follow_cases (plan f) []) as [?|(pre & c & st & post & E & Hr & Hs & Hf)];
    [by left|].
  right. exists pre, c, st, post. split_and!; try done. by eapply plan_status.
Qed.
End startup.
